(* ===== verification/_CoqProject ===== *)
-Q . S2P
Prelude.v
StdMap.v
StringPiece.v
Endian.v
Buffer.v
Zlib.v
FastCgi.v
Http.v
Date.v
Doubles.v
Timestamp.v
TimeZone.v
TimerQueue.v
Poller.v
TcpConnection.v
HttpServe.v
EventLoop.v
Reactor.v
LogStream.v
LogFile.v
Units.v
Logging.v
AsyncLogging.v
Connector.v
TcpClient.v
Locks.v
ThreadPool.v
ConfigLoad.v
RequestParser.v
EventLoopThread.v
Threads.v
Acceptor.v
System.v
TcpServer.v
InetAddress.v
StaticServer.v
HeartBeat.v
Servers.v
Programs.v
FileStream.v
CgiRequest.v
CgiPrograms.v
ProcMon.v
Plot.v
