(* ===== verification/Prelude.v ===== *)
(** * A verification library for longky

    longky ([src/]) is a C++ network library with a web server and a FastCGI server on
    top of it: a reactor (one event loop per thread, channels, an I/O multiplexer, a
    timer queue), TCP servers, clients and connections with buffered output, codecs for
    HTTP and FastCGI, date and time-zone arithmetic, an asynchronous logger, thread pools,
    and three programs, the web server, the FastCGI server and a monitor.  This library
    models them as executable definitions and proves what makes each part correct.

    ** How the program is put together

    An [EventLoop] owns a [Poller] (poll or epoll), a [TimerQueue] and a queue of
    functors that other threads fill.  In each round it polls, calls [handleEvent] of
    the active [Channel]s and then the queued functors.  A [TcpConnection] owns a
    channel and two [Buffer]s; its read handler gives the input buffer to a message
    callback (the HTTP server, the FastCGI codec), whose answer goes to the output
    buffer and to the socket.  [TcpServer] takes connections from its [Acceptor] and
    deals them to the loops of an [EventLoopThreadPool]; [TcpClient] makes the connected
    sockets of its [Connector] into connections.  Work is handed to a [ThreadPool];
    answers come back through the loop's functors.  The web server's worker threads run
    a [Parser] each; the FastCGI server's start a child process for each request.  Both
    log through [Logging] and [AsyncLogging] and tell the monitor that they are alive.

    ** Files

    Foundations:
    - [Prelude]: faults and the error monad, machine integers, bytes, decimal text,
      list lemmas, tactics and the hint databases.
    - [StdMap]: [std::map] with string keys as a sorted association list.
    - [StringPiece]: [base/StringPiece.h]; pieces of strings and their order.
    - [Doubles]: doubles as integers in units of 2^-200, rounding and [printf].
    - [Threads]: [base/Atomic.h], [base/thread/Thread.cpp], [CurrentThread.cpp]; tickets of
      atomic counters, names and the life of threads, stack traces.
    - [System]: socket options and descriptions of connections, the rest of [ProcessInfo.cpp].
    - [Endian]: [netLayer/socket/Endian.h]; byte order conversions.

    Data and codecs:
    - [Buffer]: [netLayer/Buffer.h], [Buffer.cpp]; the vector with its two indices,
      every operation, and the queue of bytes it implements.
    - [FastCgi]: [cgiServer/fastcgi.h], [fastcgi.cpp] and the request callback of
      [cgiserver.cpp]; record parsing, name-value pairs, the response.
    - [Http]: [netLayer/http/]; request, context (parser), response, server.
    - [Zlib]: [netLayer/ZlibStream.h]; compressing streams over any [deflate] that works as
      the manual of zlib says.
    - [Date], [Timestamp], [TimeZone]: [base/time/]; Julian days, microsecond times,
      zone files, local and UTC conversions.
    - [InetAddress]: [netLayer/socket/InetAddress.cpp] and the address functions of
      [SocketsOps.cpp]; the bytes of the union of the two kinds of addresses.

    The reactor and its connections:
    - [TimerQueue]: [netLayer/timer/], with the heap of timers and the functors that
      reach the queue from other threads.
    - [Poller]: [netLayer/event/Channel.h], [Channel.cpp] and [netLayer/poller/]; the
      interface [Poller] with its laws as type classes, both implementations as
      instances ([PollPoller_Laws], [EPollPoller_Laws]), and the client theorems
      proved from the laws alone ([Multiplexer]).
    - [TcpConnection]: [netLayer/tcp/TcpConnection.h], [TcpConnection.cpp], with the
      ends of its life in [TcpServer.cpp] and [Socket.cpp].
    - [HttpServe]: the HTTP server's callbacks inside the handlers of a connection, from the
      bytes of the client to the bytes on the wire.
    - [EventLoop]: [netLayer/event/eventloop/EventLoop.cpp]; the loop, its functor
      queue and the wake-up protocol between threads.
    - [Reactor]: the rounds of the same loop over any [Poller], with what callbacks do to the
      channels meanwhile.
    - [EventLoopThread]: [Thread.cpp], [CountDownLatch.cpp], [EventLoopThread.cpp] and its
      pool; the hand-shakes that start and end the threads of the loops.
    - [Acceptor], [TcpServer]: [netLayer/tcp/s/]; accepting, naming, distributing and
      removing connections over several loops.  There a connection is reduced to its
      life, which is compared with [TcpConnection].
    - [Connector], [TcpClient]: [netLayer/tcp/c/]; connecting with retries, and the client.

    Threads and logging:
    - [Locks]: [base/thread/Mutex.h], [Condition.cpp], per-thread objects; statement by
      statement, with the justification of the other files' atomic sections.
    - [ThreadPool]: [base/thread/ThreadPool.cpp] and its copy [threadPool.h]; the
      bounded queue with two condition variables.
    - [LogStream], [Units]: [base/log/LogStream.cpp]; formatting of log lines and of
      numbers with unit letters.
    - [Logging], [LogFile], [AsyncLogging]: the front end, the files and the thread that
      writes them.

    Programs:
    - [RequestParser], [FileStream], [StaticServer]: [webServer/]; the answering of
      requests with its cache, the streaming of large files, and the limits on
      connections with the wheels that close idle ones.
    - [Servers], [Programs]: the constructors, [start()] and [stop()] of the servers and the
      two [main()] functions, over the models of their parts.
    - [ConfigLoad]: the two [configLoad.cpp], the reading of the configuration.
    - [CgiRequest]: [cgiServer/parseRequest.cpp]; the handler that runs a program in a
      child process, interleaved with it byte by byte.
    - [CgiPrograms]: the CGI programs, what they read of their input and what they print.
    - [HeartBeat]: [monitor/heartBeatMonitor.cpp] and the two [start_up.cpp].
    - [ProcMon], [Plot]: [monitor/procmon/procmon.cc], [plot.cc] and
      [base/thread/ProcessInfo.cpp]; the pages of the process monitor and its chart.

    ** How code is modelled

    Functions that can fail return [res]: a violated assertion, a fatal log, an access
    outside an object or through a dangling pointer, and an exhausted fuel are distinct
    faults, and [wp m Q] says that [m] returns, without a fault, a result in [Q].
    Integers are [Z]; wrap-around is written out with [i32], [u64] and the like.
    Shared objects (timers, channels) live in explicit stores.  Concurrency is modelled
    by steps: a handler of the single-threaded loop, or a section under a mutex, is one
    step, and what the code reads and writes without a lock from several threads is
    several ([state_] in [forceClose] and in [send], the number of a new timer, [quit_]);
    theorems quantify over all interleavings of steps ([reach]).  What is
    not in the sources (the kernel, libraries, user callbacks) is an argument: the results
    of read, write, poll and connect, the calls a callback makes, the choice of the thread
    a notification wakes, the answers of the cache server.

    ** What the theorems show

    Each theorem says in its comment under which conditions on the program, the kernel and
    the order of events it holds, and names the lemma that shows what happens outside them.

    - Data: [Buffer] refines a byte queue with room in front; integers, addresses, HTTP
      requests, FastCGI requests and zone files survive encoding and decoding, for every
      way the network cuts the bytes; parsers neither fault nor loop on the input they are
      made for.
    - Time: Julian day numbers count days and invert; UTC and local conversions invert
      where they can; a time's zone type is the one in force.
    - Reactor: both pollers refine one specification, so that the kernel watches exactly
      the channels' masks and events reach exactly their channels; the timer queue runs
      exactly the due callbacks and uses no deleted timer but in one place, where [addTimer]
      reads the number of a timer that its loop may have deleted; a loop into which only
      other threads queue never sleeps while a functor waits; a round never uses a channel
      that a callback has removed or deleted; the threads of the loops start and end
      without a fault when they can be created.
    - Connections: when nobody switches reading or writing by hand and the object outlives
      what is queued for it, no assertion fails, the bytes on the wire followed by the
      buffered ones are the accepted messages, the write side is shut only when everything
      is written, which happens in finitely many steps, and the descriptor is closed
      exactly once.  The server knows exactly its living connections and closes every
      descriptor once, unless a connection closes inside another thread's [forceClose];
      the connector and the client lose and leak no socket, and the client has at most one
      connection up, for programs that connect when nothing is under way.
    - Threads: the wrappers of the mutex and the condition variable give mutual exclusion,
      and what happens under a mutex is equivalent to atomic sections; the pool runs tasks
      in order, respects its bound and loses no wake-up.
    - Logging: a statement whose line fits the buffer becomes one line, exactly; the back
      end writes every line it accepted, in order, and where it drops buffers it writes a
      notice with their exact number and the first two of them; files roll between lines,
      not twice in a second, and have the names of their times.
    - Programs: the web server answers every request as a reference definition says, and
      a page larger than one read arrives whole; with one loop, idle connections are closed
      by the wheel and active ones are not; a CGI program that ends gets its input, its
      output becomes the response if the connection is still up, and both processes end;
      the process monitor reads the kernel's line back and answers every request; the
      heartbeat monitor shows who has been heard; both servers start with valid settings,
      into the states the other theorems begin with.
    - Edges where the code does not do what it means to are theorems as well, among
      them: a bad HTTP request line makes later input abort the server; a second
      end-of-file drops buffered output; [stopWrite] before [shutdown] cuts output off;
      destroying a server with a half-closed connection aborts; a send queued from
      another thread can outlive its connection; a connection that closes inside another
      thread's [forceClose] is destroyed twice; a timer that has run can be read by the
      thread that added it; with several loops the wheels are changed by two threads at
      once; a page is read through a buffer of a function that has returned; a malformed
      zone file gives a zone that calls itself valid; an idle timer queue keeps ticking;
      [PollPoller] cannot retire a channel that was never enabled; requests made before
      [loop()] wait or are lost; starting a connector with a pending retry aborts;
      [connect()] of a connected client makes a second connection; malformed requests
      leave what C++ defines or throw; heartbeats that arrive together keep a dead program
      on the screen.

    ** Fuel and bounds

    Loops that are not structural take fuel that is shown to be enough: parsing loops
    take the number of readable bytes, the closing of a connection nests twice, decimal
    conversion takes twenty digits and hexadecimal sixteen.  Sizes are bounded where the
    source could overflow: buffers by the largest vector, a connection's traffic by 2^62
    bytes, messages by 2^31 bytes.

    ** Not modelled

    Data races as such: a step reads and writes whole values, so that two threads at one
    variable are seen as an order of steps, or as a conflict that a lemma names
    ([conflict] in [StaticServer]); nothing is said of torn or reordered accesses.

    System calls, file access and libraries (zlib, hiredis, MySQL, YAML, boost, gd) beyond
    what they answer, and the code that only calls them or passes an answer on.  The
    timers and signal handlers that the [main()] functions set; the high-water mark
    callback of the web server, which is never set; the decompressing stream of
    [ZlibStream.h], whose operations are only declared.  [webServer/nouse] is not built.
    Type-level helpers ([noncopyable], the callback types) have nothing to model. *)

From stdpp Require Export base tactics list gmap sets strings pretty.
From Stdlib Require Export ZArith Lia.
From Stdlib.Strings Require Byte.

#[global] Open Scope Z_scope.

(** * Faults and the error monad

    The program is built with assertions enabled ([CMakeLists.txt] sets
    [-g -O0] and never [NDEBUG]), so a violated [assert] ends the process.
    Every fallible operation of the model returns [res]. *)

Inductive fault :=
| AssertFailed    (* assert(...) is false: abort() *)
| FatalLog        (* LOG_FATAL / LOG_SYSFATAL: abort() after logging *)
| LengthError     (* std::length_error thrown by a container *)
| BadAlloc        (* std::bad_alloc thrown by operator new *)
| OutOfRange      (* an access outside the object: undefined behaviour *)
| UseAfterFree    (* an access through a dangling pointer *)
| OutOfFuel.      (* the loop did not finish within the fuel *)

Inductive res (A : Type) :=
| Ok (a : A)
| Err (f : fault).
Arguments Ok {A} a.
Arguments Err {A} f.

#[global] Instance fault_eq_dec : EqDecision fault.
Proof. solve_decision. Defined.

Declare Scope res_scope.
Delimit Scope res_scope with res.
#[global] Open Scope res_scope.

Definition res_bind {A B} (m : res A) (k : A → res B) : res B :=
  match m with Ok a => k a | Err f => Err f end.

Notation "'let!' x ':=' m 'in' k" := (res_bind m (fun x => k))
  (at level 10, x pattern, m at level 100, k at level 200,
   format "'[v' 'let!'  x  ':='  m  'in' '/' k ']'") : res_scope.

(** [assert! c in k] is [assert(c); k]. *)
Notation "'assert!' c 'in' k" := (if c then k else Err AssertFailed)
  (at level 10, c at level 100, k at level 200,
   format "'[v' 'assert!'  c  'in' '/' k ']'") : res_scope.

(** [wp m Q]: [m] returns (no fault) and its result satisfies [Q]. *)
Definition wp {A} (m : res A) (Q : A → Prop) : Prop :=
  match m with Ok a => Q a | Err _ => False end.

Lemma wp_ok {A} (a : A) (Q : A → Prop) : Q a → wp (Ok a) Q.
Proof. done. Qed.

Lemma wp_mono {A} (m : res A) (P Q : A → Prop) :
  wp m P → (∀ a, P a → Q a) → wp m Q.
Proof. destruct m; simpl; auto. Qed.

Lemma wp_bind {A B} (m : res A) (k : A → res B) (P : A → Prop) (Q : B → Prop) :
  wp m P → (∀ a, P a → wp (k a) Q) → wp (res_bind m k) Q.
Proof. destruct m; simpl; [auto | done]. Qed.

Lemma wp_elim {A} (m : res A) (Q : A → Prop) :
  wp m Q → ∃ a, m = Ok a ∧ Q a.
Proof. destruct m as [a|]; simpl; [eauto | done]. Qed.

Lemma wp_intro {A} (m : res A) (Q : A → Prop) a : m = Ok a → Q a → wp m Q.
Proof. by intros ->. Qed.

Lemma wp_inv {A} (m : res A) (Q : A → Prop) a : wp m Q → m = Ok a → Q a.
Proof. by intros H ->. Qed.

Lemma wp_conj {A} (m : res A) (P Q : A → Prop) :
  wp m P → wp m Q → wp m (λ a, P a ∧ Q a).
Proof. destruct m; simpl; auto. Qed.

(** [wpo m Q]: [m] runs out of memory or returns a result that satisfies [Q]. *)
Definition wpo {A} (m : res A) (Q : A → Prop) : Prop :=
  match m with Ok a => Q a | Err f => f = BadAlloc end.

Lemma wp_wpo {A} (m : res A) (Q : A → Prop) : wp m Q → wpo m Q.
Proof. by destruct m. Qed.

Lemma wpo_mono {A} (m : res A) (P Q : A → Prop) :
  wpo m P → (∀ a, P a → Q a) → wpo m Q.
Proof. destruct m; simpl; auto. Qed.

Lemma wpo_bind {A B} (m : res A) (k : A → res B) (P : A → Prop) (Q : B → Prop) :
  wpo m P → (∀ a, P a → wpo (k a) Q) → wpo (res_bind m k) Q.
Proof. destruct m; simpl; auto. Qed.

Lemma wpo_conj {A} (m : res A) (P Q : A → Prop) :
  wpo m P → wpo m Q → wpo m (λ a, P a ∧ Q a).
Proof. destruct m; simpl; auto. Qed.

Lemma bind_assoc {A B C} (m : res A) (k : A → res B) (l : B → res C) :
  res_bind (res_bind m k) l = res_bind m (λ a, res_bind (k a) l).
Proof. by destruct m. Qed.

Lemma bind_ok {A B} (m : res A) (k : A → res B) b :
  res_bind m k = Ok b → ∃ a, m = Ok a ∧ k a = Ok b.
Proof. destruct m; simpl; [eauto | done]. Qed.

#[global] Instance wp_proper {A} (m : res A) :
  Proper (pointwise_relation A impl ==> impl) (wp m).
Proof. intros P Q HPQ H. eapply wp_mono; [exact H | exact HPQ]. Qed.

(** * Machine integers *)

(** Unsigned and signed wrap-around at [w] bits. *)
Definition uwrap (w z : Z) : Z := z mod 2 ^ w.
Definition swrap (w z : Z) : Z :=
  (z + 2 ^ (w - 1)) mod 2 ^ w - 2 ^ (w - 1).

Definition u8z : Z → Z := uwrap 8.
Definition u16 : Z → Z := uwrap 16.
Definition u32 : Z → Z := uwrap 32.
Definition u64 : Z → Z := uwrap 64.
Definition i8 : Z → Z := swrap 8.
Definition i16 : Z → Z := swrap 16.
Definition i32 : Z → Z := swrap 32.
Definition i64 : Z → Z := swrap 64.

Lemma uwrap_small w z : 0 ≤ z < 2 ^ w → uwrap w z = z.
Proof. apply Z.mod_small. Qed.

Lemma uwrap_range w z : 0 ≤ w → 0 ≤ uwrap w z < 2 ^ w.
Proof. intros. apply Z.mod_pos_bound. lia. Qed.

Lemma swrap_small w z : 0 < w → - 2 ^ (w - 1) ≤ z < 2 ^ (w - 1) → swrap w z = z.
Proof.
  intros Hw Hz. unfold swrap.
  assert (2 ^ w = 2 * 2 ^ (w - 1)) as E
    by (rewrite <- Z.pow_succ_r by lia; f_equal; lia).
  rewrite Z.mod_small; lia.
Qed.

Lemma swrap_uwrap w z : 0 < w → swrap w (uwrap w z) = swrap w z.
Proof.
  intros. unfold swrap, uwrap.
  by rewrite <- (Z.add_mod_idemp_l z) by lia.
Qed.

Lemma uwrap_swrap w z : 0 < w → uwrap w (swrap w z) = uwrap w z.
Proof.
  intros. unfold swrap, uwrap.
  by rewrite Zminus_mod_idemp_l, Z.add_simpl_r.
Qed.

Lemma swrap_range w z : 0 < w → - 2 ^ (w - 1) ≤ swrap w z < 2 ^ (w - 1).
Proof.
  intros. unfold swrap.
  assert (2 ^ w = 2 * 2 ^ (w - 1)) as E
    by (rewrite <- Z.pow_succ_r by lia; f_equal; lia).
  pose proof (Z.mod_pos_bound (z + 2 ^ (w - 1)) (2 ^ w)). lia.
Qed.

(** [int] arithmetic: every operation wrapped, division towards zero. *)
Notation "a +i b" := (i32 (a + b)) (at level 50, left associativity).
Notation "a -i b" := (i32 (a - b)) (at level 50, left associativity).
Notation "a *i b" := (i32 (a * b)) (at level 40, left associativity).
Notation "a /i b" := (i32 (Z.quot a b)) (at level 40, left associativity).

Lemma i32_small z : - 2 ^ 31 ≤ z < 2 ^ 31 → i32 z = z.
Proof. intros. apply swrap_small; lia. Qed.

(** Drop the wrapping of the innermost operations that are in range. *)
Ltac int_ops :=
  repeat match goal with
  | |- context [i32 ?z] =>
      lazymatch z with
      | context [i32 _] => fail
      | _ => rewrite (i32_small z) by lia
      end
  end.

(** * Bytes *)

Abbreviation byte := Byte.byte.
Abbreviation bytes := (list byte).

(** The unsigned value of a byte and the byte of an integer (mod 256). *)
Definition ub (b : byte) : Z := Z.of_N (Byte.to_N b).
Definition byte_of_Z (z : Z) : byte :=
  default Byte.x00 (Byte.of_N (Z.to_N (z mod 256))).

(** [char] and [int8_t] are signed. *)
Definition sb (b : byte) : Z := i8 (ub b).

(** A string literal as the bytes it denotes. *)
Definition str (s : string) : bytes := String.list_byte_of_string s.

#[global] Instance byte_eq_dec : EqDecision byte := Byte.byte_eq_dec.

#[global] Instance byte_countable : Countable byte.
Proof. apply (inj_countable Byte.to_N Byte.of_N). apply Byte.of_to_N. Defined.

Lemma ub_range b : 0 ≤ ub b < 256.
Proof. unfold ub. pose proof (Byte.to_N_bounded b). lia. Qed.

Lemma ub_byte_of_Z z : ub (byte_of_Z z) = z mod 256.
Proof.
  unfold ub, byte_of_Z.
  pose proof (Z.mod_pos_bound z 256 ltac:(lia)).
  destruct (Byte.of_N _) as [b|] eqn:E; simpl.
  - apply Byte.to_of_N in E. lia.
  - apply Byte.of_N_None_iff in E. lia.
Qed.

Lemma byte_of_ub b : byte_of_Z (ub b) = b.
Proof.
  unfold byte_of_Z. rewrite Z.mod_small by apply ub_range.
  unfold ub. by rewrite N2Z.id, Byte.of_to_N.
Qed.

Lemma ub_inj a b : ub a = ub b → a = b.
Proof. intros E. by rewrite <- (byte_of_ub a), E, byte_of_ub. Qed.

Lemma byte_of_Z_mod z : byte_of_Z (z mod 256) = byte_of_Z z.
Proof. unfold byte_of_Z. by rewrite Z.mod_mod by lia. Qed.

(** * Little-endian memory representation *)

Fixpoint le_bytes (n : nat) (z : Z) : bytes :=
  match n with
  | O => []
  | S n => byte_of_Z z :: le_bytes n (z / 256)
  end.

Fixpoint le_val (l : bytes) : Z :=
  match l with
  | [] => 0
  | b :: l => ub b + 256 * le_val l
  end.

Lemma length_le_bytes n z : length (le_bytes n z) = n.
Proof. revert z; induction n; simpl; auto. Qed.

Lemma le_val_bytes n z : le_val (le_bytes n z) = z mod 256 ^ Z.of_nat n.
Proof.
  revert z. induction n as [|n IH]; intros z; simpl le_bytes; simpl le_val.
  - by rewrite Z.mod_1_r.
  - rewrite IH, ub_byte_of_Z.
    rewrite Nat2Z.inj_succ, Z.pow_succ_r by lia.
    rewrite Z.rem_mul_r by lia. lia.
Qed.

Lemma le_bytes_val l : le_bytes (length l) (le_val l) = l.
Proof.
  induction l as [|b l IH]; simpl; [done|].
  pose proof (ub_range b). f_equal.
  - rewrite <- byte_of_Z_mod, Z.mul_comm, Z_mod_plus_full.
    by rewrite Z.mod_small, byte_of_ub.
  - rewrite Z.mul_comm, Z_div_plus_full, Z.div_small by lia. done.
Qed.

Lemma le_val_range l : 0 ≤ le_val l < 256 ^ Z.of_nat (length l).
Proof.
  induction l as [|b l IH]; simpl le_val; simpl length; [done|].
  pose proof (ub_range b). rewrite Nat2Z.inj_succ, Z.pow_succ_r by lia. lia.
Qed.

(** * Lists indexed by [Z] *)

Abbreviation zlen l := (Z.of_nat (length l)).
Definition ztake {A} (n : Z) (l : list A) : list A := take (Z.to_nat n) l.
Definition zdrop {A} (n : Z) (l : list A) : list A := drop (Z.to_nat n) l.

(** Overwrite the elements from [off] on with [src] (the destination is large
    enough; where it is not, the source's store is out of range). *)
Definition write_at {A} (off : Z) (src dst : list A) : list A :=
  ztake off dst ++ src ++ zdrop (off + zlen src) dst.

Lemma length_ztake {A} n (l : list A) : 0 ≤ n ≤ zlen l → zlen (ztake n l) = n.
Proof. intros. unfold ztake. rewrite length_take. lia. Qed.

Lemma length_zdrop {A} n (l : list A) : 0 ≤ n ≤ zlen l → zlen (zdrop n l) = zlen l - n.
Proof. intros. unfold zdrop. rewrite length_drop. lia. Qed.

Lemma ztake_zdrop {A} n (l : list A) : ztake n l ++ zdrop n l = l.
Proof. apply take_drop. Qed.

Lemma zdrop_zdrop {A} n m (l : list A) :
  0 ≤ n → 0 ≤ m → zdrop n (zdrop m l) = zdrop (m + n) l.
Proof. intros. unfold zdrop. rewrite drop_drop. f_equal. lia. Qed.

Lemma ztake_ztake {A} n m (l : list A) : n ≤ m → ztake n (ztake m l) = ztake n l.
Proof. intros. unfold ztake. rewrite take_take. f_equal. lia. Qed.

Lemma ztake_zdrop_ztake {A} n k m (l : list A) :
  0 ≤ k → 0 ≤ n → k + n ≤ m → ztake n (zdrop k (ztake m l)) = ztake n (zdrop k l).
Proof.
  intros. unfold ztake, zdrop. rewrite skipn_firstn_comm, take_take. f_equal. lia.
Qed.

(** A prefix in two pieces. *)
Lemma ztake_split {A} k m (l : list A) :
  0 ≤ k ≤ m → ztake k l ++ ztake (m - zlen (ztake k l)) (zdrop (zlen (ztake k l)) l) = ztake m l.
Proof.
  intros Hk. unfold ztake, zdrop. rewrite length_take, Nat2Z.id.
  destruct (Nat.le_ge_cases (Z.to_nat k) (length l)) as [Hl|Hl].
  - rewrite Nat.min_l, take_take_drop by done. f_equal. lia.
  - rewrite Nat.min_r, drop_all by done. rewrite take_nil, app_nil_r, !take_ge by lia. done.
Qed.

Lemma zdrop_0 {A} (l : list A) : zdrop 0 l = l.
Proof. done. Qed.

Lemma ztake_all {A} n (l : list A) : zlen l ≤ n → ztake n l = l.
Proof. intros. apply take_ge. lia. Qed.

Lemma zdrop_all {A} n (l : list A) : zlen l ≤ n → zdrop n l = [].
Proof. intros. apply drop_ge. lia. Qed.

Lemma ztake_app_le {A} n (l k : list A) : n ≤ zlen l → ztake n (l ++ k) = ztake n l.
Proof. intros. apply take_app_le. lia. Qed.

Lemma zdrop_app_le {A} n (l k : list A) : n ≤ zlen l → zdrop n (l ++ k) = zdrop n l ++ k.
Proof. intros. apply drop_app_le. lia. Qed.

Lemma ztake_app_len {A} n (l k : list A) : n = zlen l → ztake n (l ++ k) = l.
Proof. intros ->. unfold ztake. by rewrite Nat2Z.id, take_app_length. Qed.

Lemma zdrop_app_len {A} n (l k : list A) : n = zlen l → zdrop n (l ++ k) = k.
Proof. intros ->. unfold zdrop. by rewrite Nat2Z.id, drop_app_length. Qed.

Lemma concat_concat {A} (l : list (list (list A))) : concat (map (@concat A) l) = concat (concat l).
Proof. induction l as [|x l IH]; cbn; [done|]. by rewrite concat_app, IH. Qed.

Lemma length_write_at {A} off (src dst : list A) :
  0 ≤ off → off + zlen src ≤ zlen dst → length (write_at off src dst) = length dst.
Proof.
  intros. unfold write_at, ztake, zdrop.
  rewrite !length_app, length_take, length_drop. lia.
Qed.

(** * Automation of the development *)

Create HintDb tank.
Create Rewrite HintDb tank.
#[export] Hint Rewrite @length_app @length_take @length_drop @length_replicate
  @length_le_bytes @Nat2Z.inj_add : tank.
#[export] Hint Resolve ub_range uwrap_range : tank.

(** Split the conditional or the match that blocks the goal. *)
Ltac cases := repeat (case_match; simplify_eq/=).

(** Turn boolean comparisons into propositions. *)
Ltac bool_prop :=
  repeat match goal with
  | H : (_ <? _) = true |- _ => apply Z.ltb_lt in H
  | H : (_ <? _) = false |- _ => apply Z.ltb_ge in H
  | H : (_ <=? _) = true |- _ => apply Z.leb_le in H
  | H : (_ <=? _) = false |- _ => apply Z.leb_gt in H
  | H : (_ =? _) = true |- _ => apply Z.eqb_eq in H
  | H : (_ =? _) = false |- _ => apply Z.eqb_neq in H
  | H : (_ && _)%bool = true |- _ => apply andb_true_iff in H; destruct H
  | H : (_ || _)%bool = false |- _ => apply orb_false_iff in H; destruct H
  | H : negb _ = true |- _ => apply negb_true_iff in H
  | H : negb _ = false |- _ => apply negb_false_iff in H
  | H : bool_decide _ = true |- _ => apply bool_decide_eq_true in H
  | H : bool_decide _ = false |- _ => apply bool_decide_eq_false in H
  end.

(** Close the conjunctions a specification lemma leaves. *)
Ltac crush :=
  intros; destruct_and?; simplify_eq; split_and?; auto; try congruence; try lia.

(** Sequence two [wp]s, naming the intermediate specification lemma. *)
Tactic Notation "wp_step" constr(lem) :=
  eapply wp_bind; [eapply lem | cbv beta].

(** * Decimal text *)

(** The digits of a non-negative number; a 64-bit one has at most twenty. *)
Fixpoint udec (fuel : nat) (n : Z) : bytes :=
  match fuel with
  | O => []
  | S fuel => (if n <? 10 then [] else udec fuel (n / 10)) ++ [byte_of_Z (48 + n mod 10)]
  end.

(** What [%d] and [%zd] print. *)
Definition dec (z : Z) : bytes := if z <? 0 then str "-" ++ udec 20 (- z) else udec 20 z.

Lemma length_udec fuel n k :
  0 ≤ n < 10 ^ Z.of_nat k → (0 < k)%nat → (length (udec fuel n) ≤ k)%nat.
Proof.
  revert n k. induction fuel as [|fuel IH]; intros n k Hn Hk; simpl; [lia|].
  rewrite length_app; simpl. destruct (n <? 10) eqn:E; simpl; [lia|].
  apply Z.ltb_ge in E. destruct k as [|[|k]]; [lia|lia|].
  rewrite (Nat2Z.inj_succ (S k)), Z.pow_succ_r in Hn by lia.
  assert (0 ≤ n / 10 < 10 ^ Z.of_nat (S k)) as Hd
    by (split; [apply Z.div_pos; lia|apply Z.div_lt_upper_bound; lia]).
  specialize (IH _ _ Hd). lia.
Qed.

(** The number a digit string denotes. *)
Definition udec_val (l : bytes) : Z := foldl (λ acc c, 10 * acc + (ub c - 48)) 0 l.

Lemma udec_val_snoc l c : udec_val (l ++ [c]) = 10 * udec_val l + (ub c - 48).
Proof. unfold udec_val. by rewrite foldl_app. Qed.

(** Printing loses nothing. *)
Lemma udec_val_udec fuel n : 0 ≤ n < 10 ^ Z.of_nat fuel → udec_val (udec fuel n) = n.
Proof.
  revert n. induction fuel as [|fuel IH]; intros n Hn; [unfold udec_val; simpl in *; lia|].
  cbn [udec]. rewrite udec_val_snoc, ub_byte_of_Z.
  pose proof (Z.mod_pos_bound n 10 ltac:(lia)). rewrite (Z.mod_small (48 + _)) by lia.
  pose proof (Z.div_mod n 10 ltac:(lia)).
  destruct (n <? 10) eqn:E.
  - apply Z.ltb_lt in E. change (udec_val []) with 0. rewrite Z.mod_small; lia.
  - rewrite IH; [lia|]. rewrite Nat2Z.inj_succ, Z.pow_succ_r in Hn by lia.
    split; [apply Z.div_pos; lia|apply Z.div_lt_upper_bound; lia].
Qed.

(** [std::find]: the offset of the first [c], or the length. *)
Fixpoint find_byte (c : byte) (l : bytes) : nat :=
  match l with
  | [] => O
  | x :: l => if Byte.eqb x c then O else S (find_byte c l)
  end.

Lemma find_byte_le c l : (find_byte c l ≤ length l)%nat.
Proof. induction l as [|x l IH]; simpl; [lia|]. destruct (Byte.eqb x c); lia. Qed.

Lemma byte_eqb_spec (a b : byte) : reflect (a = b) (Byte.eqb a b).
Proof.
  destruct (Byte.eqb a b) eqn:E; constructor.
  - by apply Byte.byte_dec_bl.
  - intros ->. rewrite Byte.byte_dec_lb in E by done. done.
Qed.

Lemma find_byte_notin c l k : c ∉ l → find_byte c (l ++ c :: k) = length l.
Proof.
  induction l as [|x l IH]; intros Hc; simpl.
  - by destruct (byte_eqb_spec c c).
  - apply not_elem_of_cons in Hc as [Hne Hc]. destruct (byte_eqb_spec x c); [done|]. by rewrite IH.
Qed.

Lemma find_byte_none c l : c ∉ l → find_byte c l = length l.
Proof.
  induction l as [|x l IH]; intros Hc; simpl; [done|].
  apply not_elem_of_cons in Hc as [Hne Hc]. destruct (byte_eqb_spec x c); [done|]. by rewrite IH.
Qed.
