(* ===== verification/StdMap.v ===== *)
(** [std::map<std::string, V>] as the program uses it: an association list kept
    in the strict order of [std::string::operator<] (unsigned bytes, a proper
    prefix first), so that iteration has the order of the container.  [put] is
    [m[k] = v], [find] is [m.find(k)], [erase] is [m.erase(k)]. *)

From S2P Require Import Prelude.
From Stdlib Require Import Sorted.

Module StdMap.

(** [a < b] for strings. *)
Fixpoint bytes_lt (a b : bytes) : bool :=
  match a, b with
  | _, [] => false
  | [], _ :: _ => true
  | x :: a, y :: b => (ub x <? ub y) || ((ub x =? ub y) && bytes_lt a b)
  end.

Abbreviation smap V := (list (bytes * V)).

Fixpoint put {V} (k : bytes) (v : V) (m : smap V) : smap V :=
  match m with
  | [] => [(k, v)]
  | (k', v') :: m' =>
      if bytes_lt k k' then (k, v) :: m
      else if bytes_lt k' k then (k', v') :: put k v m'
      else (k', v) :: m'
  end.

Fixpoint find {V} (k : bytes) (m : smap V) : option V :=
  match m with
  | [] => None
  | (k', v') :: m' =>
      if bytes_lt k k' then None
      else if bytes_lt k' k then find k m'
      else Some v'
  end.

Fixpoint erase {V} (k : bytes) (m : smap V) : smap V :=
  match m with
  | [] => []
  | (k', v') :: m' =>
      if bytes_lt k k' then m
      else if bytes_lt k' k then (k', v') :: erase k m'
      else m'
  end.

(** Keys strictly increasing. *)
Definition sorted {V} (m : smap V) : Prop := StronglySorted (λ x y, bytes_lt x.1 y.1 = true) m.

Lemma bytes_lt_irrefl a : bytes_lt a a = false.
Proof.
  induction a as [|x a IH]; [done|]. simpl. by rewrite Z.ltb_irrefl, Z.eqb_refl, IH.
Qed.

Lemma bytes_lt_trans a b c : bytes_lt a b = true → bytes_lt b c = true → bytes_lt a c = true.
Proof.
  revert b c. induction a as [|x a IH]; intros [|y b] [|z c]; simpl; try done.
  rewrite !orb_true_iff, !andb_true_iff, !Z.ltb_lt, !Z.eqb_eq.
  intros [?|[? ?]] [?|[? ?]]; [left; lia|left; lia|left; lia|right; split; [lia|eauto]].
Qed.

(** The order is total: what is neither below nor above is equal. *)
Lemma bytes_lt_total a b : bytes_lt a b = false → bytes_lt b a = false → a = b.
Proof.
  revert b. induction a as [|x a IH]; intros [|y b]; simpl; try done.
  rewrite !orb_false_iff, !Z.ltb_ge. intros [? H1] [? H2].
  assert (ub x = ub y) as E by lia. rewrite E, Z.eqb_refl in H1.
  rewrite E, Z.eqb_refl in H2. f_equal; [by apply ub_inj|by apply IH].
Qed.

Lemma bytes_lt_asym a b : bytes_lt a b = true → bytes_lt b a = false.
Proof.
  intros H. destruct (bytes_lt b a) eqn:E; [|done].
  pose proof (bytes_lt_trans _ _ _ H E) as C. by rewrite bytes_lt_irrefl in C.
Qed.

Lemma bytes_lt_neq a b : bytes_lt a b = true → a ≠ b.
Proof. intros H ->. by rewrite bytes_lt_irrefl in H. Qed.

#[export] Hint Resolve bytes_lt_trans bytes_lt_asym : tank.

Section Map.
Context {V : Type}.
Implicit Types (k : bytes) (v : V) (m : smap V).

Lemma put_Forall (P : bytes * V → Prop) k v m :
  (∀ v', P (k, v') ↔ P (k, v)) → P (k, v) → Forall P m → Forall P (put k v m).
Proof.
  intros HP Hk. induction 1 as [|[k' v'] m Hx Hm IH]; simpl; [by constructor|].
  destruct (bytes_lt k k') eqn:E1; [by repeat constructor|].
  destruct (bytes_lt k' k) eqn:E2; [by constructor|].
  constructor; [|done]. by rewrite <- (bytes_lt_total _ _ E1 E2).
Qed.

(** [m[k] = v] keeps the keys in order. *)
Lemma put_sorted k v m : sorted m → sorted (put k v m).
Proof.
  unfold sorted. induction 1 as [|[k' v'] m Hm IH Hx]; simpl; [by repeat constructor|].
  destruct (bytes_lt k k') eqn:E1.
  - constructor; [by constructor|]. constructor; [done|].
    eapply Forall_impl; [done|]. intros [k2 v2]; simpl. eauto with tank.
  - destruct (bytes_lt k' k) eqn:E2; [|by constructor].
    constructor; [done|]. apply put_Forall; simpl; done.
Qed.

Lemma find_above k m : Forall (λ x, bytes_lt k x.1 = true) m → find k m = None.
Proof. by destruct 1 as [|[k' v'] m Hx _]; simpl in *; [|rewrite Hx]. Qed.

(** Lookup after an assignment. *)
Lemma find_put k k' v m :
  sorted m → find k (put k' v m) = if decide (k = k') then Some v else find k m.
Proof.
  unfold sorted. induction 1 as [|[k2 v2] m Hm IH Hx]; simpl.
  - destruct (decide (k = k')) as [->|Hne]; [by rewrite bytes_lt_irrefl|].
    destruct (bytes_lt k k') eqn:E1; [done|]. destruct (bytes_lt k' k) eqn:E2; [done|].
    by destruct Hne; apply bytes_lt_total.
  - destruct (bytes_lt k' k2) eqn:E1.
    + simpl. destruct (decide (k = k')) as [->|Hne]; [by rewrite bytes_lt_irrefl|].
      destruct (bytes_lt k k') eqn:E3; [by rewrite (bytes_lt_trans _ _ _ E3 E1)|].
      destruct (bytes_lt k' k) eqn:E4; [done|]. by destruct Hne; apply bytes_lt_total.
    + destruct (bytes_lt k2 k') eqn:E2; simpl.
      * destruct (decide (k = k')) as [->|Hne]; [by rewrite E1, E2, IH|by rewrite IH].
      * pose proof (bytes_lt_total _ _ E1 E2) as ->.
        destruct (decide (k = k2)) as [->|Hne]; [by rewrite bytes_lt_irrefl|].
        destruct (bytes_lt k k2) eqn:E3; [done|]. destruct (bytes_lt k2 k) eqn:E4; [done|].
        by destruct Hne; apply bytes_lt_total.
Qed.

Lemma erase_Forall (P : bytes * V → Prop) k m : Forall P m → Forall P (erase k m).
Proof.
  induction 1 as [|[k' v'] m Hx Hm IH]; simpl; [done|].
  destruct (bytes_lt k k'); [by constructor|]. destruct (bytes_lt k' k); [by constructor|done].
Qed.

Lemma erase_sorted k m : sorted m → sorted (erase k m).
Proof.
  unfold sorted. induction 1 as [|[k' v'] m Hm IH Hx]; simpl; [constructor|].
  destruct (bytes_lt k k'); [by constructor|].
  destruct (bytes_lt k' k); [|done]. constructor; [done|]. by apply erase_Forall.
Qed.

(** Lookup after a removal. *)
Lemma find_erase k k' m :
  sorted m → find k (erase k' m) = if decide (k = k') then None else find k m.
Proof.
  unfold sorted. induction 1 as [|[k2 v2] m Hm IH Hx]; simpl; [by case_decide|].
  destruct (bytes_lt k' k2) eqn:E1.
  - simpl. destruct (decide (k = k')) as [->|]; [by rewrite E1|done].
  - destruct (bytes_lt k2 k') eqn:E2; simpl.
    + destruct (decide (k = k')) as [->|Hne]; [by rewrite E1, E2, IH|by rewrite IH].
    + pose proof (bytes_lt_total _ _ E1 E2) as ->.
      destruct (decide (k = k2)) as [->|Hne]; [by apply find_above|].
      destruct (bytes_lt k k2) eqn:E3; [|destruct (bytes_lt k2 k) eqn:E4; [done|]].
      * apply find_above. eapply Forall_impl; [done|]. intros [k3 v3]; simpl. eauto with tank.
      * by destruct Hne; apply bytes_lt_total.
Qed.

End Map.

End StdMap.
