(* ===== verification/StringPiece.v ===== *)
(** A piece of a string ([base/StringPiece.h]): a pointer into an object and a length.

    A piece does not own what it points into, so the model keeps the bytes of that object
    beside the pointer; an access outside them is a fault.  The comparison operators, which
    the source writes with [memcmp] and the two lengths, are proved to be the order of
    [std::string] on the bytes that the pieces show. *)

From S2P Require Import Prelude StdMap.

Module StringPiece.
Import StdMap.

(** [object]: the bytes that may be read; [ptr_] is an offset into it, [None] the null
    pointer; [length_] is an [int]. *)
Record StringPiece := mkPiece {
  object : bytes;
  ptr_ : option Z;
  length_ : Z;
}.

(** ** Constructors and setters *)

Definition NUL : byte := Byte.x00.

(** [strlen]: the object must hold a zero byte. *)
Definition strlen (off : Z) (mem : bytes) : res Z :=
  let s := zdrop off mem in
  let n := find_byte NUL s in
  if (n <? length s)%nat then Ok (Z.of_nat n) else Err OutOfRange.

Definition piece_null : StringPiece := mkPiece [] None 0.

Definition piece_cstr (mem : bytes) (off : Z) : res StringPiece :=
  let! n := strlen off mem in Ok (mkPiece mem (Some off) (i32 n)).

(** [data()] of a string is followed by a zero byte. *)
Definition piece_string (s : bytes) : StringPiece := mkPiece (s ++ [NUL]) (Some 0) (i32 (zlen s)).

Definition piece_range (mem : bytes) (offset len : Z) : StringPiece := mkPiece mem (Some offset) len.

Definition clear (p : StringPiece) : StringPiece := mkPiece (object p) None 0.
Definition set_range (mem : bytes) (buffer len : Z) (p : StringPiece) : StringPiece := mkPiece mem (Some buffer) len.
Definition set_cstr (mem : bytes) (off : Z) (p : StringPiece) : res StringPiece :=
  let! n := strlen off mem in Ok (mkPiece mem (Some off) (i32 n)).

Definition size (p : StringPiece) : Z := length_ p.
Definition empty (p : StringPiece) : bool := length_ p =? 0.
Definition end_ (p : StringPiece) : option Z := option_map (λ a, a + length_ p) (ptr_ p).

Definition remove_prefix (n : Z) (p : StringPiece) : StringPiece :=
  mkPiece (object p) (option_map (λ a, a + n) (ptr_ p)) (length_ p -i n).
Definition remove_suffix (n : Z) (p : StringPiece) : StringPiece :=
  mkPiece (object p) (ptr_ p) (length_ p -i n).

(** ** Reading *)

(** The [n] bytes from the pointer, for a [size_t n]; nothing is read through a null
    pointer when [n] is 0. *)
Definition span (p : StringPiece) (n : Z) : res bytes :=
  match ptr_ p with
  | None => if n =? 0 then Ok [] else Err OutOfRange
  | Some a => if (0 <=? a) && (a + n <=? zlen (object p)) then Ok (ztake n (zdrop a (object p))) else Err OutOfRange
  end.

(** [ptr_[i]], a signed [char]. *)
Definition at_ (p : StringPiece) (i : Z) : res Z :=
  match ptr_ p with
  | None => Err OutOfRange
  | Some a =>
      if 0 <=? a + i then
        match object p !! Z.to_nat (a + i) with Some b => Ok (sb b) | None => Err OutOfRange end
      else Err OutOfRange
  end.

(** The sign of [memcmp]; bytes are compared as [unsigned char]. *)
Fixpoint memcmp_bytes (a b : bytes) : Z :=
  match a, b with
  | x :: a, y :: b => if ub x =? ub y then memcmp_bytes a b else if ub x <? ub y then -1 else 1
  | _, _ => 0
  end.

(** An [int] count becomes a [size_t]. *)
Definition memcmp (p q : StringPiece) (n : Z) : res Z :=
  let! a := span p (u64 n) in
  let! b := span q (u64 n) in
  Ok (memcmp_bytes a b).

Definition eq (p q : StringPiece) : res bool :=
  if length_ p =? length_ q then let! r := memcmp p q (length_ p) in Ok (r =? 0) else Ok false.

Definition neq (p q : StringPiece) : res bool := let! b := eq p q in Ok (negb b).

(** [STRINGPIECE_BINARY_PREDICATE(cmp, auxcmp)]. *)
Definition binary_predicate (cmp auxcmp : Z → Z → bool) (p q : StringPiece) : res bool :=
  let! r := memcmp p q (if length_ p <? length_ q then length_ p else length_ q) in
  Ok (auxcmp r 0 || ((r =? 0) && cmp (length_ p) (length_ q))).

Definition lt : StringPiece → StringPiece → res bool := binary_predicate Z.ltb Z.ltb.
Definition le : StringPiece → StringPiece → res bool := binary_predicate Z.leb Z.ltb.
Definition ge : StringPiece → StringPiece → res bool := binary_predicate Z.geb Z.gtb.
Definition gt : StringPiece → StringPiece → res bool := binary_predicate Z.gtb Z.gtb.

Definition compare (p q : StringPiece) : res Z :=
  let! r := memcmp p q (if length_ p <? length_ q then length_ p else length_ q) in
  Ok (if r =? 0 then if length_ p <? length_ q then -1 else if length_ p >? length_ q then 1 else r else r).

Definition starts_with (p x : StringPiece) : res bool :=
  if length_ p >=? length_ x then let! r := memcmp p x (length_ x) in Ok (r =? 0) else Ok false.

(** The largest [std::string]; a longer one is [std::length_error]. *)
Definition string_max : Z := 2 ^ 63 - 2.

Definition as_string (p : StringPiece) : res bytes :=
  if string_max <? u64 (length_ p) then Err LengthError else span p (u64 (length_ p)).

Definition CopyToString (p : StringPiece) (target : bytes) : res bytes := as_string p.

(** ** Pieces inside their object *)

Record ok (p : StringPiece) : Prop := {
  ok_size : 0 ≤ length_ p < 2 ^ 31;
  ok_span : match ptr_ p with
            | None => length_ p = 0
            | Some a => 0 ≤ a ∧ a + length_ p ≤ zlen (object p)
            end;
}.

(** The bytes that a piece shows. *)
Definition view (p : StringPiece) : bytes :=
  match ptr_ p with None => [] | Some a => ztake (length_ p) (zdrop a (object p)) end.

Lemma view_length p : ok p → zlen (view p) = length_ p.
Proof.
  intros [Hs Hp]. unfold view. destruct (ptr_ p) as [a|]; [|by rewrite Hp].
  rewrite length_ztake; [done|]. rewrite length_zdrop by lia. lia.
Qed.

Lemma span_take p n : ok p → 0 ≤ n ≤ length_ p → span p (u64 n) = Ok (ztake n (view p)).
Proof.
  intros [Hs Hp] Hn. unfold span, view, u64. rewrite uwrap_small by lia. destruct (ptr_ p) as [a|].
  - rewrite ztake_ztake by lia.
    destruct (Z.leb_spec 0 a), (Z.leb_spec (a + n) (zlen (object p))); try lia. done.
  - assert (n = 0) as -> by lia. done.
Qed.

Lemma memcmp_ok p q n :
  ok p → ok q → 0 ≤ n ≤ length_ p → n ≤ length_ q → memcmp p q n = Ok (memcmp_bytes (ztake n (view p)) (ztake n (view q))).
Proof. intros Hp Hq Hn Hm. unfold memcmp. by rewrite (span_take p n), (span_take q n) by (done || lia). Qed.

(** *** The order *)

(** The order of strings as a sign. *)
Definition order (a b : bytes) : Z := if bytes_lt a b then -1 else if bytes_lt b a then 1 else 0.

Lemma order_cases a b :
  (bytes_lt a b = true ∧ bytes_lt b a = false ∧ order a b = -1) ∨
  (bytes_lt a b = false ∧ bytes_lt b a = true ∧ order a b = 1) ∨
  (a = b ∧ bytes_lt a b = false ∧ bytes_lt b a = false ∧ order a b = 0).
Proof.
  unfold order. destruct (bytes_lt a b) eqn:E1; [left; split_and!; [done|by apply bytes_lt_asym|done]|].
  destruct (bytes_lt b a) eqn:E2; [by right; left|]. right; right. split_and!; [by apply bytes_lt_total|done..].
Qed.

Lemma order_cons x y a b : order (x :: a) (y :: b) = if ub x =? ub y then order a b else if ub x <? ub y then -1 else 1.
Proof.
  unfold order. cbn. rewrite (Z.eqb_sym (ub y)).
  destruct (Z.eqb_spec (ub x) (ub y)), (Z.ltb_spec (ub x) (ub y)), (Z.ltb_spec (ub y) (ub x)); cbn; try done; lia.
Qed.

(** [memcmp] on the common length, then the lengths. *)
Lemma order_memcmp a b n :
  n = Z.min (zlen a) (zlen b) →
  order a b = let r := memcmp_bytes (ztake n a) (ztake n b) in
    if r =? 0 then if zlen a <? zlen b then -1 else if zlen a >? zlen b then 1 else 0 else r.
Proof.
  intros ->. revert b. induction a as [|x a IH]; intros [|y b]; [done..|].
  rewrite order_cons. assert (Z.to_nat (Z.min (zlen (x :: a)) (zlen (y :: b))) = S (Z.to_nat (Z.min (zlen a) (zlen b)))) as E
    by (cbn [length]; lia).
  unfold ztake in *. rewrite E. cbn [take memcmp_bytes]. destruct (ub x =? ub y); [|by destruct (ub x <? ub y)].
  rewrite IH. cbn zeta. cbn [length]. destruct (memcmp_bytes _ _ =? 0); [|done].
  destruct (Z.ltb_spec (zlen a) (zlen b)), (Z.ltb_spec (Z.of_nat (S (length a))) (Z.of_nat (S (length b)))); try lia; try done.
  rewrite !Z.gtb_ltb.
  destruct (Z.ltb_spec (zlen b) (zlen a)), (Z.ltb_spec (Z.of_nat (S (length b))) (Z.of_nat (S (length a)))); try lia; done.
Qed.

Lemma memcmp_bytes_eq a b : zlen a = zlen b → (memcmp_bytes a b =? 0) = bool_decide (a = b).
Proof.
  revert b. induction a as [|x a IH]; intros [|y b] Hl; cbn in *; [done..| |]; try lia.
  destruct (Z.eqb_spec (ub x) (ub y)) as [E|E].
  - apply ub_inj in E as ->. rewrite IH by lia. apply bool_decide_ext. split; [by intros ->|by intros [=]].
  - rewrite bool_decide_false by congruence. by destruct (ub x <? ub y).
Qed.

(** What the operators compute with. *)
Lemma common_ok p q :
  ok p → ok q →
  ∃ r, memcmp p q (if length_ p <? length_ q then length_ p else length_ q) = Ok r ∧
    order (view p) (view q) = if r =? 0 then if length_ p <? length_ q then -1 else if length_ p >? length_ q then 1 else 0 else r.
Proof.
  intros Hp Hq. pose proof (view_length _ Hp) as Lp. pose proof (view_length _ Hq) as Lq.
  pose proof (ok_size _ Hp). pose proof (ok_size _ Hq). eexists. split.
  - apply memcmp_ok; [done..| |]; destruct (Z.ltb_spec (length_ p) (length_ q)); lia.
  - rewrite (order_memcmp _ _ (if length_ p <? length_ q then length_ p else length_ q)).
    + cbn zeta. by rewrite Lp, Lq.
    + rewrite Lp, Lq. destruct (Z.ltb_spec (length_ p) (length_ q)); lia.
Qed.

Lemma starts_with_ok p x :
  ok p → ok x → starts_with p x = Ok (bool_decide (view x `prefix_of` view p)).
Proof.
  intros Hp Hx. pose proof (view_length _ Hp) as Lp. pose proof (view_length _ Hx) as Lx. pose proof (ok_size _ Hx).
  unfold starts_with. rewrite Z.geb_leb. destruct (Z.leb_spec (length_ x) (length_ p)) as [Hle|Hgt].
  - rewrite memcmp_ok by (done || lia). cbn [res_bind]. rewrite (ztake_all _ (view x)) by lia.
    rewrite memcmp_bytes_eq by (rewrite length_ztake; lia). f_equal. apply bool_decide_ext. split.
    + intros <-. exists (zdrop (length_ x) (view p)). by rewrite ztake_zdrop.
    + intros [k Hk]. rewrite Hk. apply ztake_app_len. lia.
  - rewrite bool_decide_false; [done|]. intros [k Hk]. apply (f_equal length) in Hk. rewrite length_app in Hk. lia.
Qed.

Lemma eq_ok p q : ok p → ok q → eq p q = Ok (bool_decide (view p = view q)).
Proof.
  intros Hp Hq. pose proof (view_length _ Hp) as Lp. pose proof (view_length _ Hq) as Lq. pose proof (ok_size _ Hp).
  unfold eq. destruct (Z.eqb_spec (length_ p) (length_ q)) as [E|E].
  - rewrite memcmp_ok by (done || lia). cbn [res_bind]. rewrite (ztake_all _ (view p)), (ztake_all _ (view q)) by lia.
    f_equal. apply memcmp_bytes_eq. lia.
  - rewrite bool_decide_false; [done|]. congruence.
Qed.

(** *** Moving the ends *)

Lemma string_ok s : zlen s < 2 ^ 31 → ok (piece_string s) ∧ view (piece_string s) = s.
Proof.
  intros Hs. unfold piece_string. rewrite i32_small by lia. split.
  - constructor; cbn; [lia|]. rewrite length_app. cbn. lia.
  - unfold view. cbn. rewrite zdrop_0. by apply ztake_app_len.
Qed.

Lemma cstr_ok mem off :
  0 ≤ off → zlen mem < 2 ^ 31 → NUL ∈ zdrop off mem →
  wp (piece_cstr mem off) (λ p, ok p ∧ NUL ∉ view p ∧ (∃ k, zdrop off mem = view p ++ [NUL] ++ k)).
Proof.
  intros Ho Hm Hin. destruct (list_elem_of_split_l _ _ Hin) as (l & k & E & Hl).
  unfold piece_cstr, strlen. cbn zeta. rewrite E, find_byte_notin by done. rewrite length_app. cbn [length].
  destruct (Nat.ltb_spec (length l) (length l + S (length k))); [|lia]. cbn [res_bind wp].
  assert (zlen l < zlen mem ∧ off + zlen l < zlen mem) as [Hll Hol].
  { apply (f_equal length) in E. unfold zdrop in E. rewrite length_drop, length_app in E. cbn in E. lia. }
  rewrite i32_small by lia. split; [constructor; cbn; lia|].
  assert (view (mkPiece mem (Some off) (zlen l)) = l) as ->.
  { unfold view. cbn. rewrite E. by apply ztake_app_len. }
  split; [done|]. by exists k.
Qed.

Lemma remove_prefix_ok n p : ok p → 0 ≤ n ≤ length_ p → ok (remove_prefix n p) ∧ view (remove_prefix n p) = zdrop n (view p).
Proof.
  intros [Hs Hp] Hn. unfold remove_prefix, view. cbn. rewrite i32_small by lia. destruct (ptr_ p) as [a|]; cbn.
  - split; [constructor; cbn; lia|]. 
    rewrite <- zdrop_zdrop by lia. unfold ztake, zdrop. rewrite skipn_firstn_comm. f_equal. lia.
  - split; [constructor; cbn; lia|]. by assert (n = 0) as -> by lia.
Qed.

Lemma remove_suffix_ok n p :
  ok p → 0 ≤ n ≤ length_ p → ok (remove_suffix n p) ∧ view (remove_suffix n p) = ztake (length_ p - n) (view p).
Proof.
  intros [Hs Hp] Hn. unfold remove_suffix, view. cbn. rewrite i32_small by lia. destruct (ptr_ p) as [a|] eqn:E.
  - split; [constructor; cbn; rewrite ?E; lia|]. by rewrite ztake_ztake by lia.
  - split; [constructor; cbn; rewrite ?E; lia|]. symmetry. apply take_nil.
Qed.

Lemma as_string_ok p : ok p → as_string p = Ok (view p).
Proof.
  intros Hp. pose proof (ok_size _ Hp). unfold as_string. destruct (Z.ltb_spec string_max (u64 (length_ p))) as [F|_].
  - unfold u64, string_max in F. rewrite uwrap_small in F by lia. lia.
  - rewrite span_take by (done || lia). f_equal. apply ztake_all. rewrite view_length by done. lia.
Qed.

(** The cast to [int] in the constructors makes the length of a string of 2 GiB or more
    negative, so that copying it throws; one of 4 GiB or more shows a prefix. *)
Lemma long_string_throws s : 2 ^ 31 ≤ zlen s < 2 ^ 32 → as_string (piece_string s) = Err LengthError.
Proof.
  intros Hs. unfold as_string, piece_string. cbn [length_].
  assert (i32 (zlen s) = zlen s - 2 ^ 32) as ->.
  { unfold i32, swrap. change (2 ^ (32 - 1)) with (2 ^ 31).
    rewrite <- (Z.mod_unique (zlen s + 2 ^ 31) (2 ^ 32) 1 (zlen s - 2 ^ 31)); [lia|left; lia|lia]. }
  assert (u64 (zlen s - 2 ^ 32) = zlen s - 2 ^ 32 + 2 ^ 64) as ->.
  { unfold u64, uwrap. symmetry. apply (Z.mod_unique _ _ (-1)); [left; lia|lia]. }
  destruct (Z.ltb_spec string_max (zlen s - 2 ^ 32 + 2 ^ 64)) as [|F]; [done|]. unfold string_max in F. lia.
Qed.

(** ** The theorem *)

(** C34. The pieces of a string have the order of [std::string]: whatever objects two pieces
    point into, the four operators, [compare], the equalities and [starts_with] read only
    the bytes the pieces show and answer as the total order of strings and the prefix
    relation on these bytes do. *)
Theorem piece_order p q :
  ok p → ok q →
  let a := view p in let b := view q in
  lt p q = Ok (bytes_lt a b) ∧ gt p q = Ok (bytes_lt b a) ∧
  le p q = Ok (negb (bytes_lt b a)) ∧ ge p q = Ok (negb (bytes_lt a b)) ∧
  compare p q = Ok (order a b) ∧
  eq p q = Ok (bool_decide (a = b)) ∧ neq p q = Ok (negb (bool_decide (a = b))) ∧
  starts_with p q = Ok (bool_decide (b `prefix_of` a)) ∧
  as_string p = Ok a.
Proof.
  intros Hp Hq a b. subst a b. destruct (common_ok _ _ Hp Hq) as (r & Hr & Ho).
  unfold neq. rewrite eq_ok, starts_with_ok, as_string_ok by done.
  unfold lt, gt, le, ge, binary_predicate, compare. rewrite Hr. cbn [res_bind].
  rewrite !Z.gtb_ltb, !Z.geb_leb. rewrite Z.gtb_ltb in Ho.
  pose proof (order_cases (view p) (view q)) as Hc. rewrite Ho in Hc |- *.
  destruct (Z.eqb_spec r 0), (Z.ltb_spec r 0), (Z.ltb_spec 0 r), (Z.ltb_spec (length_ p) (length_ q)),
    (Z.ltb_spec (length_ q) (length_ p)), (Z.leb_spec (length_ p) (length_ q)), (Z.leb_spec (length_ q) (length_ p));
    try lia; destruct Hc as [(-> & -> & F)|[(-> & -> & F)|(_ & -> & -> & F)]]; try lia; split_and!; try done; f_equal; lia.
Qed.

(** Pieces of two strings, one moved past the first byte: a byte above 127 is above an
    ASCII letter, which plain [char]s would not have. *)
Lemma piece_order_witness :
  let p := remove_prefix 1 (piece_string [Byte.x61; Byte.xff]) in
  let q := piece_string (str "abc") in
  lt p q = Ok false ∧ gt p q = Ok true ∧ compare q p = Ok (-1) ∧ at_ p 0 = Ok (-1).
Proof.
  destruct (string_ok [Byte.x61; Byte.xff] ltac:(done)) as [H1 _]. destruct (string_ok (str "abc") ltac:(done)) as [Hq _].
  destruct (remove_prefix_ok 1 _ H1 ltac:(done)) as [Hp _]. intros p q.
  pose proof (piece_order p q Hp Hq) as (L & G & _). pose proof (piece_order q p Hq Hp) as (_ & _ & _ & _ & C & _).
  split_and!; [exact L|exact G|exact C|done].
Defined.

End StringPiece.
