(* ===== verification/Endian.v ===== *)
(** Byte-order conversions ([netLayer/socket/Endian.h]).

    The target is little-endian (x86-64 Linux), so [htobeN]/[beNtoh] of
    [<endian.h>] swap the bytes of an N-bit word.  The memory image of a word is
    [le_bytes]; a word in network order is therefore stored most significant
    byte first. *)

From S2P Require Import Prelude.

Module Endian.

(** [htobe16/32/64] and [be16/32/64toh] on a little-endian host. *)
Definition bswap (n : nat) (x : Z) : Z := le_val (rev (le_bytes n x)).

Definition hostToNetwork64 (host64 : Z) : Z := bswap 8 (u64 host64).
Definition hostToNetwork32 (host32 : Z) : Z := bswap 4 (u32 host32).
Definition hostToNetwork16 (host16 : Z) : Z := bswap 2 (u16 host16).
Definition networkToHost64 (net64 : Z) : Z := bswap 8 (u64 net64).
Definition networkToHost32 (net32 : Z) : Z := bswap 4 (u32 net32).
Definition networkToHost16 (net16 : Z) : Z := bswap 2 (u16 net16).

(** The bytes of an n-byte integer, most significant first. *)
Definition be_bytes (n : nat) (z : Z) : bytes := rev (le_bytes n z).
Definition be_val (l : bytes) : Z := le_val (rev l).

Lemma length_be_bytes n z : length (be_bytes n z) = n.
Proof. unfold be_bytes. by rewrite length_rev, length_le_bytes. Qed.

Lemma le_bytes_uwrap n z :
  le_bytes n (uwrap (8 * Z.of_nat n) z) = le_bytes n z.
Proof.
  rewrite <- (le_bytes_val (le_bytes n z)), le_val_bytes, length_le_bytes.
  unfold uwrap. by rewrite Z.pow_mul_r by lia.
Qed.

Lemma le_bytes_bswap n x : le_bytes n (bswap n x) = be_bytes n x.
Proof.
  unfold bswap, be_bytes.
  rewrite <- (length_le_bytes n x) at 1. rewrite <- length_rev.
  apply le_bytes_val.
Qed.

Lemma bswap_le_val l : bswap (length l) (le_val l) = be_val l.
Proof. unfold bswap, be_val. by rewrite le_bytes_val. Qed.

Lemma bswap_range n x : 0 ≤ bswap n x < 256 ^ Z.of_nat n.
Proof.
  unfold bswap. pose proof (le_val_range (rev (le_bytes n x))) as H.
  by rewrite length_rev, length_le_bytes in H.
Qed.

Lemma be_val_bytes n z : be_val (be_bytes n z) = uwrap (8 * Z.of_nat n) z.
Proof.
  unfold be_val, be_bytes. rewrite rev_involutive, le_val_bytes.
  unfold uwrap. by rewrite Z.pow_mul_r by lia.
Qed.

Lemma be_val_range l : 0 ≤ be_val l < 256 ^ zlen l.
Proof. unfold be_val. rewrite <- length_rev. apply le_val_range. Qed.

Lemma bswap_bswap n x :
  bswap n (bswap n x) = uwrap (8 * Z.of_nat n) x.
Proof.
  rewrite <- be_val_bytes. unfold be_val, bswap at 1.
  by rewrite le_bytes_bswap.
Qed.

(** What a big-endian store leaves in memory, and what a load reads back. *)
Lemma store_net n x : le_bytes n (bswap n (uwrap (8 * Z.of_nat n) x)) = be_bytes n x.
Proof. rewrite le_bytes_bswap. unfold be_bytes. by rewrite le_bytes_uwrap. Qed.

Lemma load_net n l :
  length l = n → bswap n (uwrap (8 * Z.of_nat n) (le_val l)) = be_val l.
Proof.
  intros <-. rewrite uwrap_small; [apply bswap_le_val|].
  rewrite Z.pow_mul_r by lia. apply le_val_range.
Qed.

(** The same through a signed variable of the word's width. *)
Lemma store_net_signed n x :
  (0 < n)%nat →
  le_bytes n (swrap (8 * Z.of_nat n) (bswap n (uwrap (8 * Z.of_nat n) x))) = be_bytes n x.
Proof.
  intros. rewrite <- le_bytes_uwrap, uwrap_swrap, le_bytes_uwrap by lia.
  apply store_net.
Qed.

Lemma load_net_signed n l :
  (0 < n)%nat → length l = n →
  bswap n (uwrap (8 * Z.of_nat n) (swrap (8 * Z.of_nat n) (le_val l))) = be_val l.
Proof. intros. rewrite uwrap_swrap by lia. by apply load_net. Qed.

End Endian.
