(* ===== verification/Buffer.v ===== *)
(** The network buffer ([netLayer/Buffer.h], [netLayer/Buffer.cpp]).

    A [Buffer] is a [std::vector<char>] with a reader and a writer index; the
    bytes between them are the content.  Indices and lengths are [size_t]
    (64-bit unsigned, [u64]); a pointer into the buffer is its offset from
    [begin()], and [NULL] is [None].  The file gives every member function, the
    representation invariant [wf], and the abstract view [content]: the buffer
    is a byte queue, and every operation refines its queue counterpart. *)

From S2P Require Import Prelude Endian.
Import Endian.

Module Buffer.

Definition kCheapPrepend : Z := 8.
Definition kInitialSize : Z := 1024.
Definition kCRLF : bytes := [Byte.x0d; Byte.x0a].

(** [std::vector<char>::max_size()] (PTRDIFF_MAX). *)
Definition max_size : Z := 2 ^ 63 - 1.

Record Buffer := mkBuffer {
  buffer_ : bytes;
  readerIndex_ : Z;
  writerIndex_ : Z;
}.

Definition readableBytes (b : Buffer) : Z := u64 (writerIndex_ b - readerIndex_ b).
Definition writableBytes (b : Buffer) : Z := u64 (zlen (buffer_ b) - writerIndex_ b).
Definition prependableBytes (b : Buffer) : Z := readerIndex_ b.
Definition peek (b : Buffer) : Z := readerIndex_ b.
Definition beginWrite (b : Buffer) : Z := writerIndex_ b.

(** The constructor; a fresh vector is zero-filled. *)
Definition new_Buffer (initialSize : Z) : res Buffer :=
  let b := mkBuffer (replicate (Z.to_nat (u64 (kCheapPrepend + initialSize))) Byte.x00)
                    kCheapPrepend kCheapPrepend in
  assert! readableBytes b =? 0 in
  assert! writableBytes b =? initialSize in
  assert! prependableBytes b =? kCheapPrepend in
  Ok b.

Definition swap (b rhs : Buffer) : Buffer * Buffer := (rhs, b).

(** The bytes of the range [from, to). *)
Definition slice (from to : Z) (l : bytes) : bytes := ztake (to - from) (zdrop from l).

(** [std::search]: the offset of the first occurrence of [pat], or the end. *)
Fixpoint prefix (pat l : bytes) : bool :=
  match pat, l with
  | [], _ => true
  | p :: pat, x :: l => Byte.eqb p x && prefix pat l
  | _ :: _, [] => false
  end.

Fixpoint search (pat l : bytes) : nat :=
  if prefix pat l then O
  else match l with [] => O | _ :: l => S (search pat l) end.

(** [memchr]: the offset of the first byte equal to [c]. *)
Fixpoint memchr (c : byte) (l : bytes) : option nat :=
  match l with
  | [] => None
  | x :: l => if Byte.eqb x c then Some O else S <$> memchr c l
  end.

Definition findCRLF_in (start : Z) (b : Buffer) : option Z :=
  let crlf := start + Z.of_nat (search kCRLF (slice start (beginWrite b) (buffer_ b))) in
  if crlf =? beginWrite b then None else Some crlf.

Definition findCRLF (b : Buffer) : option Z := findCRLF_in (peek b) b.

Definition findCRLF_from (start : Z) (b : Buffer) : res (option Z) :=
  assert! peek b <=? start in
  assert! start <=? beginWrite b in
  Ok (findCRLF_in start b).

Definition findEOL (b : Buffer) : option Z :=
  (λ i, peek b + Z.of_nat i) <$>
    memchr Byte.x0a (slice (peek b) (peek b + readableBytes b) (buffer_ b)).

Definition findEOL_from (start : Z) (b : Buffer) : res (option Z) :=
  assert! peek b <=? start in
  assert! start <=? beginWrite b in
  Ok ((λ i, start + Z.of_nat i) <$>
        memchr Byte.x0a (slice start (beginWrite b) (buffer_ b))).

Definition retrieveAll (b : Buffer) : Buffer :=
  mkBuffer (buffer_ b) kCheapPrepend kCheapPrepend.

Definition retrieve (len : Z) (b : Buffer) : res Buffer :=
  assert! len <=? readableBytes b in
  if len <? readableBytes b
  then Ok (mkBuffer (buffer_ b) (u64 (readerIndex_ b + len)) (writerIndex_ b))
  else Ok (retrieveAll b).

Definition retrieveUntil (end_ : Z) (b : Buffer) : res Buffer :=
  assert! peek b <=? end_ in
  assert! end_ <=? beginWrite b in
  retrieve (u64 (end_ - peek b)) b.

Definition retrieveInt64 (b : Buffer) : res Buffer := retrieve 8 b.
Definition retrieveInt32 (b : Buffer) : res Buffer := retrieve 4 b.
Definition retrieveInt16 (b : Buffer) : res Buffer := retrieve 2 b.
Definition retrieveInt8 (b : Buffer) : res Buffer := retrieve 1 b.

(** [len] bytes copied from the address [peek()]. *)
Definition peek_bytes (len : Z) (b : Buffer) : bytes := ztake len (zdrop (peek b) (buffer_ b)).

Definition retrieveAsString (len : Z) (b : Buffer) : res (bytes * Buffer) :=
  assert! len <=? readableBytes b in
  let result := peek_bytes len b in
  let! b' := retrieve len b in
  Ok (result, b').

Definition retrieveAllAsString (b : Buffer) : res (bytes * Buffer) :=
  retrieveAsString (readableBytes b) b.

(** A [StringPiece]: the bytes its pointer reaches and its [int] length. *)
Record StringPiece := mkPiece { sp_data : bytes; sp_size : Z }.

Definition piece (s : bytes) : StringPiece := mkPiece s (i32 (zlen s)).

Definition toStringPiece (b : Buffer) : StringPiece :=
  mkPiece (zdrop (peek b) (buffer_ b)) (i32 (readableBytes b)).

Definition hasWritten (len : Z) (b : Buffer) : res Buffer :=
  assert! len <=? writableBytes b in
  Ok (mkBuffer (buffer_ b) (readerIndex_ b) (u64 (writerIndex_ b + len))).

Definition unwrite (len : Z) (b : Buffer) : res Buffer :=
  assert! len <=? readableBytes b in
  Ok (mkBuffer (buffer_ b) (readerIndex_ b) (u64 (writerIndex_ b - len))).

(** [std::vector<char>::resize]. *)
Definition resize (n : Z) (l : bytes) : res bytes :=
  if max_size <? n then Err LengthError
  else Ok (ztake n l ++ replicate (Z.to_nat (n - zlen l)) Byte.x00).

Definition makeSpace (len : Z) (b : Buffer) : res Buffer :=
  if u64 (writableBytes b + prependableBytes b) <? u64 (len + kCheapPrepend)
  then
    let! buf := resize (u64 (writerIndex_ b + len)) (buffer_ b) in
    Ok (mkBuffer buf (readerIndex_ b) (writerIndex_ b))
  else
    assert! kCheapPrepend <? readerIndex_ b in
    let readable := readableBytes b in
    let buf := write_at kCheapPrepend
                 (slice (readerIndex_ b) (writerIndex_ b) (buffer_ b)) (buffer_ b) in
    let b' := mkBuffer buf kCheapPrepend (u64 (kCheapPrepend + readable)) in
    assert! readable =? readableBytes b' in
    Ok b'.

Definition ensureWritableBytes (len : Z) (b : Buffer) : res Buffer :=
  let! b' := (if writableBytes b <? len then makeSpace len b else Ok b) in
  assert! len <=? writableBytes b' in
  Ok b'.

(** [append(const char* data, size_t len)]: [data] is what the pointer reaches. *)
Definition append (data : bytes) (len : Z) (b : Buffer) : res Buffer :=
  let! b' := ensureWritableBytes len b in
  if zlen data <? len then Err OutOfRange
  else hasWritten len
         (mkBuffer (write_at (writerIndex_ b') (ztake len data) (buffer_ b'))
                   (readerIndex_ b') (writerIndex_ b')).

Definition append_piece (s : StringPiece) (b : Buffer) : res Buffer :=
  append (sp_data s) (u64 (sp_size s)) b.

(** [append] of a [std::string] or a literal, through [StringPiece]. *)
Definition append_str (s : bytes) (b : Buffer) : res Buffer := append_piece (piece s) b.

Definition appendInt64 (x : Z) (b : Buffer) : res Buffer :=
  let be64 := i64 (hostToNetwork64 x) in append (le_bytes 8 be64) 8 b.
Definition appendInt32 (x : Z) (b : Buffer) : res Buffer :=
  let be32 := i32 (hostToNetwork32 x) in append (le_bytes 4 be32) 4 b.
Definition appendInt16 (x : Z) (b : Buffer) : res Buffer :=
  let be16 := i16 (hostToNetwork16 x) in append (le_bytes 2 be16) 2 b.
Definition appendInt8 (x : Z) (b : Buffer) : res Buffer :=
  append (le_bytes 1 x) 1 b.

Definition peekInt64 (b : Buffer) : res Z :=
  assert! 8 <=? readableBytes b in
  Ok (i64 (networkToHost64 (i64 (le_val (peek_bytes 8 b))))).
Definition peekInt32 (b : Buffer) : res Z :=
  assert! 4 <=? readableBytes b in
  Ok (i32 (networkToHost32 (i32 (le_val (peek_bytes 4 b))))).
Definition peekInt16 (b : Buffer) : res Z :=
  assert! 2 <=? readableBytes b in
  Ok (i16 (networkToHost16 (i16 (le_val (peek_bytes 2 b))))).
Definition peekInt8 (b : Buffer) : res Z :=
  assert! 1 <=? readableBytes b in
  Ok (i8 (le_val (peek_bytes 1 b))).

Definition readInt64 (b : Buffer) : res (Z * Buffer) :=
  let! result := peekInt64 b in let! b' := retrieveInt64 b in Ok (result, b').
Definition readInt32 (b : Buffer) : res (Z * Buffer) :=
  let! result := peekInt32 b in let! b' := retrieveInt32 b in Ok (result, b').
Definition readInt16 (b : Buffer) : res (Z * Buffer) :=
  let! result := peekInt16 b in let! b' := retrieveInt16 b in Ok (result, b').
Definition readInt8 (b : Buffer) : res (Z * Buffer) :=
  let! result := peekInt8 b in let! b' := retrieveInt8 b in Ok (result, b').

Definition prepend (data : bytes) (len : Z) (b : Buffer) : res Buffer :=
  assert! len <=? prependableBytes b in
  let r := u64 (readerIndex_ b - len) in
  if zlen data <? len then Err OutOfRange
  else Ok (mkBuffer (write_at r (ztake len data) (buffer_ b)) r (writerIndex_ b)).

Definition prependInt64 (x : Z) (b : Buffer) : res Buffer :=
  let be64 := i64 (hostToNetwork64 x) in prepend (le_bytes 8 be64) 8 b.
Definition prependInt32 (x : Z) (b : Buffer) : res Buffer :=
  let be32 := i32 (hostToNetwork32 x) in prepend (le_bytes 4 be32) 4 b.
Definition prependInt16 (x : Z) (b : Buffer) : res Buffer :=
  let be16 := i16 (hostToNetwork16 x) in prepend (le_bytes 2 be16) 2 b.
Definition prependInt8 (x : Z) (b : Buffer) : res Buffer :=
  prepend (le_bytes 1 x) 1 b.

Definition shrink (reserve : Z) (b : Buffer) : res Buffer :=
  let! other := new_Buffer kInitialSize in
  let! other := ensureWritableBytes (u64 (readableBytes b + reserve)) other in
  let! other := append_piece (toStringPiece b) other in
  Ok (fst (swap b other)).

(** [readv(2)] on a total capacity: an errno, or the bytes read. *)
Definition readv_result : Type := Z + bytes.

Definition sizeof_extrabuf : Z := 65536.

Definition readFd_capacity (b : Buffer) : Z :=
  let writable := writableBytes b in
  if writable <? sizeof_extrabuf then writable + sizeof_extrabuf else writable.

(** The result of [readv], the saved errno and the buffer afterwards.  The
    kernel fills the writable tail first, then [extrabuf]. *)
Definition readFd (readv : Z → readv_result) (b : Buffer) : res (Z * option Z * Buffer) :=
  let writable := writableBytes b in
  match readv (readFd_capacity b) with
  | inl errno => Ok (-1, Some errno, b)
  | inr data =>
      let n := zlen data in
      let buf := write_at (writerIndex_ b) (ztake writable data) (buffer_ b) in
      if n <=? writable
      then Ok (n, None, mkBuffer buf (readerIndex_ b) (u64 (writerIndex_ b + n)))
      else
        let! b' := append (zdrop writable data) (u64 (n - writable))
                     (mkBuffer buf (readerIndex_ b) (zlen buf)) in
        Ok (n, None, b')
  end.

(** ** The invariant and the abstract view *)

Definition wf (b : Buffer) : Prop :=
  0 ≤ readerIndex_ b ≤ writerIndex_ b ∧
  writerIndex_ b ≤ zlen (buffer_ b) ∧
  kCheapPrepend ≤ zlen (buffer_ b) ≤ max_size.

Definition content (b : Buffer) : bytes :=
  slice (readerIndex_ b) (writerIndex_ b) (buffer_ b).

(** ** Lemmas *)

Ltac buf_arith :=
  unfold wf, retrieveAll, prependableBytes, peek, beginWrite, kCheapPrepend, kInitialSize,
    max_size in *; simpl in *; lia.

Lemma u64_small z : 0 ≤ z < 2 ^ 64 → u64 z = z.
Proof. apply uwrap_small. Qed.

Lemma readableBytes_wf b : wf b → readableBytes b = writerIndex_ b - readerIndex_ b.
Proof. intros. apply u64_small. buf_arith. Qed.

Lemma writableBytes_wf b : wf b → writableBytes b = zlen (buffer_ b) - writerIndex_ b.
Proof. intros. apply u64_small. buf_arith. Qed.

Lemma readableBytes_content b : wf b → readableBytes b = zlen (content b).
Proof.
  intros H. rewrite readableBytes_wf by done. unfold content, slice.
  unfold ztake, zdrop. rewrite length_take, length_drop. buf_arith.
Qed.

Lemma content_ge0 b : wf b → 0 ≤ readableBytes b < 2 ^ 63.
Proof. intros H. rewrite readableBytes_wf by done. buf_arith. Qed.

Lemma peek_bytes_content n b :
  wf b → 0 ≤ n ≤ readableBytes b → peek_bytes n b = ztake n (content b).
Proof.
  intros H Hn. rewrite readableBytes_wf in Hn by done.
  unfold peek_bytes, content, slice, ztake. rewrite take_take. f_equal. buf_arith.
Qed.

Lemma slice_write_end r w d (l : bytes) :
  0 ≤ r ≤ w → w + zlen d ≤ zlen l →
  slice r (w + zlen d) (write_at w d l) = slice r w l ++ d.
Proof.
  intros Hr Hl. unfold slice, write_at.
  rewrite zdrop_app_le by (rewrite length_ztake; lia).
  rewrite app_assoc, ztake_app_len.
  - f_equal. unfold ztake, zdrop. rewrite skipn_firstn_comm. f_equal. lia.
  - rewrite length_app, Nat2Z.inj_add, length_zdrop, length_ztake; [lia|lia|].
    rewrite length_ztake; lia.
Qed.

Lemma slice_write_front r w p (d l : bytes) :
  0 ≤ p → p + zlen d ≤ zlen l → r = p → w = p + zlen d →
  slice r w (write_at p d l) = d.
Proof.
  intros Hp Hl -> ->. unfold slice, write_at.
  rewrite zdrop_app_len by (rewrite length_ztake; lia).
  apply ztake_app_len. lia.
Qed.

Lemma slice_prefix r w (l k : bytes) :
  0 ≤ r ≤ w → w ≤ zlen l → slice r w (l ++ k) = slice r w l.
Proof.
  intros. unfold slice. rewrite zdrop_app_le by lia. apply ztake_app_le.
  rewrite length_zdrop; lia.
Qed.

Lemma content_retrieveAll b : content (retrieveAll b) = [].
Proof. done. Qed.

Lemma wf_retrieveAll b : wf b → wf (retrieveAll b).
Proof. buf_arith. Qed.

Lemma slice_drop r w n (l : bytes) :
  0 ≤ r → 0 ≤ n → r + n ≤ w → slice (r + n) w l = zdrop n (slice r w l).
Proof.
  intros. unfold slice, ztake, zdrop. rewrite skipn_firstn_comm, drop_drop.
  f_equal; [|f_equal]; lia.
Qed.

(** [retrieve] removes a prefix of the content; it never touches memory. *)
Lemma retrieve_spec n b :
  wf b → 0 ≤ n ≤ readableBytes b →
  wp (retrieve n b) (λ b', wf b' ∧ content b' = zdrop n (content b) ∧
                           buffer_ b' = buffer_ b ∧
                           writerIndex_ b' ≤ Z.max kCheapPrepend (writerIndex_ b)).
Proof.
  intros Hb Hn. unfold retrieve. rewrite (proj2 (Z.leb_le _ _)) by lia.
  pose proof (readableBytes_content b Hb). rewrite readableBytes_wf in * by done.
  destruct (n <? _) eqn:E; bool_prop; simpl.
  - assert (u64 (readerIndex_ b + n) = readerIndex_ b + n) as -> by (apply u64_small; buf_arith).
    split_and!; [buf_arith| |done|buf_arith].
    unfold content; simpl. apply slice_drop; buf_arith.
  - split_and!; [by apply wf_retrieveAll| |done|buf_arith].
    rewrite content_retrieveAll. symmetry. apply zdrop_all. lia.
Qed.

(** [writerIndex_ + len] may not exceed the largest vector. *)
Definition fits (len : Z) (b : Buffer) : Prop := writerIndex_ b + len ≤ max_size.

Lemma makeSpace_spec len b :
  wf b → 0 ≤ len → fits len b → writableBytes b < len →
  wp (makeSpace len b) (λ b', wf b' ∧ content b' = content b ∧
     writerIndex_ b' ≤ writerIndex_ b ∧ len ≤ writableBytes b').
Proof.
  intros Hb Hlen Hfit Hw. unfold makeSpace, fits in *.
  pose proof (readableBytes_content b Hb) as Hrc.
  rewrite readableBytes_wf, writableBytes_wf in * by done.
  rewrite !u64_small by buf_arith.
  destruct (_ <? _) eqn:E; bool_prop.
  - unfold resize. rewrite (proj2 (Z.ltb_ge _ _)) by lia. simpl.
    rewrite ztake_all by buf_arith.
    assert (wf (mkBuffer (buffer_ b ++ replicate (Z.to_nat (writerIndex_ b + len - zlen (buffer_ b))) Byte.x00)
                 (readerIndex_ b) (writerIndex_ b))) as Hwf.
    { unfold wf; simpl. rewrite length_app, length_replicate. buf_arith. }
    split_and!; [done| |buf_arith|].
    + apply slice_prefix; buf_arith.
    + rewrite writableBytes_wf by done. simpl.
      rewrite length_app, length_replicate. buf_arith.
  - rewrite (proj2 (Z.ltb_lt _ _)) by buf_arith.
    assert (writerIndex_ b - readerIndex_ b = zlen (content b)) as Hc by lia.
    set (b' := mkBuffer _ _ _).
    assert (zlen (buffer_ b') = zlen (buffer_ b)) as Hl.
    { unfold b'; simpl. rewrite length_write_at; [done|buf_arith|].
      fold (content b). buf_arith. }
    assert (wf b') as Hwf.
    { unfold wf. rewrite Hl. unfold b'; buf_arith. }
    rewrite (readableBytes_wf b') by done. unfold b' at 1 2; simpl.
    rewrite (proj2 (Z.eqb_eq _ _)) by lia. simpl.
    split_and!; [done| |unfold b'; buf_arith|].
    + unfold content at 1. apply slice_write_front; unfold b', content in *; buf_arith.
    + rewrite writableBytes_wf, Hl by done. unfold b'; buf_arith.
Qed.

Lemma ensureWritableBytes_spec len b :
  wf b → 0 ≤ len → fits len b →
  wp (ensureWritableBytes len b) (λ b', wf b' ∧ content b' = content b ∧
     writerIndex_ b' ≤ writerIndex_ b ∧ len ≤ writableBytes b').
Proof.
  intros Hb Hlen Hfit. unfold ensureWritableBytes.
  eapply wp_bind with (P := λ b', wf b' ∧ content b' = content b ∧
     writerIndex_ b' ≤ writerIndex_ b ∧ len ≤ writableBytes b').
  - destruct (_ <? _) eqn:E; bool_prop; [by apply makeSpace_spec|simpl; auto with lia].
  - intros b' (?&?&?&?). rewrite (proj2 (Z.leb_le _ _)) by lia. done.
Qed.

(** [append] adds the first [len] bytes of [data] at the end of the content. *)
Lemma append_spec data len b :
  wf b → 0 ≤ len ≤ zlen data → fits len b →
  wp (append data len b) (λ b', wf b' ∧ content b' = content b ++ ztake len data ∧
     writerIndex_ b' ≤ writerIndex_ b + len).
Proof.
  intros Hb Hlen Hfit. unfold append.
  eapply wp_bind; [apply ensureWritableBytes_spec; auto; lia|].
  intros b' (Hb' & Hc & Hwi & Hw). rewrite (proj2 (Z.ltb_ge _ _)) by lia.
  pose proof (length_ztake len data ltac:(lia)) as Hz.
  rewrite (writableBytes_wf b') in Hw by done.
  unfold hasWritten. set (b'' := mkBuffer _ _ _).
  assert (length (buffer_ b'') = length (buffer_ b')) as Hl
    by (apply length_write_at; buf_arith).
  assert (wf b'') as Hb'' by (unfold wf; rewrite Hl; unfold b''; buf_arith).
  rewrite (writableBytes_wf b''), Hl by done.
  rewrite (proj2 (Z.leb_le _ _)) by (unfold b''; buf_arith). simpl.
  assert (u64 (writerIndex_ b' + len) = writerIndex_ b' + len) as Hu
    by (apply u64_small; buf_arith).
  unfold b'' in *; simpl in *. rewrite Hu. split_and!.
  - unfold wf; simpl. rewrite Hl. buf_arith.
  - rewrite <- Hc. unfold content at 1; simpl. rewrite <- Hz at 1.
    apply slice_write_end; buf_arith.
  - lia.
Qed.

(** The whole of [data]. *)
Lemma append_all_spec data b :
  wf b → fits (zlen data) b →
  wp (append data (zlen data) b) (λ b', wf b' ∧ content b' = content b ++ data ∧
     writerIndex_ b' ≤ writerIndex_ b + zlen data).
Proof.
  intros Hb Hf. eapply wp_mono; [apply append_spec; auto; lia|].
  intros b' (?&E&?). by rewrite ztake_all in E by lia.
Qed.

Lemma append_str_spec s b :
  wf b → fits (zlen s) b → zlen s < 2 ^ 31 →
  wp (append_str s b) (λ b', wf b' ∧ content b' = content b ++ s ∧
     writerIndex_ b' ≤ writerIndex_ b + zlen s).
Proof.
  intros Hb Hf Hs. unfold append_str, append_piece, piece; simpl.
  assert (i32 (zlen s) = zlen s) as -> by (apply swrap_small; lia).
  rewrite u64_small by lia. by apply append_all_spec.
Qed.

(** [appends f d]: [f] is a producer that adds exactly [d] to a buffer. *)
Definition appends (f : Buffer → res Buffer) (d : bytes) : Prop :=
  ∀ b, wf b → fits (zlen d) b →
  wp (f b) (λ b', wf b' ∧ content b' = content b ++ d ∧
                  writerIndex_ b' ≤ writerIndex_ b + zlen d).

Lemma appends_all data : appends (append data (zlen data)) data.
Proof. intros b ??. by apply append_all_spec. Qed.

Lemma appends_take data len :
  0 ≤ len ≤ zlen data → appends (append data len) (ztake len data).
Proof.
  intros Hl b Hb Hf. rewrite length_ztake in * by lia. by apply append_spec.
Qed.

Lemma appends_str s : zlen s < 2 ^ 31 → appends (append_str s) s.
Proof. intros Hs b ??. by apply append_str_spec. Qed.

Lemma appends_nil : appends Ok [].
Proof. intros b ??. simpl. rewrite app_nil_r. auto with lia. Qed.

Lemma appends_bind f g d e :
  appends f d → appends g e → appends (λ b, let! b' := f b in g b') (d ++ e).
Proof.
  intros Hf Hg b Hb Hfit. unfold fits in *. rewrite length_app, Nat2Z.inj_add in *.
  eapply wp_bind; [apply Hf; [done|unfold fits; lia]|]. intros b1 (Hb1 & Hc1 & Hw1).
  eapply wp_mono; [apply Hg; [done|unfold fits; lia]|]. intros b2 (Hb2 & Hc2 & Hw2).
  split_and!; [done| |lia]. by rewrite Hc2, Hc1, app_assoc.
Qed.

Lemma hasWritten_spec n b :
  wf b → 0 ≤ n ≤ writableBytes b →
  wp (hasWritten n b) (λ b', wf b' ∧ buffer_ b' = buffer_ b ∧
     content b' = content b ++ slice (writerIndex_ b) (writerIndex_ b + n) (buffer_ b)).
Proof.
  intros Hb Hn. unfold hasWritten. rewrite (proj2 (Z.leb_le _ _)) by lia.
  rewrite writableBytes_wf in Hn by done. simpl. rewrite u64_small by buf_arith.
  split_and!; [buf_arith|done|].
  unfold content, slice, ztake, zdrop; simpl.
  rewrite <- (take_drop (Z.to_nat (writerIndex_ b - readerIndex_ b)) (drop (Z.to_nat (readerIndex_ b)) (buffer_ b))) at 1.
  rewrite take_app, take_take, length_take, length_drop, drop_drop.
  f_equal; f_equal; [buf_arith|buf_arith|f_equal; buf_arith].
Qed.

Lemma unwrite_spec n b :
  wf b → 0 ≤ n ≤ readableBytes b →
  wp (unwrite n b) (λ b', wf b' ∧ content b' = ztake (zlen (content b) - n) (content b)).
Proof.
  intros Hb Hn. unfold unwrite. rewrite (proj2 (Z.leb_le _ _)) by lia.
  rewrite <- readableBytes_content by done. rewrite readableBytes_wf in * by done.
  simpl. rewrite u64_small by buf_arith. split; [buf_arith|].
  unfold content, slice, ztake; simpl. rewrite take_take. f_equal. buf_arith.
Qed.

Lemma prepend_spec data len b :
  wf b → 0 ≤ len ≤ zlen data → len ≤ prependableBytes b →
  wp (prepend data len b) (λ b', wf b' ∧ content b' = ztake len data ++ content b ∧
     prependableBytes b' = prependableBytes b - len).
Proof.
  intros Hb Hlen Hp. unfold prepend. rewrite (proj2 (Z.leb_le _ _)) by lia.
  rewrite (proj2 (Z.ltb_ge _ _)) by lia. simpl. unfold prependableBytes in *.
  rewrite u64_small by buf_arith.
  pose proof (length_ztake len data ltac:(lia)) as Hz.
  split_and!; [|unfold content; simpl|done].
  - unfold wf; simpl. rewrite length_write_at; buf_arith.
  - unfold slice, write_at.
    rewrite zdrop_app_len by (rewrite length_ztake; buf_arith).
    unfold ztake at 1. rewrite take_app_ge by buf_arith. f_equal.
    unfold ztake, zdrop in *. f_equal; [buf_arith|f_equal; buf_arith].
Qed.

(** [readFd] appends exactly the bytes the kernel delivered. *)
Lemma readFd_spec readv b data :
  wf b → readv (readFd_capacity b) = inr data →
  zlen data ≤ readFd_capacity b → fits (zlen data) b →
  wp (readFd readv b) (λ '(n, e, b'), n = zlen data ∧ e = None ∧ wf b' ∧
     content b' = content b ++ data ∧ writerIndex_ b' ≤ writerIndex_ b + zlen data).
Proof.
  intros Hb Hr Hcap Hfit. unfold readFd. rewrite Hr.
  pose proof (writableBytes_wf b Hb) as Hw. unfold fits in *.
  set (buf := write_at _ _ _).
  assert (zlen (ztake (writableBytes b) data) ≤ writableBytes b) as Hlt
    by (unfold ztake; rewrite length_take; buf_arith).
  assert (length buf = length (buffer_ b)) as Hl by (apply length_write_at; buf_arith).
  destruct (_ <=? _) eqn:E; bool_prop.
  - rewrite u64_small by buf_arith. unfold buf in *. rewrite ztake_all in * by lia. simpl.
    split_and!; [done|done| |apply slice_write_end; buf_arith|lia].
    unfold wf; simpl. rewrite Hl. buf_arith.
  - pose proof (length_ztake (writableBytes b) data ltac:(buf_arith)) as Hz.
    pose proof (length_zdrop (writableBytes b) data ltac:(buf_arith)) as Hd.
    rewrite u64_small by buf_arith. rewrite <- Hd.
    eapply wp_bind; [apply append_all_spec|].
    + unfold wf; simpl. rewrite Hl. buf_arith.
    + unfold fits; simpl. rewrite Hd, Hl. lia.
    + intros b' (Hb' & Hc & Hwi). simpl in *. split_and!; [done|done|done| |lia].
      rewrite Hc. unfold content at 1; simpl.
      replace (zlen buf) with (writerIndex_ b + zlen (ztake (writableBytes b) data)) by lia.
      unfold buf. rewrite slice_write_end by buf_arith.
      by rewrite <- app_assoc, ztake_zdrop.
Qed.

Lemma readFd_error readv b errno :
  readv (readFd_capacity b) = inl errno → readFd readv b = Ok (-1, Some errno, b).
Proof. intros Hr. unfold readFd. by rewrite Hr. Qed.

Lemma new_Buffer_spec n :
  0 ≤ n ≤ max_size - kCheapPrepend →
  wp (new_Buffer n) (λ b, wf b ∧ content b = [] ∧ writerIndex_ b = kCheapPrepend ∧
     writableBytes b = n).
Proof.
  intros Hn. unfold new_Buffer. rewrite u64_small by buf_arith.
  set (b := mkBuffer _ _ _).
  assert (wf b) as Hb by (unfold wf, b; simpl; rewrite length_replicate; buf_arith).
  pose proof (writableBytes_wf b Hb) as Hw.
  unfold b in Hw at 2 3. simpl in Hw. rewrite length_replicate in Hw.
  replace (readableBytes b) with 0 by done. simpl.
  rewrite (proj2 (Z.eqb_eq _ _)) by buf_arith. simpl.
  split_and!; [done|done|done|buf_arith].
Qed.

Lemma toStringPiece_append b other :
  wf b → wf other → zlen (content b) < 2 ^ 31 → fits (zlen (content b)) other →
  wp (append_piece (toStringPiece b) other) (λ o, wf o ∧
     content o = content other ++ content b ∧
     writerIndex_ o ≤ writerIndex_ other + zlen (content b)).
Proof.
  intros Hb Ho Hs Hf. unfold append_piece, toStringPiece; simpl.
  pose proof (readableBytes_wf b Hb) as Hr.
  rewrite readableBytes_content in * by done.
  assert (i32 (zlen (content b)) = zlen (content b)) as -> by (apply swrap_small; lia).
  rewrite u64_small by lia. eapply wp_mono; [apply append_spec; auto|].
  - unfold zdrop. rewrite length_drop. buf_arith.
  - intros o (?&->&?). split_and!; [done| |done]. f_equal.
    unfold content at 2, slice. f_equal. lia.
Qed.

Lemma shrink_spec reserve b :
  wf b → zlen (content b) < 2 ^ 31 → 0 ≤ reserve →
  zlen (content b) + reserve ≤ max_size - kCheapPrepend →
  wp (shrink reserve b) (λ b', wf b' ∧ content b' = content b ∧
     writerIndex_ b' ≤ kCheapPrepend + zlen (content b)).
Proof.
  intros Hb Hs Hr Hm. unfold shrink. rewrite readableBytes_content by done.
  rewrite u64_small by buf_arith.
  eapply wp_bind; [apply new_Buffer_spec; buf_arith|]. intros o (Ho & Hc & Hw & _).
  eapply wp_bind; [apply ensureWritableBytes_spec; [done|lia|unfold fits; lia]|].
  intros o' (Ho' & Hc' & Hw' & _).
  eapply wp_bind; [apply (toStringPiece_append b o'); auto; unfold fits; lia|].
  intros o'' (Ho'' & Hc'' & Hw''). simpl. split_and!; [done| |lia].
  by rewrite Hc'', Hc', Hc.
Qed.

(** ** Integers in network order *)

Lemma peekInt_val n b :
  (0 < n)%nat → wf b → Z.of_nat n ≤ readableBytes b →
  swrap (8 * Z.of_nat n)
    (bswap n (uwrap (8 * Z.of_nat n) (swrap (8 * Z.of_nat n) (le_val (peek_bytes (Z.of_nat n) b)))))
  = swrap (8 * Z.of_nat n) (be_val (ztake (Z.of_nat n) (content b))).
Proof.
  intros Hn Hb Hr. rewrite peek_bytes_content by (done || lia).
  rewrite load_net_signed; [done|done|].
  rewrite readableBytes_content in Hr by done.
  pose proof (length_ztake (Z.of_nat n) (content b)). lia.
Qed.

Lemma peekInt64_val b : wf b → 8 ≤ readableBytes b →
  peekInt64 b = Ok (i64 (be_val (ztake 8 (content b)))).
Proof.
  intros Hb Hr. unfold peekInt64. rewrite (proj2 (Z.leb_le _ _)) by lia.
  f_equal. by apply (peekInt_val 8); [lia| |].
Qed.

Lemma peekInt32_val b : wf b → 4 ≤ readableBytes b →
  peekInt32 b = Ok (i32 (be_val (ztake 4 (content b)))).
Proof.
  intros Hb Hr. unfold peekInt32. rewrite (proj2 (Z.leb_le _ _)) by lia.
  f_equal. by apply (peekInt_val 4); [lia| |].
Qed.

Lemma peekInt16_val b : wf b → 2 ≤ readableBytes b →
  peekInt16 b = Ok (i16 (be_val (ztake 2 (content b)))).
Proof.
  intros Hb Hr. unfold peekInt16. rewrite (proj2 (Z.leb_le _ _)) by lia.
  f_equal. by apply (peekInt_val 2); [lia| |].
Qed.

Lemma peekInt8_val b : wf b → 1 ≤ readableBytes b →
  peekInt8 b = Ok (i8 (be_val (ztake 1 (content b)))).
Proof.
  intros Hb Hr. unfold peekInt8. rewrite (proj2 (Z.leb_le _ _)) by lia.
  do 2 f_equal. rewrite peek_bytes_content by (done || lia).
  rewrite readableBytes_content in Hr by done. unfold be_val.
  destruct (content b) as [|x l]; [simpl in Hr; lia|done].
Qed.

(** What [appendIntN] adds: the [N/8] bytes, most significant first. *)
Lemma appendInt64_eq x b : appendInt64 x b = append (be_bytes 8 x) (zlen (be_bytes 8 x)) b.
Proof. rewrite length_be_bytes. unfold appendInt64. f_equal. apply (store_net_signed 8); lia. Qed.
Lemma appendInt32_eq x b : appendInt32 x b = append (be_bytes 4 x) (zlen (be_bytes 4 x)) b.
Proof. rewrite length_be_bytes. unfold appendInt32. f_equal. apply (store_net_signed 4); lia. Qed.
Lemma appendInt16_eq x b : appendInt16 x b = append (be_bytes 2 x) (zlen (be_bytes 2 x)) b.
Proof. rewrite length_be_bytes. unfold appendInt16. f_equal. apply (store_net_signed 2); lia. Qed.
Lemma appendInt8_eq x b : appendInt8 x b = append (be_bytes 1 x) (zlen (be_bytes 1 x)) b.
Proof. done. Qed.
Lemma prependInt64_eq x b : prependInt64 x b = prepend (be_bytes 8 x) (zlen (be_bytes 8 x)) b.
Proof. rewrite length_be_bytes. unfold prependInt64. f_equal. apply (store_net_signed 8); lia. Qed.
Lemma prependInt32_eq x b : prependInt32 x b = prepend (be_bytes 4 x) (zlen (be_bytes 4 x)) b.
Proof. rewrite length_be_bytes. unfold prependInt32. f_equal. apply (store_net_signed 4); lia. Qed.

Lemma appends_Int32 x : appends (appendInt32 x) (be_bytes 4 x).
Proof. intros b Hb Hf. rewrite appendInt32_eq. by apply append_all_spec. Qed.

(** A value appended to an empty queue is read back at its width. *)
Lemma be_front n x rest :
  (0 < n)%nat →
  swrap (8 * Z.of_nat n) (be_val (ztake (Z.of_nat n) (be_bytes n x ++ rest))) =
  swrap (8 * Z.of_nat n) x.
Proof.
  intros. rewrite ztake_app_len by (by rewrite length_be_bytes).
  rewrite be_val_bytes. apply swrap_uwrap. lia.
Qed.

Lemma append_then_read n (peekN : Buffer → res Z) x b :
  (0 < n ≤ 8)%nat →
  (∀ b, wf b → Z.of_nat n ≤ readableBytes b →
        peekN b = Ok (swrap (8 * Z.of_nat n) (be_val (ztake (Z.of_nat n) (content b))))) →
  wf b → content b = [] → fits 8 b →
  wp (let! b1 := append (be_bytes n x) (zlen (be_bytes n x)) b in
      let! r := peekN b1 in let! b' := retrieve (Z.of_nat n) b1 in Ok (r, b'))
     (λ '(v, b2), v = swrap (8 * Z.of_nat n) x ∧ content b2 = []).
Proof.
  intros Hn Hpeek Hb Hc Hf.
  eapply wp_bind; [apply append_all_spec; [done|]|].
  { unfold fits in *. rewrite length_be_bytes. lia. }
  intros b1 (Hb1 & E & _). rewrite Hc in E. simpl in E.
  assert (readableBytes b1 = Z.of_nat n) as Hr
    by (by rewrite readableBytes_content, E, length_be_bytes).
  rewrite Hpeek by (done || lia). simpl.
  eapply wp_bind; [apply retrieve_spec; [done|lia]|].
  intros b2 (_ & E2 & _). simpl. rewrite E2, E. split.
  - rewrite <- (app_nil_r (be_bytes n x)). apply be_front. lia.
  - apply zdrop_all. by rewrite length_be_bytes.
Qed.

(** ** Searching *)

Lemma prefix_spec pat l : prefix pat l = true ↔ ∃ k, l = pat ++ k.
Proof.
  revert l. induction pat as [|p pat IH]; intros l; simpl.
  - split; eauto.
  - destruct l as [|x l]; [split; [done|by intros [? ?]]|].
    rewrite andb_true_iff, IH. split.
    + intros [->%Byte.byte_dec_bl [k ->]]. eauto.
    + intros [k [= <- ->]]. split; [by apply Byte.byte_dec_lb|eauto].
Qed.

Lemma search_le pat l : (search pat l ≤ length l)%nat.
Proof.
  induction l as [|x l IH]; simpl; destruct (prefix _ _); simpl; lia.
Qed.

Lemma search_hit pat l :
  (search pat l < length l)%nat → prefix pat (drop (search pat l) l) = true.
Proof.
  induction l as [|x l IH]; [simpl; destruct (prefix _ _); simpl; lia|].
  cbn [search]. destruct (prefix pat (x :: l)) eqn:E; [done|]. simpl. intros. apply IH. lia.
Qed.

Lemma search_first pat l i :
  (i < search pat l)%nat → prefix pat (drop i l) = false.
Proof.
  revert i. induction l as [|x l IH]; intros i; cbn [search].
  - destruct (prefix _ _); lia.
  - destruct (prefix pat (x :: l)) eqn:E; [lia|].
    destruct i as [|i]; [done|]. simpl. intros. apply IH. lia.
Qed.

(** A hit found in [l] is found at the same place when bytes follow. *)
Lemma search_app pat l k :
  (search pat l < length l)%nat → search pat (l ++ k) = search pat l.
Proof.
  induction l as [|x l IH]; [simpl; destruct (prefix _ _); simpl; lia|].
  intros H. cbn [app search] in *. destruct (prefix pat (x :: l)) eqn:E.
  - apply prefix_spec in E as [m E].
    rewrite (proj2 (prefix_spec pat (x :: l ++ k))); [done|].
    exists (m ++ k). by rewrite app_comm_cons, E, app_assoc.
  - simpl in H. rewrite IH by lia.
    destruct (prefix pat (x :: l ++ k)) eqn:E'; [|done]. exfalso.
    assert (prefix pat (drop (search pat l) l) = true) as [m Hm]%prefix_spec
      by (apply search_hit; lia).
    apply prefix_spec in E' as [m' E'].
    assert (length pat ≤ length (x :: l))%nat as Hlen.
    { apply (f_equal length) in Hm. rewrite length_drop, length_app in Hm. simpl. lia. }
    apply (f_equal (take (length pat))) in E'.
    rewrite app_comm_cons, take_app_le, take_app_length in E' by done.
    assert (prefix pat (x :: l) = true) as E2; [|congruence].
    apply prefix_spec. exists (drop (length pat) (x :: l)).
    by rewrite <- E' at 1; rewrite take_drop.
Qed.

(** The offset of the first CRLF of a byte string. *)
Definition find_crlf (c : bytes) : option Z :=
  let i := search kCRLF c in
  if (i =? length c)%nat then None else Some (Z.of_nat i).

Lemma findCRLF_content b :
  wf b → findCRLF b = (λ i, peek b + i) <$> find_crlf (content b).
Proof.
  intros Hb. unfold findCRLF, findCRLF_in, find_crlf, content.
  pose proof (readableBytes_content b Hb) as Hr. rewrite readableBytes_wf in Hr by done.
  unfold content in Hr. unfold peek, beginWrite in *.
  destruct (Nat.eqb_spec (search kCRLF (slice (readerIndex_ b) (writerIndex_ b) (buffer_ b)))
              (length (slice (readerIndex_ b) (writerIndex_ b) (buffer_ b)))) as [E|E]; simpl.
  - rewrite (proj2 (Z.eqb_eq _ _)) by lia. done.
  - rewrite (proj2 (Z.eqb_neq _ _)) by lia. done.
Qed.

Lemma find_crlf_some c i :
  find_crlf c = Some i →
  0 ≤ i ∧ i + 2 ≤ zlen c ∧ c = ztake i c ++ kCRLF ++ zdrop (i + 2) c ∧
  ∀ j, (Z.of_nat j < i) → prefix kCRLF (drop j c) = false.
Proof.
  unfold find_crlf. destruct (Nat.eqb_spec (search kCRLF c) (length c)) as [|E]; [done|].
  intros [= <-]. pose proof (search_le kCRLF c).
  assert (prefix kCRLF (drop (search kCRLF c) c) = true) as [m Hm]%prefix_spec
    by (apply search_hit; lia).
  pose proof (f_equal length Hm) as Hl. rewrite length_drop in Hl. simpl in Hl.
  split_and!; [lia|lia| |intros j Hj; apply search_first; lia].
  unfold ztake, zdrop. rewrite Nat2Z.id.
  replace (Z.to_nat (Z.of_nat (search kCRLF c) + 2)) with (search kCRLF c + 2)%nat by lia.
  rewrite <- drop_drop, Hm. simpl. change (Byte.x0d :: Byte.x0a :: drop 0 m) with (kCRLF ++ m).
  by rewrite <- Hm, take_drop.
Qed.

Lemma find_crlf_none c :
  find_crlf c = None → ∀ j, prefix kCRLF (drop j c) = false.
Proof.
  unfold find_crlf. destruct (Nat.eqb_spec (search kCRLF c) (length c)) as [E|]; [|done].
  intros _ j. destruct (decide (j < length c)%nat).
  - apply search_first. lia.
  - by rewrite drop_ge by lia.
Qed.

Lemma find_crlf_app c k i : find_crlf c = Some i → find_crlf (c ++ k) = Some i.
Proof.
  unfold find_crlf. pose proof (search_le kCRLF c).
  destruct (Nat.eqb_spec (search kCRLF c) (length c)) as [|E]; [done|]. intros [= <-].
  rewrite search_app, length_app by lia.
  destruct (Nat.eqb_spec (search kCRLF c) (length c + length k)); [lia|done].
Qed.

Lemma search_cr l k :
  Byte.x0d ∉ l → search kCRLF (l ++ k) = (length l + search kCRLF k)%nat.
Proof.
  induction l as [|x l IH]; intros Hx; [done|]. apply not_elem_of_cons in Hx as [Hne Hx].
  cbn [app search]. assert (prefix kCRLF (x :: l ++ k) = false) as ->; [|by rewrite IH].
  simpl. destruct (byte_eqb_spec Byte.x0d x); [congruence|done].
Qed.

(** The CRLF of a line is found, and nothing is found before it has arrived. *)
Lemma find_crlf_line l k : Byte.x0d ∉ l → find_crlf (l ++ kCRLF ++ k) = Some (zlen l).
Proof.
  intros Hl. unfold find_crlf. rewrite search_cr, length_app by done. cbn [kCRLF app search].
  change (prefix [Byte.x0d; Byte.x0a] (Byte.x0d :: Byte.x0a :: k)) with true. simpl.
  destruct (Nat.eqb_spec (length l + 0) (length l + S (S (length k)))); [lia|]. f_equal. lia.
Qed.

Lemma find_crlf_partial q l k k' :
  Byte.x0d ∉ l → q ++ k = l ++ kCRLF ++ k' → zlen q < zlen l + 2 → find_crlf q = None.
Proof.
  intros Hl E Hq.
  assert (q = take (length q) (l ++ [Byte.x0d])) as ->.
  { apply (f_equal (take (length q))) in E. rewrite take_app_length in E. rewrite E at 1.
    change (l ++ kCRLF ++ k') with (l ++ [Byte.x0d] ++ (Byte.x0a :: k')).
    rewrite app_assoc. apply take_app_le. rewrite length_app; simpl. lia. }
  unfold find_crlf. destruct (decide (length q ≤ length l)%nat) as [Hle|Hgt].
  - rewrite take_app_le by done.
    pose proof (search_cr (take (length q) l) []) as H. rewrite app_nil_r in H.
    rewrite H; [simpl; by rewrite Nat.add_0_r, Nat.eqb_refl|].
    intros Hin. apply Hl. by eapply elem_of_take in Hin as (?&?&?); eapply list_elem_of_lookup_2.
  - rewrite take_ge by (rewrite length_app; simpl; lia).
    rewrite search_cr, length_app by done. simpl. by rewrite Nat.eqb_refl.
Qed.

(** ** The byte queue the buffer implements

    [op] is a call of the public interface, [step] runs it on the buffer and gives its
    answer.  [qstep] runs it on the abstract queue: the bytes, and how many may be put in
    front of them; [None] is a call outside its precondition. *)

Inductive width := W64 | W32 | W16 | W8.

Inductive op :=
| OAppend (data : bytes)            (* append(const void*, size_t), with hasWritten *)
| OAppendStr (s : bytes)            (* append(const StringPiece&) *)
| OAppendInt (w : width) (x : Z)
| OEnsureWritable (n : Z)
| OReadFd (data : bytes)            (* readFd, when the kernel delivers [data] *)
| OShrink (reserve : Z)
| OPrepend (data : bytes)
| OPrependInt (w : width) (x : Z)
| OUnwrite (n : Z)
| ORetrieve (n : Z)
| ORetrieveInt (w : width)
| ORetrieveAll
| ORetrieveAsString (n : Z)
| ORetrieveAllAsString
| OPeekInt (w : width)
| OReadInt (w : width).

Inductive answer := ANone | ABytes (s : bytes) | AInt (v : Z).

Definition nbytes (w : width) : nat := match w with W64 => 8 | W32 => 4 | W16 => 2 | W8 => 1 end.

Definition appendInt (w : width) : Z → Buffer → res Buffer :=
  match w with W64 => appendInt64 | W32 => appendInt32 | W16 => appendInt16 | W8 => appendInt8 end.
Definition prependInt (w : width) : Z → Buffer → res Buffer :=
  match w with W64 => prependInt64 | W32 => prependInt32 | W16 => prependInt16 | W8 => prependInt8 end.
Definition retrieveInt (w : width) : Buffer → res Buffer :=
  match w with W64 => retrieveInt64 | W32 => retrieveInt32 | W16 => retrieveInt16 | W8 => retrieveInt8 end.
Definition peekInt (w : width) : Buffer → res Z :=
  match w with W64 => peekInt64 | W32 => peekInt32 | W16 => peekInt16 | W8 => peekInt8 end.
Definition readInt (w : width) : Buffer → res (Z * Buffer) :=
  match w with W64 => readInt64 | W32 => readInt32 | W16 => readInt16 | W8 => readInt8 end.

Definition silent (m : res Buffer) : res (answer * Buffer) := let! b := m in Ok (ANone, b).

Definition step (o : op) (b : Buffer) : res (answer * Buffer) :=
  match o with
  | OAppend data => silent (append data (zlen data) b)
  | OAppendStr s => silent (append_str s b)
  | OAppendInt w x => silent (appendInt w x b)
  | OEnsureWritable n => silent (ensureWritableBytes n b)
  | OReadFd data => silent (let! (_, _, b') := readFd (λ _, inr data) b in Ok b')
  | OShrink reserve => silent (shrink reserve b)
  | OPrepend data => silent (prepend data (zlen data) b)
  | OPrependInt w x => silent (prependInt w x b)
  | OUnwrite n => silent (unwrite n b)
  | ORetrieve n => silent (retrieve n b)
  | ORetrieveInt w => silent (retrieveInt w b)
  | ORetrieveAll => silent (Ok (retrieveAll b))
  | ORetrieveAsString n => let! (s, b') := retrieveAsString n b in Ok (ABytes s, b')
  | ORetrieveAllAsString => let! (s, b') := retrieveAllAsString b in Ok (ABytes s, b')
  | OPeekInt w => let! v := peekInt w b in Ok (AInt v, b)
  | OReadInt w => let! (v, b') := readInt w b in Ok (AInt v, b')
  end.

(** The queue and the room in front of it; an operation that may move the bytes leaves at
    most the room of a new buffer to count on. *)
Record Queue := mkQueue { q_bytes : bytes; q_room : Z }.

Definition q_append (d : bytes) (q : Queue) : Queue := mkQueue (q_bytes q ++ d) (Z.min kCheapPrepend (q_room q)).
Definition q_prepend (d : bytes) (q : Queue) : option Queue :=
  if zlen d <=? q_room q then Some (mkQueue (d ++ q_bytes q) (q_room q - zlen d)) else None.
Definition q_retrieve (n : Z) (q : Queue) : option Queue :=
  if n <=? zlen (q_bytes q)
  then Some (mkQueue (zdrop n (q_bytes q)) (if n <? zlen (q_bytes q) then q_room q + n else kCheapPrepend))
  else None.
(** The number in front. *)
Definition q_int (w : width) (q : Queue) : Z :=
  swrap (8 * Z.of_nat (nbytes w)) (be_val (ztake (Z.of_nat (nbytes w)) (q_bytes q))).

Definition answering (a : answer) (q : option Queue) : option (answer * Queue) :=
  match q with Some q => Some (a, q) | None => None end.

Definition qstep (o : op) (q : Queue) : option (answer * Queue) :=
  match o with
  | OAppend d | OAppendStr d | OReadFd d => Some (ANone, q_append d q)
  | OAppendInt w x => Some (ANone, q_append (be_bytes (nbytes w) x) q)
  | OEnsureWritable _ => Some (ANone, q_append [] q)
  | OShrink _ => Some (ANone, mkQueue (q_bytes q) kCheapPrepend)
  | OPrepend d => answering ANone (q_prepend d q)
  | OPrependInt w x => answering ANone (q_prepend (be_bytes (nbytes w) x) q)
  | OUnwrite n =>
      if n <=? zlen (q_bytes q) then Some (ANone, mkQueue (ztake (zlen (q_bytes q) - n) (q_bytes q)) (q_room q)) else None
  | ORetrieve n => answering ANone (q_retrieve n q)
  | ORetrieveInt w => answering ANone (q_retrieve (Z.of_nat (nbytes w)) q)
  | ORetrieveAll => Some (ANone, mkQueue [] kCheapPrepend)
  | ORetrieveAsString n => answering (ABytes (ztake n (q_bytes q))) (q_retrieve n q)
  | ORetrieveAllAsString => answering (ABytes (q_bytes q)) (q_retrieve (zlen (q_bytes q)) q)
  | OPeekInt w => if Z.of_nat (nbytes w) <=? zlen (q_bytes q) then Some (AInt (q_int w q), q) else None
  | OReadInt w => answering (AInt (q_int w q)) (q_retrieve (Z.of_nat (nbytes w)) q)
  end.

(** The arguments are [size_t]s, and a [read] delivers at most [extrabuf]. *)
Definition op_ok (o : op) : Prop :=
  match o with
  | ORetrieve n | ORetrieveAsString n | OUnwrite n | OEnsureWritable n | OShrink n => 0 ≤ n
  | OReadFd data => zlen data ≤ sizeof_extrabuf
  | _ => True
  end.

(** Space a call may need. *)
Definition cost (o : op) : Z :=
  match o with
  | OAppend data | OAppendStr data | OReadFd data => zlen data
  | OAppendInt w _ => Z.of_nat (nbytes w)
  | OEnsureWritable n => n
  | OShrink n => kCheapPrepend + n
  | _ => 0
  end.

Fixpoint run (os : list op) (b : Buffer) : res (list answer * Buffer) :=
  match os with
  | [] => Ok ([], b)
  | o :: os => let! (a, b') := step o b in let! (l, b'') := run os b' in Ok (a :: l, b'')
  end.

Fixpoint qrun (os : list op) (q : Queue) : option (list answer * Queue) :=
  match os with
  | [] => Some ([], q)
  | o :: os =>
      match qstep o q with
      | Some (a, q') => match qrun os q' with Some (l, q'') => Some (a :: l, q'') | None => None end
      | None => None
      end
  end.

Fixpoint total_cost (os : list op) : Z :=
  match os with [] => 0 | o :: os => cost o + total_cost os end.

(** Space in use, counting the prepend area. *)
Definition used (b : Buffer) : Z := Z.max kCheapPrepend (writerIndex_ b).

Lemma content_used b : wf b → zlen (content b) ≤ used b.
Proof.
  intros Hb. rewrite <- readableBytes_content, readableBytes_wf by done.
  unfold used. buf_arith.
Qed.

Lemma retrieve_used n b :
  wf b → 0 ≤ n ≤ zlen (content b) →
  wp (retrieve n b) (λ b', wf b' ∧ content b' = zdrop n (content b) ∧ used b' ≤ used b).
Proof.
  intros Hb Hn. eapply wp_mono; [apply retrieve_spec; [done|by rewrite readableBytes_content]|].
  unfold used. crush.
Qed.

Lemma retrieveAsString_spec n b :
  wf b → 0 ≤ n ≤ zlen (content b) →
  wp (retrieveAsString n b) (λ '(s, b'), s = ztake n (content b) ∧ wf b' ∧
     content b' = zdrop n (content b) ∧ used b' ≤ used b).
Proof.
  intros Hb Hn. unfold retrieveAsString.
  rewrite readableBytes_content, (proj2 (Z.leb_le _ _)) by (done || lia).
  eapply wp_bind; [by apply retrieve_used|]. intros b' (?&?&?). simpl.
  split_and!; [|done..]. apply peek_bytes_content; [done|].
  by rewrite readableBytes_content.
Qed.

Lemma retrieveAllAsString_spec b :
  wf b →
  wp (retrieveAllAsString b) (λ '(s, b'), s = content b ∧ wf b' ∧ content b' = [] ∧
     used b' ≤ used b).
Proof.
  intros Hb. unfold retrieveAllAsString. rewrite readableBytes_content by done.
  eapply wp_mono; [apply retrieveAsString_spec; [done|lia]|].
  intros [s' b'] (->&?&->&?). split_and!; [by apply ztake_all|done|by apply zdrop_all|done].
Qed.

Lemma cost_nonneg o : op_ok o → 0 ≤ cost o.
Proof. destruct o; simpl; unfold kCheapPrepend; lia. Qed.

(** The queue that a buffer stands for. *)
Definition queue_of (b : Buffer) : Queue := mkQueue (content b) (prependableBytes b).

(** [b] holds the bytes of [q] and has at least its room. *)
Definition holds (q : Queue) (b : Buffer) : Prop :=
  wf b ∧ content b = q_bytes q ∧ q_room q ≤ prependableBytes b.

(** *** The room in front *)

(** The bytes stay where they are or move to the place of a new buffer. *)
Definition moved (b b' : Buffer) : Prop := readerIndex_ b' = readerIndex_ b ∨ readerIndex_ b' = kCheapPrepend.

Lemma moved_room b b' : moved b b' → Z.min kCheapPrepend (prependableBytes b) ≤ prependableBytes b'.
Proof. unfold moved, prependableBytes. lia. Qed.

Lemma makeSpace_moved len b b' : makeSpace len b = Ok b' → moved b b'.
Proof.
  unfold makeSpace. destruct (_ <? _).
  - destruct (resize _ _) as [l|]; cbn; intros ?; simplify_eq. by left.
  - destruct (_ <? _); [|done]. destruct (_ =? _); [|done]. intros ?. simplify_eq. by right.
Qed.

Lemma ensureWritableBytes_moved len b b' : ensureWritableBytes len b = Ok b' → moved b b'.
Proof.
  unfold ensureWritableBytes. destruct (_ <? _).
  - destruct (makeSpace len b) as [b1|] eqn:E; [|done]. cbn. destruct (_ <=? _); [|done]. intros ?. simplify_eq. by eapply makeSpace_moved.
  - cbn. destruct (_ <=? _); [|done]. intros ?. simplify_eq. by left.
Qed.

Lemma append_moved data len b b' : append data len b = Ok b' → moved b b'.
Proof.
  unfold append. destruct (ensureWritableBytes len b) as [b1|] eqn:E; [|done]. cbn. destruct (_ <? _); [done|].
  unfold hasWritten. destruct (_ <=? _); [|done]. intros ?. simplify_eq. by apply ensureWritableBytes_moved in E.
Qed.

Lemma readFd_moved readv b n e b' : readFd readv b = Ok (n, e, b') → moved b b'.
Proof.
  unfold readFd. destruct (readv _) as [?|data]; [intros ?; simplify_eq; by left|]. destruct (_ <=? _).
  - intros ?. simplify_eq. by left.
  - destruct (append _ _ _) as [b1|] eqn:E; [|done]. cbn. intros ?. simplify_eq. by apply append_moved in E.
Qed.

Lemma shrink_moved reserve b b' : shrink reserve b = Ok b' → readerIndex_ b' = kCheapPrepend.
Proof.
  unfold shrink. assert (new_Buffer kInitialSize = Ok (mkBuffer (replicate 1032 Byte.x00) 8 8)) as -> by (vm_compute; reflexivity). cbn [res_bind].
  destruct (ensureWritableBytes _ _) as [b2|] eqn:E2; [|done]. cbn [res_bind]. unfold append_piece.
  destruct (append _ _ _) as [b3|] eqn:E3; [|done]. cbn. intros ?. simplify_eq.
  apply ensureWritableBytes_moved in E2. apply append_moved in E3. unfold moved, kCheapPrepend in *. cbn [readerIndex_] in E2. cbn. lia.
Qed.

(** *** One call *)

(** What a call without an answer owes. *)
Definition goes (b : Buffer) (c : Z) (q : Queue) (b' : Buffer) : Prop := holds q b' ∧ used b' ≤ used b + c.

Lemma silent_wp m (P : answer → Buffer → Prop) : wp m (P ANone) → wp (silent m) (λ '(a, b), P a b).
Proof. by destruct m. Qed.

(** A call that adds [d] at the end. *)
Lemma appending_goes m d c b q :
  wp m (λ b', wf b' ∧ content b' = content b ++ d ∧ used b' ≤ used b + c) → (∀ b', m = Ok b' → moved b b') →
  holds q b → wp m (goes b c (q_append d q)).
Proof.
  intros Hm Hr (Hb & Hc & Hq). destruct m as [b'|]; [|done]. destruct Hm as (H1 & H2 & H3).
  pose proof (moved_room b b' (Hr b' eq_refl)). split; [split_and!; [done|by rewrite H2, Hc|cbn; lia]|done].
Qed.

Lemma retrieve_goes n b q q' :
  holds q b → 0 ≤ n → q_retrieve n q = Some q' → wp (retrieve n b) (goes b 0 q').
Proof.
  intros (Hb & Hc & Hq) Hn E. unfold q_retrieve in E. rewrite <- Hc in E. destruct (Z.leb_spec n (zlen (content b))) as [Hl|]; simplify_eq.
  pose proof (retrieve_used n b Hb ltac:(lia)) as H. pose proof (readableBytes_content b Hb) as Hrb.
  unfold retrieve in *. rewrite Hrb in *. rewrite (proj2 (Z.leb_le _ _)) in * by done.
  destruct (Z.ltb_spec n (zlen (content b))) as [Hlt|Hge]; cbn in *; destruct H as (H1 & H2 & H3);
    (split; [split_and!; [done|done|]|cbn; lia]); cbn; [|done].
  rewrite readableBytes_wf in Hrb by done. unfold prependableBytes in *. cbn. rewrite u64_small by buf_arith. lia.
Qed.

Lemma prepend_goes d b q q' : holds q b → q_prepend d q = Some q' → wp (prepend d (zlen d) b) (goes b 0 q').
Proof.
  intros (Hb & Hc & Hq) E. unfold q_prepend in E. destruct (Z.leb_spec (zlen d) (q_room q)); simplify_eq.
  pose proof (prepend_spec d (zlen d) b Hb ltac:(lia) ltac:(lia)) as H1. unfold prepend in *.
  rewrite (proj2 (Z.leb_le _ _)), (proj2 (Z.ltb_ge _ _)) in * by lia. cbn in H1 |- *. destruct H1 as (H1 & H2 & H3).
  split; [split_and!; [done|cbn; by rewrite H2, ztake_all, Hc by lia|unfold prependableBytes in *; cbn in *; lia]|unfold used; cbn; lia].
Qed.

Lemma appendInt_eq w x b : appendInt w x b = append (be_bytes (nbytes w) x) (zlen (be_bytes (nbytes w) x)) b.
Proof. destruct w; [apply appendInt64_eq|apply appendInt32_eq|apply appendInt16_eq|apply appendInt8_eq]. Qed.

Lemma prependInt_eq w x b : prependInt w x b = prepend (be_bytes (nbytes w) x) (zlen (be_bytes (nbytes w) x)) b.
Proof.
  destruct w; [apply prependInt64_eq|apply prependInt32_eq| |done].
  cbn [prependInt nbytes]. rewrite length_be_bytes. unfold prependInt16. f_equal. apply (store_net_signed 2); lia.
Qed.

Lemma retrieveInt_eq w b : retrieveInt w b = retrieve (Z.of_nat (nbytes w)) b.
Proof. by destruct w. Qed.

Lemma readInt_eq w b : readInt w b = (let! v := peekInt w b in let! b' := retrieve (Z.of_nat (nbytes w)) b in Ok (v, b')).
Proof. by destruct w. Qed.

Lemma peekInt_content w b :
  wf b → peekInt w b = if Z.of_nat (nbytes w) <=? zlen (content b) then Ok (q_int w (queue_of b)) else Err AssertFailed.
Proof.
  intros Hb. rewrite <- readableBytes_content by done. destruct (Z.leb_spec (Z.of_nat (nbytes w)) (readableBytes b)) as [H|H].
  - destruct w; cbn [nbytes] in H; [by apply peekInt64_val|by apply peekInt32_val|by apply peekInt16_val|by apply peekInt8_val].
  - destruct w; cbn in *; unfold peekInt64, peekInt32, peekInt16, peekInt8; by rewrite (proj2 (Z.leb_gt _ _)) by lia.
Qed.

Lemma retrieveAsString_goes n b q q' :
  holds q b → 0 ≤ n → q_retrieve n q = Some q' →
  wp (let! (s, b') := retrieveAsString n b in Ok (ABytes s, b')) (λ '(a, b'), a = ABytes (ztake n (q_bytes q)) ∧ goes b 0 q' b').
Proof.
  intros Hh Hn E. pose proof Hh as (Hb & Hc & _). pose proof (retrieve_goes n b q q' Hh Hn E) as H. unfold q_retrieve in E. rewrite <- Hc in *.
  destruct (Z.leb_spec n (zlen (content b))); [|done]. unfold retrieveAsString.
  rewrite readableBytes_content, (proj2 (Z.leb_le _ _)) by done. cbn [res_bind]. destruct (retrieve n b) as [b'|]; [|done]. cbn in *.
  split; [|done]. by rewrite peek_bytes_content by (done || rewrite readableBytes_content by done; lia).
Qed.

Lemma unwrite_goes n b q :
  holds q b → 0 ≤ n ≤ zlen (q_bytes q) →
  wp (unwrite n b) (goes b 0 (mkQueue (ztake (zlen (q_bytes q) - n) (q_bytes q)) (q_room q))).
Proof.
  intros (Hb & Hc & Hq) Hn. rewrite <- Hc in *. pose proof (readableBytes_content b Hb) as Hr. pose proof (readableBytes_wf b Hb).
  pose proof (unwrite_spec n b Hb ltac:(lia)) as Hsp. unfold unwrite in *. rewrite Hr, (proj2 (Z.leb_le _ _)) in * by lia.
  cbn in Hsp |- *. destruct Hsp as [H1 H2]. split; [split_and!; [done|done|unfold prependableBytes in *; cbn; lia]|].
  unfold used. cbn. rewrite u64_small by buf_arith. lia.
Qed.

Lemma ensure_goes n b q :
  holds q b → 0 ≤ n → fits n b → wp (ensureWritableBytes n b) (goes b n (q_append [] q)).
Proof.
  intros Hh Hn Hf. apply appending_goes; [|by apply ensureWritableBytes_moved|done].
  eapply wp_mono; [apply ensureWritableBytes_spec; [apply Hh|done|done]|]. intros b' (?&?&?&?). rewrite app_nil_r. unfold used. crush.
Qed.

Lemma append_goes d b q :
  holds q b → fits (zlen d) b → wp (append d (zlen d) b) (goes b (zlen d) (q_append d q)).
Proof.
  intros Hh Hf. apply appending_goes; [|by apply append_moved|done].
  eapply wp_mono; [apply append_all_spec; [apply Hh|done]|]. unfold used. crush.
Qed.

Lemma readFd_goes d b q :
  holds q b → zlen d ≤ sizeof_extrabuf → fits (zlen d) b →
  wp (let! (_, _, b') := readFd (λ _, inr d) b in Ok b') (goes b (zlen d) (q_append d q)).
Proof.
  intros Hh Hd Hf. pose proof (proj1 Hh) as Hb. assert (sizeof_extrabuf ≤ readFd_capacity b) as Hcap.
  { unfold readFd_capacity. pose proof (uwrap_range 64 (zlen (buffer_ b) - writerIndex_ b)).
    fold u64 in *. fold (writableBytes b) in *. case_match; bool_prop; lia. }
  apply appending_goes; [| |done].
  - eapply wp_bind; [eapply (readFd_spec (λ _, inr d)); [done|done|lia|done]|].
    intros [[? ?] ?]. unfold used in *. simpl. crush.
  - intros b'. destruct (readFd _ b) as [[[n e] b1]|] eqn:E; [|done]. cbn. intros ?. simplify_eq. by eapply readFd_moved.
Qed.

Lemma shrink_goes n b q :
  holds q b → 0 ≤ n → used b + kCheapPrepend + n < 2 ^ 31 →
  wp (shrink n b) (goes b (kCheapPrepend + n) (mkQueue (q_bytes q) kCheapPrepend)).
Proof.
  intros (Hb & Hc & Hq) Hn Hu. pose proof (content_used b Hb).
  assert (wp (shrink n b) (λ b', wf b' ∧ content b' = content b ∧ writerIndex_ b' ≤ kCheapPrepend + zlen (content b))) as Hs.
  { apply shrink_spec; auto; unfold kCheapPrepend, max_size, used in *; lia. }
  pose proof (shrink_moved n b) as Hm. destruct (shrink n b) as [b'|]; [|done]. specialize (Hm _ eq_refl). destruct Hs as (H1 & H2 & H3).
  split; [split_and!; [done|cbn; congruence|unfold prependableBytes; cbn; lia]|unfold used, kCheapPrepend in *; lia].
Qed.

Lemma step_refines o b q a q' :
  holds q b → op_ok o → used b + cost o < 2 ^ 31 → qstep o q = Some (a, q') →
  wp (step o b) (λ '(a', b'), a' = a ∧ goes b (cost o) q' b').
Proof.
  intros Hh Ho Hu E. pose proof Hh as (Hb & Hc & Hq). pose proof (content_used b Hb).
  assert (∀ n, n ≤ cost o → fits n b) as Hfit by (unfold fits, used in *; intros; buf_arith).
  assert (∀ m q1, Some (ANone, q1) = Some (a, q') → wp m (goes b (cost o) q1) →
          wp (silent m) (λ '(a', b'), a' = a ∧ goes b (cost o) q' b')) as Hs.
  { intros m q1 [= <- <-]. by destruct m. }
  assert (∀ x oq, answering x oq = Some (a, q') → a = x ∧ oq = Some q') as Ha by (intros x [?|] ?; simpl in *; by simplify_eq).
  destruct o; cbn [step qstep] in *.
  - by eapply Hs, append_goes, Hfit.
  - eapply Hs; [done|]. unfold append_str, append_piece, piece. cbn [sp_data sp_size cost] in *.
    assert (0 ≤ used b) by (unfold used, kCheapPrepend; lia).
    assert (i32 (zlen s) = zlen s) as -> by (apply swrap_small; lia). rewrite u64_small by lia. by apply append_goes, Hfit.
  - eapply Hs; [done|]. rewrite appendInt_eq. cbn [cost] in *. pose proof (append_goes (be_bytes (nbytes w) x) b q Hh) as H'.
    rewrite length_be_bytes in *. apply H', Hfit. lia.
  - by eapply Hs, ensure_goes, Hfit.
  - by eapply Hs, readFd_goes, Hfit.
  - eapply Hs; [done|]. apply shrink_goes; [done|done|]. cbn in Hu. lia.
  - apply Ha in E as [-> E]. eapply Hs; [done|]. by eapply prepend_goes.
  - apply Ha in E as [-> E]. eapply Hs; [done|]. rewrite prependInt_eq. by eapply prepend_goes.
  - destruct (Z.leb_spec n (zlen (q_bytes q))); [|done]. eapply Hs; [done|]. by apply unwrite_goes.
  - apply Ha in E as [-> E]. eapply Hs; [done|]. by eapply retrieve_goes.
  - apply Ha in E as [-> E]. eapply Hs; [done|]. rewrite retrieveInt_eq. eapply retrieve_goes; [done|lia|done].
  - eapply Hs; [done|]. split; [split_and!; [by apply wf_retrieveAll|done|done]|cbn; unfold used; buf_arith].
  - apply Ha in E as [-> E]. by eapply retrieveAsString_goes.
  - apply Ha in E as [-> E]. unfold retrieveAllAsString. rewrite readableBytes_content, Hc by done.
    pose proof (retrieveAsString_goes (zlen (q_bytes q)) b q q' Hh ltac:(lia) E) as H'. by rewrite ztake_all in H' by lia.
  - rewrite peekInt_content by done. rewrite Hc. destruct (_ <=? _); [|done]. simplify_eq. cbn.
    split; [unfold q_int, queue_of; cbn; by rewrite Hc|]. split; [done|]. cbn. lia.
  - apply Ha in E as [-> E]. rewrite readInt_eq, peekInt_content, Hc by done. unfold q_retrieve in E.
    destruct (_ <=? _) eqn:El; [|done]. cbn [res_bind].
    pose proof (retrieve_goes (Z.of_nat (nbytes w)) b q q' Hh ltac:(lia)) as H'. unfold q_retrieve in H'. rewrite El in H'. specialize (H' E).
    destruct (retrieve _ b) as [b'|]; [|done]. cbn in *. split; [|done]. unfold q_int, queue_of. cbn. by rewrite Hc.
Qed.

Lemma step_refuses o b :
  wf b → op_ok o → qstep o (queue_of b) = None → step o b = Err AssertFailed.
Proof.
  intros Hb Ho E.
  assert (∀ x oq, answering x oq = None → oq = None) as Ha by (by intros x [?|]).
  assert (∀ n, q_retrieve n (queue_of b) = None → retrieve n b = Err AssertFailed ∧ retrieveAsString n b = Err AssertFailed) as Hret.
  { intros n F. unfold q_retrieve in F. unfold retrieve, retrieveAsString. rewrite readableBytes_content by done.
    cbn in F. by destruct (_ <=? _). }
  assert (∀ d, q_prepend d (queue_of b) = None → prepend d (zlen d) b = Err AssertFailed) as Hpre.
  { intros d F. unfold q_prepend in F. unfold prepend. cbn in F. by destruct (_ <=? _). }
  destruct o; cbn [step qstep] in *; try done; try apply Ha in E.
  - by rewrite Hpre.
  - by rewrite prependInt_eq, Hpre.
  - unfold unwrite. rewrite readableBytes_content by done. cbn in E. by destruct (_ <=? _).
  - by rewrite (proj1 (Hret _ E)).
  - by rewrite retrieveInt_eq, (proj1 (Hret _ E)).
  - by rewrite (proj2 (Hret _ E)).
  - unfold retrieveAllAsString. rewrite readableBytes_content by done. cbn [queue_of q_bytes] in E. by rewrite (proj2 (Hret _ E)).
  - rewrite peekInt_content by done. cbn in E. by destruct (_ <=? _).
  - rewrite readInt_eq, peekInt_content by done. unfold q_retrieve in E. cbn in E. by destruct (_ <=? _).
Qed.

Lemma run_refines os b q l q' :
  holds q b → Forall op_ok os → used b + total_cost os < 2 ^ 31 → qrun os q = Some (l, q') →
  wp (run os b) (λ '(l', b'), l' = l ∧ holds q' b').
Proof.
  revert b q l. induction os as [|o os IH]; intros b q l Hh Hok Hu Hq; simpl in *.
  - by simplify_eq.
  - apply Forall_cons in Hok as [Ho Hos].
    assert (0 ≤ total_cost os) as Hpos.
    { clear -Hos. induction Hos; simpl; [lia|]. pose proof (cost_nonneg x ltac:(done)). lia. }
    destruct (qstep o q) as [[a q1]|] eqn:E; [|done]. destruct (qrun os q1) as [[l1 q2]|] eqn:E2; [|done]. simplify_eq.
    eapply wp_bind; [apply (step_refines o b q a q1); auto; lia|]. intros [a' b1] (-> & Hh1 & Hu1).
    eapply wp_bind; [eapply (IH b1 q1); [done|done|lia|done]|]. intros [l' b2] (-> & Hh2). done.
Qed.

(** ** Properties *)


Definition demo : Buffer :=
  mkBuffer (replicate 16 Byte.x00) kCheapPrepend kCheapPrepend.

Definition demo_ops : list op :=
  [OAppend (str "hello world"); ORetrieve 6; OPrependInt W32 (-7); OReadInt W32; OAppendInt W16 258;
   OPrepend (str "big "); ORetrieveAsString 9; OPeekInt W8; OShrink 4; OUnwrite 1].

Lemma demo_wf : wf demo.
Proof. unfold wf, demo, max_size, kCheapPrepend. simpl. lia. Qed.


(** Integers survive the wire: a value appended in network order to an empty
    buffer is read back at its width (for a value in range, itself), and the
    buffer is empty again.  All four widths. *)
Theorem append_read_int :
  ∀ b x, wf b → content b = [] → fits 8 b →
  wp (let! b1 := appendInt64 x b in readInt64 b1) (λ '(v, b2), v = i64 x ∧ content b2 = []) ∧
  wp (let! b1 := appendInt32 x b in readInt32 b1) (λ '(v, b2), v = i32 x ∧ content b2 = []) ∧
  wp (let! b1 := appendInt16 x b in readInt16 b1) (λ '(v, b2), v = i16 x ∧ content b2 = []) ∧
  wp (let! b1 := appendInt8 x b in readInt8 b1) (λ '(v, b2), v = i8 x ∧ content b2 = []).
Proof.
  intros b x Hb Hc Hf.
  rewrite appendInt64_eq, appendInt32_eq, appendInt16_eq, appendInt8_eq.
  split_and!.
  - apply (append_then_read 8 peekInt64); auto using peekInt64_val with lia.
  - apply (append_then_read 4 peekInt32); auto using peekInt32_val with lia.
  - apply (append_then_read 2 peekInt16); auto using peekInt16_val with lia.
  - apply (append_then_read 1 peekInt8); auto using peekInt8_val with lia.
Qed.

Lemma append_read_int_witness :
  wp (let! b1 := appendInt64 (-3) demo in readInt64 b1) (λ '(v, b2), v = -3 ∧ content b2 = []).
Proof.
  refine (proj1 (append_read_int demo (-3) demo_wf eq_refl _)).
  vm_compute. congruence.
Defined.

(** Reading from a socket appends exactly the bytes the kernel delivered,
    in order and across the boundary between the buffer and [extrabuf]; a failed
    read reports the errno and leaves the buffer as it was. *)
Theorem readFd_delivers :
  ∀ readv b, wf b →
  match readv (readFd_capacity b) with
  | inl errno => readFd readv b = Ok (-1, Some errno, b)
  | inr data =>
      zlen data ≤ readFd_capacity b → fits (zlen data) b →
      wp (readFd readv b) (λ '(n, e, b'),
        n = zlen data ∧ e = None ∧ wf b' ∧ content b' = content b ++ data)
  end.
Proof.
  intros readv b Hb. destruct (readv _) as [e|data] eqn:E; [by apply readFd_error|].
  intros Hc Hf. eapply wp_mono; [by apply (readFd_spec readv b data)|].
  intros [[n e] b'] (?&?&?&?&?). done.
Qed.

Lemma readFd_delivers_witness :
  wp (readFd (λ _, inr (str "spills over the tail")) demo) (λ '(n, e, b'),
    n = 20 ∧ e = None ∧ wf b' ∧ content b' = str "spills over the tail").
Proof.
  refine (readFd_delivers (λ _, inr (str "spills over the tail")) demo demo_wf _ _);
    vm_compute; congruence.
Defined.

(** [findCRLF] returns the first line end of the content: the bytes at the
    returned position are CR LF and no earlier position starts one; NULL means
    that the content has none. *)
Theorem findCRLF_first :
  ∀ b, wf b →
  match findCRLF b with
  | Some p => ∃ rest, content b = ztake (p - peek b) (content b) ++ kCRLF ++ rest ∧
      peek b ≤ p ∧ p + 2 ≤ beginWrite b ∧
      ∀ j, Z.of_nat j < p - peek b → prefix kCRLF (drop j (content b)) = false
  | None => ∀ j, prefix kCRLF (drop j (content b)) = false
  end.
Proof.
  intros b Hb. rewrite findCRLF_content by done.
  pose proof (readableBytes_content b Hb) as Hr. rewrite readableBytes_wf in Hr by done.
  destruct (find_crlf (content b)) as [i|] eqn:E; simpl; [|by apply find_crlf_none].
  apply find_crlf_some in E as (H1 & H2 & H3 & H4).
  replace (peek b + i - peek b) with i by lia.
  exists (zdrop (i + 2) (content b)). unfold peek, beginWrite. split_and!; [done|lia|lia|done].
Qed.

Lemma findCRLF_first_witness : wf demo ∧ ∀ j, prefix kCRLF (drop j (content demo)) = false.
Proof. split; [exact demo_wf|exact (findCRLF_first demo demo_wf)]. Defined.

End Buffer.
