(* ===== verification/Zlib.v ===== *)
(** Compressing output streams ([netLayer/ZlibStream.h], [base/Types.h]).

    zlib is a library: [deflate] and [deflateEnd] are arguments, with what the manual says
    of them as a class of laws.  The stream keeps a [z_stream], which points into the bytes
    the caller gave, and an output [Buffer] that grows with the compressed bytes. *)

From S2P Require Import Prelude Buffer StringPiece.

Module Zlib.
Import Buffer.

(** ** zlib *)

Definition Z_OK : Z := 0.
Definition Z_STREAM_END : Z := 1.
Definition Z_NO_FLUSH : Z := 0.
Definition Z_FINISH : Z := 4.

(** A pointer: null, into an object, or one that [memset] made. *)
Inductive pointer := Null | At (object : bytes) (off : Z) | Wild.

#[global] Instance pointer_eq_dec : EqDecision pointer.
Proof. solve_decision. Defined.

Definition advance (n : Z) (p : pointer) : pointer :=
  match p with At o a => At o (a + n) | _ => p end.

Section zlib.

(** The state behind [z_stream::state] and the functions on it: [deflate state input
    avail_out flush] gives the code, the new state, how many bytes it took and the bytes it
    made. *)
Context {D : Type} (d0 : D) (deflate : D → bytes → Z → Z → Z * D * Z * bytes) (deflateEnd : D → Z).

Record z_stream := mkZ {
  next_in : pointer;
  avail_in : Z;
  zalloc : pointer;
  state : D;
}.

(** [memZero] of [base/Types.h] fills with ones. *)
Definition memZero_stream : z_stream := mkZ Wild (2 ^ 32 - 1) Wild d0.

(** What its name promises. *)
Definition zero_stream : z_stream := mkZ Null 0 Null d0.

(** [deflateInit] calls [zalloc] unless it is null. *)
Definition deflateInit (z : z_stream) : res (Z * z_stream) :=
  match zalloc z with
  | Null => Ok (Z_OK, mkZ (next_in z) (avail_in z) Null d0)
  | _ => Err UseAfterFree
  end.

(** The bytes that [next_in] and [avail_in] give. *)
Definition input_of (z : z_stream) : res bytes :=
  if avail_in z =? 0 then Ok []
  else match next_in z with
       | At o a => if (0 <=? a) && (a + avail_in z <=? zlen o) then Ok (ztake (avail_in z) (zdrop a o)) else Err OutOfRange
       | _ => Err OutOfRange
       end.

(** ** The stream *)

Record ZlibOutputStream := mkStream {
  output_ : Buffer;
  zstream_ : z_stream;
  zerror_ : Z;
  bufferSize_ : Z;
}.

Definition set_zerror (e : Z) (s : ZlibOutputStream) : ZlibOutputStream :=
  mkStream (output_ s) (zstream_ s) e (bufferSize_ s).

Definition set_next_in (p : pointer) (s : ZlibOutputStream) : ZlibOutputStream :=
  mkStream (output_ s) (mkZ p (avail_in (zstream_ s)) (zalloc (zstream_ s)) (state (zstream_ s))) (zerror_ s) (bufferSize_ s).

Definition point_to (p : pointer) (n : Z) (s : ZlibOutputStream) : ZlibOutputStream :=
  mkStream (output_ s) (mkZ p n (zalloc (zstream_ s)) (state (zstream_ s))) (zerror_ s) (bufferSize_ s).

(** The constructor, for the memory [z] that [memZero] leaves. *)
Definition construct (z : z_stream) (output : Buffer) : res ZlibOutputStream :=
  let! (e, z) := deflateInit z in Ok (mkStream output z e 1024).

Definition new_ZlibOutputStream : Buffer → res ZlibOutputStream := construct memZero_stream.

(** [compress(flush)]: the code of [deflate], which the caller puts into [zerror_]. *)
Definition compress (flush : Z) (s : ZlibOutputStream) : res (Z * ZlibOutputStream) :=
  let! b := ensureWritableBytes (bufferSize_ s) (output_ s) in
  let avail_out := u32 (i32 (writableBytes b)) in
  let! input := input_of (zstream_ s) in
  let '(error, d, n, out) := deflate (state (zstream_ s)) input avail_out flush in
  let z := mkZ (advance n (next_in (zstream_ s))) (avail_in (zstream_ s) - n) (zalloc (zstream_ s)) d in
  let b := mkBuffer (write_at (writerIndex_ b) out (buffer_ b)) (readerIndex_ b) (writerIndex_ b) in
  let! b := hasWritten (u64 (writableBytes b - (avail_out - zlen out))) b in
  let size := if (writableBytes b =? 0) && (bufferSize_ s <? 65536) then bufferSize_ s *i 2 else bufferSize_ s in
  Ok (error, mkStream b z (zerror_ s) size).

Definition compress_and_set (flush : Z) (s : ZlibOutputStream) : res ZlibOutputStream :=
  let! (e, s) := compress flush s in Ok (set_zerror e s).

Fixpoint write_loop (fuel : nat) (s : ZlibOutputStream) : res ZlibOutputStream :=
  if (0 <? avail_in (zstream_ s)) && (zerror_ s =? Z_OK) then
    match fuel with
    | O => Err OutOfFuel
    | S fuel => let! s := compress_and_set Z_NO_FLUSH s in write_loop fuel s
    end
  else Ok s.

Definition data_of (p : StringPiece.StringPiece) : pointer :=
  match StringPiece.ptr_ p with None => Null | Some a => At (StringPiece.object p) a end.

(** [write(StringPiece)]. *)
Definition write (fuel : nat) (buf : StringPiece.StringPiece) (s : ZlibOutputStream) : res (bool * ZlibOutputStream) :=
  if negb (zerror_ s =? Z_OK) then Ok (false, s)
  else
    assert! bool_decide (next_in (zstream_ s) = Null) && (avail_in (zstream_ s) =? 0) in
    let! s := write_loop fuel (point_to (data_of buf) (u32 (StringPiece.size buf)) s) in
    let! s := (if avail_in (zstream_ s) =? 0 then
                 assert! bool_decide (next_in (zstream_ s) = advance (StringPiece.size buf) (data_of buf)) in
                 Ok (set_next_in Null s)
               else Ok s) in
    Ok (zerror_ s =? Z_OK, s).

(** [write(Buffer* )]: one call of [compress], and what it took leaves the buffer. *)
Definition write_buffer (input : Buffer) (s : ZlibOutputStream) : res (bool * Buffer * ZlibOutputStream) :=
  if negb (zerror_ s =? Z_OK) then Ok (false, input, s)
  else
    let s := point_to (At (buffer_ input) (peek input)) (u32 (i32 (readableBytes input))) s in
    let! s := (if (0 <? avail_in (zstream_ s)) && (zerror_ s =? Z_OK) then compress_and_set Z_NO_FLUSH s else Ok s) in
    let! input := retrieve (u64 (readableBytes input - avail_in (zstream_ s))) input in
    Ok (zerror_ s =? Z_OK, input, s).

Fixpoint finish_loop (fuel : nat) (s : ZlibOutputStream) : res ZlibOutputStream :=
  if zerror_ s =? Z_OK then
    match fuel with
    | O => Err OutOfFuel
    | S fuel => let! s := compress_and_set Z_FINISH s in finish_loop fuel s
    end
  else Ok s.

(** [finish()], which the destructor calls again. *)
Definition finish (fuel : nat) (s : ZlibOutputStream) : res (bool * ZlibOutputStream) :=
  if negb (zerror_ s =? Z_OK) then Ok (false, s)
  else
    let! s := finish_loop fuel s in
    let e := deflateEnd (state (zstream_ s)) in
    Ok (e =? Z_OK, set_zerror Z_STREAM_END s).

(** A client: pieces one after the other. *)
Fixpoint write_pieces (fuel : nat) (ps : list StringPiece.StringPiece) (s : ZlibOutputStream) : res (bool * ZlibOutputStream) :=
  match ps with
  | [] => Ok (true, s)
  | p :: ps => let! (ok, s) := write fuel p s in if ok : bool then write_pieces fuel ps s else Ok (false, s)
  end.

(** ** What the manual says of [deflate]

    [fed] and [made] are the bytes a state has taken and made; [bound] is [deflateBound]. *)
Record deflate_laws (valid : D → Prop) (fed made : D → bytes) (ended : D → bool)
    (bound : Z → Z) (inflates : bytes → bytes → Prop) : Prop := {
  law_init : valid d0 ∧ fed d0 = [] ∧ made d0 = [] ∧ ended d0 = false;
  (** It goes on until the input is used up or the output is full, and with [Z_FINISH] until
      the stream is complete. *)
  law_step d input room flush :
    valid d → ended d = false → 0 < room →
    (flush = Z_NO_FLUSH ∧ input ≠ [] ∨ flush = Z_FINISH) →
    let '(code, d', n, out) := deflate d input room flush in
    valid d' ∧ 0 ≤ n ≤ zlen input ∧ zlen out ≤ room ∧
    fed d' = fed d ++ ztake n input ∧ made d' = made d ++ out ∧
    (code = Z_OK ∧ ended d' = false ∧ (flush = Z_NO_FLUSH ∧ n = zlen input ∨ zlen out = room) ∨
     code = Z_STREAM_END ∧ ended d' = true ∧ flush = Z_FINISH ∧ n = zlen input);
  (** A complete stream gives its input back when it is inflated. *)
  law_end d : valid d → ended d = true → inflates (made d) (fed d) ∧ deflateEnd d = Z_OK;
  law_bound d : valid d → zlen (made d) ≤ bound (zlen (fed d));
  law_mono n m : n ≤ m → bound n ≤ bound m;
}.

End zlib.
Arguments z_stream D : clear implicits.
Arguments ZlibOutputStream D : clear implicits.

(** As the code is written no stream can be made. *)
Lemma constructor_crashes {D} (d0 : D) output : new_ZlibOutputStream d0 output = Err UseAfterFree.
Proof. done. Qed.

(** ** Streams *)

(** Where the output buffer is after [ensureWritableBytes]. *)
Lemma ensure_room len b :
  wf b → 0 ≤ len → fits len b →
  wp (ensureWritableBytes len b) (λ b', wf b' ∧ content b' = content b ∧ writerIndex_ b' ≤ writerIndex_ b ∧
    len ≤ writableBytes b' ∧ zlen (buffer_ b') ≤ Z.max (zlen (buffer_ b)) (writerIndex_ b + len)).
Proof.
  intros Hb Hl Hf. destruct (wp_elim _ _ (ensureWritableBytes_spec _ _ Hb Hl Hf)) as (b' & E & ? & ? & ? & ?).
  rewrite E. cbn [wp]. split_and!; [done..|]. unfold ensureWritableBytes in E.
  destruct (writableBytes b <? len) eqn:Ew.
  - unfold makeSpace in E. destruct (_ <? _) in E.
    + unfold resize in E. destruct (max_size <? _) eqn:Em; [done|]. cbn [res_bind] in E.
      destruct (len <=? _) in E; [|done]. injection E as <-. bool_prop. cbn [buffer_].
      unfold fits in Hf. rewrite u64_small by buf_arith.
      rewrite length_app, length_replicate. unfold ztake. rewrite length_take. lia.
    + destruct (kCheapPrepend <? _) eqn:Ek; [|done]. cbn zeta in E. destruct (readableBytes b =? _) in E; [|done].
      cbn [res_bind] in E. destruct (len <=? _) in E; [|done]. injection E as <-. bool_prop. cbn [buffer_].
      rewrite length_write_at; [lia|unfold kCheapPrepend; lia|].
      pose proof (readableBytes_content _ Hb) as Hc. rewrite readableBytes_wf in Hc by done.
      unfold content in Hc. rewrite <- Hc. buf_arith.
  - cbn [res_bind] in E. destruct (len <=? _) in E; [|done]. injection E as <-. lia.
Qed.

(** Bytes that are put behind the writer index become content. *)
Lemma deposit out b :
  wf b → zlen out ≤ writableBytes b →
  let b2 := mkBuffer (write_at (writerIndex_ b) out (buffer_ b)) (readerIndex_ b) (writerIndex_ b) in
  writableBytes b2 = writableBytes b ∧
  wp (hasWritten (zlen out) b2) (λ b3, wf b3 ∧ content b3 = content b ++ out ∧
    writerIndex_ b3 = writerIndex_ b + zlen out ∧ zlen (buffer_ b3) = zlen (buffer_ b)).
Proof.
  intros Hb Ho b2. rewrite writableBytes_wf in Ho by done.
  assert (zlen (buffer_ b2) = zlen (buffer_ b)) as Hlen by (unfold b2; cbn [buffer_]; rewrite length_write_at; buf_arith).
  assert (wf b2) as Hwf2 by (unfold wf; rewrite Hlen; unfold b2; buf_arith).
  assert (writableBytes b2 = writableBytes b) as Hw by (rewrite !writableBytes_wf by done; by rewrite Hlen).
  split; [done|]. unfold hasWritten. rewrite Hw, writableBytes_wf, (proj2 (Z.leb_le _ _)) by done. cbn [wp writerIndex_ b2].
  rewrite u64_small by buf_arith. cbn [writerIndex_ buffer_ readerIndex_ b2]. split_and!; [|by apply slice_write_end; buf_arith|done|done].
  unfold b2 in Hlen. unfold wf. cbn [buffer_ readerIndex_ writerIndex_] in *. rewrite Hlen. buf_arith.
Qed.

(** The sizes that doubling goes through. *)
Definition sizes : list Z := [1024; 2048; 4096; 8192; 16384; 32768; 65536].

Lemma sizes_range n : n ∈ sizes → 1024 ≤ n ≤ 65536.
Proof. revert n. apply Forall_forall. unfold sizes. repeat constructor; lia. Qed.

Lemma sizes_double n : n ∈ sizes → n < 65536 → n *i 2 ∈ sizes.
Proof.
  revert n. apply (Forall_forall (λ n, n < 65536 → n *i 2 ∈ sizes)).
  repeat constructor; intros; apply (bool_decide_unpack _); try lia; by vm_compute.
Qed.

Section streams.
Context {D : Type} (d0 : D) (deflate : D → bytes → Z → Z → Z * D * Z * bytes) (deflateEnd : D → Z).
Context (valid : D → Prop) (fed made : D → bytes) (ended : D → bool) (bound : Z → Z) (inflates : bytes → bytes → Prop).
Hypothesis laws : deflate_laws d0 deflate deflateEnd valid fed made ended bound inflates.

(** The buffer the stream was given, and how much will be written into the stream. *)
Context (b0 : Buffer) (total : Z).
Hypothesis b0_wf : wf b0.
Hypothesis b0_room : zlen (buffer_ b0) < 2 ^ 31 ∧ writerIndex_ b0 + bound total + 65536 < 2 ^ 31.

Abbreviation zstate s := (state (zstream_ s)).

(** The stream between two calls of [deflate]. *)
Record inv (s : ZlibOutputStream D) : Prop := {
  v_valid : valid (zstate s);
  v_wf : wf (output_ s);
  v_content : content (output_ s) = content b0 ++ made (zstate s);
  v_writer : writerIndex_ (output_ s) ≤ writerIndex_ b0 + zlen (made (zstate s));
  v_size : zlen (buffer_ (output_ s)) ≤ Z.max (zlen (buffer_ b0)) (writerIndex_ b0 + bound total + 65536);
  v_fed : zlen (fed (zstate s)) ≤ total;
  v_buffer : bufferSize_ s ∈ sizes;
}.

Lemma made_bound s : inv s → zlen (made (zstate s)) ≤ bound total.
Proof.
  intros Hi. etransitivity; [apply (law_bound _ _ _ _ _ _ _ _ _ laws), Hi|].
  by apply (law_mono _ _ _ _ _ _ _ _ _ laws), v_fed.
Qed.

(** One call of [compress]. *)
Definition compressed (flush : Z) (input : bytes) (s : ZlibOutputStream D) (r : Z * ZlibOutputStream D) : Prop :=
  let '(code, s') := r in
  ∃ n, inv s' ∧ 0 ≤ n ≤ zlen input ∧ zerror_ s' = zerror_ s ∧
    next_in (zstream_ s') = advance n (next_in (zstream_ s)) ∧ avail_in (zstream_ s') = avail_in (zstream_ s) - n ∧
    fed (zstate s') = fed (zstate s) ++ ztake n input ∧
    (code = Z_OK ∧ ended (zstate s') = false ∧
       (flush = Z_NO_FLUSH ∧ n = zlen input ∨ zlen (made (zstate s)) + 1024 ≤ zlen (made (zstate s'))) ∨
     code = Z_STREAM_END ∧ ended (zstate s') = true ∧ flush = Z_FINISH ∧ n = zlen input).

Lemma compress_spec flush input s :
  inv s → ended (zstate s) = false → input_of (zstream_ s) = Ok input →
  zlen (fed (zstate s)) + zlen input ≤ total → (flush = Z_NO_FLUSH ∧ input ≠ [] ∨ flush = Z_FINISH) →
  wp (compress deflate flush s) (compressed flush input s).
Proof.
  intros Hi He Hin Ht Hfl. pose proof (made_bound _ Hi) as Hmb. destruct Hi as [Hv Hwf Hc Hw Hs Hf Hbs]. pose proof (sizes_range _ Hbs) as Hb.
  unfold compress. eapply wp_bind.
  { apply ensure_room; [done|lia|]. unfold fits, max_size. lia. }
  intros b (Hb1 & Hc1 & Hw1 & Hr1 & Hl1). cbn beta zeta. rewrite Hin. cbn [res_bind].
  rewrite writableBytes_wf in * by done.
  assert (u32 (i32 (zlen (buffer_ b) - writerIndex_ b)) = zlen (buffer_ b) - writerIndex_ b) as ->.
  { rewrite i32_small by buf_arith. apply uwrap_small. buf_arith. }
  pose proof (law_step _ _ _ _ _ _ _ _ _ laws (zstate s) input (zlen (buffer_ b) - writerIndex_ b) flush Hv He ltac:(lia) Hfl) as Hd.
  destruct (deflate _ _ _ _) as [[[code d'] n] out]. destruct Hd as (Hv' & Hn & Ho & Hfed & Hmade & Hcode).
  destruct (deposit out b Hb1) as [Hw2 Hdep]; [rewrite writableBytes_wf by done; lia|]. rewrite Hw2, writableBytes_wf by done.
  assert (u64 (zlen (buffer_ b) - writerIndex_ b - (zlen (buffer_ b) - writerIndex_ b - zlen out)) = zlen out) as ->
    by (rewrite u64_small; buf_arith).
  eapply wp_bind; [exact Hdep|]. intros b3 (Hwf3 & Hc3 & Hw3 & Hb3). cbn [wp compressed]. exists n.
  split_and!; try done; try lia.
  - constructor; cbn [zstream_ state output_ bufferSize_]; try done.
    + by rewrite Hc3, Hc1, Hc, Hmade, app_assoc.
    + rewrite Hw3, Hmade, length_app. lia.
    + lia.
    + rewrite Hfed, length_app, Nat2Z.inj_add, length_ztake; lia.
    + destruct (_ && _) eqn:E; [|done]. bool_prop. by apply sizes_double.
  - cbn [zstream_ state]. rewrite Hmade, length_app, Nat2Z.inj_add.
    destruct Hcode as [(? & ? & [?|E])|?]; [left|left|by right]; split_and!; try done; [by left|right]. idtac. lia.
Qed.

(** *** Input *)

Lemma input_length (z : z_stream D) input : input_of z = Ok input → 0 ≤ avail_in z → zlen input = avail_in z.
Proof.
  unfold input_of. destruct (Z.eqb_spec (avail_in z) 0) as [E|_]; [by intros [= <-] _; rewrite E|].
  destruct (next_in z) as [|o a|]; try done. destruct (_ && _) eqn:E; [|done]. intros [= <-] H. bool_prop.
  apply length_ztake. rewrite length_zdrop by lia. lia.
Qed.

Lemma input_advance (z : z_stream D) n input za (d : D) :
  input_of z = Ok input → 0 ≤ avail_in z → 0 ≤ n ≤ zlen input →
  input_of (mkZ (advance n (next_in z)) (avail_in z - n) za d) = Ok (zdrop n input).
Proof.
  intros Hi Ha Hn. pose proof (input_length _ _ Hi Ha) as Hl. unfold input_of in *. cbn [next_in avail_in].
  destruct (Z.eqb_spec (avail_in z) 0) as [E|_].
  - injection Hi as <-. assert (n = 0) as -> by (cbn in Hn; lia). by rewrite E.
  - destruct (next_in z) as [|o a|]; try done. cbn [advance]. destruct (_ && _) eqn:E in Hi; [|done].
    injection Hi as <-. bool_prop. destruct (Z.eqb_spec (avail_in z - n) 0) as [Ez|_].
    + rewrite zdrop_all; [done|]. lia.
    + rewrite (proj2 (Z.leb_le 0 (a + n))), (proj2 (Z.leb_le (a + n + (avail_in z - n)) (zlen o))) by lia. cbn [andb].
      rewrite <- zdrop_zdrop by lia. unfold ztake, zdrop. rewrite skipn_firstn_comm. do 2 f_equal. lia.
Qed.

Lemma piece_input p (d : D) : StringPiece.ok p → input_of (mkZ (data_of p) (StringPiece.size p) Null d) = Ok (StringPiece.view p).
Proof.
  intros [Hs Hp]. unfold input_of, data_of, StringPiece.view, StringPiece.size. cbn [next_in avail_in].
  destruct (StringPiece.ptr_ p) as [a|]; [|by rewrite Hp].
  destruct (Z.eqb_spec (StringPiece.length_ p) 0) as [->|_]; [done|].
  by rewrite (proj2 (Z.leb_le 0 a)), (proj2 (Z.leb_le _ (zlen (StringPiece.object p)))) by lia.
Qed.

(** *** The loops *)

(** Between two calls of the program. *)
Record idle (s : ZlibOutputStream D) : Prop := {
  d_inv : inv s;
  d_open : ended (zstate s) = false;
  d_ok : zerror_ s = Z_OK;
  d_next : next_in (zstream_ s) = Null;
  d_avail : avail_in (zstream_ s) = 0;
}.

Lemma compress_and_set_spec flush input s :
  inv s → ended (zstate s) = false → input_of (zstream_ s) = Ok input →
  zlen (fed (zstate s)) + zlen input ≤ total → (flush = Z_NO_FLUSH ∧ input ≠ [] ∨ flush = Z_FINISH) →
  wp (compress_and_set deflate flush s) (λ s', compressed flush input s (zerror_ s', set_zerror (zerror_ s) s')).
Proof.
  intros Hi He Hin Ht Hf. unfold compress_and_set.
  destruct (wp_elim _ _ (compress_spec _ _ _ Hi He Hin Ht Hf)) as ([e s'] & -> & Hc). cbn [res_bind wp].
  destruct Hc as (n & ? & ? & Hz & Hrest). exists n. destruct s'. cbn in *. subst. done.
Qed.

Lemma advance_advance n m p : advance m (advance n p) = advance (n + m) p.
Proof. destruct p as [|o a|]; cbn; [done| |done]. by rewrite Z.add_assoc. Qed.

Lemma advance_0 p : advance 0 p = p.
Proof. destruct p as [|o a|]; cbn; [done| |done]. by rewrite Z.add_0_r. Qed.

Lemma inv_zerror e s : inv (set_zerror e s) → inv s.
Proof. by intros []. Qed.

Lemma write_loop_spec fuel s input :
  inv s → ended (zstate s) = false → zerror_ s = Z_OK → 0 ≤ avail_in (zstream_ s) →
  input_of (zstream_ s) = Ok input → zlen (fed (zstate s)) + zlen input ≤ total →
  avail_in (zstream_ s) = 0 ∨ bound total - zlen (made (zstate s)) < Z.of_nat fuel →
  wp (write_loop deflate fuel s) (λ s', inv s' ∧ ended (zstate s') = false ∧ zerror_ s' = Z_OK ∧
    avail_in (zstream_ s') = 0 ∧ next_in (zstream_ s') = advance (zlen input) (next_in (zstream_ s)) ∧
    fed (zstate s') = fed (zstate s) ++ input).
Proof.
  revert s input. induction fuel as [|fuel IH]; intros s input Hi He Hz Ha Hin Ht Hfuel;
    pose proof (input_length _ _ Hin Ha) as Hl; cbn [write_loop]; rewrite Hz, Z.eqb_refl, andb_true_r;
    (destruct (Z.ltb_spec 0 (avail_in (zstream_ s))) as [Hpos|Hzero];
     [|assert (input = []) as -> by (apply nil_length_inv; lia); cbn [wp]; rewrite app_nil_r, advance_0; split_and!; [done..|lia|done|done]]).
  { pose proof (made_bound _ Hi). lia. }
  assert (input ≠ []) as Hne by (intros ->; cbn in Hl; lia).
  destruct (wp_elim _ _ (compress_and_set_spec Z_NO_FLUSH input s Hi He Hin Ht (or_introl (conj eq_refl Hne)))) as (s1 & -> & Hc).
  cbn [res_bind]. destruct Hc as (n & Hi1%inv_zerror & Hn & _ & Hnx & Hav & Hfed & [(Ez & He1 & Hp)|(_ & _ & F & _)]); [|done].
  cbn [zstream_ set_zerror] in *.
  assert (input_of (zstream_ s1) = Ok (zdrop n input)) as Hin1.
  { pose proof (input_advance _ n input (zalloc (zstream_ s1)) (zstate s1) Hin Ha Hn) as H. rewrite <- Hnx, <- Hav in H.
    by destruct (zstream_ s1). }
  assert (fed (zstate s1) ++ zdrop n input = fed (zstate s) ++ input) as Ef by (rewrite Hfed, <- app_assoc; by rewrite ztake_zdrop).
  pose proof (length_zdrop n input Hn) as Hlz.
  eapply wp_mono; [apply (IH s1 (zdrop n input)); try done; [lia| |]|].
  - apply (f_equal length) in Ef. rewrite !length_app in Ef. lia.
  - destruct Hp as [[_ Hall]|Hp]; [left; lia|right]. lia.
  - intros s' (? & ? & ? & ? & Hnx' & Hfed'). split_and!; [done..| |congruence].
    rewrite Hnx', Hnx, advance_advance, Hlz. f_equal. lia.
Qed.

Lemma finish_loop_spec fuel s :
  inv s → ended (zstate s) = false → zerror_ s = Z_OK → avail_in (zstream_ s) = 0 →
  bound total - zlen (made (zstate s)) < Z.of_nat fuel →
  wp (finish_loop deflate fuel s) (λ s', inv s' ∧ ended (zstate s') = true ∧ fed (zstate s') = fed (zstate s)).
Proof.
  revert s. induction fuel as [|fuel IH]; intros s Hi He Hz Ha Hfuel; cbn [finish_loop]; rewrite Hz; cbn [Z.eqb Z_OK].
  { pose proof (made_bound _ Hi). lia. }
  assert (input_of (zstream_ s) = Ok []) as Hin by (unfold input_of; by rewrite Ha).
  destruct (wp_elim _ _ (compress_and_set_spec Z_FINISH [] s Hi He Hin ltac:(cbn; pose proof (v_fed _ Hi); lia) ltac:(by right))) as (s1 & -> & Hc).
  cbn [res_bind]. destruct Hc as (n & Hi1%inv_zerror & Hn & _ & _ & Hav & Hfed & Hcase). cbn in Hn.
  assert (n = 0) as -> by lia. cbn [zstream_ set_zerror] in *. rewrite app_nil_r in Hfed.
  destruct Hcase as [(Ez & He1 & [[F _]|Hp])|(Ez & He1 & _ & _)]; [done| |].
  - eapply wp_mono; [apply IH; try done; lia|]. intros s' (? & ? & ?). split_and!; [done..|congruence].
  - destruct fuel; cbn [finish_loop]; rewrite Ez; done.
Qed.

(** *** The calls of the program *)

(** Enough for the bytes that can come out. *)
Definition enough (fuel : nat) : Prop := bound total < Z.of_nat fuel.

Lemma write_spec fuel p s :
  idle s → StringPiece.ok p → zlen (fed (zstate s)) + zlen (StringPiece.view p) ≤ total → enough fuel →
  wp (write deflate fuel p s) (λ '(ok, s'), ok = true ∧ idle s' ∧ fed (zstate s') = fed (zstate s) ++ StringPiece.view p).
Proof.
  intros [Hi He Hz Hnx Hav] Hp Ht Hf. unfold write. rewrite Hz, Hnx, Hav. cbn [Z.eqb negb Z_OK andb].
  rewrite bool_decide_true by done. cbn [andb].
  pose proof (StringPiece.ok_size _ Hp) as Hsz. pose proof (StringPiece.view_length _ Hp) as Hlen.
  assert (u32 (StringPiece.size p) = StringPiece.size p) as -> by (apply uwrap_small; unfold StringPiece.size; lia).
  set (s0 := point_to _ _ _).
  assert (input_of (zstream_ s0) = Ok (StringPiece.view p)) as Hin.
  { exact (piece_input p (zstate s) Hp). }
  eapply wp_bind.
  { apply (write_loop_spec fuel s0 (StringPiece.view p)); try done; [by destruct Hi|cbn; unfold StringPiece.size; lia|].
    right. unfold enough in Hf. unfold s0. cbn [zstream_ state point_to]. lia. }
  intros s1 (Hi1 & He1 & Hz1 & Hav1 & Hnx1 & Hfed1). rewrite Hav1. cbn [Z.eqb]. cbn [next_in zstream_ s0 point_to] in Hnx1.
  rewrite Hnx1. unfold StringPiece.size. rewrite <- Hlen, bool_decide_true by done. cbn [res_bind wp zerror_ set_next_in].
  rewrite Hz1. split_and!; [done| |done]. by constructor; destruct Hi1.
Qed.

Lemma finish_spec fuel s :
  idle s → enough fuel →
  wp (finish deflate deflateEnd fuel s) (λ '(ok, s'), ok = true ∧ zerror_ s' = Z_STREAM_END ∧ wf (output_ s') ∧
    ∃ z, content (output_ s') = content b0 ++ z ∧ inflates z (fed (zstate s))).
Proof.
  intros [Hi He Hz Hnx Hav] Hf. unfold finish. rewrite Hz. cbn [Z.eqb negb Z_OK].
  eapply wp_bind; [apply finish_loop_spec; try done; unfold enough in Hf; lia|].
  intros s1 (Hi1 & He1 & Hfed). destruct (law_end _ _ _ _ _ _ _ _ _ laws _ (v_valid _ Hi1) He1) as [Hinf Hend].
  cbn [wp]. rewrite Hend. split_and!; [done..|apply (v_wf _ Hi1)|]. exists (made (zstate s1)).
  split; [apply (v_content _ Hi1)|]. by rewrite <- Hfed.
Qed.

Lemma write_pieces_spec fuel ps s :
  idle s → Forall StringPiece.ok ps → zlen (fed (zstate s)) + zlen (concat (map StringPiece.view ps)) ≤ total → enough fuel →
  wp (write_pieces deflate fuel ps s) (λ '(ok, s'), ok = true ∧ idle s' ∧ fed (zstate s') = fed (zstate s) ++ concat (map StringPiece.view ps)).
Proof.
  revert s. induction ps as [|p ps IH]; intros s Hi Hps Ht Hf; cbn [write_pieces map concat].
  { cbn. by rewrite app_nil_r. }
  apply Forall_cons in Hps as [Hp Hps]. cbn [map concat] in Ht. rewrite length_app in Ht.
  eapply wp_bind; [apply write_spec; try done; lia|]. intros [ok s1] (-> & Hi1 & Hfed).
  eapply wp_mono; [apply IH; try done|].
  - apply (f_equal length) in Hfed. rewrite length_app in Hfed. lia.
  - intros [ok2 s2] (-> & ? & Hfed2). split_and!; [done..|]. by rewrite Hfed2, Hfed, app_assoc.
Qed.

Lemma open_idle : 0 ≤ total → wp (construct d0 (zero_stream d0) b0) (λ s, idle s ∧ fed (zstate s) = []).
Proof.
  intros Ht. destruct (law_init _ _ _ _ _ _ _ _ _ laws) as (Hv & Hfd & Hm & He).
  cbn. split; [|done]. constructor; cbn; try done. constructor; cbn; try done.
  - by rewrite Hm, app_nil_r.
  - rewrite Hm. cbn. lia.
  - pose proof (law_bound _ _ _ _ _ _ _ _ _ laws _ Hv) as Hb. rewrite Hfd, Hm in Hb. cbn in Hb. lia.
  - by rewrite Hfd.
  - by left.
Qed.

(** [write(Buffer* )] moves a prefix of the buffer into the stream: all of it, unless the
    output was full. *)
Lemma write_buffer_spec input s :
  idle s → wf input → zlen (buffer_ input) < 2 ^ 31 → zlen (fed (zstate s)) + zlen (content input) ≤ total →
  wp (write_buffer deflate input s) (λ '(ok, input', s'), ok = true ∧ inv s' ∧ ended (zstate s') = false ∧ wf input' ∧
    fed (zstate s') ++ content input' = fed (zstate s) ++ content input ∧
    (content input' = [] ∨ zlen (made (zstate s)) + 1024 ≤ zlen (made (zstate s')))).
Proof.
  intros [Hi He Hz Hnx Hav] Hw Hlt Ht. unfold write_buffer. rewrite Hz. cbn [Z.eqb negb Z_OK].
  pose proof (readableBytes_content _ Hw) as Hrc. pose proof Hrc as Hrw. rewrite readableBytes_wf in Hrw by done.
  assert (u32 (i32 (readableBytes input)) = zlen (content input)) as ->.
  { rewrite Hrc, i32_small by buf_arith. apply uwrap_small. buf_arith. }
  set (s0 := point_to _ _ _).
  assert (input_of (zstream_ s0) = Ok (content input)) as Hin.
  { unfold input_of, s0. cbn [zstream_ point_to avail_in next_in]. destruct (Z.eqb_spec (zlen (content input)) 0) as [E|_].
    - by rewrite (nil_length_inv (content input)) by lia.
    - unfold peek. rewrite (proj2 (Z.leb_le 0 _)), (proj2 (Z.leb_le _ (zlen (buffer_ input)))) by buf_arith. cbn [andb].
      f_equal. unfold content, slice. do 2 f_equal. unfold content, slice in Hrw. lia. }
  assert (inv s0) as Hi0 by (by destruct Hi). cbn [avail_in zerror_ zstream_ s0 point_to]. fold s0. rewrite Hz. cbn [Z.eqb Z_OK].
  rewrite andb_true_r. destruct (Z.ltb_spec 0 (zlen (content input))) as [Hpos|Hzero].
  - assert (content input ≠ []) as Hne by (intros F; rewrite F in Hpos; cbn in Hpos; lia).
    destruct (wp_elim _ _ (compress_and_set_spec Z_NO_FLUSH _ s0 Hi0 He Hin Ht (or_introl (conj eq_refl Hne)))) as (s1 & -> & Hc).
    destruct Hc as (n & Hi1%inv_zerror & Hn & _ & _ & Hav1 & Hfed & [(Ez & He1 & Hp)|(_ & _ & F & _)]); [|done].
    cbn [zstream_ set_zerror res_bind] in *. cbn [avail_in zstream_ s0 point_to] in Hav1. rewrite Hav1, Hrc.
    assert (u64 (zlen (content input) - (zlen (content input) - n)) = n) as -> by (rewrite u64_small; buf_arith).
    eapply wp_bind; [apply retrieve_spec; [done|lia]|]. intros input' (Hw' & Hc' & _). cbn [wp]. rewrite Ez.
    split_and!; [done..| |].
    + rewrite Hfed, Hc', <- app_assoc. by rewrite ztake_zdrop.
    + destruct Hp as [[_ Hall]|Hp]; [left|by right]. rewrite Hc'. apply zdrop_all. lia.
  - cbn [res_bind avail_in zstream_ s0 point_to]. rewrite Hrc.
    assert (zlen (content input) = 0) as E by lia. rewrite E. change (u64 (0 - 0)) with 0.
    eapply wp_bind; [apply retrieve_spec; [done|rewrite Hrc; lia]|]. intros input' (Hw' & Hc' & _). cbn [wp zerror_ s0 point_to].
    rewrite Hz. rewrite zdrop_0 in Hc'. rewrite Hc'. split_and!; [done..|]. left. by apply nil_length_inv; lia.
Qed.

End streams.

(** The two kinds of [write] cannot be mixed: [write(Buffer* )] leaves [next_in] set, and
    [write(StringPiece)] asserts that it is null. *)
Lemma mixing_aborts {D} (deflate : D → bytes → Z → Z → Z * D * Z * bytes) fuel input input' p s s' :
  write_buffer deflate input s = Ok (true, input', s') → zerror_ s = Z_OK → write deflate fuel p s' = Err AssertFailed.
Proof.
  unfold write_buffer. intros E Hz. rewrite Hz in E. cbn [Z.eqb negb Z_OK] in E. cbn zeta in E.
  set (s0 := point_to _ _ _) in E.
  destruct (if _ : bool then _ else _) as [s1|] eqn:E1 in E; [|done]. cbn [res_bind] in E.
  destruct (retrieve _ _) in E; [|done]. cbn [res_bind] in E. injection E as Ez _ <-. unfold write. rewrite Ez. cbn [negb].
  assert (∃ off, next_in (zstream_ s1) = At (buffer_ input) off) as [off ->]; [|done].
  destruct (_ && _) in E1; [|injection E1 as <-; by eexists].
  unfold compress_and_set, compress in E1. destruct (ensureWritableBytes _ _) in E1; [|done]. cbn [res_bind] in E1.
  destruct (input_of _) in E1; [|done]. cbn [res_bind] in E1. destruct (deflate _ _ _ _) as [[[? ?] n] ?] in E1.
  destruct (hasWritten _ _) in E1; [|done]. cbn [res_bind] in E1. injection E1 as <-. by eexists.
Qed.

(** ** The theorem *)

(** A compressing stream loses nothing: for every [deflate] that works as the manual says,
    any pieces written one after the other and then finished, every call succeeds within a
    number of rounds given by [deflateBound], the output buffer keeps what it held and gets a
    complete stream behind it, and that stream inflates to the pieces put together.  The
    second [finish()], of the destructor, does nothing.  (The stream is the one that [memZero]
    would leave if it filled with zeros.) *)
Theorem zlib_roundtrip {D} (d0 : D) deflate deflateEnd valid fed made ended bound inflates b0 ps fuel :
  deflate_laws d0 deflate deflateEnd valid fed made ended bound inflates →
  wf b0 → Forall StringPiece.ok ps →
  let data := concat (map StringPiece.view ps) in
  zlen (buffer_ b0) < 2 ^ 31 → writerIndex_ b0 + bound (zlen data) + 65536 < 2 ^ 31 → bound (zlen data) < Z.of_nat fuel →
  wp (let! s := construct d0 (zero_stream d0) b0 in
      let! (written, s) := write_pieces deflate fuel ps s in
      let! (finished, s) := finish deflate deflateEnd fuel s in
      let! again := finish deflate deflateEnd fuel s in
      Ok (written, finished, s, again))
    (λ '(written, finished, s, again), written = true ∧ finished = true ∧ wf (output_ s) ∧ again = (false, s) ∧
       ∃ z, content (output_ s) = content b0 ++ z ∧ inflates z data).
Proof.
  intros laws Hb Hps data Hl Hr Hf. assert (0 ≤ zlen data) as H0 by lia.
  eapply wp_bind; [by apply (open_idle _ _ _ _ _ _ _ _ _ laws b0 (zlen data) Hb)|]. intros s1 [Hi1 Hf1].
  eapply wp_bind; [apply (write_pieces_spec _ _ _ _ _ _ _ _ _ laws b0 (zlen data) (conj Hl Hr)); [done..| |done]; by rewrite Hf1|].
  intros [ok s2] (-> & Hi2 & Hf2).
  eapply wp_bind; [by apply (finish_spec _ _ _ _ _ _ _ _ _ laws b0 (zlen data) (conj Hl Hr))|].
  intros [fin s3] (-> & Hz & Hw & z & Hc & Hinf). unfold finish. rewrite Hz. cbn [Z.eqb negb Z_OK Z_STREAM_END res_bind wp].
  split_and!; [done..|]. exists z. split; [done|]. rewrite Hf2, Hf1 in Hinf. exact Hinf.
Qed.

(** *** An instance of the laws: a format without compression *)

Record stored := mkStored { s_data : bytes; s_ended : bool }.

Definition stored_deflate (d : stored) (input : bytes) (room flush : Z) : Z * stored * Z * bytes :=
  let n := Z.min (zlen input) room in
  let all := (flush =? Z_FINISH) && (n =? zlen input) in
  (if all then Z_STREAM_END else Z_OK, mkStored (s_data d ++ ztake n input) all, n, ztake n input).

Definition stored_deflateEnd (d : stored) : Z := if s_ended d then Z_OK else -3.

Lemma stored_laws :
  deflate_laws (mkStored [] false) stored_deflate stored_deflateEnd (λ _, True) s_data s_data s_ended (λ n, n) eq.
Proof.
  constructor; [done| | |intros; lia|done].
  - intros d input room flush _ He Hroom Hfl. unfold stored_deflate. cbn [s_data s_ended].
    rewrite length_ztake by lia. split_and!; try done; try lia.
    destruct (Z.eqb_spec flush Z_FINISH) as [->|Hne]; cbn [andb].
    + destruct (Z.eqb_spec (Z.min (zlen input) room) (zlen input)) as [E|E]; [by right|left; split_and!; [done..|right; lia]].
    + left. split_and!; [done..|]. destruct Hfl as [[-> _]|F]; [|done]. destruct (Z.le_gt_cases (zlen input) room); [left|right]; lia.
  - intros d _ He. unfold stored_deflateEnd. by rewrite He.
Qed.

Definition sample_pieces : list StringPiece.StringPiece := [StringPiece.piece_string (str "long"); StringPiece.piece_string (str "ky")].

Lemma zlib_roundtrip_witness :
  ∃ s, (let! s := construct (mkStored [] false) (zero_stream (mkStored [] false)) demo in
        let! (written, s) := write_pieces stored_deflate 20 sample_pieces s in
        let! (finished, s) := finish stored_deflate stored_deflateEnd 20 s in
        let! again := finish stored_deflate stored_deflateEnd 20 s in
        Ok (written, finished, s, again)) = Ok (true, true, s, (false, s)) ∧
    ∃ z, content (output_ s) = content demo ++ z ∧ z = str "longky".
Proof.
  assert (Forall StringPiece.ok sample_pieces) as Hps.
  { apply Forall_cons; split; [by apply StringPiece.string_ok|]. apply Forall_singleton. by apply StringPiece.string_ok. }
  pose proof (zlib_roundtrip _ _ _ _ _ _ _ _ _ demo sample_pieces 20 stored_laws demo_wf Hps
    ltac:(by vm_compute) ltac:(by vm_compute) ltac:(by vm_compute)) as W.
  destruct (wp_elim _ _ W) as ([[[w f] s] again] & E & -> & -> & _ & -> & z & Hc & Hz). exists s. split; [exact E|].
  exists z. split; [exact Hc|exact Hz].
Defined.

End Zlib.
