(* ===== verification/FastCgi.v ===== *)
(** The FastCGI codec ([cgiServer/fastcgi.h], [cgiServer/fastcgi.cpp]) and the
    request hand-over of the CGI server ([cgiServer/cgiserver.cpp]).

    One [FastCgiCodec] lives in every connection: [parseRequest] eats complete
    records from the connection's input buffer, [onParams]/[onStdin]/
    [onBeginRequest] act on them, and [onMessage] hands the request to the thread
    pool when the empty stdin record has arrived.  The buffers are those of
    [Buffer]; the loops take fuel bounded by the readable bytes (every turn
    consumes at least two, respectively eight, of them).  The specification side
    gives the record stream ([records]) and an encoder of the protocol, against
    which decoding, chunking and the response encoder are proved. *)

From S2P Require Import Prelude Endian Buffer.
Import Endian Buffer.

Module FastCgi.

Definition FCGI_MAX_LENGTH : Z := 65535.

Record RecordHeader := mkHeader {
  version : Z;   (* uint8_t *)
  type : Z;      (* uint8_t *)
  id : Z;        (* uint16_t *)
  length_ : Z;   (* uint16_t *)
  padding : Z;   (* uint8_t *)
  unused : Z;    (* uint8_t *)
}.

(** [sizeof(RecordHeader)]. *)
Definition kRecordHeader : Z := 8.

Definition kFcgiInvalid : Z := 0.
Definition kFcgiBeginRequest : Z := 1.
Definition kFcgiAbortRequest : Z := 2.
Definition kFcgiEndRequest : Z := 3.
Definition kFcgiParams : Z := 4.
Definition kFcgiStdin : Z := 5.
Definition kFcgiStdout : Z := 6.
Definition kFcgiStderr : Z := 7.
Definition kFcgiData : Z := 8.
Definition kFcgiGetValues : Z := 9.
Definition kFcgiGetValuesResult : Z := 10.

Definition kFcgiResponder : Z := 1.
Definition kFcgiAuthorizer : Z := 2.

Definition kFcgiKeepConn : Z := 1.

(** [typedef std::map<std::string, std::string> ParamMap] ([cgiServer/type.h]). *)
Abbreviation ParamMap := (gmap bytes bytes).

Record FastCgiCodec := mkCodec {
  gotRequest_ : bool;
  keepConn_ : bool;
  stdin_ : Buffer;
  paramsStream_ : Buffer;
  params_ : ParamMap;
}.

Definition set_gotRequest (v : bool) (c : FastCgiCodec) : FastCgiCodec :=
  mkCodec v (keepConn_ c) (stdin_ c) (paramsStream_ c) (params_ c).
Definition set_keepConn (v : bool) (c : FastCgiCodec) : FastCgiCodec :=
  mkCodec (gotRequest_ c) v (stdin_ c) (paramsStream_ c) (params_ c).
Definition set_stdin (v : Buffer) (c : FastCgiCodec) : FastCgiCodec :=
  mkCodec (gotRequest_ c) (keepConn_ c) v (paramsStream_ c) (params_ c).
Definition set_paramsStream (v : Buffer) (c : FastCgiCodec) : FastCgiCodec :=
  mkCodec (gotRequest_ c) (keepConn_ c) (stdin_ c) v (params_ c).
Definition set_params (v : ParamMap) (c : FastCgiCodec) : FastCgiCodec :=
  mkCodec (gotRequest_ c) (keepConn_ c) (stdin_ c) (paramsStream_ c) v.

(** The constructor; the two [Buffer]s are default-constructed. *)
Definition new_FastCgiCodec : res FastCgiCodec :=
  let! stdin := new_Buffer kInitialSize in
  let! stream := new_Buffer kInitialSize in
  Ok (mkCodec false false stdin stream ∅).

(** ** Name/value lengths *)

(** [static_cast<uint32_t>(-1)]. *)
Definition kBadLen : Z := u32 (-1).

Definition readLen (s : Buffer) : res (Z * Buffer) :=
  if 1 <=? readableBytes s then
    let! x := peekInt8 s in
    let byte := u8z x in
    if negb (Z.land byte 128 =? 0) then
      if 4 <=? readableBytes s then
        let! (v, s') := readInt32 s in
        Ok (u32 (Z.land v 2147483647), s')
      else Ok (kBadLen, s)
    else
      let! (v, s') := readInt8 s in
      Ok (u32 v, s')
  else Ok (kBadLen, s).

Fixpoint parseAllParams_loop (fuel : nat) (c : FastCgiCodec) : res (bool * FastCgiCodec) :=
  match fuel with
  | O => Err OutOfFuel
  | S fuel =>
      if 0 <? readableBytes (paramsStream_ c) then
        let! (nameLen, s) := readLen (paramsStream_ c) in
        if nameLen =? kBadLen then Ok (false, set_paramsStream s c) else
        let! (valueLen, s) := readLen s in
        if valueLen =? kBadLen then Ok (false, set_paramsStream s c) else
        if u32 (nameLen + valueLen) <=? readableBytes s then
          let! (name, s) := retrieveAsString nameLen s in
          let! (value, s) := retrieveAsString valueLen s in
          parseAllParams_loop fuel
            (set_params (<[name := value]> (params_ c)) (set_paramsStream s c))
        else Ok (false, set_paramsStream s c)
      else Ok (true, c)
  end.

Definition parseAllParams (c : FastCgiCodec) : res (bool * FastCgiCodec) :=
  parseAllParams_loop (S (Z.to_nat (readableBytes (paramsStream_ c)))) c.

(** ** Record handlers; [content] is what the [const char*] reaches *)

Definition onParams (content : bytes) (length : Z) (c : FastCgiCodec) : res (bool * FastCgiCodec) :=
  if 0 <? length then
    let! s := append content length (paramsStream_ c) in
    Ok (true, set_paramsStream s c)
  else
    let! (ok, c') := parseAllParams c in
    if ok then Ok (true, c') else Ok (false, c').

Definition onStdin (content : bytes) (length : Z) (c : FastCgiCodec) : res FastCgiCodec :=
  if 0 <? length then
    let! s := append content length (stdin_ c) in
    Ok (set_stdin s c)
  else Ok (set_gotRequest true c).

(** The bytes at [peek() + off]. *)
Definition peek_at (off : Z) (b : Buffer) : bytes := zdrop (peek b + off) (buffer_ b).

Definition readInt16 (p : bytes) : Z := networkToHost16 (le_val (ztake 2 p)).

Definition onBeginRequest (header : RecordHeader) (buf : Buffer) (c : FastCgiCodec)
    : res (bool * FastCgiCodec) :=
  assert! length_ header <=? readableBytes buf in
  assert! type header =? kFcgiBeginRequest in
  if kRecordHeader <=? length_ header then
    let role := readInt16 (peek_at kRecordHeader buf) in
    let flags := ub (default Byte.x00 (head (peek_at (kRecordHeader + 2) buf))) in
    if role =? kFcgiResponder
    then Ok (true, set_keepConn (flags =? kFcgiKeepConn) c)
    else Ok (false, c)
  else Ok (false, c).

(** The struct as memory: fields in order, no padding bytes. *)
Definition header_bytes (h : RecordHeader) : bytes :=
  le_bytes 1 (version h) ++ le_bytes 1 (type h) ++ le_bytes 2 (id h) ++
  le_bytes 2 (length_ h) ++ le_bytes 1 (padding h) ++ le_bytes 1 (unused h).

Definition header_of_bytes (m : bytes) : RecordHeader :=
  mkHeader (le_val (ztake 1 m)) (le_val (ztake 1 (zdrop 1 m)))
    (le_val (ztake 2 (zdrop 2 m))) (le_val (ztake 2 (zdrop 4 m)))
    (le_val (ztake 1 (zdrop 6 m))) (le_val (ztake 1 (zdrop 7 m))).

Fixpoint parseRequest_loop (fuel : nat) (c : FastCgiCodec) (buf : Buffer)
    : res (FastCgiCodec * Buffer) :=
  match fuel with
  | O => Err OutOfFuel
  | S fuel =>
      if kRecordHeader <=? readableBytes buf then
        let raw := header_of_bytes (peek_bytes kRecordHeader buf) in
        let header := mkHeader (version raw) (type raw) (networkToHost16 (id raw))
                        (networkToHost16 (length_ raw)) (padding raw) (unused raw) in
        let total := kRecordHeader + length_ header + padding header in
        if total <=? readableBytes buf then
          let! c' :=
            if type header =? kFcgiBeginRequest then
              let! (_, c1) := onBeginRequest header buf c in Ok c1
            else if type header =? kFcgiParams then
              let! (_, c1) := onParams (peek_at kRecordHeader buf) (length_ header) c in Ok c1
            else if type header =? kFcgiStdin then
              onStdin (peek_at kRecordHeader buf) (length_ header) c
            else Ok c in
          let! buf' := retrieve total buf in
          parseRequest_loop fuel c' buf'
        else Ok (c, buf)
      else Ok (c, buf)
  end.

(** The source returns [true] on every path. *)
Definition parseRequest (c : FastCgiCodec) (buf : Buffer) : res (FastCgiCodec * Buffer) :=
  parseRequest_loop (S (Z.to_nat (readableBytes buf))) c buf.

(** ** Handing the request over *)

(** [CgiServer::onRequest]: the task put into the thread pool. *)
Record CgiTask := mkTask { task_params : ParamMap; task_post : bytes }.

Definition onRequest (params : ParamMap) (in_ : Buffer) : res (CgiTask * Buffer) :=
  if 0 <? readableBytes in_ then
    let! (postData, in') := retrieveAllAsString in_ in
    Ok (mkTask params postData, in')
  else Ok (mkTask params [], in_).

(** What [onMessage] does outside the codec. *)
Inductive effect :=
| EPutTask (t : CgiTask)
| EShutdown.

Definition onMessage (c : FastCgiCodec) (buf : Buffer)
    : res (list effect * FastCgiCodec * Buffer) :=
  let! (c, buf) := parseRequest c buf in
  if gotRequest_ c then
    let! (task, stdin) := onRequest (params_ c) (stdin_ c) in
    let c' := mkCodec false (keepConn_ c) (retrieveAll stdin)
                (retrieveAll (paramsStream_ c)) ∅ in
    Ok (EPutTask task :: (if keepConn_ c then [] else [EShutdown]), c', buf)
  else Ok ([], c, buf).

(** ** Responses *)

Definition endStdout (buf : Buffer) : res Buffer :=
  append (header_bytes (mkHeader 1 kFcgiStdout (hostToNetwork16 1) 0 0 0)) kRecordHeader buf.

Definition endRequest (buf : Buffer) : res Buffer :=
  let! buf := append (header_bytes (mkHeader 1 kFcgiEndRequest (hostToNetwork16 1)
                       (hostToNetwork16 kRecordHeader) 0 0)) kRecordHeader buf in
  let! buf := appendInt32 0 buf in
  appendInt32 0 buf.

(** The literal [\0\0\0\0\0\0\0\0] with its terminator. *)
Definition nul8 : bytes := replicate 9 Byte.x00.

(** One stdout record carrying [s], as the three places of [respond] build it. *)
Definition respond_chunk (s : bytes) (response : Buffer) : res Buffer :=
  let header := mkHeader 1 kFcgiStdout (hostToNetwork16 1)
                  (hostToNetwork16 (u16 (zlen s))) (u8z (Z.land (u64 (- zlen s)) 7)) 0 in
  let! response := append (header_bytes header) kRecordHeader response in
  let! response := append_str s response in
  append nul8 (padding header) response.

Definition emptyPage : bytes :=
  str "Content-Type: text/html; charset=UTF-8" ++ kCRLF ++
  str "Content-Length: " ++ str "13" ++ kCRLF ++ kCRLF ++
  str "Empty Result!".

(** [out.substr(pos, n)]. *)
Definition substr (pos n : Z) (s : bytes) : bytes := ztake n (zdrop pos s).

Fixpoint respond_loop (n : nat) (i : Z) (out : bytes) (response : Buffer) : res Buffer :=
  match n with
  | O => Ok response
  | S n =>
      let! response := respond_chunk (substr (i * FCGI_MAX_LENGTH) FCGI_MAX_LENGTH out) response in
      respond_loop n (i + 1) out response
  end.

(** The string afterwards (it is replaced when empty) and the response. *)
Definition respond (out : bytes) (response : Buffer) : res (bytes * Buffer) :=
  let out := (if (length out =? 0)%nat then emptyPage else out) in
  let! response :=
    if zlen out <=? FCGI_MAX_LENGTH then respond_chunk out response
    else
      let numSubstrings := zlen out / FCGI_MAX_LENGTH in
      let! response := respond_loop (Z.to_nat numSubstrings) 0 out response in
      if negb (zlen out mod FCGI_MAX_LENGTH =? 0)
      then respond_chunk (zdrop (FCGI_MAX_LENGTH * numSubstrings) out) response
      else Ok response in
  let! response := endStdout response in
  let! response := endRequest response in
  Ok (out, response).

(** ** The record stream *)

(** The header at the front of a byte string, fields in host order. *)
Definition front_header (q : bytes) : RecordHeader :=
  let raw := header_of_bytes (ztake kRecordHeader q) in
  mkHeader (version raw) (type raw) (networkToHost16 (id raw))
    (networkToHost16 (length_ raw)) (padding raw) (unused raw).

Definition record_size (h : RecordHeader) : Z := kRecordHeader + length_ h + padding h.

Definition front_payload (q : bytes) : bytes :=
  ztake (length_ (front_header q)) (zdrop kRecordHeader q).

(** [records q rs rest]: [q] holds the complete records [rs], then [rest], which
    does not start with a complete record. *)
Inductive records : bytes → list (RecordHeader * bytes) → bytes → Prop :=
| records_stop q :
    (kRecordHeader ≤ zlen q → zlen q < record_size (front_header q)) →
    records q [] q
| records_cons q rs rest :
    kRecordHeader ≤ zlen q →
    record_size (front_header q) ≤ zlen q →
    records (zdrop (record_size (front_header q)) q) rs rest →
    records q ((front_header q, front_payload q) :: rs) rest.

(** What the codec does with one record. *)
Definition handle_record (r : RecordHeader * bytes) (c : FastCgiCodec) : res FastCgiCodec :=
  let '(h, payload) := r in
  if type h =? kFcgiBeginRequest then
    if (kRecordHeader <=? length_ h) && (readInt16 payload =? kFcgiResponder)
    then Ok (set_keepConn (ub (default Byte.x00 (head (zdrop 2 payload))) =? kFcgiKeepConn) c)
    else Ok c
  else if type h =? kFcgiParams then
    let! (_, c') := onParams payload (length_ h) c in Ok c'
  else if type h =? kFcgiStdin then onStdin payload (length_ h) c
  else Ok c.

Fixpoint handle_all (rs : list (RecordHeader * bytes)) (c : FastCgiCodec) : res FastCgiCodec :=
  match rs with
  | [] => Ok c
  | r :: rs => let! c' := handle_record r c in handle_all rs c'
  end.

(** ** Lemmas on headers *)

Lemma length_header_bytes h : length (header_bytes h) = 8%nat.
Proof. unfold header_bytes. by rewrite !length_app, !length_le_bytes. Qed.

Lemma le_val_ztake_range n (l : bytes) : 0 ≤ n → 0 ≤ le_val (ztake n l) < 256 ^ n.
Proof.
  intros Hn. pose proof (le_val_range (ztake n l)) as H.
  assert (zlen (ztake n l) ≤ n) as Hl by (unfold ztake; rewrite length_take; lia).
  assert (256 ^ zlen (ztake n l) ≤ 256 ^ n) by (apply Z.pow_le_mono_r; lia). lia.
Qed.

Lemma front_header_range q :
  0 ≤ length_ (front_header q) < 65536 ∧ 0 ≤ padding (front_header q) < 256.
Proof.
  unfold front_header, header_of_bytes, networkToHost16; simpl. split.
  - apply (bswap_range 2).
  - pose proof (le_val_ztake_range 1 (zdrop 6 (ztake kRecordHeader q))). lia.
Qed.

Lemma record_size_pos q : kRecordHeader ≤ record_size (front_header q).
Proof. unfold record_size. pose proof (front_header_range q). lia. Qed.

Lemma front_header_app q k :
  kRecordHeader ≤ zlen q → front_header (q ++ k) = front_header q.
Proof. intros. unfold front_header. by rewrite ztake_app_le. Qed.

Lemma front_payload_app q k :
  kRecordHeader ≤ zlen q → record_size (front_header q) ≤ zlen q →
  front_payload (q ++ k) = front_payload q.
Proof.
  intros H1 H2. unfold front_payload. rewrite front_header_app by done.
  unfold record_size, kRecordHeader in *. pose proof (front_header_range q).
  rewrite zdrop_app_le by lia. apply ztake_app_le. rewrite length_zdrop; lia.
Qed.

Lemma length_front_payload q :
  kRecordHeader ≤ zlen q → record_size (front_header q) ≤ zlen q →
  zlen (front_payload q) = length_ (front_header q).
Proof.
  intros H1 H2. unfold front_payload, record_size, kRecordHeader in *.
  pose proof (front_header_range q).
  apply length_ztake. rewrite length_zdrop; lia.
Qed.

(** Every byte string splits into records and a rest, in one way. *)
Lemma records_total q : ∃ rs rest, records q rs rest.
Proof.
  remember (length q) as n eqn:Hn. revert q Hn.
  induction n as [n IH] using lt_wf_ind. intros q ->.
  destruct (decide (kRecordHeader ≤ zlen q ∧ record_size (front_header q) ≤ zlen q)) as [[H1 H2]|H].
  - pose proof (record_size_pos q). unfold kRecordHeader in *.
    pose proof (length_zdrop (record_size (front_header q)) q ltac:(lia)) as Hd.
    destruct (IH (length (zdrop (record_size (front_header q)) q)) ltac:(lia) _ eq_refl)
      as (rs & rest & Hr).
    eexists _, _. by eapply records_cons.
  - eexists _, _. apply records_stop. intros ?. destruct (decide (record_size (front_header q) ≤ zlen q)); [tauto|lia].
Qed.

Lemma records_det q rs rest rs' rest' :
  records q rs rest → records q rs' rest' → rs = rs' ∧ rest = rest'.
Proof.
  intros H. revert rs' rest'. induction H as [q Hs|q rs rest H1 H2 H IH]; intros rs' rest' H'.
  - inversion H'; subst; [done|]. specialize (Hs ltac:(done)). lia.
  - inversion H' as [? Hs|? rs1 rest1 ? ? Hr]; subst; [specialize (Hs H1); lia|].
    by destruct (IH _ _ Hr) as [-> ->].
Qed.

(** Feeding a stream in two pieces finds the same records. *)
Lemma records_app a b rs rest rs' rest' :
  records a rs rest → records (rest ++ b) rs' rest' → records (a ++ b) (rs ++ rs') rest'.
Proof.
  induction 1 as [q Hs|q rs rest H1 H2 H IH]; intros H'; [done|].
  rewrite <- (front_header_app q b), <- (front_payload_app q b) by done. simpl.
  apply records_cons.
  - rewrite length_app. lia.
  - rewrite front_header_app, length_app by done. lia.
  - rewrite front_header_app by done. rewrite zdrop_app_le by done. auto.
Qed.

(** ** [parseRequest] is the fold of the handlers over the record stream *)

Lemma append_take data len b :
  0 ≤ len ≤ zlen data → append (ztake len data) len b = append data len b.
Proof.
  intros. unfold append. rewrite length_ztake by lia.
  destruct (ensureWritableBytes len b) as [b'|]; simpl; [|done].
  rewrite Z.ltb_irrefl, (proj2 (Z.ltb_ge _ _)) by lia.
  by rewrite (ztake_all len (ztake len data)) by (rewrite length_ztake; lia).
Qed.

Lemma content_peek_at off n b :
  wf b → 0 ≤ off → 0 ≤ n → off + n ≤ zlen (content b) →
  ztake n (peek_at off b) = ztake n (zdrop off (content b)).
Proof.
  intros Hb Ho Hn H.
  rewrite <- readableBytes_content, readableBytes_wf in H by done.
  unfold peek_at, content, slice, ztake, zdrop, peek.
  rewrite skipn_firstn_comm, take_take, drop_drop.
  f_equal; [|f_equal]; destruct Hb; lia.
Qed.

Lemma parse_header buf :
  wf buf → kRecordHeader ≤ readableBytes buf →
  front_header (content buf) =
  (let raw := header_of_bytes (peek_bytes kRecordHeader buf) in
   mkHeader (version raw) (type raw) (networkToHost16 (id raw))
     (networkToHost16 (length_ raw)) (padding raw) (unused raw)).
Proof.
  intros Hb Hr. rewrite peek_bytes_content by (done || unfold kRecordHeader in *; lia). done.
Qed.

Lemma zlen_peek_at off b :
  wf b → 0 ≤ off → off ≤ readableBytes b → readableBytes b - off ≤ zlen (peek_at off b).
Proof.
  intros Hb H0 H1. rewrite readableBytes_wf in * by done.
  unfold peek_at, zdrop, peek. rewrite length_drop. destruct Hb. lia.
Qed.

Lemma head_ztake_1 (l : bytes) : head l = head (ztake 1 l).
Proof. by destruct l. Qed.

Lemma dispatch_eq buf c h :
  wf buf → kRecordHeader ≤ readableBytes buf → h = front_header (content buf) →
  record_size h ≤ readableBytes buf →
  (if type h =? kFcgiBeginRequest then
     let! (_, c1) := onBeginRequest h buf c in Ok c1
   else if type h =? kFcgiParams then
     let! (_, c1) := onParams (peek_at kRecordHeader buf) (length_ h) c in Ok c1
   else if type h =? kFcgiStdin then
     onStdin (peek_at kRecordHeader buf) (length_ h) c
   else Ok c)
  = handle_record (h, front_payload (content buf)) c.
Proof.
  intros Hb Hr Hh Hs. pose proof (front_header_range (content buf)) as Hrange.
  rewrite <- Hh in Hrange. unfold record_size, kRecordHeader in *.
  pose proof (zlen_peek_at 8 buf Hb ltac:(lia) ltac:(lia)) as Hz.
  rewrite readableBytes_content in Hr, Hs, Hz by done.
  assert (front_payload (content buf) = ztake (length_ h) (peek_at 8 buf)) as ->.
  { unfold front_payload, kRecordHeader. rewrite <- Hh. symmetry. apply content_peek_at; done || lia. }
  unfold handle_record. destruct (type h =? kFcgiBeginRequest) eqn:E.
  - unfold onBeginRequest. rewrite readableBytes_content by done.
    rewrite (proj2 (Z.leb_le _ _)) by lia. rewrite E. unfold kRecordHeader.
    destruct (8 <=? length_ h) eqn:E8; simpl; [|done]. bool_prop.
    unfold readInt16. rewrite ztake_ztake by lia.
    destruct (_ =? kFcgiResponder); simpl; [|done]. do 5 f_equal.
    rewrite head_ztake_1, (head_ztake_1 (zdrop 2 _)), ztake_zdrop_ztake by lia.
    do 2 f_equal. unfold peek_at. destruct Hb. rewrite zdrop_zdrop by (unfold peek; lia).
    f_equal. lia.
  - destruct (type h =? kFcgiParams).
    + unfold onParams. destruct (0 <? length_ h) eqn:E0; bool_prop; [|done].
      by rewrite append_take by lia.
    + destruct (type h =? kFcgiStdin); [|done].
      unfold onStdin. destruct (0 <? length_ h) eqn:E0; bool_prop; [|done].
      by rewrite append_take by lia.
Qed.

(** The result of running the handlers, transported to the loop. *)
Lemma parseRequest_loop_eq q rs rest :
  records q rs rest → ∀ fuel c buf,
  wf buf → content buf = q → (length q < fuel)%nat →
  match handle_all rs c with
  | Ok c' => ∃ buf', parseRequest_loop fuel c buf = Ok (c', buf') ∧ wf buf' ∧
               content buf' = rest ∧ used buf' ≤ used buf
  | Err f => parseRequest_loop fuel c buf = Err f
  end.
Proof.
  induction 1 as [q Hs|q rs rest H1 H2 H IH]; intros fuel c buf Hb Hc Hf;
    (destruct fuel as [|fuel]; [lia|]); cbn [handle_all parseRequest_loop];
    pose proof (readableBytes_content buf Hb) as Hr; rewrite Hc in Hr.
  - exists buf. split_and!; [|done..].
    destruct (kRecordHeader <=? readableBytes buf) eqn:E; [|done]. bool_prop.
    pose proof (parse_header buf Hb E) as Hp. cbv zeta in Hp. rewrite <- Hp, Hc.
    fold (record_size (front_header q)). rewrite (proj2 (Z.leb_gt _ _)); [done|].
    rewrite Hr. apply Hs. lia.
  - rewrite (proj2 (Z.leb_le _ _)) by lia.
    pose proof (parse_header buf Hb ltac:(lia)) as Hp. cbv zeta in *. rewrite <- Hp.
    fold (record_size (front_header (content buf))). rewrite (proj2 (Z.leb_le _ _)) by (rewrite Hc; lia).
    rewrite (dispatch_eq buf c (front_header (content buf))) by (done || rewrite ?Hc; lia).
    rewrite Hc. destruct (handle_record _ c) as [c'|f]; simpl; [|done].
    pose proof (record_size_pos q). unfold kRecordHeader in *.
    pose proof (retrieve_used (record_size (front_header q)) buf Hb ltac:(rewrite Hc; lia))
      as (buf' & -> & Hb' & Hc' & Hu)%wp_elim. simpl.
    pose proof (length_zdrop (record_size (front_header q)) q ltac:(lia)).
    specialize (IH fuel c' buf' Hb' ltac:(by rewrite Hc', Hc) ltac:(lia)).
    destruct (handle_all rs c'); [|done]. destruct IH as (b2 & ?&?&?&?).
    exists b2. split_and!; [done..|lia].
Qed.

Lemma parseRequest_eq c buf rs rest :
  wf buf → records (content buf) rs rest →
  match handle_all rs c with
  | Ok c' => ∃ buf', parseRequest c buf = Ok (c', buf') ∧ wf buf' ∧
               content buf' = rest ∧ used buf' ≤ used buf
  | Err f => parseRequest c buf = Err f
  end.
Proof.
  intros Hb Hr. apply (parseRequest_loop_eq _ _ _ Hr); [done|done|].
  rewrite readableBytes_content by done. lia.
Qed.

Lemma handle_all_app rs rs' c :
  handle_all (rs ++ rs') c = let! c' := handle_all rs c in handle_all rs' c'.
Proof.
  revert c. induction rs as [|r rs IH]; intros c; simpl; [done|].
  destruct (handle_record r c); simpl; auto.
Qed.

(** ** Name/value pairs *)

(** The length at the front of a byte string: one byte below 128, otherwise four
    bytes with the top bit set (FastCGI specification, name-value pairs). *)
Definition dec_len (q : bytes) : option (Z * bytes) :=
  match q with
  | [] => None
  | b :: r =>
      if ub b <? 128 then Some (ub b, r)
      else if 4 <=? zlen q then Some (be_val (ztake 4 q) mod 2 ^ 31, zdrop 4 q)
      else None
  end.

Lemma land_128 b : (Z.land (ub b) 128 =? 0) = (ub b <? 128).
Proof. by destruct b. Qed.

Lemma peek_byte_value b r :
  u8z (i8 (be_val (ztake 1 (b :: r)))) = ub b.
Proof.
  change (be_val (ztake 1 (b :: r))) with (ub b + 256 * 0).
  rewrite Z.add_0_r. unfold u8z, i8. rewrite uwrap_swrap by lia.
  apply uwrap_small, ub_range.
Qed.

Lemma small_byte_value b r :
  ub b < 128 → u32 (i8 (be_val (ztake 1 (b :: r)))) = ub b.
Proof.
  intros Hb. change (be_val (ztake 1 (b :: r))) with (ub b + 256 * 0).
  rewrite Z.add_0_r. pose proof (ub_range b).
  unfold i8. rewrite swrap_small by lia. apply uwrap_small. lia.
Qed.

Lemma mask31 x : u32 (Z.land (i32 x) 2147483647) = x mod 2 ^ 31.
Proof.
  change 2147483647 with (Z.ones 31). rewrite Z.land_ones by lia.
  pose proof (Z.mod_pos_bound (i32 x) (2 ^ 31) ltac:(lia)).
  unfold u32. rewrite uwrap_small by lia. unfold i32, swrap.
  rewrite (Z.mod_eq (x + _)) by lia. set (k := _ / _).
  replace (_ - _) with (x + (- (2 * k)) * 2 ^ 31) by lia.
  apply Z_mod_plus_full.
Qed.

Lemma readLen_spec s :
  wf s →
  wp (readLen s) (λ '(n, s'), wf s' ∧ used s' ≤ used s ∧
    match dec_len (content s) with
    | Some (v, rest) => n = v ∧ 0 ≤ v < 2 ^ 31 ∧ content s' = rest
    | None => n = kBadLen ∧ s' = s
    end).
Proof.
  intros Hs. unfold readLen. rewrite readableBytes_content by done.
  destruct (content s) as [|b r] eqn:E; [simpl; crush|].
  assert (0 < zlen (b :: r)) as Hpos by (simpl; lia).
  rewrite (proj2 (Z.leb_le 1 _)) by lia.
  unfold readInt8, readInt32, retrieveInt8, retrieveInt32.
  rewrite peekInt8_val by (rewrite ?readableBytes_content, ?E; done || lia). cbn [res_bind].
  rewrite E, peek_byte_value, land_128. cbn [dec_len].
  destruct (ub b <? 128) eqn:Eb; cbn [negb]; bool_prop.
  - eapply wp_bind with (P := λ '(v, s'), v = i8 (be_val (ztake 1 (b :: r))) ∧ wf s' ∧
      content s' = r ∧ used s' ≤ used s).
    + eapply wp_bind; [apply retrieve_used; [done|rewrite E; lia]|]. rewrite E. simpl. crush.
    + intros [v s'] (->&?&?&?). simpl. rewrite small_byte_value by done.
      pose proof (ub_range b). crush.
  - destruct (4 <=? zlen (b :: r)) eqn:E4; bool_prop; [|simpl; crush].
    rewrite peekInt32_val by (rewrite ?readableBytes_content, ?E; done || lia). cbn [res_bind].
    rewrite E. eapply wp_bind with (P := λ '(v, s'), v = i32 (be_val (ztake 4 (b :: r))) ∧
      wf s' ∧ content s' = zdrop 4 (b :: r) ∧ used s' ≤ used s).
    + eapply wp_bind; [apply retrieve_used; [done|rewrite E; lia]|]. rewrite E. simpl. crush.
    + intros [v s'] (->&?&?&?). cbn [wp]. rewrite mask31.
      pose proof (Z.mod_pos_bound (be_val (ztake 4 (b :: r))) (2 ^ 31)). crush.
Qed.

Lemma dec_len_shorter q v rest : dec_len q = Some (v, rest) → zlen rest < zlen q.
Proof.
  destruct q as [|b r]; simpl; [done|].
  repeat case_match; intros; simplify_eq; bool_prop; [lia|].
  unfold zdrop. rewrite length_drop. simpl in *. lia.
Qed.

(** What the handlers leave alone. *)
Definition same_frame (c c' : FastCgiCodec) : Prop :=
  stdin_ c' = stdin_ c ∧ keepConn_ c' = keepConn_ c ∧ gotRequest_ c' = gotRequest_ c.

(** [parseAllParams] terminates without a fault on every byte string: a bad
    length is reported, never read past. *)
Lemma parseAllParams_loop_total fuel c :
  wf (paramsStream_ c) → zlen (content (paramsStream_ c)) < Z.of_nat fuel →
  wp (parseAllParams_loop fuel c) (λ '(_, c'), wf (paramsStream_ c') ∧ same_frame c c' ∧
     used (paramsStream_ c') ≤ used (paramsStream_ c)).
Proof.
  unfold same_frame. revert c. induction fuel as [|fuel IH]; intros c Hs Hf; [lia|].
  cbn [parseAllParams_loop]. destruct (0 <? _) eqn:E; [|done]. bool_prop.
  eapply wp_bind; [by apply readLen_spec|]. intros [n s] (Hs1 & Hu1 & Hd1). cbv beta iota.
  destruct (n =? kBadLen) eqn:En; [done|]. bool_prop.
  destruct (dec_len (content (paramsStream_ c))) as [[v r]|] eqn:D1; [|crush].
  destruct Hd1 as (-> & Hv & Hc1). apply dec_len_shorter in D1.
  eapply wp_bind; [by apply readLen_spec|]. intros [m s2] (Hs2 & Hu2 & Hd2). cbv beta iota.
  destruct (m =? kBadLen) eqn:Em; [simpl; crush|]. bool_prop.
  destruct (dec_len (content s)) as [[w r2]|] eqn:D2; [|crush].
  destruct Hd2 as (-> & Hw & Hc2). apply dec_len_shorter in D2.
  assert (u32 (v + w) = v + w) as -> by (apply uwrap_small; lia).
  destruct (_ <=? _) eqn:El; [|simpl; crush]. bool_prop.
  rewrite readableBytes_content in El by done.
  eapply wp_bind; [apply retrieveAsString_spec; [done|lia]|].
  intros [name s3] (_ & Hs3 & Hc3 & Hu3).
  pose proof (length_zdrop v (content s2) ltac:(lia)) as Hl3.
  eapply wp_bind; [apply retrieveAsString_spec; [done|rewrite Hc3; lia]|].
  intros [value s4] (_ & Hs4 & Hc4 & Hu4).
  pose proof (length_zdrop w (content s3) ltac:(rewrite Hc3; lia)) as Hl4.
  eapply wp_mono; [apply IH; [done|]|].
  - simpl. rewrite Hc4, Hl4, Hc3, Hl3, Hc2. rewrite Hc1 in D2. lia.
  - intros [ok c'] (?&(?&?&?)&?). simpl in *. crush.
Qed.

Lemma parseAllParams_total c :
  wf (paramsStream_ c) →
  wp (parseAllParams c) (λ '(_, c'), wf (paramsStream_ c') ∧ same_frame c c' ∧
     used (paramsStream_ c') ≤ used (paramsStream_ c)).
Proof.
  intros Hs. apply parseAllParams_loop_total; [done|].
  rewrite readableBytes_content by done. lia.
Qed.

(** The encoding of a length and of a pair, from the protocol. *)
Definition enc_len (n : Z) : bytes :=
  if n <? 128 then [byte_of_Z n] else be_bytes 4 (n + 2 ^ 31).

Definition enc_pair (kv : bytes * bytes) : bytes :=
  enc_len (zlen kv.1) ++ enc_len (zlen kv.2) ++ kv.1 ++ kv.2.

Definition enc_params (kvs : list (bytes * bytes)) : bytes := concat (map enc_pair kvs).

(** Later pairs win, as [params_[name] = value] does. *)
Definition put_all (kvs : list (bytes * bytes)) (m : ParamMap) : ParamMap :=
  foldl (λ m kv, <[kv.1 := kv.2]> m) m kvs.

Definition pair_ok (kv : bytes * bytes) : Prop := zlen kv.1 < 2 ^ 31 ∧ zlen kv.2 < 2 ^ 31.

Lemma dec_enc_len n r : 0 ≤ n < 2 ^ 31 → dec_len (enc_len n ++ r) = Some (n, r).
Proof.
  intros Hn. unfold enc_len. destruct (n <? 128) eqn:E; bool_prop.
  - simpl. rewrite ub_byte_of_Z, Z.mod_small by lia.
    by rewrite (proj2 (Z.ltb_lt _ _)) by lia.
  - destruct (be_bytes 4 (n + 2 ^ 31)) as [|b l] eqn:Eb; [done|].
    assert (ub b = (n + 2 ^ 31) / 256 / 256 / 256 mod 256) as Hub.
    { unfold be_bytes in Eb. simpl in Eb. injection Eb as <- <-. by rewrite ub_byte_of_Z. }
    assert (128 ≤ ub b).
    { rewrite Hub, !Z.div_div by lia. change (256 * 256 * 256) with (2 ^ 24).
      rewrite Z.mod_small; [apply Z.div_le_lower_bound; lia|].
      split; [apply Z.div_pos; lia|apply Z.div_lt_upper_bound; lia]. }
    assert (length (b :: l) = 4%nat) as Hl by (by rewrite <- Eb, length_be_bytes).
    cbn [app dec_len]. rewrite (proj2 (Z.ltb_ge _ _)), app_comm_cons by lia.
    rewrite length_app, (proj2 (Z.leb_le _ _)) by lia.
    rewrite ztake_app_len, zdrop_app_len by lia.
    rewrite <- Eb, be_val_bytes. unfold uwrap.
    change (8 * Z.of_nat 4) with 32. rewrite (Z.mod_small _ (2 ^ 32)) by lia.
    do 2 f_equal. replace (n + 2 ^ 31) with (n + 1 * 2 ^ 31) by lia.
    rewrite Z_mod_plus_full. apply Z.mod_small. lia.
Qed.

Lemma parseAllParams_loop_enc kvs fuel c :
  wf (paramsStream_ c) → content (paramsStream_ c) = enc_params kvs →
  Forall pair_ok kvs → zlen (enc_params kvs) < Z.of_nat fuel →
  wp (parseAllParams_loop fuel c) (λ '(ok, c'), ok = true ∧ same_frame c c' ∧
     params_ c' = put_all kvs (params_ c) ∧ wf (paramsStream_ c') ∧
     content (paramsStream_ c') = []).
Proof.
  unfold same_frame. revert fuel c.
  induction kvs as [|[k v] kvs IH]; intros fuel c Hs Hc Hok Hf;
    (destruct fuel as [|fuel]; [lia|]); cbn [parseAllParams_loop];
    rewrite readableBytes_content, Hc by done.
  - simpl. crush.
  - apply Forall_cons in Hok as [[Hk Hv] Hok]. cbn [fst snd] in *.
    assert (enc_params ((k, v) :: kvs) =
            enc_len (zlen k) ++ enc_len (zlen v) ++ k ++ v ++ enc_params kvs) as Ee
      by (unfold enc_params, enc_pair; simpl; by rewrite <- !app_assoc).
    assert (dec_len (enc_params ((k, v) :: kvs)) =
            Some (zlen k, enc_len (zlen v) ++ k ++ v ++ enc_params kvs)) as D1
      by (rewrite Ee; apply dec_enc_len; lia).
    pose proof (dec_len_shorter _ _ _ D1) as L1.
    rewrite (proj2 (Z.ltb_lt _ _)) by lia.
    eapply wp_bind; [by apply readLen_spec|]. intros [n s] (Hs1 & Hu1 & Hd1). cbv beta iota.
    rewrite Hc, D1 in Hd1. destruct Hd1 as (-> & _ & Hc1).
    assert (kBadLen = 2 ^ 32 - 1) as Hbad by done.
    rewrite (proj2 (Z.eqb_neq _ _)) by lia.
    assert (dec_len (content s) = Some (zlen v, k ++ v ++ enc_params kvs)) as D2
      by (rewrite Hc1; apply dec_enc_len; lia).
    pose proof (dec_len_shorter _ _ _ D2) as L2.
    eapply wp_bind; [by apply readLen_spec|]. intros [m s2] (Hs2 & Hu2 & Hd2). cbv beta iota.
    rewrite D2 in Hd2. destruct Hd2 as (-> & _ & Hc2).
    rewrite (proj2 (Z.eqb_neq _ _)) by lia.
    assert (u32 (zlen k + zlen v) = zlen k + zlen v) as -> by (apply uwrap_small; lia).
    rewrite readableBytes_content by done.
    assert (zlen (content s2) = zlen k + zlen v + zlen (enc_params kvs)) as Hl2
      by (rewrite Hc2, !length_app; lia).
    rewrite (proj2 (Z.leb_le _ _)) by lia.
    eapply wp_bind; [apply retrieveAsString_spec; [done|lia]|].
    intros [name s3] (Hname & Hs3 & Hc3 & Hu3). cbv beta iota.
    rewrite Hc2 in Hname, Hc3. rewrite ztake_app_len in Hname by done.
    rewrite zdrop_app_len in Hc3 by done.
    eapply wp_bind; [apply retrieveAsString_spec; [done|rewrite Hc3, length_app; lia]|].
    intros [value s4] (Hval & Hs4 & Hc4 & Hu4). cbv beta iota.
    rewrite Hc3 in Hval, Hc4. rewrite ztake_app_len in Hval by done.
    rewrite zdrop_app_len in Hc4 by done. subst name value.
    eapply wp_mono; [apply IH; [done|done|done|]|].
    + assert (zlen (content s) = zlen (enc_len (zlen v) ++ k ++ v ++ enc_params kvs)) as Hq
        by (by rewrite Hc1). rewrite !length_app in *. lia.
    + intros [ok c'] (?&(?&?&?)&?&?&?). simpl in *. crush.
Qed.

Lemma parseAllParams_enc kvs c :
  wf (paramsStream_ c) → content (paramsStream_ c) = enc_params kvs →
  Forall pair_ok kvs →
  wp (parseAllParams c) (λ '(ok, c'), ok = true ∧ same_frame c c' ∧
     params_ c' = put_all kvs (params_ c) ∧ wf (paramsStream_ c') ∧
     content (paramsStream_ c') = []).
Proof.
  intros Hs Hc Hok. apply parseAllParams_loop_enc; [done..|].
  rewrite readableBytes_content, Hc by done. lia.
Qed.

(** ** Records on the wire *)

(** A record of the protocol: type, payload and padding bytes. *)
Record wire_record := mkWire { w_type : Z; w_payload : bytes; w_pad : bytes }.

Definition wire_ok (r : wire_record) : Prop :=
  0 ≤ w_type r < 256 ∧ zlen (w_payload r) < 65536 ∧ zlen (w_pad r) < 256.

Definition wire_header (r : wire_record) : RecordHeader :=
  mkHeader 1 (w_type r) 1 (zlen (w_payload r)) (zlen (w_pad r)) 0.

(** The header bytes with the 16-bit fields in network order. *)
Definition net_header (h : RecordHeader) : RecordHeader :=
  mkHeader (version h) (type h) (hostToNetwork16 (id h)) (hostToNetwork16 (length_ h))
    (padding h) (unused h).

Definition enc_record (r : wire_record) : bytes :=
  header_bytes (net_header (wire_header r)) ++ w_payload r ++ w_pad r.

Definition enc_stream (rs : list wire_record) : bytes := concat (map enc_record rs).

Lemma header_roundtrip h :
  0 ≤ version h < 256 → 0 ≤ type h < 256 → 0 ≤ id h < 65536 → 0 ≤ length_ h < 65536 →
  0 ≤ padding h < 256 → 0 ≤ unused h < 256 →
  header_of_bytes (header_bytes h) = h.
Proof.
  intros. destruct h as [v t i l p u]; simpl in *.
  unfold header_of_bytes, header_bytes, ztake, zdrop. simpl.
  rewrite !ub_byte_of_Z. f_equal; try (rewrite Z.mod_small by lia; lia);
    rewrite (Z.mod_small (_ / 256)) by (split; [apply Z.div_pos; lia|apply Z.div_lt_upper_bound; lia]);
    pose proof (Z.div_mod i 256); pose proof (Z.div_mod l 256); lia.
Qed.

Lemma ntoh_hton16 x : 0 ≤ x < 65536 → networkToHost16 (hostToNetwork16 x) = x.
Proof.
  intros. unfold networkToHost16, hostToNetwork16.
  pose proof (bswap_range 2 (u16 x)). unfold u16.
  rewrite (uwrap_small 16 (bswap _ _)) by (change (2 ^ 16) with (256 ^ Z.of_nat 2); done).
  rewrite bswap_bswap, !uwrap_small; done || (rewrite ?uwrap_small; lia).
Qed.

Lemma front_header_enc r k :
  wire_ok r → front_header (enc_record r ++ k) = wire_header r.
Proof.
  intros (Ht & Hp & Hd). unfold front_header, enc_record. rewrite <- app_assoc.
  rewrite ztake_app_len by (by rewrite length_header_bytes).
  pose proof (bswap_range 2 (u16 (zlen (w_payload r)))) as Hb.
  pose proof (bswap_range 2 (u16 1)) as Hb1.
  change (256 ^ Z.of_nat 2) with 65536 in *.
  rewrite header_roundtrip by (simpl; done || lia). simpl.
  rewrite !ntoh_hton16 by lia. done.
Qed.

Lemma zlen_enc_record r : zlen (enc_record r) = record_size (wire_header r).
Proof.
  unfold enc_record, record_size, kRecordHeader. rewrite !length_app, length_header_bytes.
  simpl. lia.
Qed.

Lemma front_payload_enc r k : wire_ok r → front_payload (enc_record r ++ k) = w_payload r.
Proof.
  intros Hr. unfold front_payload. rewrite front_header_enc by done.
  cbn [length_ wire_header]. unfold enc_record. rewrite <- !app_assoc, zdrop_app_len by (by rewrite length_header_bytes).
  by apply ztake_app_len.
Qed.

(** Decoding inverts encoding. *)
Lemma records_enc rs :
  Forall wire_ok rs → records (enc_stream rs) (map (λ r, (wire_header r, w_payload r)) rs) [].
Proof.
  induction 1 as [|r rs Hr Hrs IH]; simpl.
  - apply records_stop. unfold kRecordHeader. simpl. lia.
  - change (enc_stream (r :: rs)) with (enc_record r ++ enc_stream rs).
    rewrite <- (front_header_enc r (enc_stream rs)) by done.
    rewrite <- (front_payload_enc r (enc_stream rs)) by done.
    pose proof (zlen_enc_record r) as Hl.
    apply records_cons; rewrite ?front_header_enc by done.
    + rewrite length_app. unfold record_size, kRecordHeader in *. simpl in *. lia.
    + rewrite length_app. lia.
    + by rewrite zdrop_app_len.
Qed.

(** ** Totality of the handlers *)

Definition codec_wf (c : FastCgiCodec) : Prop := wf (stdin_ c) ∧ wf (paramsStream_ c).

(** The space the codec's own buffers take. *)
Definition load (c : FastCgiCodec) : Z := Z.max (used (stdin_ c)) (used (paramsStream_ c)).

Definition record_ok (r : RecordHeader * bytes) : Prop := length_ r.1 = zlen r.2.

Fixpoint payload_total (rs : list (RecordHeader * bytes)) : Z :=
  match rs with
  | [] => 0
  | r :: rs => zlen r.2 + payload_total rs
  end.

Lemma payload_total_nonneg rs : 0 ≤ payload_total rs.
Proof. induction rs; simpl; lia. Qed.

Lemma payload_total_app rs rs' :
  payload_total (rs ++ rs') = payload_total rs + payload_total rs'.
Proof. induction rs; simpl; lia. Qed.

Lemma records_facts q rs rest :
  records q rs rest →
  Forall record_ok rs ∧ payload_total rs + zlen rest ≤ zlen q ∧ ∃ pre, q = pre ++ rest.
Proof.
  induction 1 as [q Hs|q rs rest H1 H2 H (IH1 & IH2 & pre & IH3)].
  - split_and!; [done|simpl; lia|by exists []].
  - pose proof (length_front_payload q H1 H2) as Hp.
    pose proof (front_header_range q).
    pose proof (record_size_pos q). unfold kRecordHeader in *.
    pose proof (length_zdrop (record_size (front_header q)) q ltac:(lia)) as Hd.
    split_and!.
    + constructor; [done|done].
    + simpl. unfold record_size, kRecordHeader in *. lia.
    + exists (ztake (record_size (front_header q)) q ++ pre).
      rewrite <- app_assoc, <- IH3. by rewrite ztake_zdrop.
Qed.

Lemma handle_record_total r c :
  codec_wf c → record_ok r → load c + zlen r.2 ≤ max_size →
  wp (handle_record r c) (λ c', codec_wf c' ∧ load c' ≤ load c + zlen r.2).
Proof.
  destruct r as [h p]. unfold record_ok, codec_wf, load; cbn [fst snd].
  intros [Hs Hp] Hl Hm. unfold handle_record.
  destruct (_ =? kFcgiBeginRequest); [case_match; simpl; auto with lia|].
  destruct (_ =? kFcgiParams).
  - unfold onParams. destruct (0 <? length_ h) eqn:E; bool_prop.
    + rewrite Hl. eapply wp_bind; [eapply wp_bind; [apply append_all_spec; [done|]|]|].
      * unfold fits, used in *. lia.
      * intros s (?&_&?). instantiate (1 := λ '(_, c'), codec_wf c' ∧ stdin_ c' = stdin_ c ∧
          used (paramsStream_ c') ≤ used (paramsStream_ c) + zlen p).
        unfold codec_wf, used in *. simpl. split_and!; [done..|lia].
      * intros [_ c'] ([??]&He&?). unfold codec_wf. cbn [wp]. rewrite He in *. auto with lia.
    + eapply wp_bind; [eapply wp_bind; [by apply parseAllParams_total|]|].
      * intros [ok c'] H. instantiate (1 := λ '(_, c'), wf (paramsStream_ c') ∧ same_frame c c' ∧
          used (paramsStream_ c') ≤ used (paramsStream_ c)). by destruct ok.
      * intros [ok c'] (?&(Hf&_&_)&?). cbn [wp]. rewrite Hf. auto with lia.
  - destruct (_ =? kFcgiStdin); [|simpl; auto with lia].
    unfold onStdin. destruct (0 <? length_ h) eqn:E; bool_prop; [|simpl; auto with lia].
    rewrite Hl. eapply wp_bind; [apply append_all_spec; [done|]|].
    + unfold fits, used in *. lia.
    + intros s (?&_&?). unfold used in *. simpl. split_and!; [done..|lia].
Qed.

Lemma handle_all_total rs c :
  codec_wf c → Forall record_ok rs → load c + payload_total rs ≤ max_size →
  wp (handle_all rs c) (λ c', codec_wf c' ∧ load c' ≤ load c + payload_total rs).
Proof.
  revert c. induction rs as [|r rs IH]; intros c Hc Hr Hm; simpl in *; [auto with lia|].
  apply Forall_cons in Hr as [Hr Hrs]. pose proof (payload_total_nonneg rs).
  eapply wp_bind; [apply handle_record_total; [done..|lia]|]. intros c1 [??].
  eapply wp_mono; [apply IH; [done..|lia]|]. intros c2 [??]. split; [done|lia].
Qed.

(** Everything about one call of [parseRequest]. *)
Lemma parseRequest_spec c buf :
  codec_wf c → wf buf → load c + zlen (content buf) ≤ max_size →
  wp (parseRequest c buf) (λ '(c', buf'), codec_wf c' ∧ wf buf' ∧ used buf' ≤ used buf ∧
    ∃ rs, records (content buf) rs (content buf') ∧ handle_all rs c = Ok c' ∧
          load c' ≤ load c + payload_total rs).
Proof.
  intros Hc Hb Hm. destruct (records_total (content buf)) as (rs & rest & Hr).
  pose proof (records_facts _ _ _ Hr) as (Hok & Hsz & _).
  pose proof (parseRequest_eq c buf rs rest Hb Hr) as He.
  pose proof (handle_all_total rs c Hc Hok ltac:(lia)) as (c' & Ha & Hc' & Hl')%wp_elim.
  rewrite Ha in He. destruct He as (buf' & -> & Hb' & Hrest & Hu). simpl.
  split_and!; [by destruct Hc'..|done|done|]. exists rs. by rewrite Hrest.
Qed.

(** ** A connection: the chunks of [read] go to the input buffer one by one, with
    [onMessage] after each *)

Fixpoint serve (chunks : list bytes) (c : FastCgiCodec) (buf : Buffer)
    : res (list effect * FastCgiCodec * Buffer) :=
  match chunks with
  | [] => Ok ([], c, buf)
  | d :: ds =>
      let! buf := append d (zlen d) buf in
      let! (e, c, buf) := onMessage c buf in
      let! (es, c, buf) := serve ds c buf in
      Ok (e ++ es, c, buf)
  end.

(** The record that completes a request. *)
Definition final_record (r : RecordHeader * bytes) : bool :=
  (type r.1 =? kFcgiStdin) && (length_ r.1 <=? 0).

Lemma handle_record_got r c :
  codec_wf c → record_ok r → load c + zlen r.2 ≤ max_size → final_record r = false →
  wp (handle_record r c) (λ c', gotRequest_ c' = gotRequest_ c).
Proof.
  destruct r as [h p]. unfold record_ok, codec_wf, load, final_record; cbn [fst snd].
  intros [Hs Hp] Hl Hm Hfin. unfold handle_record.
  destruct (_ =? kFcgiBeginRequest); [by case_match|].
  destruct (_ =? kFcgiParams).
  - unfold onParams. destruct (0 <? length_ h) eqn:E; bool_prop.
    + rewrite Hl. eapply wp_bind; [eapply wp_bind; [apply append_all_spec; [done|]|]|].
      * unfold fits, used in *. lia.
      * intros s _. instantiate (1 := λ '(_, c'), gotRequest_ c' = gotRequest_ c). done.
      * by intros [_ c'].
    + eapply wp_bind; [eapply wp_bind; [by apply parseAllParams_total|]|].
      * intros [ok c'] (_&(_&_&H)&_).
        instantiate (1 := λ '(_, c'), gotRequest_ c' = gotRequest_ c). by destruct ok.
      * by intros [ok c'].
  - destruct (_ =? kFcgiStdin); [|done]. unfold onStdin. cbn [andb] in Hfin. bool_prop.
    rewrite (proj2 (Z.ltb_lt _ _)) by lia. rewrite Hl.
    eapply wp_bind; [apply append_all_spec; [done|]|done]. unfold fits, used in *. lia.
Qed.

Lemma handle_all_got rs c :
  codec_wf c → Forall record_ok rs → load c + payload_total rs ≤ max_size →
  Forall (λ r, final_record r = false) rs →
  wp (handle_all rs c) (λ c', gotRequest_ c' = gotRequest_ c).
Proof.
  revert c. induction rs as [|r rs IH]; intros c Hc Hr Hm Hf; simpl in *; [done|].
  apply Forall_cons in Hr as [Hr Hrs]. apply Forall_cons in Hf as [Hf Hfs].
  pose proof (payload_total_nonneg rs).
  eapply wp_bind; [apply wp_conj; [apply handle_record_total; [done..|lia]|
                                   apply handle_record_got; [done..|lia|done]]|].
  intros c1 [[? ?] <-]. apply IH; [done..|lia|done].
Qed.

(** What [onMessage] makes of a codec that has the whole request. *)
Definition request_of (c : FastCgiCodec) : list effect :=
  EPutTask (mkTask (params_ c) (content (stdin_ c))) ::
  (if keepConn_ c then [] else [EShutdown]).

Definition idle (c : FastCgiCodec) : Prop :=
  codec_wf c ∧ gotRequest_ c = false ∧ params_ c = ∅ ∧
  content (stdin_ c) = [] ∧ content (paramsStream_ c) = [].

Lemma onRequest_spec params s :
  wf s → wp (onRequest params s) (λ '(t, s'), t = mkTask params (content s) ∧ wf s' ∧
                                             content s' = []).
Proof.
  intros Hs. unfold onRequest. rewrite readableBytes_content by done.
  destruct (content s) as [|b l] eqn:E; [simpl; auto|].
  rewrite (proj2 (Z.ltb_lt _ _)) by (simpl; lia).
  eapply wp_bind; [by apply retrieveAllAsString_spec|]. rewrite E.
  intros [post s'] (-> & ? & ?). simpl. tauto.
Qed.

(** One call of [onMessage], in terms of the records of its buffer. *)
Lemma onMessage_spec c buf :
  codec_wf c → wf buf → load c + zlen (content buf) ≤ max_size →
  wp (onMessage c buf) (λ '(es, c', buf'), codec_wf c' ∧ wf buf' ∧ used buf' ≤ used buf ∧
    ∃ rs c1, records (content buf) rs (content buf') ∧ handle_all rs c = Ok c1 ∧
      if gotRequest_ c1 then es = request_of c1 ∧ idle c'
      else es = [] ∧ c' = c1 ∧ load c' ≤ load c + payload_total rs).
Proof.
  intros Hc Hb Hm. unfold onMessage.
  eapply wp_bind; [by apply parseRequest_spec|].
  intros [c1 b1] (Hc1 & Hb1 & Hu & rs & Hr & Ha & Hl). cbv beta iota.
  destruct (gotRequest_ c1) eqn:Eg.
  - eapply wp_bind; [apply onRequest_spec, Hc1|]. intros [t s] (-> & Hs & Hcs). cbv beta iota.
    assert (codec_wf (mkCodec false (keepConn_ c1) (retrieveAll s)
              (retrieveAll (paramsStream_ c1)) ∅)) as Hw
      by (destruct Hc1; split; simpl; by apply wf_retrieveAll).
    simpl. split_and!; [done..|]. exists rs, c1. rewrite Eg.
    split_and!; [done..|]. unfold idle. simpl. by split_and!.
  - simpl. split_and!; [done..|]. exists rs, c1. by rewrite Eg.
Qed.

Lemma records_rest q rs rest : records q rs rest → records rest [] rest.
Proof. induction 1; auto using records_stop. Qed.

Lemma used_bound b : wf b → used b ≤ max_size.
Proof. unfold used. buf_arith. Qed.

Lemma load_bound c : codec_wf c → load c ≤ max_size.
Proof. intros [??]. unfold load. by apply Z.max_lub; apply used_bound. Qed.

(** After the last record only empty chunks can follow. *)
Lemma serve_nothing ds c buf :
  codec_wf c → gotRequest_ c = false → wf buf → content buf = [] → concat ds = [] →
  wp (serve ds c buf) (λ '(es, c', buf'), es = [] ∧ c' = c ∧ content buf' = []).
Proof.
  intros Hc. pose proof (load_bound c Hc) as Hl.
  revert buf. induction ds as [|d ds IH]; intros buf Hg Hb Hcb Hds; [done|].
  simpl in Hds. apply app_eq_nil in Hds as [-> Hds]. simpl. pose proof (used_bound buf Hb).
  eapply wp_bind; [apply append_spec; [done|simpl; lia|unfold fits, used in *; simpl; lia]|].
  intros b1 (Hb1 & Hc1 & Hw1). rewrite Hcb in Hc1. simpl in Hc1, Hw1.
  eapply wp_bind; [apply onMessage_spec; [done..|rewrite Hc1; simpl; lia]|].
  intros [[es c'] b2] (Hc' & Hb2 & Hu2 & rs & c1 & Hr & Ha & Hif). rewrite Hc1 in Hr.
  assert (rs = [] ∧ content b2 = []) as [-> Hcb2].
  { inversion Hr as [? Hx|? ? ? Hx]; subst; [done|]. unfold kRecordHeader in Hx. simpl in Hx. lia. }
  simpl in Ha. injection Ha as <-. rewrite Hg in Hif. destruct Hif as (-> & -> & _).
  cbv beta iota. eapply wp_bind; [apply IH; done|].
  intros [[es c2] b3] (-> & -> & ?). by simpl.
Qed.

(** Any cutting of a stream that ends with the completing record produces exactly
    the request it carries, once. *)
Lemma serve_spec ds c buf rs last c1 :
  codec_wf c → gotRequest_ c = false → wf buf →
  records (content buf ++ concat ds) (rs ++ [last]) [] →
  Forall (λ r, final_record r = false) rs →
  handle_all (rs ++ [last]) c = Ok c1 → gotRequest_ c1 = true →
  records (content buf) [] (content buf) →
  load c + zlen (content buf) + zlen (concat ds) ≤ max_size →
  used buf + zlen (concat ds) ≤ max_size →
  wp (serve ds c buf) (λ '(es, c', buf'), es = request_of c1 ∧ idle c' ∧ content buf' = []).
Proof.
  revert c buf rs.
  induction ds as [|d ds IH]; intros c buf rs Hc Hg Hb Hr Hf Ha Hg1 Hn Hl Hu.
  { simpl in Hr. rewrite app_nil_r in Hr. destruct (records_det _ _ _ _ _ Hr Hn) as [E _].
    by apply app_nil in E as [_ ?]. }
  simpl. simpl in Hr, Hl, Hu. rewrite length_app in Hl, Hu.
  eapply wp_bind; [apply append_all_spec; [done|unfold fits, used in *; lia]|].
  intros b1 (Hb1 & Hc1 & Hw1).
  assert (zlen (content b1) = zlen (content buf) + zlen d) as Hz
    by (rewrite Hc1, length_app; lia).
  eapply wp_bind; [apply onMessage_spec; [done..|lia]|].
  intros [[es c'] b2] (Hc' & Hb2 & Hu2 & rs1 & c2 & Hr1 & Ha1 & Hif). cbv beta iota.
  destruct (records_total (content b2 ++ concat ds)) as (rs2 & rest2 & Hr2).
  pose proof (records_facts _ _ _ Hr1) as (Hok1 & Hsz1 & _).
  pose proof (records_app _ (concat ds) _ _ _ _ Hr1 Hr2) as Hr12.
  rewrite Hc1, <- app_assoc in Hr12.
  destruct (records_det _ _ _ _ _ Hr12 Hr) as [Ers ->].
  destruct rs2 as [|r2 rs2 _] using rev_ind.
  - rewrite app_nil_r in Ers. subst rs1. rewrite Ha in Ha1. injection Ha1 as <-.
    rewrite Hg1 in Hif. destruct Hif as [-> Hidle].
    assert (content b2 ++ concat ds = []) as [Hcb2 Hds]%app_eq_nil by (by inversion Hr2).
    eapply wp_bind; [apply serve_nothing; try done; apply Hidle|].
    intros [[es c3] b3] (-> & -> & ?). simpl. rewrite app_nil_r. auto.
  - rewrite app_assoc in Ers. apply app_inj_tail in Ers as [<- ->].
    apply Forall_app in Hf as [Hf1 Hf2].
    pose proof (handle_all_got rs1 c Hc Hok1 ltac:(lia) Hf1) as (c2' & Ha1' & Hg2)%wp_elim.
    rewrite Ha1 in Ha1'. injection Ha1' as <-. rewrite Hg2, Hg in Hif.
    destruct Hif as (-> & -> & Hl2).
    eapply wp_bind; [apply (IH c2 b2 rs2); try done|].
    + by rewrite Hg2.
    + rewrite <- app_assoc, handle_all_app, Ha1 in Ha. done.
    + by eapply records_rest.
    + lia.
    + unfold used in *. lia.
    + intros [[es c3] b3] (-> & ?). simpl. auto.
Qed.

(** ** A whole request *)

(** Role [kFcgiResponder], the flags, five reserved bytes. *)
Definition begin_body (keep : bool) : bytes :=
  be_bytes 2 kFcgiResponder ++ [byte_of_Z (if keep then 1 else 0)] ++ replicate 5 Byte.x00.

(** A stream of the protocol: non-empty records, then an empty one. *)
Definition stream_records (t : Z) (chunks : list (bytes * bytes)) : list wire_record :=
  map (λ p, mkWire t p.1 p.2) chunks ++ [mkWire t [] []].

Definition request_records (keep : bool) (ps bs : list (bytes * bytes)) : list wire_record :=
  mkWire kFcgiBeginRequest (begin_body keep) [] ::
  stream_records kFcgiParams ps ++ stream_records kFcgiStdin bs.

Definition chunk_ok (p : bytes * bytes) : Prop := 0 < zlen p.1 < 65536 ∧ zlen p.2 < 256.

Definition data (chunks : list (bytes * bytes)) : bytes := concat (map fst chunks).

Definition decoded (r : wire_record) : RecordHeader * bytes := (wire_header r, w_payload r).

Lemma handle_params_chunk p pad c :
  0 < zlen p →
  handle_record (decoded (mkWire kFcgiParams p pad)) c =
  let! s := append p (zlen p) (paramsStream_ c) in Ok (set_paramsStream s c).
Proof.
  intros Hp. unfold handle_record, decoded, onParams; simpl.
  rewrite (proj2 (Z.ltb_lt _ _)) by lia. by destruct (append _ _ _).
Qed.

Lemma handle_stdin_chunk p pad c :
  0 < zlen p →
  handle_record (decoded (mkWire kFcgiStdin p pad)) c =
  let! s := append p (zlen p) (stdin_ c) in Ok (set_stdin s c).
Proof.
  intros Hp. unfold handle_record, decoded, onStdin; simpl.
  by rewrite (proj2 (Z.ltb_lt _ _)) by lia.
Qed.

(** Params and stdin chunks only extend their buffer. *)
Lemma handle_params_chunks ps c :
  codec_wf c → Forall chunk_ok ps → load c + zlen (data ps) ≤ max_size →
  wp (handle_all (map decoded (map (λ p, mkWire kFcgiParams p.1 p.2) ps)) c)
     (λ c', codec_wf c' ∧ load c' ≤ load c + zlen (data ps) ∧
        content (paramsStream_ c') = content (paramsStream_ c) ++ data ps ∧
        same_frame c c' ∧ params_ c' = params_ c).
Proof.
  unfold data, codec_wf, load, same_frame.
  revert c. induction ps as [|[p pad] ps IH]; intros c [Hs Hp] Hok Hl;
    cbn [map concat fst snd handle_all] in *.
  { simpl. rewrite app_nil_r. auto 10 with lia. }
  apply Forall_cons in Hok as [[Hp1 _] Hok]. cbn [fst snd] in *. rewrite length_app in *.
  rewrite handle_params_chunk, bind_assoc by lia.
  eapply wp_bind; [apply append_all_spec; [done|unfold fits, used in *; lia]|].
  intros s (Hs1 & Hc1 & Hw1). cbn [res_bind].
  eapply wp_mono; [apply IH; simpl; [done|done|unfold used in *; lia]|].
  simpl. intros c' (? & Hl' & Hc' & ? & ?). rewrite Hc', Hc1, <- app_assoc.
  split_and!; try apply H; try done; try tauto. unfold used in *. lia.
Qed.

Lemma handle_stdin_chunks ps c :
  codec_wf c → Forall chunk_ok ps → load c + zlen (data ps) ≤ max_size →
  wp (handle_all (map decoded (map (λ p, mkWire kFcgiStdin p.1 p.2) ps)) c)
     (λ c', codec_wf c' ∧ load c' ≤ load c + zlen (data ps) ∧
        content (stdin_ c') = content (stdin_ c) ++ data ps ∧
        keepConn_ c' = keepConn_ c ∧ params_ c' = params_ c).
Proof.
  unfold data, codec_wf, load.
  revert c. induction ps as [|[p pad] ps IH]; intros c [Hs Hp] Hok Hl;
    cbn [map concat fst snd handle_all] in *.
  { simpl. rewrite app_nil_r. auto 10 with lia. }
  apply Forall_cons in Hok as [[Hp1 _] Hok]. cbn [fst snd] in *. rewrite length_app in *.
  rewrite handle_stdin_chunk, bind_assoc by lia.
  eapply wp_bind; [apply append_all_spec; [done|unfold fits, used in *; lia]|].
  intros s (Hs1 & Hc1 & Hw1). cbn [res_bind].
  eapply wp_mono; [apply IH; simpl; [done|done|unfold used in *; lia]|].
  simpl. intros c' (? & Hl' & Hc' & ? & ?). rewrite Hc', Hc1, <- app_assoc.
  split_and!; try apply H; try done; try tauto. unfold used in *. lia.
Qed.

Lemma handle_params_end kvs c :
  codec_wf c → content (paramsStream_ c) = enc_params kvs → Forall pair_ok kvs →
  wp (handle_record (decoded (mkWire kFcgiParams [] [])) c)
     (λ c', codec_wf c' ∧ load c' ≤ load c ∧ same_frame c c' ∧
            params_ c' = put_all kvs (params_ c)).
Proof.
  intros [Hs Hp] Hc Hok. unfold handle_record, decoded, onParams; simpl.
  pose proof (wp_conj _ _ _ (parseAllParams_enc kvs c Hp Hc Hok) (parseAllParams_total c Hp))
    as ([ok c'] & -> & (-> & Hsf & Hm & _) & (Hw & _ & Hu))%wp_elim.
  simpl. destruct Hsf as (E1 & E2 & E3). unfold codec_wf, load, same_frame. rewrite E1.
  split_and!; try done. lia.
Qed.

Lemma handle_begin keep c :
  handle_record (decoded (mkWire kFcgiBeginRequest (begin_body keep) [])) c =
  Ok (set_keepConn keep c).
Proof. by destruct keep. Qed.

Lemma handle_request keep kvs ps bs c :
  idle c → data ps = enc_params kvs → Forall pair_ok kvs → Forall chunk_ok ps →
  Forall chunk_ok bs → load c + zlen (data ps) + zlen (data bs) ≤ max_size →
  wp (handle_all (map decoded (request_records keep ps bs)) c) (λ c', gotRequest_ c' = true ∧
     request_of c' = EPutTask (mkTask (put_all kvs ∅) (data bs)) ::
                     (if keep then [] else [EShutdown])).
Proof.
  intros (Hc & Hg & Hm & Hs & Hp) Hps Hkv Hok1 Hok2 Hl.
  unfold request_records, stream_records. cbn [map handle_all]. rewrite handle_begin. cbn [res_bind].
  rewrite !map_app, !handle_all_app.
  eapply wp_bind; [eapply wp_bind; [apply handle_params_chunks; [done|done|]|]|].
  - change (load (set_keepConn keep c)) with (load c). lia.
  - intros c1 (Hc1 & Hl1 & Hp1 & (E1 & E2 & E3) & Hm1). simpl in E1, E2, E3, Hp1, Hm1.
    change (load (set_keepConn keep c)) with (load c) in Hl1.
    rewrite Hp, Hps in Hp1. cbn [map handle_all].
    eapply wp_bind; [by apply handle_params_end|]. intros c2 (Hc2 & Hl2 & (F1 & F2 & F3) & Hm2).
    cbn [wp]. instantiate (1 := λ c2, codec_wf c2 ∧ load c2 ≤ load c + zlen (data ps) ∧
      content (stdin_ c2) = [] ∧ keepConn_ c2 = keep ∧ params_ c2 = put_all kvs ∅).
    cbv beta. rewrite F1, F2, Hm2, E1, E2, Hm1, Hm. split_and!; [apply Hc2..|lia|done|done|done].
  - intros c2 (Hc2 & Hl2 & Hs2 & Hk2 & Hm2). rewrite handle_all_app.
    eapply wp_bind; [apply handle_stdin_chunks; [done|done|lia]|].
    intros c3 (_ & _ & Hs3 & Hk3 & Hm3). unfold request_of. simpl.
    by rewrite Hs3, Hs2, Hk3, Hk2, Hm3, Hm2.
Qed.

Lemma request_wire_ok keep ps bs :
  Forall chunk_ok ps → Forall chunk_ok bs → Forall wire_ok (request_records keep ps bs).
Proof.
  intros H1 H2. unfold request_records, stream_records.
  constructor; [by destruct keep|].
  repeat (apply Forall_app; split); try (constructor; [done|done]);
    apply Forall_map; (eapply Forall_impl; [done|]); intros [p pad] [??];
    unfold wire_ok; simpl in *; unfold kFcgiParams, kFcgiStdin; lia.
Qed.

Lemma request_split keep ps bs :
  Forall chunk_ok bs →
  ∃ rs, map decoded (request_records keep ps bs) = rs ++ [decoded (mkWire kFcgiStdin [] [])] ∧
        Forall (λ r, final_record r = false) rs.
Proof.
  intros Hb. unfold request_records, stream_records.
  eexists (map decoded (mkWire kFcgiBeginRequest (begin_body keep) [] ::
    (map (λ p, mkWire kFcgiParams p.1 p.2) ps ++ [mkWire kFcgiParams [] []]) ++
    map (λ p, mkWire kFcgiStdin p.1 p.2) bs)). split.
  - cbn [map app]. rewrite !map_app, <- !app_assoc. done.
  - apply Forall_map. constructor; [done|]. apply Forall_app. split.
    + apply Forall_app. split; [|by constructor].
      apply Forall_map, Forall_true. done.
    + apply Forall_map. eapply Forall_impl; [done|]. intros [p pad] [??].
      unfold final_record; simpl in *. lia.
Qed.

Lemma data_le t chunks : zlen (data chunks) ≤ zlen (enc_stream (map (λ p, mkWire t p.1 p.2) chunks)).
Proof.
  unfold data, enc_stream. induction chunks as [|[p pad] cs IH]; [simpl; lia|].
  cbn [map concat]. rewrite !length_app, !Nat2Z.inj_add, zlen_enc_record.
  unfold record_size, kRecordHeader. simpl in *. lia.
Qed.

Lemma enc_stream_app a b : enc_stream (a ++ b) = enc_stream a ++ enc_stream b.
Proof. unfold enc_stream. by rewrite map_app, concat_app. Qed.

Lemma request_data_le keep ps bs :
  zlen (data ps) + zlen (data bs) ≤ zlen (enc_stream (request_records keep ps bs)).
Proof.
  unfold request_records, stream_records.
  change (enc_stream (?r :: ?l)) with (enc_record r ++ enc_stream l).
  rewrite !enc_stream_app, !length_app.
  pose proof (data_le kFcgiParams ps). pose proof (data_le kFcgiStdin bs). lia.
Qed.

(** C6. A FastCGI request (begin record, params in any number of records, stdin in
    any number of records, arbitrary padding) sent over a connection and cut by the
    network into any chunks is handed to the thread pool exactly once, with exactly
    the parameters (the last value of a repeated name) and the body it carries; the
    connection is shut down exactly when the keep-connection flag is clear, and the
    codec is ready for the next request. *)
Theorem request_delivered keep kvs ps bs chunks c buf :
  idle c → wf buf → content buf = [] →
  Forall pair_ok kvs → data ps = enc_params kvs → Forall chunk_ok ps → Forall chunk_ok bs →
  concat chunks = enc_stream (request_records keep ps bs) →
  Z.max (load c) (used buf) + zlen (concat chunks) ≤ max_size →
  wp (serve chunks c buf) (λ '(es, c', buf'),
    es = EPutTask (mkTask (put_all kvs ∅) (data bs)) :: (if keep then [] else [EShutdown]) ∧
    idle c' ∧ content buf' = []).
Proof.
  intros Hi Hb Hcb Hkv Hps Hok1 Hok2 Hch Hm.
  pose proof (request_data_le keep ps bs) as Hle. rewrite <- Hch in Hle.
  pose proof (handle_request keep kvs ps bs c Hi Hps Hkv Hok1 Hok2 ltac:(lia))
    as (c1 & Ha & Hg & Hreq)%wp_elim.
  destruct (request_split keep ps bs Hok2) as (rs & Ers & Hf).
  pose proof (records_enc _ (request_wire_ok keep ps bs Hok1 Hok2)) as Hr.
  rewrite <- Hch in Hr. fold decoded in Hr. change (λ r, (wire_header r, w_payload r)) with decoded in Hr.
  rewrite Ers in Ha, Hr. rewrite <- Hreq.
  apply (serve_spec _ _ _ rs (decoded (mkWire kFcgiStdin [] []))); rewrite ?Hcb; try done.
  - apply Hi.
  - apply Hi.
  - apply records_stop. unfold kRecordHeader. simpl. lia.
  - simpl. lia.
  - lia.
Qed.

(** C27. Whatever bytes the network delivers, [onMessage] returns: no assertion
    fails and nothing is read past the data; it consumes exactly the complete
    records at the front of the buffer and leaves the incomplete tail. *)
Theorem onMessage_safe c buf :
  codec_wf c → wf buf → load c + zlen (content buf) ≤ max_size →
  wp (onMessage c buf) (λ '(_, c', buf'), codec_wf c' ∧ wf buf' ∧
    ∃ rs, records (content buf) rs (content buf') ∧ records (content buf') [] (content buf') ∧
          Forall record_ok rs ∧ ∃ pre, content buf = pre ++ content buf').
Proof.
  intros Hc Hb Hm. eapply wp_mono; [by apply onMessage_spec|].
  intros [[es c'] b'] (? & ? & _ & rs & c1 & Hr & _).
  pose proof (records_facts _ _ _ Hr) as (? & _ & ?). split; [done|]. split; [done|].
  exists rs. split_and!; [done|by eapply records_rest|done|done].
Qed.

(** ** The response *)

Definition pad_of (s : bytes) : bytes := replicate (Z.to_nat ((- zlen s) mod 8)) Byte.x00.

Definition stdout_record (s : bytes) : wire_record := mkWire kFcgiStdout s (pad_of s).

Lemma pad_width (s : bytes) : u8z (Z.land (u64 (- zlen s)) 7) = (- zlen s) mod 8.
Proof.
  change 7 with (Z.ones 3). rewrite Z.land_ones by lia. unfold u64, uwrap.
  rewrite Z.mod_mod_divide by (exists (2 ^ 61); done). change (2 ^ 3) with 8.
  apply uwrap_small. pose proof (Z.mod_pos_bound (- zlen s) 8). lia.
Qed.

Lemma zlen_pad_of s : zlen (pad_of s) = (- zlen s) mod 8.
Proof.
  unfold pad_of. rewrite length_replicate. pose proof (Z.mod_pos_bound (- zlen s) 8). lia.
Qed.

Lemma appends_header h : appends (append (header_bytes h) kRecordHeader) (header_bytes h).
Proof.
  pose proof (appends_all (header_bytes h)) as H. by rewrite length_header_bytes in H at 1.
Qed.

Lemma appends_chunk s :
  zlen s < 65536 → appends (respond_chunk s) (enc_record (stdout_record s)).
Proof.
  intros Hs. unfold respond_chunk. cbv zeta. rewrite pad_width. cbn [padding].
  assert (0 ≤ (- zlen s) mod 8 < 8) as Hp by (apply Z.mod_pos_bound; lia).
  unfold enc_record, stdout_record, wire_header, net_header; cbn [version type id length_ padding unused w_type w_payload w_pad].
  rewrite zlen_pad_of. replace (u16 (zlen s)) with (zlen s) by (symmetry; apply uwrap_small; lia).
  apply appends_bind; [apply appends_header|].
  apply appends_bind; [apply appends_str; lia|].
  replace (pad_of s) with (ztake ((- zlen s) mod 8) nul8).
  - apply appends_take. change (zlen nul8) with 9. lia.
  - unfold pad_of, nul8, ztake. rewrite take_replicate. f_equal. lia.
Qed.

Lemma enc_stream_one r : enc_stream [r] = enc_record r.
Proof. unfold enc_stream. cbn [map concat]. apply app_nil_r. Qed.

Lemma enc_stream_cons r rs : enc_stream (r :: rs) = enc_record r ++ enc_stream rs.
Proof. done. Qed.

(** The full 65535-byte pieces from piece [i] on. *)
Definition pieces (i : Z) (n : nat) (out : bytes) : list bytes :=
  map (λ k, substr ((i + Z.of_nat k) * FCGI_MAX_LENGTH) FCGI_MAX_LENGTH out) (seq 0 n).

Lemma pieces_S i n out :
  pieces i (S n) out = substr (i * FCGI_MAX_LENGTH) FCGI_MAX_LENGTH out :: pieces (i + 1) n out.
Proof.
  unfold pieces. cbn [seq map]. f_equal; [f_equal; lia|].
  rewrite <- seq_shift, map_map. apply map_ext. intros k. f_equal. lia.
Qed.

Lemma zlen_substr_le p n (s : bytes) : 0 ≤ n → zlen (substr p n s) ≤ n.
Proof. intros. unfold substr, ztake. rewrite length_take. lia. Qed.

Lemma appends_loop n i out :
  appends (respond_loop n i out) (enc_stream (map stdout_record (pieces i n out))).
Proof.
  revert i. induction n as [|n IH]; intros i; [apply appends_nil|].
  rewrite pieces_S. cbn [map]. rewrite enc_stream_cons. cbn [respond_loop].
  apply (appends_bind _ (λ b, respond_loop n (i + 1) out b)); [|apply IH].
  apply appends_chunk. pose proof (zlen_substr_le (i * FCGI_MAX_LENGTH) FCGI_MAX_LENGTH out).
  unfold FCGI_MAX_LENGTH in *. lia.
Qed.

Lemma concat_pieces n out :
  Z.of_nat n * FCGI_MAX_LENGTH ≤ zlen out →
  concat (pieces 0 n out) = ztake (Z.of_nat n * FCGI_MAX_LENGTH) out.
Proof.
  induction n as [|n IH]; intros Hn; [done|].
  unfold pieces. rewrite seq_S, map_app, concat_app. cbn [map concat]. rewrite app_nil_r.
  fold (pieces 0 n out). rewrite IH by (unfold FCGI_MAX_LENGTH in *; lia).
  unfold substr, ztake, zdrop, FCGI_MAX_LENGTH in *.
  replace (Z.to_nat (Z.of_nat (S n) * 65535))
    with (Z.to_nat (Z.of_nat n * 65535) + Z.to_nat 65535)%nat by lia.
  by rewrite <- take_take_drop.
Qed.

(** The payloads of the stdout records. *)
Definition page_pieces (page : bytes) : list bytes :=
  if zlen page <=? FCGI_MAX_LENGTH then [page]
  else
    let n := zlen page / FCGI_MAX_LENGTH in
    pieces 0 (Z.to_nat n) page ++
    (if negb (zlen page mod FCGI_MAX_LENGTH =? 0)
     then [zdrop (FCGI_MAX_LENGTH * n) page] else []).

Definition response_records (page : bytes) : list wire_record :=
  map stdout_record (page_pieces page) ++
  [mkWire kFcgiStdout [] []; mkWire kFcgiEndRequest (replicate 8 Byte.x00) []].

Definition page_of (out : bytes) : bytes := if (length out =? 0)%nat then emptyPage else out.

Lemma concat_page_pieces page : concat (page_pieces page) = page.
Proof.
  unfold page_pieces. destruct (_ <=? _) eqn:E; [simpl; apply app_nil_r|]. bool_prop.
  cbv zeta. rewrite concat_app. unfold FCGI_MAX_LENGTH in *.
  pose proof (Z.div_mod (zlen page) 65535). pose proof (Z.mod_pos_bound (zlen page) 65535).
  rewrite concat_pieces by (unfold FCGI_MAX_LENGTH; lia). unfold FCGI_MAX_LENGTH.
  rewrite (Z.mul_comm 65535). replace (Z.of_nat (Z.to_nat (zlen page / 65535))) with (zlen page / 65535) by lia.
  destruct (_ =? 0) eqn:E2; bool_prop; cbn [negb concat]; rewrite app_nil_r.
  - apply ztake_all. lia.
  - apply ztake_zdrop.
Qed.

Lemma page_pieces_bounds page :
  page ≠ [] → Forall (λ s, 0 < zlen s ≤ FCGI_MAX_LENGTH) (page_pieces page).
Proof.
  intros Hne. unfold page_pieces. assert (0 < zlen page) by (destruct page; simpl; done || lia).
  destruct (_ <=? _) eqn:E; bool_prop; [by repeat constructor|]. cbv zeta.
  unfold FCGI_MAX_LENGTH in *.
  pose proof (Z.div_mod (zlen page) 65535). pose proof (Z.mod_pos_bound (zlen page) 65535).
  apply Forall_app. split.
  - apply Forall_map, Forall_forall. intros k Hk%list_elem_of_In%in_seq.
    unfold substr. rewrite length_ztake; unfold FCGI_MAX_LENGTH; [lia|].
    rewrite length_zdrop; nia.
  - destruct (_ =? 0) eqn:E2; bool_prop; constructor; [|done].
    rewrite length_zdrop; lia.
Qed.

Lemma page_of_nonempty out : page_of out ≠ [].
Proof. unfold page_of. by destruct out. Qed.

Lemma appends_page page :
  page ≠ [] →
  appends (λ b, if zlen page <=? FCGI_MAX_LENGTH then respond_chunk page b
    else
      let numSubstrings := zlen page / FCGI_MAX_LENGTH in
      let! b := respond_loop (Z.to_nat numSubstrings) 0 page b in
      if negb (zlen page mod FCGI_MAX_LENGTH =? 0)
      then respond_chunk (zdrop (FCGI_MAX_LENGTH * numSubstrings) page) b
      else Ok b) (enc_stream (map stdout_record (page_pieces page))).
Proof.
  intros Hne. pose proof (page_pieces_bounds page Hne) as Hb. revert Hb. unfold page_pieces.
  cbv zeta. destruct (_ <=? _) eqn:E; intros Hb; bool_prop.
  - cbn [map]. rewrite enc_stream_one. apply appends_chunk. unfold FCGI_MAX_LENGTH in *. lia.
  - apply Forall_app in Hb as [_ Hb]. rewrite map_app, enc_stream_app.
    apply (appends_bind _ (λ b, if negb _ then _ else _)); [apply appends_loop|].
    destruct (_ =? 0); cbn [negb] in *; [apply appends_nil|].
    apply Forall_cons in Hb as [Hb _]. cbn [map]. rewrite enc_stream_one.
    apply appends_chunk. unfold FCGI_MAX_LENGTH in *. lia.
Qed.

Lemma appends_endStdout : appends endStdout (enc_record (mkWire kFcgiStdout [] [])).
Proof.
  unfold endStdout, enc_record. cbn [w_payload w_pad app]. rewrite app_nil_r. apply appends_header.
Qed.

Lemma appends_endRequest :
  appends endRequest (enc_record (mkWire kFcgiEndRequest (replicate 8 Byte.x00) [])).
Proof.
  unfold endRequest, enc_record. apply appends_bind; [apply appends_header|].
  apply (appends_bind (appendInt32 0) (appendInt32 0) (be_bytes 4 0) (be_bytes 4 0));
    apply appends_Int32.
Qed.

(** [respond] writes the page in records and the two end records. *)
Lemma respond_spec out b :
  wf b → fits (zlen (enc_stream (response_records (page_of out)))) b →
  wp (respond out b) (λ '(out', b'), out' = page_of out ∧ wf b' ∧
    content b' = content b ++ enc_stream (response_records (page_of out))).
Proof.
  intros Hb Hf. unfold respond. fold (page_of out). cbv zeta.
  pose proof (appends_bind _ _ _ _ (appends_page _ (page_of_nonempty out))
    (appends_bind _ _ _ _ appends_endStdout appends_endRequest)) as Happ.
  unfold response_records in *. rewrite enc_stream_app in *.
  rewrite enc_stream_cons, enc_stream_one in *.
  specialize (Happ b Hb Hf). cbv zeta beta in Happ.
  apply wp_elim in Happ as (b' & He & Hb' & Hc & _).
  apply bind_ok in He as (b1 & -> & He). apply bind_ok in He as (b2 & E2 & He).
  cbn [res_bind]. rewrite E2. cbn [res_bind]. rewrite He. by simpl.
Qed.

Lemma zlen_concat_app (l : list bytes) s : zlen (concat (s :: l)) = zlen s + zlen (concat l).
Proof. simpl. rewrite length_app. lia. Qed.

(** Every stdout record adds at most fifteen bytes to its payload. *)
Lemma stdout_overhead l :
  Forall (λ s : bytes, 0 < zlen s) l →
  zlen (enc_stream (map stdout_record l)) ≤ zlen (concat l) + 15 * zlen l ∧
  zlen l ≤ zlen (concat l).
Proof.
  induction 1 as [|s l Hs Hl [IH1 IH2]]; [done|].
  rewrite zlen_concat_app. cbn [map]. rewrite enc_stream_cons, length_app, Nat2Z.inj_add.
  rewrite zlen_enc_record. unfold record_size, kRecordHeader, wire_header.
  cbn [length_ padding]. change (w_payload (stdout_record s)) with s.
  change (w_pad (stdout_record s)) with (pad_of s). rewrite zlen_pad_of.
  pose proof (Z.mod_pos_bound (- zlen s) 8). cbn [length]. lia.
Qed.

Lemma response_size page :
  page ≠ [] → zlen (enc_stream (response_records page)) ≤ 16 * zlen page + 24.
Proof.
  intros Hne. unfold response_records. rewrite enc_stream_app, length_app.
  destruct (stdout_overhead (page_pieces page)) as [H1 H2].
  - eapply Forall_impl; [by apply page_pieces_bounds|]. simpl. lia.
  - rewrite concat_page_pieces in *.
    rewrite enc_stream_cons, enc_stream_one, length_app, !Nat2Z.inj_add.
    rewrite (zlen_enc_record (mkWire kFcgiStdout [] [])),
      (zlen_enc_record (mkWire kFcgiEndRequest _ [])).
    unfold record_size, kRecordHeader. cbn [length_ padding wire_header w_payload w_pad].
    change (zlen (replicate 8 Byte.x00)) with 8. simpl (zlen []). lia.
Qed.

(** C28. [respond] appends to the response a sequence of complete stdout records
    followed by the empty stdout record and the end-of-request record; the payloads
    of the stdout records concatenate to the page ("Empty Result!" for an empty
    one), no record carries more than 65535 bytes and every one is padded to a
    multiple of eight; a FastCGI decoder recovers exactly these records. *)
Theorem respond_correct out b :
  wf b → fits (16 * zlen (page_of out) + 24) b →
  wp (respond out b) (λ '(out', b'), out' = page_of out ∧ wf b' ∧
    ∃ w ss, content b' = content b ++ w ∧
      records w (map decoded (map stdout_record ss ++
        [mkWire kFcgiStdout [] []; mkWire kFcgiEndRequest (replicate 8 Byte.x00) []])) [] ∧
      concat ss = page_of out ∧
      Forall (λ s, 0 < zlen s ≤ 65535 ∧ (zlen s + zlen (w_pad (stdout_record s))) mod 8 = 0) ss).
Proof.
  intros Hb Hf. pose proof (page_of_nonempty out) as Hne.
  pose proof (response_size (page_of out) Hne).
  eapply wp_mono; [apply respond_spec; [done|unfold fits in *; lia]|].
  intros [out' b'] (-> & Hb' & Hc). split_and!; [done..|].
  pose proof (page_pieces_bounds _ Hne) as Hp.
  exists (enc_stream (response_records (page_of out))), (page_pieces (page_of out)).
  split_and!; [done| |apply concat_page_pieces|].
  - apply records_enc. unfold response_records. apply Forall_app. split; [|by repeat constructor].
    apply Forall_map. eapply Forall_impl; [done|]. intros s Hs.
    unfold wire_ok. cbn [stdout_record w_type w_payload w_pad]. rewrite zlen_pad_of.
    pose proof (Z.mod_pos_bound (- zlen s) 8). unfold FCGI_MAX_LENGTH, kFcgiStdout in *. lia.
  - eapply Forall_impl; [done|]. intros s Hs. split; [done|].
    cbn [stdout_record w_pad]. rewrite zlen_pad_of, Z.add_mod_idemp_r by lia.
    by rewrite Z.add_opp_diag_r.
Qed.

(** ** Witnesses *)

Definition idle_codec : FastCgiCodec :=
  mkCodec false false (mkBuffer (replicate 32 Byte.x00) 8 8) (mkBuffer (replicate 32 Byte.x00) 8 8) ∅.

Definition idle_buffer : Buffer := mkBuffer (replicate 16 Byte.x00) 8 8.

Lemma idle_codec_ok : idle idle_codec.
Proof. unfold idle, codec_wf, wf. vm_compute. repeat split; discriminate. Qed.

Lemma idle_buffer_ok : wf idle_buffer.
Proof. unfold wf. vm_compute. repeat split; discriminate. Qed.

Definition demo_params : list (bytes * bytes) :=
  [(str "METHOD", str "GET"); (str "METHOD", str "POST"); (str "X", [])].

Definition demo_wire : bytes :=
  enc_stream (request_records false [(enc_params demo_params, [Byte.x00])] [(str "hi", []); (str "!", [])]).

Lemma request_delivered_witness :
  wp (serve [ztake 13 demo_wire; zdrop 13 demo_wire] idle_codec idle_buffer) (λ '(es, c', buf'),
    es = [EPutTask (mkTask (put_all demo_params ∅) (str "hi!")); EShutdown] ∧
    idle c' ∧ content buf' = []).
Proof.
  apply (request_delivered false demo_params [(enc_params demo_params, [Byte.x00])]
           [(str "hi", []); (str "!", [])]).
  - apply idle_codec_ok.
  - apply idle_buffer_ok.
  - reflexivity.
  - unfold demo_params, pair_ok. repeat constructor.
  - vm_compute. reflexivity.
  - unfold chunk_ok. repeat constructor.
  - unfold chunk_ok. repeat constructor.
  - vm_compute. reflexivity.
  - vm_compute. discriminate.
Defined.

Lemma onMessage_safe_witness :
  wp (onMessage idle_codec (mkBuffer (replicate 8 Byte.x00 ++ ztake 30 demo_wire) 8 38))
     (λ '(_, c', buf'), codec_wf c' ∧ wf buf' ∧
    ∃ rs, records (ztake 30 demo_wire) rs (content buf') ∧ records (content buf') [] (content buf') ∧
          Forall record_ok rs ∧ ∃ pre, ztake 30 demo_wire = pre ++ content buf').
Proof.
  apply (onMessage_safe idle_codec (mkBuffer (replicate 8 Byte.x00 ++ ztake 30 demo_wire) 8 38)).
  - apply idle_codec_ok.
  - unfold wf. vm_compute. repeat split; discriminate.
  - vm_compute. discriminate.
Defined.

Lemma respond_correct_witness :
  wp (respond [] idle_buffer) (λ '(out', b'), out' = emptyPage ∧ wf b' ∧
    ∃ w ss, content b' = content idle_buffer ++ w ∧
      records w (map decoded (map stdout_record ss ++
        [mkWire kFcgiStdout [] []; mkWire kFcgiEndRequest (replicate 8 Byte.x00) []])) [] ∧
      concat ss = emptyPage ∧
      Forall (λ s, 0 < zlen s ≤ 65535 ∧ (zlen s + zlen (w_pad (stdout_record s))) mod 8 = 0) ss).
Proof.
  apply (respond_correct [] idle_buffer).
  - apply idle_buffer_ok.
  - unfold fits. vm_compute. discriminate.
Defined.

End FastCgi.
