(* ===== verification/Http.v ===== *)
(** The HTTP server of the network layer ([netLayer/http]): the request object
    and its setters ([HttpRequest.h]), the incremental parser of a connection
    ([HttpContext.h], [HttpContext.cpp]), responses ([HttpResponse.h],
    [HttpResponse.cpp]) and the message handler ([HttpServer.cpp]).

    Character ranges of the source ([start], [end]) are the byte strings they
    delimit.  The [while (hasMore)] loop takes fuel: in the two states in which
    it makes progress every turn consumes at least the two bytes of a CRLF, so the
    readable bytes bound it; in the other two it never ends. *)

From S2P Require Import Prelude StdMap Buffer.
Import StdMap Buffer.

Module Http.

(** ** HttpRequest *)

Inductive Method := kInvalid | kGet | kPost | kHead | kPut | kDelete.
Inductive Version := kUnknown | kHttp10 | kHttp11.

#[export] Instance Method_eq_dec : EqDecision Method.
Proof. solve_decision. Defined.
#[export] Instance Version_eq_dec : EqDecision Version.
Proof. solve_decision. Defined.

Record HttpRequest := mkRequest {
  method_ : Method;
  version_ : Version;
  path_ : bytes;
  query_ : bytes;
  receiveTime_ : Z;            (* Timestamp *)
  headers_ : smap bytes;       (* std::map<string, string> *)
}.

Definition new_HttpRequest : HttpRequest := mkRequest kInvalid kUnknown [] [] 0 [].

Definition setVersion (v : Version) (r : HttpRequest) : HttpRequest :=
  mkRequest (method_ r) v (path_ r) (query_ r) (receiveTime_ r) (headers_ r).

Definition method_of (m : bytes) : Method :=
  if decide (m = str "GET") then kGet
  else if decide (m = str "POST") then kPost
  else if decide (m = str "HEAD") then kHead
  else if decide (m = str "PUT") then kPut
  else if decide (m = str "DELETE") then kDelete
  else kInvalid.

Definition setMethod (m : bytes) (r : HttpRequest) : res (bool * HttpRequest) :=
  assert! bool_decide (method_ r = kInvalid) in
  Ok (bool_decide (method_of m ≠ kInvalid),
      mkRequest (method_of m) (version_ r) (path_ r) (query_ r) (receiveTime_ r) (headers_ r)).

Definition methodString (r : HttpRequest) : bytes :=
  match method_ r with
  | kGet => str "GET"
  | kPost => str "POST"
  | kHead => str "HEAD"
  | kPut => str "PUT"
  | kDelete => str "DELETE"
  | kInvalid => str "UNKNOWN"
  end.

Definition setPath (p : bytes) (r : HttpRequest) : HttpRequest :=
  mkRequest (method_ r) (version_ r) p (query_ r) (receiveTime_ r) (headers_ r).

Definition setQuery (q : bytes) (r : HttpRequest) : HttpRequest :=
  mkRequest (method_ r) (version_ r) (path_ r) q (receiveTime_ r) (headers_ r).

Definition setReceiveTime (t : Z) (r : HttpRequest) : HttpRequest :=
  mkRequest (method_ r) (version_ r) (path_ r) (query_ r) t (headers_ r).

(** [isspace] in the C locale. *)
Definition isspace (c : byte) : bool := (ub c =? 32) || ((9 <=? ub c) && (ub c <=? 13)).

(** [while (colon < end && isspace( *colon)) ++colon]. *)
Fixpoint skip_space (l : bytes) : bytes :=
  match l with
  | [] => []
  | c :: l' => if isspace c then skip_space l' else l
  end.

(** [while (!value.empty() && isspace(value[value.size()-1])) value.resize(...)]. *)
Definition trim_end (l : bytes) : bytes := rev (skip_space (rev l)).

(** The line [start, end) with the colon at offset [colon]. *)
Definition addHeader (line : bytes) (colon : nat) (r : HttpRequest) : HttpRequest :=
  let field := take colon line in
  let value := trim_end (skip_space (drop (S colon) line)) in
  mkRequest (method_ r) (version_ r) (path_ r) (query_ r) (receiveTime_ r)
    (put field value (headers_ r)).

Definition getHeader (field : bytes) (r : HttpRequest) : bytes :=
  default [] (find field (headers_ r)).

(** ** HttpContext *)

Inductive HttpRequestParseState := kExpectRequestLine | kExpectHeaders | kExpectBody | kGotAll.

#[export] Instance ParseState_eq_dec : EqDecision HttpRequestParseState.
Proof. solve_decision. Defined.

Record HttpContext := mkContext {
  state_ : HttpRequestParseState;
  request_ : HttpRequest;
}.

Definition new_HttpContext : HttpContext := mkContext kExpectRequestLine new_HttpRequest.

Definition gotAll (c : HttpContext) : bool := bool_decide (state_ c = kGotAll).

(** The old request goes into the dummy and dies with it. *)
Definition reset (c : HttpContext) : HttpContext := mkContext kExpectRequestLine new_HttpRequest.

Definition space : byte := Byte.x20.
Definition question_mark : byte := Byte.x3f.
Definition colon_char : byte := Byte.x3a.

(** The part of a request line after the method and its space. *)
Definition processTarget (rest : bytes) (r : HttpRequest) : bool * HttpRequest :=
  let sp := find_byte space rest in
  if (sp =? length rest)%nat then (false, r) else
  let target := take sp rest in
  let question := find_byte question_mark target in
  let r := if (question =? length target)%nat then setPath target r
           else setQuery (drop question target) (setPath (take question target) r) in
  let start := drop (S sp) rest in
  if (length start =? 8)%nat && bool_decide (take 7 start = str "HTTP/1.") then
    match start !! 7%nat with
    | Some Byte.x31 => (true, setVersion kHttp11 r)
    | Some Byte.x30 => (true, setVersion kHttp10 r)
    | _ => (false, r)
    end
  else (false, r).

Definition processRequestLine (line : bytes) (c : HttpContext) : res (bool * HttpContext) :=
  let sp := find_byte space line in
  if (sp =? length line)%nat then Ok (false, c) else
  let! (ok, r) := setMethod (take sp line) (request_ c) in
  if ok then
    let '(succeed, r) := processTarget (drop (S sp) line) r in
    Ok (succeed, mkContext (state_ c) r)
  else Ok (false, mkContext (state_ c) r).

(** [ok] of the source is its value at the end of the loop; it is [true] at the
    start of every turn. *)
Fixpoint parseRequest (fuel : nat) (receiveTime : Z) (c : HttpContext) (buf : Buffer)
    : res (bool * HttpContext * Buffer) :=
  match fuel with
  | O => Err OutOfFuel
  | S fuel =>
      match state_ c with
      | kExpectRequestLine =>
          match findCRLF buf with
          | Some crlf =>
              let! (ok, c) := processRequestLine (slice (peek buf) crlf (buffer_ buf)) c in
              if ok then
                let c := mkContext (state_ c) (setReceiveTime receiveTime (request_ c)) in
                let! buf := retrieveUntil (crlf + 2) buf in
                parseRequest fuel receiveTime (mkContext kExpectHeaders (request_ c)) buf
              else Ok (false, c, buf)
          | None => Ok (true, c, buf)
          end
      | kExpectHeaders =>
          match findCRLF buf with
          | Some crlf =>
              let line := slice (peek buf) crlf (buffer_ buf) in
              let colon := find_byte colon_char line in
              if negb (colon =? length line)%nat then
                let c := mkContext (state_ c) (addHeader line colon (request_ c)) in
                let! buf := retrieveUntil (crlf + 2) buf in
                parseRequest fuel receiveTime c buf
              else
                let! buf := retrieveUntil (crlf + 2) buf in
                Ok (true, mkContext kGotAll (request_ c), buf)
          | None => Ok (true, c, buf)
          end
      | kExpectBody | kGotAll => parseRequest fuel receiveTime c buf
      end
  end.

(** ** HttpResponse *)

Definition k404NotFound : Z := 404.
Definition k400BadRequest : Z := 400.
Definition k200Ok : Z := 200.
Definition k301MovedPermanently : Z := 301.

Record HttpResponse := mkResponse {
  resp_headers_ : smap bytes;
  statusCode_ : Z;
  statusMessage_ : bytes;
  closeConnection_ : bool;
  body_ : bytes;
}.

Definition new_HttpResponse (close : bool) : HttpResponse := mkResponse [] 0 [] close [].

Definition setStatusCode (code : Z) (r : HttpResponse) : HttpResponse :=
  mkResponse (resp_headers_ r) code (statusMessage_ r) (closeConnection_ r) (body_ r).
Definition setStatusMessage (m : bytes) (r : HttpResponse) : HttpResponse :=
  mkResponse (resp_headers_ r) (statusCode_ r) m (closeConnection_ r) (body_ r).
Definition setCloseConnection (on : bool) (r : HttpResponse) : HttpResponse :=
  mkResponse (resp_headers_ r) (statusCode_ r) (statusMessage_ r) on (body_ r).
Definition resp_addHeader (k v : bytes) (r : HttpResponse) : HttpResponse :=
  mkResponse (put k v (resp_headers_ r)) (statusCode_ r) (statusMessage_ r)
    (closeConnection_ r) (body_ r).
Definition setContentType (t : bytes) (r : HttpResponse) : HttpResponse :=
  resp_addHeader (str "Content-Type") t r.
Definition setBody (b : bytes) (r : HttpResponse) : HttpResponse :=
  mkResponse (resp_headers_ r) (statusCode_ r) (statusMessage_ r) (closeConnection_ r) b.

(** [snprintf] into [char buf[32]] keeps 31 characters. *)
Definition snprintf32 (s : bytes) : bytes := ztake 31 s.

Fixpoint append_headers (hs : smap bytes) (output : Buffer) : res Buffer :=
  match hs with
  | [] => Ok output
  | (k, v) :: hs =>
      let! output := append_str k output in
      let! output := append_str (str ": ") output in
      let! output := append_str v output in
      let! output := append_str kCRLF output in
      append_headers hs output
  end.

Definition appendToBuffer (r : HttpResponse) (output : Buffer) : res Buffer :=
  let! output := append_str (snprintf32 (str "HTTP/1.1 " ++ dec (statusCode_ r) ++ str " ")) output in
  let! output := append_str (statusMessage_ r) output in
  let! output := append_str kCRLF output in
  let! output :=
    if closeConnection_ r then append_str (str "Connection: close" ++ kCRLF) output
    else
      let! output := append_str (snprintf32 (str "Content-Length: " ++ dec (zlen (body_ r)) ++ kCRLF)) output in
      append_str (str "Connection: Keep-Alive" ++ kCRLF) output in
  let! output := append_headers (resp_headers_ r) output in
  let! output := append_str kCRLF output in
  append_str (body_ r) output.

(** ** HttpServer *)

(** What the handlers ask of the connection. *)
Inductive effect :=
| ESend (data : bytes)
| EShutdown.

Definition defaultHttpCallback (req : HttpRequest) (resp : HttpResponse) : HttpResponse :=
  setCloseConnection true (setStatusMessage (str "Not Found") (setStatusCode k404NotFound resp)).

Definition wants_close (req : HttpRequest) : bool :=
  let connection := getHeader (str "Connection") req in
  bool_decide (connection = str "close") ||
  (bool_decide (version_ req = kHttp10) && bool_decide (connection ≠ str "Keep-Alive")).

Section Server.
(** [httpCallback_]: the user's function; it fills in the response. *)
Context (httpCallback_ : HttpRequest → HttpResponse → HttpResponse).

Definition onRequest (req : HttpRequest) : res (list effect) :=
  let response := httpCallback_ req (new_HttpResponse (wants_close req)) in
  let! buf := new_Buffer kInitialSize in
  let! buf := appendToBuffer response buf in
  Ok (ESend (peek_bytes (readableBytes buf) buf) ::
      (if closeConnection_ response then [EShutdown] else [])).

Definition badRequest : bytes := str "HTTP/1.1 400 Bad Request" ++ kCRLF ++ kCRLF.

Definition onMessage (c : HttpContext) (buf : Buffer) (receiveTime : Z)
    : res (list effect * HttpContext * Buffer) :=
  let! (ok, c, buf) := parseRequest (S (Z.to_nat (readableBytes buf))) receiveTime c buf in
  let bad := if ok then [] else [ESend badRequest; EShutdown] in
  if gotAll c then
    let! es := onRequest (request_ c) in
    Ok (bad ++ es, reset c, buf)
  else Ok (bad, c, buf).

(** A connection: the chunks of [read] with their times, [onMessage] after each. *)
Fixpoint serve (chunks : list (bytes * Z)) (c : HttpContext) (buf : Buffer)
    : res (list effect * HttpContext * Buffer) :=
  match chunks with
  | [] => Ok ([], c, buf)
  | (d, t) :: ds =>
      let! buf := append d (zlen d) buf in
      let! (e, c, buf) := onMessage c buf t in
      let! (es, c, buf) := serve ds c buf in
      Ok (e ++ es, c, buf)
  end.

End Server.

(** ** The parser on lines

    What one complete line does to the context. *)

Inductive verdict := Continue | Reject | Done.

Definition line_step (t : Z) (c : HttpContext) (line : bytes) : res (verdict * HttpContext) :=
  match state_ c with
  | kExpectRequestLine =>
      let! (ok, c) := processRequestLine line c in
      if ok then Ok (Continue, mkContext kExpectHeaders (setReceiveTime t (request_ c)))
      else Ok (Reject, c)
  | _ =>
      let colon := find_byte colon_char line in
      if negb (colon =? length line)%nat
      then Ok (Continue, mkContext (state_ c) (addHeader line colon (request_ c)))
      else Ok (Done, mkContext kGotAll (request_ c))
  end.

(** The states in which the loop makes progress. *)
Definition live (c : HttpContext) : bool :=
  bool_decide (state_ c = kExpectRequestLine) || bool_decide (state_ c = kExpectHeaders).

Fixpoint parse_content (fuel : nat) (t : Z) (c : HttpContext) (q : bytes)
    : res (bool * HttpContext * bytes) :=
  match fuel with
  | O => Err OutOfFuel
  | S fuel =>
      if live c then
        match find_crlf q with
        | None => Ok (true, c, q)
        | Some i =>
            let! (v, c) := line_step t c (ztake i q) in
            match v with
            | Continue => parse_content fuel t c (zdrop (i + 2) q)
            | Reject => Ok (false, c, q)
            | Done => Ok (true, c, zdrop (i + 2) q)
            end
        end
      else parse_content fuel t c q
  end.

Lemma slice_content b i :
  wf b → 0 ≤ i ≤ zlen (content b) → slice (peek b) (peek b + i) (buffer_ b) = ztake i (content b).
Proof.
  intros Hb Hi. rewrite <- readableBytes_content, readableBytes_wf in Hi by done.
  unfold content, slice, peek. rewrite ztake_ztake by lia. f_equal. lia.
Qed.

Lemma retrieveUntil_used i b :
  wf b → 0 ≤ i ≤ zlen (content b) →
  wp (retrieveUntil (peek b + i) b)
     (λ b', wf b' ∧ content b' = zdrop i (content b) ∧ used b' ≤ used b).
Proof.
  intros Hb Hi. pose proof Hi as Hi'.
  rewrite <- readableBytes_content, readableBytes_wf in Hi' by done.
  unfold retrieveUntil, peek, beginWrite.
  rewrite (proj2 (Z.leb_le (readerIndex_ b) _)), (proj2 (Z.leb_le _ (writerIndex_ b))) by lia.
  replace (readerIndex_ b + i - readerIndex_ b) with i by lia.
  rewrite u64_small by buf_arith. by apply retrieve_used.
Qed.

(** The buffer-level loop is the loop on the readable bytes. *)
Lemma parseRequest_content fuel t c buf :
  wf buf →
  match parse_content fuel t c (content buf) with
  | Ok (ok, c', rest) => ∃ buf', parseRequest fuel t c buf = Ok (ok, c', buf') ∧ wf buf' ∧
                          content buf' = rest ∧ used buf' ≤ used buf
  | Err f => parseRequest fuel t c buf = Err f
  end.
Proof.
  revert c buf. induction fuel as [|fuel IH]; intros c buf Hb; [done|].
  cbn [parse_content parseRequest]. unfold live, line_step.
  destruct (state_ c) eqn:Es; simpl; [| |by apply IH..].
  - rewrite findCRLF_content by done. destruct (find_crlf (content buf)) as [i|] eqn:Ef; simpl; [|by exists buf].
    destruct (find_crlf_some _ _ Ef) as (Hi & Hi2 & _).
    rewrite slice_content by (done || lia).
    destruct (processRequestLine _ c) as [[ok c1]|f]; simpl; [|done].
    destruct ok; simpl; [|by exists buf].
    replace (peek buf + i + 2) with (peek buf + (i + 2)) by lia.
    pose proof (retrieveUntil_used (i + 2) buf Hb ltac:(lia))
      as (b1 & -> & Hb1 & <- & Hu)%wp_elim. cbn [res_bind].
    specialize (IH (mkContext kExpectHeaders (setReceiveTime t (request_ c1))) b1 Hb1).
    destruct (parse_content _ _ _ _) as [[[ok c2] rest]|]; [|done].
    destruct IH as (b2 & ?&?&?&?). exists b2. split_and!; [done..|lia].
  - rewrite findCRLF_content by done. destruct (find_crlf (content buf)) as [i|] eqn:Ef; simpl; [|by exists buf].
    destruct (find_crlf_some _ _ Ef) as (Hi & Hi2 & _).
    rewrite slice_content by (done || lia).
    replace (peek buf + i + 2) with (peek buf + (i + 2)) by lia.
    pose proof (retrieveUntil_used (i + 2) buf Hb ltac:(lia))
      as (b1 & -> & Hb1 & Hc1 & Hu)%wp_elim. cbn [res_bind].
    destruct (negb _); simpl; [|by exists b1]. rewrite <- Hc1.
    set (c1 := mkContext _ _). specialize (IH c1 b1 Hb1).
    destruct (parse_content _ _ _ _) as [[[ok c2] rest]|]; [|done].
    destruct IH as (b2 & ?&?&?&?). exists b2. split_and!; [done..|lia].
Qed.

(** ** The invariant of a context between messages *)

(** No method before the request line has been read. *)
Definition ctx_ok (c : HttpContext) : Prop :=
  match state_ c with
  | kExpectRequestLine => method_ (request_ c) = kInvalid
  | kExpectHeaders => True
  | _ => False
  end.

Lemma processTarget_method rest r : method_ (processTarget rest r).2 = method_ r.
Proof. unfold processTarget. by repeat case_match. Qed.

Lemma processRequestLine_total line c :
  method_ (request_ c) = kInvalid →
  wp (processRequestLine line c) (λ '(ok, c'), state_ c' = state_ c).
Proof.
  intros Hm. unfold processRequestLine, setMethod. destruct (_ =? _)%nat; [done|].
  rewrite bool_decide_true by done. cbn [res_bind].
  destruct (bool_decide _); [|done]. by destruct (processTarget _ _).
Qed.

Lemma line_step_total t c line :
  ctx_ok c → wp (line_step t c line) (λ '(v, c'),
    match v with
    | Continue => ctx_ok c'
    | Reject => state_ c' = kExpectRequestLine
    | Done => state_ c' = kGotAll
    end).
Proof.
  unfold ctx_ok, line_step. destruct (state_ c) eqn:E; [| |done|done]; intros Hc.
  - eapply wp_bind; [by apply processRequestLine_total|]. intros [ok c'] Hs. cbv beta iota.
    destruct ok; simpl; [done|congruence].
  - simpl. destruct (negb _); simpl; by rewrite ?E.
Qed.

Lemma live_ok c : ctx_ok c → live c = true.
Proof. unfold ctx_ok, live. by destruct (state_ c). Qed.

(** With as much fuel as bytes the loop ends. *)
Lemma parse_content_total fuel t c q :
  ctx_ok c → (length q < fuel)%nat →
  wp (parse_content fuel t c q) (λ '(ok, c', rest),
    zlen rest ≤ zlen q ∧
    if ok then (ctx_ok c' ∧ find_crlf rest = None) ∨ state_ c' = kGotAll
    else state_ c' = kExpectRequestLine).
Proof.
  revert c q. induction fuel as [|fuel IH]; intros c q Hc Hf; [lia|].
  cbn [parse_content]. rewrite live_ok by done.
  destruct (find_crlf q) as [i|] eqn:Ef; [|simpl; auto with lia].
  destruct (find_crlf_some _ _ Ef) as (Hi & Hi2 & _).
  pose proof (length_zdrop (i + 2) q ltac:(lia)).
  eapply wp_bind; [by apply line_step_total|]. intros [v c1] Hv. cbv beta iota.
  destruct v; simpl.
  - eapply wp_mono; [apply IH; [done|lia]|]. intros [[ok c2] rest] [? ?]. split; [lia|done].
  - split; [lia|done].
  - split; [lia|auto].
Qed.

(** ** Responses as text *)

Definition header_text (h : bytes * bytes) : bytes := h.1 ++ str ": " ++ h.2 ++ kCRLF.

Definition serialize (r : HttpResponse) : bytes :=
  (str "HTTP/1.1 " ++ dec (statusCode_ r) ++ str " ") ++ statusMessage_ r ++ kCRLF ++
  (if closeConnection_ r then str "Connection: close" ++ kCRLF
   else (str "Content-Length: " ++ dec (zlen (body_ r)) ++ kCRLF) ++
        str "Connection: Keep-Alive" ++ kCRLF) ++
  concat (map header_text (resp_headers_ r)) ++ kCRLF ++ body_ r.

(** The status code is an [int] and the text has fewer than [2^31] bytes (the
    length of a [StringPiece]). *)
Definition resp_ok (r : HttpResponse) : Prop :=
  - 2 ^ 31 ≤ statusCode_ r < 2 ^ 31 ∧ zlen (serialize r) < 2 ^ 31.

Lemma length_dec z : - 2 ^ 31 ≤ z < 2 ^ 31 → (length (dec z) ≤ 11)%nat.
Proof.
  intros Hz. unfold dec. destruct (z <? 0) eqn:E; bool_prop.
  - change (length (str "-" ++ udec 20 (- z))) with (S (length (udec 20 (- z)))).
    pose proof (length_udec 20 (- z) 10 ltac:(simpl; lia)). lia.
  - pose proof (length_udec 20 z 10 ltac:(simpl; lia)). lia.
Qed.

Lemma snprintf32_small s : (length s ≤ 31)%nat → snprintf32 s = s.
Proof. intros. apply ztake_all. lia. Qed.

Lemma appends_headers hs :
  Forall (λ h : bytes * bytes, zlen h.1 < 2 ^ 31 ∧ zlen h.2 < 2 ^ 31) hs →
  appends (append_headers hs) (concat (map header_text hs)).
Proof.
  induction 1 as [|[k v] hs [Hk Hv] Hhs IH]; [apply appends_nil|].
  cbn [append_headers map concat fst snd] in *. unfold header_text; cbn [fst snd].
  rewrite <- !app_assoc.
  apply appends_bind; [by apply appends_str|].
  apply appends_bind; [by apply appends_str|].
  apply appends_bind; [by apply appends_str|].
  apply appends_bind; [by apply appends_str|]. apply IH.
Qed.

Lemma headers_bound hs n :
  zlen (concat (map header_text hs)) ≤ n → n < 2 ^ 31 →
  Forall (λ h : bytes * bytes, zlen h.1 < 2 ^ 31 ∧ zlen h.2 < 2 ^ 31) hs.
Proof.
  intros H Hn. revert H. induction hs as [|[k v] hs IH]; [by constructor|].
  cbn [map concat]. rewrite length_app. unfold header_text at 1. cbn [fst snd].
  rewrite !length_app. intros H. constructor; [simpl; lia|apply IH; lia].
Qed.

(** [appendToBuffer] writes exactly the text of the response. *)
Lemma appends_response r : resp_ok r → appends (appendToBuffer r) (serialize r).
Proof.
  intros [Hcode Hlen]. unfold appendToBuffer, serialize in *.
  pose proof (length_dec _ Hcode) as Hd. rewrite !length_app in Hlen.
  rewrite (snprintf32_small (str "HTTP/1.1 " ++ _))
    by (rewrite !length_app; change (length (str "HTTP/1.1 ")) with 9%nat;
        change (length (str " ")) with 1%nat; lia).
  apply appends_bind; [apply appends_str; rewrite !length_app; lia|].
  apply appends_bind; [apply appends_str; lia|].
  apply appends_bind; [by apply appends_str|].
  apply (appends_bind (λ b, if closeConnection_ r then _ else _)).
  { destruct (closeConnection_ r); [by apply appends_str|].
    rewrite snprintf32_small.
    - apply appends_bind; [|by apply appends_str].
      apply appends_str. rewrite !length_app in *. lia.
    - pose proof (length_dec (zlen (body_ r)) ltac:(lia)). rewrite !length_app.
      change (length (str "Content-Length: ")) with 16%nat. change (length kCRLF) with 2%nat. lia. }
  apply appends_bind; [eapply appends_headers, (headers_bound _ _ (Z.le_refl _)); lia|].
  apply appends_bind; [by apply appends_str|]. apply appends_str. lia.
Qed.

(** ** Requests on the wire *)

Lemma skip_space_le l : (length (skip_space l) ≤ length l)%nat.
Proof. induction l as [|c l IH]; simpl; [lia|]. destruct (isspace c); simpl; lia. Qed.

Lemma skip_space_app ws l : Forall (λ c, isspace c = true) ws → skip_space (ws ++ l) = skip_space l.
Proof. induction 1 as [|c ws Hc _ IH]; simpl; [done|]. by rewrite Hc. Qed.

Lemma skip_space_fixed c l : skip_space (c :: l) = c :: l → isspace c = false.
Proof.
  simpl. destruct (isspace c); [|done]. intros E. apply (f_equal length) in E.
  pose proof (skip_space_le l). simpl in E. lia.
Qed.

(** Neither starts nor ends with white space. *)
Definition trimmed (v : bytes) : Prop := skip_space v = v ∧ trim_end v = v.

Lemma trim_value ws1 v ws2 :
  Forall (λ c, isspace c = true) ws1 → Forall (λ c, isspace c = true) ws2 → trimmed v →
  trim_end (skip_space (ws1 ++ v ++ ws2)) = v.
Proof.
  intros H1 H2 [Hl Hr]. rewrite skip_space_app by done.
  destruct v as [|c v].
  - simpl. pose proof (skip_space_app ws2 [] H2) as E. rewrite app_nil_r in E. by rewrite E.
  - assert (skip_space ((c :: v) ++ ws2) = (c :: v) ++ ws2) as ->
      by (simpl; by rewrite (skip_space_fixed _ _ Hl)).
    unfold trim_end. rewrite rev_app_distr, skip_space_app by (by apply Forall_rev). done.
Qed.

(** A header line: name, white space, value, white space. *)
Record wire_header := mkWireHeader { wh_field : bytes; wh_pre : bytes; wh_value : bytes; wh_post : bytes }.

Definition hline (h : wire_header) : bytes :=
  wh_field h ++ [colon_char] ++ wh_pre h ++ wh_value h ++ wh_post h.

Definition CR : byte := Byte.x0d.

Definition header_ok (h : wire_header) : Prop :=
  (colon_char ∉ wh_field h) ∧ (CR ∉ hline h) ∧ trimmed (wh_value h) ∧
  Forall (λ c, isspace c = true) (wh_pre h) ∧ Forall (λ c, isspace c = true) (wh_post h).

Definition with_header (r : HttpRequest) (h : wire_header) : HttpRequest :=
  mkRequest (method_ r) (version_ r) (path_ r) (query_ r) (receiveTime_ r)
    (put (wh_field h) (wh_value h) (headers_ r)).

Definition add_all (hs : list wire_header) (r : HttpRequest) : HttpRequest := foldl with_header r hs.

Lemma addHeader_line h r :
  header_ok h → find_byte colon_char (hline h) ≠ length (hline h) ∧
  addHeader (hline h) (find_byte colon_char (hline h)) r = with_header r h.
Proof.
  intros (Hf & _ & Ht & H1 & H2). unfold hline.
  assert (find_byte colon_char (wh_field h ++ [colon_char] ++ wh_pre h ++ wh_value h ++ wh_post h)
          = length (wh_field h)) as -> by (by apply find_byte_notin).
  split; [rewrite !length_app; simpl; lia|].
  unfold addHeader, with_header. rewrite take_app_length. do 2 f_equal.
  change (wh_field h ++ [colon_char] ++ ?l) with (wh_field h ++ [colon_char] ++ l).
  rewrite app_assoc, drop_app_length' by (rewrite length_app; simpl; lia).
  by apply trim_value.
Qed.

(** The request line. *)
Record wire_request := mkWireRequest {
  wr_method : Method; wr_path : bytes; wr_query : bytes; wr_version : Version;
  wr_headers : list wire_header }.

Definition version_digit (v : Version) : bytes :=
  match v with kHttp11 => str "1" | _ => str "0" end.

Definition rline (w : wire_request) : bytes :=
  methodString (mkRequest (wr_method w) kUnknown [] [] 0 []) ++ [space] ++
  (wr_path w ++ wr_query w) ++ [space] ++ str "HTTP/1." ++ version_digit (wr_version w).

Definition request_ok (w : wire_request) : Prop :=
  wr_method w ≠ kInvalid ∧ wr_version w ≠ kUnknown ∧
  (space ∉ wr_path w) ∧ (question_mark ∉ wr_path w) ∧ (space ∉ wr_query w) ∧
  (wr_query w = [] ∨ ∃ q, wr_query w = question_mark :: q) ∧
  (CR ∉ wr_path w) ∧ (CR ∉ wr_query w) ∧
  Forall header_ok (wr_headers w).

Definition line_request (w : wire_request) (t : Z) : HttpRequest :=
  mkRequest (wr_method w) (wr_version w) (wr_path w) (wr_query w) t [].

(** What the server should hand to the callback. *)
Definition request_value (w : wire_request) (t : Z) : HttpRequest :=
  add_all (wr_headers w) (line_request w t).

Definition wire (ls : list bytes) : bytes := concat (map (λ l, l ++ kCRLF) ls).

Definition wire_text (w : wire_request) : bytes := wire (rline w :: map hline (wr_headers w) ++ [[]]).

Lemma methodString_nospace m : space ∉ methodString (mkRequest m kUnknown [] [] 0 []).
Proof. destruct m; vm_compute; intros H; repeat (apply elem_of_cons in H as [H|H]; [done|]); by apply elem_of_nil in H. Qed.

Lemma method_of_String m : m ≠ kInvalid → method_of (methodString (mkRequest m kUnknown [] [] 0 [])) = m.
Proof. by destruct m. Qed.

Lemma processTarget_line w r :
  request_ok w → query_ r = [] →
  processTarget ((wr_path w ++ wr_query w) ++ [space] ++ str "HTTP/1." ++ version_digit (wr_version w)) r =
  (true, mkRequest (method_ r) (wr_version w) (wr_path w) (wr_query w) (receiveTime_ r) (headers_ r)).
Proof.
  intros (Hm & Hv & Hp1 & Hp2 & Hq1 & Hq2 & _) Hq. unfold processTarget.
  assert (space ∉ wr_path w ++ wr_query w) as Hsp by (rewrite elem_of_app; tauto).
  set (tgt := wr_path w ++ wr_query w) in *.
  set (post := str "HTTP/1." ++ version_digit (wr_version w)).
  assert (find_byte space (tgt ++ [space] ++ post) = length tgt) as -> by (by apply find_byte_notin).
  destruct (Nat.eqb_spec (length tgt) (length (tgt ++ [space] ++ post))) as [E|_];
    [rewrite !length_app in E; simpl in E; lia|].
  rewrite take_app_length.
  replace (drop (S (length tgt)) (tgt ++ [space] ++ post)) with post
    by (rewrite app_assoc, drop_app_length' by (rewrite length_app; simpl; lia); done).
  destruct (Nat.eqb_spec (find_byte question_mark tgt) (length tgt)) as [E|E].
  - destruct Hq2 as [Hq2|[q Hq2]].
    + unfold tgt. rewrite Hq2, app_nil_r. unfold post.
      destruct r; simpl in *; subst. by destruct (wr_version w).
    + exfalso. revert E. unfold tgt. rewrite Hq2, find_byte_notin, length_app by done. simpl. lia.
  - destruct Hq2 as [Hq2|[q Hq2]].
    + exfalso. apply E. unfold tgt. rewrite Hq2, app_nil_r. by apply find_byte_none.
    + assert (find_byte question_mark tgt = length (wr_path w)) as ->
        by (unfold tgt; rewrite Hq2; by apply find_byte_notin).
      unfold tgt. rewrite take_app_length, drop_app_length. unfold post.
      by destruct (wr_version w).
Qed.

Lemma line_step_request w t :
  request_ok w →
  line_step t new_HttpContext (rline w) = Ok (Continue, mkContext kExpectHeaders (line_request w t)).
Proof.
  intros Hw. unfold line_step. cbn [state_ new_HttpContext]. unfold processRequestLine, rline.
  set (m := methodString _). pose proof (methodString_nospace (wr_method w)) as Hns. fold m in Hns.
  set (tl := (wr_path w ++ wr_query w) ++ _).
  assert (find_byte space (m ++ [space] ++ tl) = length m) as -> by (by apply find_byte_notin).
  destruct (Nat.eqb_spec (length m) (length (m ++ [space] ++ tl))) as [E|_];
    [rewrite !length_app in E; simpl in E; lia|].
  rewrite take_app_length.
  replace (drop (S (length m)) (m ++ [space] ++ tl)) with tl
    by (rewrite app_assoc, drop_app_length' by (rewrite length_app; simpl; lia); done).
  unfold setMethod. cbn [request_ new_HttpContext new_HttpRequest method_].
  rewrite bool_decide_true by done. cbn [res_bind].
  unfold m. rewrite method_of_String by apply Hw. rewrite bool_decide_true by apply Hw.
  unfold tl. by rewrite processTarget_line.
Qed.

Lemma rline_nocr w : request_ok w → CR ∉ rline w.
Proof.
  intros (Hm & Hv & _ & _ & _ & _ & Hp & Hq & _). unfold rline. rewrite !elem_of_app.
  intros [H|[H|[[H|H]|[H|[H|H]]]]]; try done; revert H.
  - destruct (wr_method w); vm_compute; intros H;
      repeat (apply elem_of_cons in H as [H|H]; [done|]); by apply elem_of_nil in H.
  - intros H%list_elem_of_singleton. done.
  - intros H%list_elem_of_singleton. done.
  - vm_compute; intros H; repeat (apply elem_of_cons in H as [H|H]; [done|]); by apply elem_of_nil in H.
  - destruct (wr_version w); vm_compute; intros H%list_elem_of_singleton; done.
Qed.

Lemma wire_cons l ls : wire (l :: ls) = l ++ kCRLF ++ wire ls.
Proof. unfold wire. simpl. by rewrite <- app_assoc. Qed.

Lemma wire_nil_inv ls : wire ls = [] → ls = [].
Proof.
  destruct ls as [|l ls]; [done|]. rewrite wire_cons. intros E.
  apply app_eq_nil in E as [_ E]. done.
Qed.

(** A prefix of the lines: the complete ones and a rest without CRLF. *)
Lemma wire_split ls q k :
  Forall (λ l, CR ∉ l) ls → q ++ k = wire ls →
  ∃ ls1 ls2 r, ls = ls1 ++ ls2 ∧ q = wire ls1 ++ r ∧ r ++ k = wire ls2 ∧ find_crlf r = None.
Proof.
  intros Hls. revert q. induction Hls as [|l ls Hl Hls IH]; intros q E.
  - apply app_eq_nil in E as [-> ->]. by exists [], [], [].
  - rewrite wire_cons in E. destruct (decide (zlen q < zlen l + 2)) as [Hlt|Hge].
    + exists [], (l :: ls), q. rewrite wire_cons.
      split_and!; [done|done|done|by eapply find_crlf_partial].
    + rewrite app_assoc in E.
      pose proof (f_equal (take (length (l ++ kCRLF))) E) as E1.
      pose proof (f_equal (drop (length (l ++ kCRLF))) E) as E2.
      rewrite take_app_length, take_app_le in E1 by (rewrite length_app; simpl; lia).
      rewrite drop_app_length, drop_app_le in E2 by (rewrite length_app; simpl; lia).
      destruct (IH _ E2) as (ls1 & ls2 & r & -> & Eq & Er & Hr).
      exists (l :: ls1), ls2, r. split_and!; [done| |done|done].
      rewrite wire_cons, app_assoc, <- E1, <- app_assoc, <- Eq. by rewrite take_drop.
Qed.

Lemma header_lines_nocr hs : Forall header_ok hs → Forall (λ l, CR ∉ l) (map hline hs ++ [[]]).
Proof.
  intros Hhs. apply Forall_app. split.
  - apply Forall_map. eapply Forall_impl; [done|]. intros h Hh. apply Hh.
  - repeat constructor. apply not_elem_of_nil.
Qed.

(** One turn of the loop on a complete line. *)
Lemma parse_line fuel t c l rest :
  live c = true → CR ∉ l →
  parse_content (S fuel) t c (l ++ kCRLF ++ rest) =
  let! (v, c') := line_step t c l in
  match v with
  | Continue => parse_content fuel t c' rest
  | Reject => Ok (false, c', l ++ kCRLF ++ rest)
  | Done => Ok (true, c', rest)
  end.
Proof.
  intros Hc Hl. cbn [parse_content]. rewrite Hc, find_crlf_line by done.
  rewrite ztake_app_len by done. rewrite app_assoc, zdrop_app_len; [done|].
  rewrite length_app. simpl. lia.
Qed.

Lemma parse_headers fuel t r hs rest :
  Forall header_ok hs → find_crlf rest = None → (length hs < fuel)%nat →
  parse_content fuel t (mkContext kExpectHeaders r) (wire (map hline hs) ++ rest) =
  Ok (true, mkContext kExpectHeaders (add_all hs r), rest).
Proof.
  intros Hhs Hr. revert fuel r. induction Hhs as [|h hs Hh Hhs IH]; intros fuel r Hf;
    (destruct fuel as [|fuel]; [simpl in Hf; lia|]).
  - cbn [parse_content map wire concat app]. simpl. by rewrite Hr.
  - cbn [map]. rewrite wire_cons, <- !app_assoc, parse_line by (done || apply Hh).
    unfold line_step. cbn [state_ request_].
    destruct (addHeader_line h r Hh) as [Hne ->].
    apply Nat.eqb_neq in Hne. rewrite Hne. cbn [negb res_bind].
    rewrite IH by (simpl in Hf; lia). done.
Qed.

Lemma parse_headers_end fuel t r hs rest :
  Forall header_ok hs → (length hs < fuel)%nat →
  parse_content fuel t (mkContext kExpectHeaders r) (wire (map hline hs ++ [[]]) ++ rest) =
  Ok (true, mkContext kGotAll (add_all hs r), rest).
Proof.
  intros Hhs. revert fuel r. induction Hhs as [|h hs Hh Hhs IH]; intros fuel r Hf;
    (destruct fuel as [|fuel]; [simpl in Hf; lia|]).
  - cbn [map app]. rewrite wire_cons, <- !app_assoc, parse_line by (done || apply not_elem_of_nil).
    done.
  - cbn [map app]. rewrite wire_cons, <- !app_assoc, parse_line by (done || apply Hh).
    unfold line_step. cbn [state_ request_].
    destruct (addHeader_line h r Hh) as [Hne ->].
    apply Nat.eqb_neq in Hne. rewrite Hne. cbn [negb res_bind].
    rewrite IH by (simpl in Hf; lia). done.
Qed.

Lemma length_wire ls : (2 * length ls ≤ length (wire ls))%nat.
Proof.
  induction ls as [|l ls IH]; [done|]. rewrite wire_cons, !length_app. simpl. lia.
Qed.

Lemma bad_line_nocr m rest :
  CR ∉ rest → CR ∉ methodString (mkRequest m kUnknown [] [] 0 []) ++ [space] ++ rest.
Proof.
  intros Hr. rewrite !elem_of_app. intros [H|[H|H]]; [|by apply list_elem_of_singleton in H|done].
  revert H. destruct m; vm_compute; intros H;
    repeat (apply elem_of_cons in H as [H|H]; [done|]); by apply elem_of_nil in H.
Qed.

(** The request line after the method word has been recognised. *)
Lemma method_word m rest c :
  let l := methodString (mkRequest m kUnknown [] [] 0 []) ++ [space] ++ rest in
  m ≠ kInvalid →
  processRequestLine l c =
  if bool_decide (method_ (request_ c) = kInvalid) then
    let r := request_ c in
    let '(succeed, r) := processTarget rest (mkRequest m (version_ r) (path_ r) (query_ r)
                           (receiveTime_ r) (headers_ r)) in
    Ok (succeed, mkContext (state_ c) r)
  else Err AssertFailed.
Proof.
  intros l Hm. unfold processRequestLine. subst l. set (ms := methodString _).
  assert (find_byte space (ms ++ [space] ++ rest) = length ms) as ->
    by (apply find_byte_notin, methodString_nospace).
  rewrite (proj2 (Nat.eqb_neq _ _)) by (rewrite !length_app; simpl; lia).
  rewrite take_app_length.
  replace (drop (S (length ms)) (ms ++ [space] ++ rest)) with rest
    by (rewrite app_assoc, drop_app_length' by (rewrite length_app; simpl; lia); done).
  unfold setMethod. destruct (bool_decide (method_ _ = _)); [|done]. cbn [res_bind].
  unfold ms. by rewrite method_of_String, bool_decide_true by done.
Qed.

Lemma bad_line_step m rest t :
  m ≠ kInvalid → (∀ r, (processTarget rest r).1 = false) →
  ∃ r, method_ r = m ∧
    line_step t new_HttpContext (methodString (mkRequest m kUnknown [] [] 0 []) ++ [space] ++ rest) =
    Ok (Reject, mkContext kExpectRequestLine r).
Proof.
  intros Hm Hbad. unfold line_step. cbn [state_ new_HttpContext]. rewrite method_word by done.
  cbn [request_ new_HttpContext new_HttpRequest method_ version_ path_ query_ receiveTime_ headers_].
  rewrite bool_decide_true by done.
  pose proof (Hbad (mkRequest m kUnknown [] [] 0 [])) as H1.
  pose proof (processTarget_method rest (mkRequest m kUnknown [] [] 0 [])) as H2.
  destruct (processTarget rest _) as [ok r]. simpl in *. subst ok. by exists r.
Qed.

Lemma known_method_aborts m rest t r :
  m ≠ kInvalid → method_ r ≠ kInvalid →
  line_step t (mkContext kExpectRequestLine r)
    (methodString (mkRequest m kUnknown [] [] 0 []) ++ [space] ++ rest) = Err AssertFailed.
Proof.
  intros Hm Hr. unfold line_step. cbn [state_]. rewrite method_word by done. cbn [request_].
  by rewrite bool_decide_false.
Qed.

Section Delivery.
Context (httpCallback_ : HttpRequest → HttpResponse → HttpResponse).

Definition response_of (req : HttpRequest) : HttpResponse :=
  httpCallback_ req (new_HttpResponse (wants_close req)).

Definition answer (req : HttpRequest) : list effect :=
  ESend (serialize (response_of req)) ::
  (if closeConnection_ (response_of req) then [EShutdown] else []).

Lemma http_onRequest_spec req :
  resp_ok (response_of req) → onRequest httpCallback_ req = Ok (answer req).
Proof.
  intros Hr. unfold onRequest. fold (response_of req). cbv zeta.
  pose proof (new_Buffer_spec kInitialSize ltac:(done)) as (b0 & -> & Hb0 & Hc0 & Hw0 & _)%wp_elim.
  cbn [res_bind].
  pose proof (appends_response _ Hr b0 Hb0) as H.
  assert (fits (zlen (serialize (response_of req))) b0) as Hf.
  { unfold fits. rewrite Hw0. destruct Hr as [_ ?]. unfold max_size, kCheapPrepend. lia. }
  apply H in Hf as (b1 & -> & Hb1 & Hc1 & _)%wp_elim. cbn [res_bind].
  rewrite peek_bytes_content, readableBytes_content, ztake_all, Hc1, Hc0
    by (done || rewrite ?readableBytes_content by done; lia).
  done.
Qed.

(** [onMessage] from the result of the parser on the readable bytes. *)
Lemma onMessage_parse c buf t q :
  wf buf → content buf = q →
  match parse_content (S (length q)) t c q with
  | Ok (ok, c', rest) =>
      (gotAll c' = true → resp_ok (response_of (request_ c'))) →
      wp (onMessage httpCallback_ c buf t) (λ '(es, c2, buf'),
        es = (if ok then [] else [ESend badRequest; EShutdown]) ++
             (if gotAll c' then answer (request_ c') else []) ∧
        c2 = (if gotAll c' then new_HttpContext else c') ∧
        wf buf' ∧ content buf' = rest ∧ used buf' ≤ used buf)
  | Err f => onMessage httpCallback_ c buf t = Err f
  end.
Proof.
  intros Hb <-. unfold onMessage. rewrite readableBytes_content, Nat2Z.id by done.
  pose proof (parseRequest_content (S (length (content buf))) t c buf Hb) as H.
  destruct (parse_content _ _ _ _) as [[[ok c'] rest]|f]; [|by rewrite H].
  destruct H as (b' & -> & Hb' & Hr & Hu). intros Hg. cbn [res_bind].
  destruct (gotAll c').
  - rewrite http_onRequest_spec by auto. simpl. by split_and!.
  - simpl. rewrite app_nil_r. by split_and!.
Qed.

(** A message that brings the complete header lines [ls1] and the rest [r]. *)
Lemma message_headers c buf t fuel rq hs ls1 ls2 r k :
  wf buf → Forall header_ok hs → resp_ok (response_of (add_all hs rq)) →
  parse_content (S (length (content buf))) t c (content buf) =
    parse_content fuel t (mkContext kExpectHeaders rq) (wire ls1 ++ r) →
  (length ls1 < fuel)%nat → map hline hs ++ [[]] = ls1 ++ ls2 → r ++ k = wire ls2 →
  find_crlf r = None →
  wp (onMessage httpCallback_ c buf t) (λ '(es, c', b'), wf b' ∧ used b' ≤ used buf ∧
    ((es = answer (add_all hs rq) ∧ c' = new_HttpContext ∧ content b' = [] ∧ k = []) ∨
     ∃ hs1 hs2, hs = hs1 ++ hs2 ∧ r ++ k = wire (map hline hs2 ++ [[]]) ∧ es = [] ∧
       c' = mkContext kExpectHeaders (add_all hs1 rq) ∧ content b' = r)).
Proof.
  intros Hb Hhs Hresp Hp Hf Els Ek Hr. pose proof (onMessage_parse c buf t _ Hb eq_refl) as H.
  rewrite Hp in H. destruct ls2 as [|x ls2 _] using rev_ind.
  - rewrite app_nil_r in Els. apply app_eq_nil in Ek as [-> ->]. rewrite <- Els in H.
    rewrite parse_headers_end in H
      by (done || (apply (f_equal length) in Els; rewrite length_app, length_map in Els; simpl in Els; lia)).
    eapply wp_mono; [apply H; auto|]. simpl.
    intros [[es c'] b'] (-> & -> & ? & ? & ?). split_and!; auto.
  - rewrite app_assoc in Els. apply app_inj_tail in Els as [Els <-].
    apply map_eq_app in Els as (hs1 & hs2 & -> & <- & <-).
    apply Forall_app in Hhs as [H1 H2].
    rewrite parse_headers in H by (done || rewrite length_map in Hf; done).
    eapply wp_mono; [by apply H|]. simpl.
    intros [[es c'] b'] (-> & -> & ? & ? & ?). split_and!; [done..|]. right. by exists hs1, hs2.
Qed.

Definition chunk_bytes (ds : list (bytes * Z)) : bytes := concat (map fst ds).

(** Empty reads after the request do nothing. *)
Lemma http_serve_nothing ds buf :
  wf buf → content buf = [] → chunk_bytes ds = [] →
  wp (serve httpCallback_ ds new_HttpContext buf) (λ '(es, c', b'),
    es = [] ∧ c' = new_HttpContext ∧ wf b' ∧ content b' = []).
Proof.
  revert buf. induction ds as [|[d t] ds IH]; intros buf Hb Hc Hd; [done|].
  unfold chunk_bytes in Hd. simpl in Hd. apply app_eq_nil in Hd as [-> Hd]. simpl.
  assert (used buf ≤ max_size) as Hu by (unfold used; buf_arith).
  eapply wp_bind; [apply append_spec; [done|simpl; lia|unfold fits, used in *; simpl; lia]|].
  intros b1 (Hb1 & Hc1 & _). rewrite Hc in Hc1. simpl in Hc1.
  pose proof (onMessage_parse new_HttpContext b1 t _ Hb1 Hc1) as H.
  eapply wp_bind; [by apply H|]. simpl. intros [[es c'] b2] (-> & -> & Hb2 & Hc2 & _).
  eapply wp_bind; [by apply IH|]. intros [[es c'] b3] (-> & -> & ? & ?). by simpl.
Qed.

(** [k] is what has not arrived of [w]: the context has the complete lines, the buffer the
    incomplete one.  The request line was read at a time in [T]. *)
Definition progress (T : Z → Prop) (w : wire_request) (k : bytes) (c : HttpContext) (q : bytes) : Prop :=
  find_crlf q = None ∧
  ((c = new_HttpContext ∧ q ++ k = wire_text w) ∨
   ∃ t hs1 hs2, T t ∧ wr_headers w = hs1 ++ hs2 ∧ c = mkContext kExpectHeaders (add_all hs1 (line_request w t)) ∧
     q ++ k = wire (map hline hs2 ++ [[]])).

Lemma find_crlf_request w : request_ok w → find_crlf (wire_text w) ≠ None.
Proof. intros Hw. unfold wire_text. by rewrite wire_cons, find_crlf_line by (by apply rline_nocr). Qed.

Lemma find_crlf_headers hs : Forall header_ok hs → find_crlf (wire (map hline hs ++ [[]])) ≠ None.
Proof.
  intros [|h l Hh Hl]; [done|]. cbn [map app]. by rewrite wire_cons, find_crlf_line by apply Hh.
Qed.

(** Something is missing until the last byte has come. *)
Lemma progress_rest T w k c q : request_ok w → progress T w k c q → k ≠ [].
Proof.
  intros Hw (Hn & H) ->. pose proof Hw as (_ & _ & _ & _ & _ & _ & _ & _ & Hhs).
  destruct H as [[_ E]|(t & hs1 & hs2 & _ & Eh & _ & E)]; rewrite app_nil_r in E; subst q.
  - by apply (find_crlf_request w).
  - rewrite Eh in Hhs. apply Forall_app in Hhs as [_ H2]. by apply (find_crlf_headers hs2).
Qed.

(** One read of a part [d] of the request. *)
Lemma read_step (T : Z → Prop) w d k c q buf t :
  wf buf → request_ok w → (∀ t, resp_ok (response_of (request_value w t))) → T t →
  progress T w (d ++ k) c q → content buf = q ++ d →
  wp (onMessage httpCallback_ c buf t) (λ '(es, c', b'), wf b' ∧ used b' ≤ used buf ∧
    ((k = [] ∧ c' = new_HttpContext ∧ content b' = [] ∧ ∃ t', T t' ∧ es = answer (request_value w t')) ∨
     (k ≠ [] ∧ es = [] ∧ progress T w k c' (content b')))).
Proof.
  intros Hb Hw Hresp Ht (_ & Hpr) Hc. pose proof Hw as (_ & _ & _ & _ & _ & _ & _ & _ & Hhs).
  assert (∀ rq hs0 hs es c' b' t0, T t0 → wr_headers w = hs0 ++ hs → rq = add_all hs0 (line_request w t0) →
    wf b' ∧ used b' ≤ used buf ∧
    ((es = answer (add_all hs rq) ∧ c' = new_HttpContext ∧ content b' = [] ∧ k = []) ∨
     ∃ hs1 hs2, hs = hs1 ++ hs2 ∧ content b' ++ k = wire (map hline hs2 ++ [[]]) ∧ es = [] ∧
       c' = mkContext kExpectHeaders (add_all hs1 rq) ∧ find_crlf (content b') = None) →
    wf b' ∧ used b' ≤ used buf ∧
    ((k = [] ∧ c' = new_HttpContext ∧ content b' = [] ∧ ∃ t', T t' ∧ es = answer (request_value w t')) ∨
     (k ≠ [] ∧ es = [] ∧ progress T w k c' (content b')))) as Hout.
  { intros rq hs0 hs es c' b' t0 Ht0 Eh -> (? & ? & H). split_and!; [done..|].
    unfold add_all in H. setoid_rewrite <- foldl_app in H. fold (add_all (hs0 ++ hs) (line_request w t0)) in H. rewrite <- Eh in H.
    destruct H as [(-> & -> & ? & ->)|(hs1 & hs2 & -> & Ek & -> & -> & Hn)]; [left; split_and!; [done..|by exists t0]|right].
    assert (progress T w k (mkContext kExpectHeaders (add_all (hs0 ++ hs1) (line_request w t0))) (content b')) as Hp.
    { split; [done|right]. exists t0, (hs0 ++ hs1), hs2. by rewrite <- app_assoc. }
    split_and!; [by eapply progress_rest|done|exact Hp]. }
  destruct Hpr as [[-> E]|(t0 & hs1 & hs2 & Ht0 & Eh & -> & E)]; rewrite app_assoc, <- Hc in E.
  - pose proof (rline_nocr w Hw) as Hcr. unfold wire_text in E.
    destruct (wire_split _ _ _ (Forall_cons_2 (λ l, CR ∉ l) _ _ Hcr (header_lines_nocr _ Hhs)) E)
      as ([|l1 ls1] & ls2 & r & Els & Eq & Er & Hr).
    + simpl in Eq, Els. subst ls2. pose proof (onMessage_parse new_HttpContext buf t _ Hb Eq) as H.
      cbn [parse_content live new_HttpContext state_] in H. rewrite Hr in H. cbn in H.
      eapply wp_mono; [by apply H|]. intros [[es c'] b2] (-> & -> & Hb2 & Hc2 & Hu2). split_and!; [done..|right].
      assert (progress T w k new_HttpContext (content b2)) as Hp by (rewrite Hc2; split; [done|by left]).
      split_and!; [by eapply progress_rest|done|done].
    + simpl in Els. injection Els as <- Els. rewrite wire_cons, <- !app_assoc in Eq.
      eapply wp_mono; [eapply (message_headers _ buf t (length (content buf)) (line_request w t) (wr_headers w) ls1 ls2 r)|];
        try done; [apply Hresp|rewrite Eq at 2; by rewrite parse_line, line_step_request| |].
      * rewrite Eq, !length_app. pose proof (length_wire ls1). simpl. lia.
      * intros [[es c'] b2] (Hb2 & Hu2 & H). apply (Hout (line_request w t) [] (wr_headers w) es c' b2 t); try done.
        split_and!; [done..|]. destruct H as [(?&?&?&?)|(h1 & h2 & ? & ? & ? & ? & Hcb)]; [by left|right].
        exists h1, h2. by rewrite Hcb.
  - rewrite Eh in Hhs. apply Forall_app in Hhs as [_ H2].
    destruct (wire_split _ _ _ (header_lines_nocr _ H2) E) as (ls1 & ls2 & r & Els & Eq & Er & Hr).
    eapply wp_mono; [eapply (message_headers _ buf t _ (add_all hs1 (line_request w t0)) hs2 ls1 ls2 r); try done|].
    + unfold add_all. rewrite <- foldl_app, <- Eh. apply Hresp.
    + by rewrite Eq at 2.
    + rewrite Eq, length_app. pose proof (length_wire ls1). lia.
    + intros [[es c'] b2] (Hb2 & Hu2 & H). eapply (Hout _ hs1 hs2 es c' b2 t0); try done.
      split_and!; [done..|]. destruct H as [(?&?&?&?)|(h1 & h2 & ? & ? & ? & ? & Hcb)]; [by left|right].
      exists h1, h2. by rewrite Hcb.
Qed.

Lemma serve_request (T : Z → Prop) ds w c buf :
  wf buf → request_ok w → (∀ t, resp_ok (response_of (request_value w t))) → Forall T (map snd ds) →
  progress T w (chunk_bytes ds) c (content buf) → used buf + zlen (chunk_bytes ds) ≤ max_size →
  wp (serve httpCallback_ ds c buf) (λ '(es, c', b'),
    (∃ t, T t ∧ es = answer (request_value w t)) ∧ c' = new_HttpContext ∧ wf b' ∧ content b' = []).
Proof.
  revert c buf. induction ds as [|[d t] ds IH]; intros c buf Hb Hw Hresp HT Hp Hu;
    [by apply progress_rest in Hp|].
  cbn [map snd] in HT. apply Forall_cons in HT as [Ht HT].
  change (chunk_bytes ((d, t) :: ds)) with (d ++ chunk_bytes ds) in *. rewrite length_app in Hu. cbn [serve].
  eapply wp_bind; [apply append_all_spec; [done|unfold fits, used in *; lia]|].
  intros b1 (Hb1 & Hc1 & Hw1). eapply wp_bind; [by eapply read_step|].
  intros [[es c'] b2] (Hb2 & Hu2 & [(Hk & -> & Hc2 & t' & Ht' & ->)|(Hk & -> & Hp2)]); cbv beta iota.
  - eapply wp_bind; [by apply http_serve_nothing|]. intros [[es c'] b3] (-> & -> & ? & ?).
    simpl. rewrite app_nil_r. split_and!; try done. by exists t'.
  - eapply wp_bind; [apply IH; try done; unfold used in *; lia|]. by intros [[es c''] b3] ?.
Qed.

(** An HTTP request cut by the network into any chunks is answered exactly
    once: the callback gets exactly the method, path, query, version and headers of
    the text (values without the white space around them, the last value of a
    repeated name), stamped with the time of one of the reads, and the text of its
    response is sent; the connection is shut down exactly when the response says
    so, and the context is ready for the next request. *)
Theorem http_request_delivered ds w buf :
  wf buf → content buf = [] → request_ok w →
  (∀ t, resp_ok (response_of (request_value w t))) →
  chunk_bytes ds = wire_text w → used buf + zlen (chunk_bytes ds) ≤ max_size →
  wp (serve httpCallback_ ds new_HttpContext buf) (λ '(es, c', b'),
    (∃ t, t ∈ map snd ds ∧ es = answer (request_value w t)) ∧
    c' = new_HttpContext ∧ wf b' ∧ content b' = []).
Proof.
  intros Hb Hc Hw Hr E Hu. apply serve_request; try done.
  - by apply Forall_forall.
  - rewrite Hc. split; [done|by left].
Qed.

(** Whatever bytes arrive, [HttpServer::onMessage] returns from a context in
    which no method is set before the request line: it either keeps that invariant
    (with the incomplete line left in the buffer) or answers 400 and shuts down. *)
Theorem http_onMessage_safe c buf t :
  wf buf → ctx_ok c → (∀ req, resp_ok (response_of req)) →
  wp (onMessage httpCallback_ c buf t) (λ '(es, c', b'), wf b' ∧
    ((ctx_ok c' ∧ zlen (content b') ≤ zlen (content buf) ∧ (es = [] ∨ ∃ req, es = answer req)) ∨
     (state_ c' = kExpectRequestLine ∧ es = [ESend badRequest; EShutdown]))).
Proof.
  intros Hb Hc Hr. pose proof (onMessage_parse c buf t _ Hb eq_refl) as H.
  pose proof (parse_content_total (S (length (content buf))) t c (content buf) Hc ltac:(lia))
    as ([[ok c'] rest] & E & Hl & Hif)%wp_elim.
  rewrite E in H. eapply wp_mono; [by apply H|].
  intros [[es c2] b'] (-> & -> & Hb' & Hcb & _). split; [done|]. rewrite Hcb.
  destruct ok; [left|right].
  - unfold gotAll. destruct Hif as [[Hok _]|Hg].
    + rewrite bool_decide_false by (unfold ctx_ok in Hok; by destruct (state_ c')). by auto.
    + rewrite bool_decide_true by done. split_and!; [done..|]. right. by eexists.
  - unfold gotAll. by rewrite Hif.
Qed.

(** A request line with a known method and a bad rest (such as "GET /
    HTTP/2.0") is answered with 400, but the line stays in the buffer and the method
    in the context: any further bytes of the peer make the next [onMessage] fail the
    assertion of [HttpRequest::setMethod] and abort the process. *)
Theorem bad_request_line_aborts m rest k buf t d t' :
  m ≠ kInvalid → CR ∉ rest →
  (∀ r, (processTarget rest r).1 = false) →
  wf buf → content buf = (methodString (mkRequest m kUnknown [] [] 0 []) ++ [space] ++ rest) ++ kCRLF ++ k →
  used buf + zlen d ≤ max_size →
  wp (onMessage httpCallback_ new_HttpContext buf t) (λ '(es, c', b'),
    es = [ESend badRequest; EShutdown] ∧
    wp (append d (zlen d) b') (λ b2, onMessage httpCallback_ c' b2 t' = Err AssertFailed)).
Proof.
  intros Hm Hcr Hbad Hb Hc Hu.
  pose proof (bad_line_nocr m rest Hcr) as Hl.
  pose proof (onMessage_parse new_HttpContext buf t _ Hb Hc) as H.
  destruct (bad_line_step m rest t Hm Hbad) as (r & Hr & Hstep).
  rewrite parse_line, Hstep in H by done. cbn [res_bind] in H.
  eapply wp_mono; [by apply H|]. simpl.
  intros [[es c2] b'] (-> & -> & Hb' & Hcb & Hub). split; [done|].
  eapply wp_mono; [apply append_all_spec; [done|unfold fits, used in *; lia]|].
  intros b2 (Hb2 & Hc2 & _). rewrite Hcb in Hc2.
  rewrite <- (app_assoc _ (kCRLF ++ k)), <- (app_assoc kCRLF) in Hc2.
  pose proof (onMessage_parse (mkContext kExpectRequestLine r) b2 t' _ Hb2 Hc2) as H2.
  rewrite parse_line in H2 by done. rewrite (known_method_aborts m rest) in H2 by (by rewrite ?Hr). done.
Qed.

(** One call of [onMessage] answers one request: what follows it in the same
    read, a complete second request included, stays unparsed in the buffer until
    more bytes arrive. *)
Theorem pipelined_request_waits w rest buf t :
  wf buf → request_ok w → resp_ok (response_of (request_value w t)) →
  content buf = wire_text w ++ rest →
  wp (onMessage httpCallback_ new_HttpContext buf t) (λ '(es, c', b'),
    es = answer (request_value w t) ∧ c' = new_HttpContext ∧ content b' = rest).
Proof.
  intros Hb Hw Hr Hc. pose proof (onMessage_parse new_HttpContext buf t _ Hb Hc) as H.
  pose proof (rline_nocr w Hw). pose proof Hw as (_ & _ & _ & _ & _ & _ & _ & _ & Hhs).
  set (n := length (wire_text w ++ rest)) in H.
  unfold wire_text in H. rewrite wire_cons, <- !app_assoc in H.
  rewrite parse_line, line_step_request in H by done. cbn [res_bind] in H.
  rewrite parse_headers_end in H.
  - eapply wp_mono; [by apply H|]. by intros [[es c'] b'] (-> & -> & _ & -> & _).
  - done.
  - unfold n. rewrite length_app. unfold wire_text.
    pose proof (length_wire (rline w :: map hline (wr_headers w) ++ [[]])) as Hlw.
    cbn [length] in Hlw. rewrite length_app, length_map in Hlw. simpl in Hlw. lia.
Qed.

(** The response is the callback's, as HTTP text: status line, connection and
    length headers, the other headers in key order, an empty line, the body; the
    connection is then shut down exactly when the response says so. *)
Theorem onRequest_answers req :
  resp_ok (response_of req) →
  onRequest httpCallback_ req =
    Ok (ESend (serialize (response_of req)) ::
        (if closeConnection_ (response_of req) then [EShutdown] else [])).
Proof. apply http_onRequest_spec. Qed.

End Delivery.

(** C39. [parseRequest] ends within as many turns as there are readable bytes in
    the states in which it waits for a line; called in the two other states (a
    completed request that was not reset, or a body) it never returns. *)
Theorem parseRequest_ends_iff c buf t :
  wf buf →
  (ctx_ok c → ∃ ok c' b', parseRequest (S (Z.to_nat (readableBytes buf))) t c buf = Ok (ok, c', b')) ∧
  (live c = false → ∀ fuel, parseRequest fuel t c buf = Err OutOfFuel).
Proof.
  intros Hb. split.
  - intros Hc. rewrite readableBytes_content, Nat2Z.id by done.
    pose proof (parseRequest_content (S (length (content buf))) t c buf Hb) as H.
    pose proof (parse_content_total (S (length (content buf))) t c (content buf) Hc ltac:(lia))
      as ([[ok c'] rest] & E & _)%wp_elim.
    rewrite E in H. destruct H as (b' & ? & _). by exists ok, c', b'.
  - intros Hl fuel. induction fuel as [|fuel IH]; [done|]. cbn [parseRequest].
    unfold live in Hl. by destruct (state_ c).
Qed.

(** A header line without a colon ends the headers like the empty line does. *)
Lemma colonless_line_ends_headers t r line :
  colon_char ∉ line →
  line_step t (mkContext kExpectHeaders r) line = Ok (Done, mkContext kGotAll r).
Proof.
  intros Hl. unfold line_step. cbn [state_]. by rewrite find_byte_none, Nat.eqb_refl.
Qed.

(** ** Witnesses *)

Definition demo_buffer (q : bytes) : Buffer := mkBuffer (replicate 8 Byte.x00 ++ q) 8 (8 + zlen q).

Definition demo_request : wire_request :=
  mkWireRequest kGet (str "/index.html") (str "?a=1") kHttp11
    [mkWireHeader (str "Host") (str " ") (str "tank") [];
     mkWireHeader (str "Connection") (str "  ") (str "close") (str " ")].

Ltac not_in := let H := fresh in
  vm_compute; intros H; repeat (apply elem_of_cons in H as [H|H]; [done|]); by apply elem_of_nil in H.

Lemma demo_request_ok : request_ok demo_request.
Proof.
  unfold request_ok, header_ok. split_and!; try done; try not_in.
  - right. by eexists.
  - repeat constructor; not_in.
Qed.

Lemma demo_resp_ok req :
  resp_ok (response_of defaultHttpCallback req).
Proof. unfold resp_ok. done. Qed.

Lemma demo_buffer_wf q : zlen q < 2 ^ 40 → wf (demo_buffer q).
Proof.
  intros Hq. unfold wf, demo_buffer, kCheapPrepend, max_size; simpl. rewrite Nat2Z.inj_succ.
  change (length (Byte.x00 :: ?l)) with (S (length l)). lia.
Qed.

Lemma http_request_delivered_witness :
  wp (serve defaultHttpCallback
        [(ztake 20 (wire_text demo_request), 5); (zdrop 20 (wire_text demo_request), 6)]
        new_HttpContext (demo_buffer [])) (λ '(es, c', b'),
    (∃ t, t ∈ [5; 6] ∧ es = answer defaultHttpCallback (request_value demo_request t)) ∧
    c' = new_HttpContext ∧ wf b' ∧ content b' = []).
Proof.
  apply (http_request_delivered defaultHttpCallback
    [(ztake 20 (wire_text demo_request), 5); (zdrop 20 (wire_text demo_request), 6)] demo_request).
  - by apply demo_buffer_wf.
  - reflexivity.
  - apply demo_request_ok.
  - intros. apply demo_resp_ok.
  - vm_compute. reflexivity.
  - vm_compute. discriminate.
Defined.

Lemma http_onMessage_safe_witness :
  wp (onMessage defaultHttpCallback new_HttpContext (demo_buffer (str "GET")) 5) (λ '(es, c', b'), wf b' ∧
    ((ctx_ok c' ∧ zlen (content b') ≤ 3 ∧ (es = [] ∨ ∃ req, es = answer defaultHttpCallback req)) ∨
     (state_ c' = kExpectRequestLine ∧ es = [ESend badRequest; EShutdown]))).
Proof.
  apply (http_onMessage_safe defaultHttpCallback new_HttpContext (demo_buffer (str "GET")) 5).
  - by apply demo_buffer_wf.
  - reflexivity.
  - intros. apply demo_resp_ok.
Defined.

Lemma bad_request_line_aborts_witness :
  wp (onMessage defaultHttpCallback new_HttpContext
        (demo_buffer (str "GET / HTTP/2.0" ++ kCRLF)) 5) (λ '(es, c', b'),
    es = [ESend badRequest; EShutdown] ∧
    wp (append (str "x") 1 b') (λ b2, onMessage defaultHttpCallback c' b2 6 = Err AssertFailed)).
Proof.
  apply (bad_request_line_aborts defaultHttpCallback kGet (str "/ HTTP/2.0") []
           (demo_buffer (str "GET / HTTP/2.0" ++ kCRLF)) 5 (str "x") 6).
  - done.
  - not_in.
  - intros r. reflexivity.
  - by apply demo_buffer_wf.
  - vm_compute. reflexivity.
  - vm_compute. discriminate.
Defined.

Lemma pipelined_request_waits_witness :
  wp (onMessage defaultHttpCallback new_HttpContext
        (demo_buffer (wire_text demo_request ++ wire_text demo_request)) 5) (λ '(es, c', b'),
    es = answer defaultHttpCallback (request_value demo_request 5) ∧ c' = new_HttpContext ∧
    content b' = wire_text demo_request).
Proof.
  apply pipelined_request_waits.
  - by apply demo_buffer_wf.
  - apply demo_request_ok.
  - apply demo_resp_ok.
  - vm_compute. reflexivity.
Defined.

Lemma onRequest_answers_witness :
  onRequest defaultHttpCallback (request_value demo_request 5) =
    Ok [ESend (serialize (response_of defaultHttpCallback (request_value demo_request 5))); EShutdown].
Proof. apply (onRequest_answers defaultHttpCallback). apply demo_resp_ok. Defined.

Lemma parseRequest_ends_iff_witness :
  (∃ ok c' b', parseRequest 4 5 new_HttpContext (demo_buffer (str "GET")) = Ok (ok, c', b')) ∧
  ∀ fuel, parseRequest fuel 5 (mkContext kGotAll new_HttpRequest) (demo_buffer (str "GET")) = Err OutOfFuel.
Proof.
  split.
  - apply (parseRequest_ends_iff new_HttpContext (demo_buffer (str "GET")) 5).
    + by apply demo_buffer_wf.
    + reflexivity.
  - apply (parseRequest_ends_iff (mkContext kGotAll new_HttpRequest) (demo_buffer (str "GET")) 5).
    + by apply demo_buffer_wf.
    + reflexivity.
Defined.

End Http.
