(* ===== verification/Date.v ===== *)
(** Calendar dates ([base/time/Date.h], [base/time/Date.cpp]).

    [int] arithmetic is 32-bit two's complement with every operation wrapped by
    [i32], and [/] and [%] round towards zero ([Z.quot], [Z.rem]).  The
    specification is the Gregorian calendar as a successor function on dates
    ([next_day]); the day numbers of the source are proved to count its steps. *)

From S2P Require Import Prelude.

Module Date.

Record YearMonthDay := mkYMD { year : Z; month : Z; day : Z }.

Definition kDaysPerWeek : Z := 7.

Definition getJulianDayNumber (year month day : Z) : Z :=
  let a := ((14 -i month) /i 12) in
  let y := (year +i 4800 -i a) in
  let m := (month +i 12 *i a -i 3) in
  (day +i (153 *i m +i 2) /i 5 +i y *i 365 +i y /i 4 -i y /i 100 +i y /i 400 -i 32045).

Definition getYearMonthDay (julianDayNumber : Z) : YearMonthDay :=
  let a := (julianDayNumber +i 32044) in
  let b := ((4 *i a +i 3) /i 146097) in
  let c := (a -i ((b *i 146097) /i 4)) in
  let d := ((4 *i c +i 3) /i 1461) in
  let e := (c -i ((1461 *i d) /i 4)) in
  let m := ((5 *i e +i 2) /i 153) in
  mkYMD (b *i 100 +i d -i 4800 +i (m /i 10)) (m +i 3 -i 12 *i (m /i 10))
    (e -i ((153 *i m +i 2) /i 5) +i 1).

(** [Date] is its day number. *)
Definition Date_of_ymd (y m d : Z) : Z := getJulianDayNumber y m d.

Definition kJulianDayOf1970_01_01 : Z := getJulianDayNumber 1970 1 1.

(** The fields of [struct tm] the program touches ([tm_zone] is the string). *)
Record tm := mkTm {
  tm_sec : Z; tm_min : Z; tm_hour : Z; tm_mday : Z; tm_mon : Z; tm_year : Z;
  tm_wday : Z; tm_yday : Z; tm_isdst : Z; tm_gmtoff : Z; tm_zone : bytes;
}.

Definition Date_of_tm (t : tm) : Z :=
  getJulianDayNumber (tm_year t +i 1900) (tm_mon t +i 1) (tm_mday t).

Definition valid (julianDayNumber : Z) : bool := 0 <? julianDayNumber.

Definition yearMonthDay (julianDayNumber : Z) : YearMonthDay := getYearMonthDay julianDayNumber.

Definition weekDay (julianDayNumber : Z) : Z := i32 (Z.rem (julianDayNumber +i 1) kDaysPerWeek).

(** [%<w>d] and [%0<w>d]. *)
Definition pad_left (c : byte) (w : nat) (s : bytes) : bytes := replicate (w - length s) c ++ s.

Definition zpad (w : nat) (z : Z) : bytes :=
  if z <? 0 then str "-" ++ pad_left Byte.x30 (w - 1) (udec 20 (- z)) else pad_left Byte.x30 w (udec 20 z).

Definition toIsoString (julianDayNumber : Z) : bytes :=
  let ymd := yearMonthDay julianDayNumber in
  ztake 31 (pad_left Byte.x20 4 (dec (year ymd)) ++ str "-" ++ zpad 2 (month ymd) ++ str "-" ++
            zpad 2 (day ymd)).

(** ** The Gregorian calendar *)

Definition leap (y : Z) : bool :=
  ((y mod 4 =? 0) && negb (y mod 100 =? 0)) || (y mod 400 =? 0).

Definition days_in_month (y m : Z) : Z :=
  if m =? 2 then (if leap y then 29 else 28)
  else if (m =? 4) || (m =? 6) || (m =? 9) || (m =? 11) then 30 else 31.

(** The dates whose arithmetic stays within [int]. *)
Definition date_ok (x : YearMonthDay) : Prop :=
  - 4799 ≤ year x ≤ 1000000 ∧ 1 ≤ month x ≤ 12 ∧ 1 ≤ day x ≤ days_in_month (year x) (month x).

Definition next_day (x : YearMonthDay) : YearMonthDay :=
  if day x <? days_in_month (year x) (month x) then mkYMD (year x) (month x) (day x + 1)
  else if month x <? 12 then mkYMD (year x) (month x + 1) 1
  else mkYMD (year x + 1) 1 1.

(** ** The day number without machine arithmetic *)

(** The year that starts in March, and the day within it. *)
Definition myear (x : YearMonthDay) : Z := year x + 4800 - (14 - month x) / 12.
Definition mmonth (x : YearMonthDay) : Z := month x + 12 * ((14 - month x) / 12) - 3.
Definition mday (x : YearMonthDay) : Z := day x - 1 + (153 * mmonth x + 2) / 5.

Definition jdn (x : YearMonthDay) : Z :=
  mday x + myear x * 365 + myear x / 4 - myear x / 100 + myear x / 400 - 32044.

Lemma quot_div a b : 0 ≤ a → 0 < b → Z.quot a b = a / b.
Proof. intros. by apply Z.quot_div_nonneg. Qed.

Ltac month_cases m :=
  assert (m = 1 ∨ m = 2 ∨ m = 3 ∨ m = 4 ∨ m = 5 ∨ m = 6 ∨ m = 7 ∨ m = 8 ∨ m = 9 ∨ m = 10 ∨
          m = 11 ∨ m = 12) as Hm12 by lia;
  destruct Hm12 as [->|[->|[->|[->|[->|[->|[->|[->|[->|[->|[->| ->]]]]]]]]]]].

(** What the month contributes, month by month. *)
Lemma month_facts x :
  1 ≤ month x ≤ 12 →
  0 ≤ mmonth x ≤ 11 ∧ year x + 4799 ≤ myear x ≤ year x + 4800 ∧
  0 ≤ (14 - month x) / 12 ≤ 1 ∧ 0 ≤ (153 * mmonth x + 2) / 5 ≤ 337.
Proof.
  destruct x as [y m d]. unfold mmonth, myear; cbn [year month]. intros Hm.
  month_cases m; vm_compute Z.div; cbn; lia.
Qed.

Lemma dim_bounds y m : 28 ≤ days_in_month y m ≤ 31.
Proof. unfold days_in_month. repeat case_match; lia. Qed.

Lemma mday_bounds x : date_ok x → 0 ≤ mday x ≤ 365.
Proof.
  destruct x as [y m d]. unfold date_ok, mday, mmonth; cbn [year month day]. intros (Hy & Hm & Hd).
  pose proof (dim_bounds y m). revert Hd. unfold days_in_month.
  month_cases m; vm_compute Z.div; simpl; repeat case_match; lia.
Qed.

(** The machine computation is the integer one. *)
Lemma getJulianDayNumber_jdn x :
  date_ok x → getJulianDayNumber (year x) (month x) (day x) = jdn x.
Proof.
  intros Hx. pose proof (mday_bounds x Hx) as Hmd. destruct Hx as (Hy & Hm & Hd).
  pose proof (month_facts x Hm) as (Hmm & Hmy & Ha & Hq).
  pose proof (dim_bounds (year x) (month x)).
  unfold getJulianDayNumber, jdn, mday in *. cbv zeta.
  rewrite (i32_small (14 - month x)) by lia. rewrite (quot_div (14 - month x)) by lia.
  rewrite (i32_small ((14 - month x) / 12)) by lia.
  rewrite (i32_small (year x + 4800)) by lia.
  rewrite (i32_small (12 * _)), (i32_small (month x + _)) by lia.
  change (year x + 4800 - (14 - month x) / 12) with (myear x).
  change (month x + 12 * ((14 - month x) / 12) - 3) with (mmonth x).
  rewrite (i32_small (myear x)), (i32_small (mmonth x)) by lia.
  rewrite (i32_small (153 * _)), (i32_small (153 * _ + 2)) by lia.
  rewrite !quot_div by lia.
  assert (0 ≤ myear x / 4 ≤ myear x ∧ 0 ≤ myear x / 100 ≤ myear x ∧ 0 ≤ myear x / 400 ≤ myear x)
    as (? & ? & ?) by (split_and!; try (apply Z.div_pos; lia); apply Z.div_le_upper_bound; lia).
  rewrite (i32_small ((153 * _ + 2) / 5)), (i32_small (myear x / 4)), (i32_small (myear x / 100)),
    (i32_small (myear x / 400)), (i32_small (myear x * 365)) by lia.
  rewrite (i32_small (day x + _)) by lia.
  int_ops. lia.
Qed.

(** ** Years *)

(** The days before the March year [y], up to a constant. *)
Definition yterm (y : Z) : Z := y * 365 + y / 4 - y / 100 + y / 400 - 32044.

Lemma jdn_yterm x : jdn x = mday x + yterm (myear x).
Proof. unfold jdn, yterm. lia. Qed.

Lemma div_step k y : 0 < k → y / k = (y - 1) / k + (if y mod k =? 0 then 1 else 0).
Proof.
  intros Hk. pose proof (Z.div_mod y k ltac:(lia)). pose proof (Z.mod_pos_bound y k Hk).
  destruct (y mod k =? 0) eqn:E; bool_prop.
  - rewrite <- (Z.div_unique (y - 1) k (y / k - 1) (k - 1)) by lia. lia.
  - rewrite <- (Z.div_unique (y - 1) k (y / k) (y mod k - 1)) by lia. lia.
Qed.

Lemma mod_4800 y k : (k | 4800) → (y + 4800) mod k = y mod k.
Proof. intros [q ->]. apply Z_mod_plus_full. Qed.

Lemma leap_count y :
  (if leap y then 1 else 0) =
  (if y mod 4 =? 0 then 1 else 0) - (if y mod 100 =? 0 then 1 else 0) + (if y mod 400 =? 0 then 1 else 0).
Proof.
  assert ((y mod 400) mod 100 = y mod 100) as E1 by (apply Z.mod_mod_divide; by exists 4).
  assert ((y mod 100) mod 4 = y mod 4) as E2 by (apply Z.mod_mod_divide; by exists 25).
  unfold leap. destruct (y mod 400 =? 0) eqn:H4; bool_prop.
  - rewrite H4 in E1. change (0 mod 100) with 0 in E1. rewrite <- E1 in *.
    change (0 mod 4) with 0 in E2. by rewrite <- E2.
  - destruct (y mod 100 =? 0) eqn:H1; bool_prop.
    + rewrite H1 in E2. change (0 mod 4) with 0 in E2. by rewrite <- E2.
    + by destruct (y mod 4 =? 0).
Qed.

Lemma yterm_succ y : yterm (y + 4800) = yterm (y + 4799) + 365 + (if leap y then 1 else 0).
Proof.
  unfold yterm. rewrite leap_count.
  rewrite (div_step 4 (y + 4800)), (div_step 100 (y + 4800)), (div_step 400 (y + 4800)) by lia.
  rewrite (mod_4800 y 4), (mod_4800 y 100), (mod_4800 y 400)
    by (by exists 1200) || (by exists 48) || (by exists 12).
  replace (y + 4800 - 1) with (y + 4799) by lia. lia.
Qed.

(** Evaluate the month terms once the month is a numeral. *)
Ltac month_eval :=
  repeat match goal with
  | |- context [(14 - ?k) / 12] =>
      let v := eval vm_compute in ((14 - k) / 12) in change ((14 - k) / 12) with v
  end;
  repeat match goal with
  | |- context [(153 * ?e + 2) / 5] =>
      let v := eval vm_compute in ((153 * e + 2) / 5) in change ((153 * e + 2) / 5) with v
  end.

Lemma jdn_next x : date_ok x → jdn (next_day x) = jdn x + 1.
Proof.
  destruct x as [y m d]. intros (Hy & Hm & Hd); cbn [year month day] in *.
  rewrite !jdn_yterm. unfold next_day; cbn [year month day].
  destruct (d <? days_in_month y m) eqn:E; bool_prop.
  { unfold mday, myear, mmonth; cbn [year month day]. lia. }
  assert (d = days_in_month y m) as -> by lia. clear E Hd.
  pose proof (yterm_succ y) as Hs. unfold days_in_month.
  month_cases m;
    match goal with |- context [?k <? 12] =>
      let v := eval vm_compute in (k <? 12) in change (k <? 12) with v end;
    simpl (_ =? _); cbn [orb]; cbv iota;
    unfold mday, myear, mmonth; cbn [year month day]; month_eval;
    replace (y + 4800 - 0) with (y + 4800) by lia;
    replace (y + 4800 - 1) with (y + 4799) by lia;
    replace (y + 1 + 4800 - 1) with (y + 4800) by lia; try lia.
  destruct (leap y); lia.
Qed.

(** The inverse, on numbers in range. *)
Lemma century_split y :
  y / 4 = 25 * (y / 100) + (y mod 100) / 4 ∧ y / 400 = y / 100 / 4.
Proof.
  pose proof (Z.div_mod y 100 ltac:(lia)) as E. split.
  - rewrite E at 1. replace (100 * (y / 100) + y mod 100) with (y mod 100 + 25 * (y / 100) * 4) by lia.
    rewrite Z_div_plus_full by lia. lia.
  - by rewrite Z.div_div by lia.
Qed.

(** Day 365 of a March year is the 29th of February. *)
Lemma leap_day x :
  date_ok x → mday x = 365 →
  (myear x mod 100) mod 4 = 3 ∧ (myear x mod 100 = 99 → (myear x / 100) mod 4 = 3).
Proof.
  destruct x as [y m d]. unfold date_ok, mday, myear, mmonth, days_in_month; cbn [year month day].
  intros (Hy & Hm & Hd) H. assert (m = 2 ∧ d = 29) as [-> ->].
  { revert Hd H. month_cases m; month_eval; repeat case_match; lia. }
  destruct (leap y) eqn:El; [|simpl in Hd; lia]. clear H Hd Hm. change ((14 - 2) / 12) with 1.
  set (Y := y + 4800 - 1).
  assert (Y = 100 * (Y / 100) + Y mod 100) as E by (apply Z.div_mod; lia).
  pose proof (Z.mod_pos_bound Y 100 ltac:(lia)).
  assert (y = 4 * (y / 4) + y mod 4) as E4 by (apply Z.div_mod; lia).
  assert (y = 400 * (y / 400) + y mod 400) as E400 by (apply Z.div_mod; lia).
  pose proof (Z.mod_pos_bound y 400 ltac:(lia)).
  assert ((y mod 400) mod 4 = y mod 4) as M1 by (apply Z.mod_mod_divide; by exists 100).
  assert ((y mod 400) mod 100 = y mod 100) as M2 by (apply Z.mod_mod_divide; by exists 4).
  unfold leap in El. apply orb_true_iff in El.
  assert (y mod 4 = 0) as Hy4.
  { destruct El as [El|El]; bool_prop; [done|]. rewrite El in M1. done. }
  split.
  - symmetry. apply (Z.mod_unique_pos _ _ (y / 4 + 1199 - 25 * (Y / 100))); [lia|].
    rewrite Hy4 in E4. unfold Y in *. lia.
  - intros H99. assert (y mod 100 = 0) as H100.
    { symmetry. apply (Z.mod_unique_pos _ _ (Y / 100 - 47)); [lia|]. unfold Y in *. lia. }
    destruct El as [El|El]; bool_prop; [congruence|].
    symmetry. apply (Z.mod_unique_pos _ _ (y / 400 + 11)); [lia|]. unfold Y in *. lia.
Qed.

(** The parts of the inverse computation, for day [n] of the March year [Y]. *)
Lemma inverse_year n Y :
  0 ≤ n ≤ 365 → 0 ≤ Y →
  (n = 365 → (Y mod 100) mod 4 = 3 ∧ (Y mod 100 = 99 → (Y / 100) mod 4 = 3)) →
  let a := n + Y * 365 + Y / 4 - Y / 100 + Y / 400 in
  let b := (4 * a + 3) / 146097 in
  let c := a - (b * 146097) / 4 in
  let d := (4 * c + 3) / 1461 in
  b = Y / 100 ∧ d = Y mod 100 ∧ c - (1461 * d) / 4 = n ∧ 0 ≤ c ≤ 36524.
Proof.
  intros Hn HY Hl a b c d. destruct (century_split Y) as [E4 E400].
  pose proof (Z.div_mod Y 100 ltac:(lia)) as EY. pose proof (Z.mod_pos_bound Y 100 ltac:(lia)) as HR.
  set (B := Y / 100) in *. set (R := Y mod 100) in *.
  pose proof (Z.div_mod B 4 ltac:(lia)) as EB. pose proof (Z.mod_pos_bound B 4 ltac:(lia)) as HB4.
  pose proof (Z.div_mod R 4 ltac:(lia)) as ER. pose proof (Z.mod_pos_bound R 4 ltac:(lia)) as HR4.
  set (qb := B / 4) in *. set (rb := B mod 4) in *. set (qr := R / 4) in *. set (rr := R mod 4) in *.
  assert (a = n + 36524 * B + qb + 365 * R + qr) as Ea by (unfold a; rewrite E4, E400; lia).
  assert (b = B) as Eb.
  { symmetry. apply (Z.div_unique_pos _ _ _ (4 * a + 3 - 146097 * B)); [|lia].
    destruct (decide (n = 365)) as [E365|]; [|lia].
    destruct (Hl E365) as [H3 H99]. destruct (decide (R = 99)) as [E99|]; [specialize (H99 E99)|]; lia. }
  assert ((b * 146097) / 4 = 36524 * B + qb) as Ec.
  { rewrite Eb. symmetry. apply (Z.div_unique_pos _ _ _ rb); lia. }
  assert (c = n + 365 * R + qr) as Ec' by (unfold c; lia).
  assert (d = R) as Ed.
  { symmetry. apply (Z.div_unique_pos _ _ _ (4 * c + 3 - 1461 * R)); [|lia].
    destruct (decide (n = 365)) as [E365|]; [|lia]. destruct (Hl E365) as [H3 _]. lia. }
  assert ((1461 * d) / 4 = 365 * R + qr) as Ee.
  { rewrite Ed. symmetry. apply (Z.div_unique_pos _ _ _ rr); lia. }
  split_and!; lia.
Qed.

Lemma inverse_month x :
  date_ok x → let m := (5 * mday x + 2) / 153 in
  m = mmonth x ∧ m + 3 - 12 * (m / 10) = month x ∧ myear x - 4800 + m / 10 = year x ∧ 0 ≤ m / 10 ≤ 1.
Proof.
  destruct x as [y mo d]. unfold date_ok, mday, mmonth, myear; cbn [year month day].
  intros (Hy & Hm & Hd).
  match goal with |- context [(5 * ?n + 2) / 153] => set (m := (5 * n + 2) / 153) end.
  assert (m = mo + 12 * ((14 - mo) / 12) - 3) as Em.
  { unfold m. clear m. symmetry. revert Hd. unfold days_in_month.
    month_cases mo; month_eval; repeat case_match; intros;
      match goal with |- ?q = (5 * ?n + 2) / 153 =>
        apply (Z.div_unique_pos _ _ _ (5 * n + 2 - 153 * q)); lia end. }
  rewrite Em. split; [done|]. clear - Hm.
  month_cases mo; month_eval;
    match goal with |- context [?e / 10] =>
      let v := eval vm_compute in (e / 10) in change (e / 10) with v end; lia.
Qed.

(** The machine computation on numbers in range. *)
Lemma getYearMonthDay_jdn x : date_ok x → getYearMonthDay (jdn x) = x.
Proof.
  intros Hx. pose proof (mday_bounds x Hx) as Hmd. pose proof (month_facts x) as Hmf.
  destruct (inverse_month x Hx) as (Em & Emo & Ey & H10).
  pose proof Hx as (Hy & Hm & Hd). specialize (Hmf Hm) as (Hmm & Hmy & _ & Hq).
  destruct (inverse_year (mday x) (myear x) Hmd ltac:(lia) (leap_day x Hx)) as (Eb & Ed & Ee & Hc).
  set (a := mday x + myear x * 365 + myear x / 4 - myear x / 100 + myear x / 400) in *.
  pose proof (Z.div_mod (myear x) 100 ltac:(lia)). pose proof (Z.mod_pos_bound (myear x) 100 ltac:(lia)).
  assert (0 ≤ a ≤ 400000000) as Ha.
  { unfold a. assert (0 ≤ myear x / 4 ≤ myear x ∧ 0 ≤ myear x / 400 ≤ myear x) as [? ?]
      by (split_and!; try (apply Z.div_pos; lia); apply Z.div_le_upper_bound; lia). lia. }
  unfold getYearMonthDay. replace (jdn x) with (a - 32044) by (unfold jdn, a; lia).
  rewrite (i32_small (a - 32044 + 32044)) by lia. replace (a - 32044 + 32044) with a by lia.
  cbv zeta. rewrite (i32_small (4 * a)), (i32_small (4 * a + 3)), quot_div by lia.
  rewrite Eb in *. rewrite (i32_small (myear x / 100)) by lia.
  rewrite (i32_small (myear x / 100 * 146097)) by lia. rewrite (quot_div (_ * 146097)) by lia.
  rewrite (i32_small (myear x / 100 * 146097 / 4)) by lia.
  set (c := a - myear x / 100 * 146097 / 4) in *. rewrite (i32_small c) by lia.
  rewrite (i32_small (4 * c)), (i32_small (4 * c + 3)) by lia. rewrite (quot_div (4 * c + 3)) by lia.
  rewrite Ed in *. rewrite (i32_small (myear x mod 100)) by lia.
  rewrite (i32_small (1461 * (myear x mod 100))) by lia. rewrite (quot_div (1461 * _)) by lia.
  rewrite (i32_small (1461 * (myear x mod 100) / 4)), Ee by lia.
  rewrite (i32_small (mday x)), (i32_small (5 * mday x)), (i32_small (5 * mday x + 2)) by lia.
  rewrite (quot_div (5 * mday x + 2)) by lia. rewrite Em in *. rewrite (i32_small (mmonth x)) by lia.
  rewrite (quot_div (mmonth x)) by lia. rewrite (i32_small (mmonth x / 10)) by lia.
  rewrite (i32_small (153 * mmonth x)), (i32_small (153 * mmonth x + 2)) by lia.
  rewrite (quot_div (153 * mmonth x + 2)) by lia. rewrite (i32_small (_ / 5)) by lia.
  int_ops. destruct x as [y mo d]; cbn [year month day] in *.
  unfold mday in *; cbn [day] in *. f_equal; lia.
Qed.

(** Every number from the first in range on is the number of a date. *)
Definition first_date : YearMonthDay := mkYMD (-4799) 1 1.
Definition jdn_min : Z := jdn first_date.
Definition jdn_max : Z := jdn (mkYMD 1000000 12 31).

Lemma next_day_ok x : date_ok x → jdn x < jdn_max → date_ok (next_day x).
Proof.
  destruct x as [y m d]. intros (Hy & Hm & Hd) Hj; cbn [year month day] in *.
  pose proof (dim_bounds y m). unfold next_day, date_ok; cbn [year month day].
  destruct (d <? days_in_month y m) eqn:E; bool_prop; cbn [year month day]; [lia|].
  destruct (m <? 12) eqn:E2; bool_prop; cbn [year month day].
  - pose proof (dim_bounds y (m + 1)). lia.
  - pose proof (dim_bounds (y + 1) 1). split_and!; try lia.
    destruct (decide (y = 1000000)) as [->|]; [|lia].
    assert (m = 12) as -> by lia. exfalso. revert Hj.
    change (days_in_month 1000000 12) with 31 in *. assert (d = 31) as -> by lia. apply Z.lt_irrefl.
Qed.

Lemma jdn_onto n : (Z.of_nat n ≤ jdn_max - jdn_min) → ∃ x, date_ok x ∧ jdn x = jdn_min + Z.of_nat n.
Proof.
  induction n as [|n IH]; intros Hn.
  - exists first_date. split; [done|]. unfold jdn_min. lia.
  - destruct IH as (x & Hx & Ej); [lia|]. exists (next_day x).
    split; [apply next_day_ok; [done|lia]|]. rewrite jdn_next by done. lia.
Qed.

Lemma jdn_surj j : jdn_min ≤ j ≤ jdn_max → ∃ x, date_ok x ∧ jdn x = j.
Proof.
  intros Hj. destruct (jdn_onto (Z.to_nat (j - jdn_min))) as (x & Hx & E); [lia|].
  exists x. split; [done|lia].
Qed.

(** ** Theorems *)

(** The day numbers count days of the Gregorian calendar: the number of the
    day after a date is one more than the number of the date (months, leap years
    and century rules included). *)
Theorem julian_counts_days x :
  date_ok x → date_ok (next_day x) →
  getJulianDayNumber (year (next_day x)) (month (next_day x)) (day (next_day x)) =
  getJulianDayNumber (year x) (month x) (day x) + 1.
Proof. intros Hx Hn. rewrite !getJulianDayNumber_jdn by done. by apply jdn_next. Qed.

Lemma julian_counts_days_witness :
  getJulianDayNumber 2000 3 1 = getJulianDayNumber 2000 2 29 + 1.
Proof.
  apply (julian_counts_days (mkYMD 2000 2 29)); unfold date_ok; vm_compute; repeat split; discriminate.
Defined.

(** [getYearMonthDay] and [getJulianDayNumber] are inverse to each other on
    the dates from the year -4799 to the year 1000000, without overflow of [int]. *)
Theorem julian_roundtrip :
  (∀ x, date_ok x → getYearMonthDay (getJulianDayNumber (year x) (month x) (day x)) = x) ∧
  (∀ j, jdn_min ≤ j ≤ jdn_max →
     date_ok (getYearMonthDay j) ∧
     getJulianDayNumber (year (getYearMonthDay j)) (month (getYearMonthDay j)) (day (getYearMonthDay j)) = j).
Proof.
  split.
  - intros x Hx. rewrite getJulianDayNumber_jdn by done. by apply getYearMonthDay_jdn.
  - intros j Hj. destruct (jdn_surj j Hj) as (x & Hx & <-).
    rewrite getYearMonthDay_jdn by done. split; [done|]. by apply getJulianDayNumber_jdn.
Qed.

End Date.
