(* ===== verification/Doubles.v ===== *)
(** Doubles as the program uses them: products and quotients of non-negative numbers,
    rounded to 53 bits, and what [printf] makes of them.

    A double is held as an integer, its value in units of 2^-200; rounding keeps 53
    significant bits of it, to nearest, ties to even.  The numbers of the program lie
    between 2^-100 and 2^70, so there are neither subnormal numbers nor overflows. *)

From S2P Require Import Prelude Date.

Module Doubles.

Definition unit : Z := 2 ^ 200.

(** [n / d], to the nearest integer, ties to even. *)
Definition round_half_even (n d : Z) : Z :=
  let q := n / d in
  let r := n mod d in
  if 2 * r <? d then q else if d <? 2 * r then q + 1 else if Z.even q then q else q + 1.

(** [p / q] units, to 53 bits. *)
Definition round53 (p q : Z) : Z :=
  let e := Z.log2 (p / q) - 52 in
  round_half_even p (q * 2 ^ e) * 2 ^ e.

(** A literal [p / q], the conversion of an integer, and the operations. *)
Definition literal (p q : Z) : Z := round53 (p * unit) q.
Definition of_int (z : Z) : Z := if z <? 0 then - round53 (- z * unit) 1 else round53 (z * unit) 1.
Definition mul (x y : Z) : Z := round53 (x * y) unit.
Definition div (x y : Z) : Z := round53 (x * unit) y.

(** [%.kf]: [printf] rounds the value itself, ties to even. *)
Definition scaled (k x : Z) : Z := round_half_even (x * 10 ^ k) unit.

Definition fixed (k : nat) (x : Z) : bytes :=
  let n := scaled (Z.of_nat k) x in
  let w := 10 ^ Z.of_nat k in
  match k with
  | O => udec 20 n
  | _ => udec 20 (n / w) ++ str "." ++ Date.zpad k (n mod w)
  end.

(** ** Rounding *)

Lemma unit_pos : 0 < unit.
Proof. by vm_compute. Qed.

#[local] Opaque unit.

Lemma round_half_even_error n d : 0 < d → 2 * Z.abs (d * round_half_even n d - n) ≤ d.
Proof.
  intros Hd. unfold round_half_even. pose proof (Z.div_mod n d ltac:(lia)). pose proof (Z.mod_pos_bound n d Hd).
  destruct (Z.ltb_spec (2 * (n mod d)) d); [nia|]. destruct (Z.ltb_spec d (2 * (n mod d))); [nia|].
  destruct (Z.even (n / d)); nia.
Qed.

Lemma round_half_even_exact n d k : 0 < d → n = d * k → round_half_even n d = k.
Proof.
  intros Hd ->. unfold round_half_even. rewrite (Z.mul_comm d k), Z.mod_mul, Z.div_mul by lia.
  destruct (Z.ltb_spec (2 * 0) d); [done|lia].
Qed.

Lemma round_half_even_nonneg n d : 0 ≤ n → 0 < d → 0 ≤ round_half_even n d.
Proof. intros Hn Hd. unfold round_half_even. pose proof (Z.div_pos n d Hn Hd). repeat case_match; lia. Qed.

(** Larger quotients are not rounded to smaller integers. *)
Lemma round_half_even_mono n d n' d' :
  0 < d → 0 < d' → n * d' ≤ n' * d → round_half_even n d ≤ round_half_even n' d'.
Proof.
  intros Hd Hd' Hle. pose proof (Z.div_mod n d ltac:(lia)) as E. pose proof (Z.mod_pos_bound n d Hd) as B.
  pose proof (Z.div_mod n' d' ltac:(lia)) as E'. pose proof (Z.mod_pos_bound n' d' Hd') as B'.
  assert (n / d ≤ n' / d') as Hq.
  { apply Z.div_le_lower_bound; [done|]. nia. }
  assert (n / d = n' / d' → (n mod d) * d' ≤ (n' mod d') * d) as Hr by (intros F; nia).
  unfold round_half_even. set (q := n / d) in *. set (q' := n' / d') in *. set (r := n mod d) in *. set (r' := n' mod d') in *.
  destruct (Z.eq_dec q q') as [->|Hne].
  - specialize (Hr eq_refl). destruct (Z.ltb_spec (2 * r) d); destruct (Z.ltb_spec d (2 * r)); destruct (Z.ltb_spec (2 * r') d');
      destruct (Z.ltb_spec d' (2 * r')); destruct (Z.even q'); try lia; nia.
  - repeat case_match; lia.
Qed.

(** ** 53 bits *)

Definition bits (p q : Z) : Z := Z.log2 (p / q) - 52.

Lemma bits_bound p q :
  0 < q → 2 ^ 52 * q ≤ p → 0 ≤ bits p q ∧ 2 ^ 52 * (q * 2 ^ bits p q) ≤ p < 2 ^ 53 * (q * 2 ^ bits p q).
Proof.
  intros Hq Hp. unfold bits. assert (2 ^ 52 ≤ p / q) as H by (apply Z.div_le_lower_bound; lia).
  assert (52 ≤ Z.log2 (p / q)) as Hl by (apply Z.log2_le_pow2; lia).
  split; [lia|]. pose proof (Z.log2_spec (p / q) ltac:(lia)) as [H1 H2].
  replace (2 ^ 52 * (q * 2 ^ (Z.log2 (p / q) - 52))) with (q * 2 ^ Z.log2 (p / q)).
  2: { rewrite (Z.mul_comm (2 ^ 52)), <- Z.mul_assoc, <- Z.pow_add_r by lia. f_equal. f_equal. lia. }
  replace (2 ^ 53 * (q * 2 ^ (Z.log2 (p / q) - 52))) with (q * 2 ^ Z.succ (Z.log2 (p / q))).
  2: { rewrite (Z.mul_comm (2 ^ 53)), <- Z.mul_assoc, <- Z.pow_add_r by lia. f_equal. f_equal. lia. }
  pose proof (Z.div_mod p q ltac:(lia)). pose proof (Z.mod_pos_bound p q Hq). nia.
Qed.

(** The error is at most half a unit of the last of 53 bits. *)
Lemma round53_error p q : 0 < q → 2 ^ 52 * q ≤ p → 2 ^ 53 * Z.abs (q * round53 p q - p) ≤ p.
Proof.
  intros Hq Hp. destruct (bits_bound p q Hq Hp) as (He & Hlo & _). unfold round53. fold (bits p q).
  set (e := bits p q) in *. assert (0 < 2 ^ e) by (apply Z.pow_pos_nonneg; lia).
  pose proof (round_half_even_error p (q * 2 ^ e) ltac:(nia)) as H'. nia.
Qed.

(** Larger quotients are not rounded to smaller doubles. *)
Lemma round53_mono p q p' q' :
  0 < q → 0 < q' → 2 ^ 52 * q ≤ p → p * q' ≤ p' * q → round53 p q ≤ round53 p' q'.
Proof.
  intros Hq Hq' Hp Hle. assert (2 ^ 52 * q' ≤ p') as Hp' by nia.
  destruct (bits_bound p q Hq Hp) as (He & Hlo & Hhi). destruct (bits_bound p' q' Hq' Hp') as (He' & Hlo' & _).
  assert (p / q ≤ p' / q') as Hd.
  { apply Z.div_le_lower_bound; [done|]. pose proof (Z.div_mod p q ltac:(lia)). pose proof (Z.mod_pos_bound p q Hq). nia. }
  assert (bits p q ≤ bits p' q') as Hb by (unfold bits; pose proof (Z.log2_le_mono _ _ Hd); lia).
  unfold round53. fold (bits p q) (bits p' q'). set (e := bits p q) in *. set (e' := bits p' q') in *.
  assert (0 < 2 ^ e) as Hpe by (apply Z.pow_pos_nonneg; lia). assert (0 < 2 ^ e') as Hpe' by (apply Z.pow_pos_nonneg; lia).
  destruct (Z.eq_dec e e') as [->|Hne].
  - apply Z.mul_le_mono_nonneg_r; [lia|]. apply round_half_even_mono; nia.
  - assert (round_half_even p (q * 2 ^ e) ≤ 2 ^ 53) as H1.
    { rewrite <- (round_half_even_exact (2 ^ 53) 1 (2 ^ 53)) by lia. apply round_half_even_mono; nia. }
    assert (2 ^ 52 ≤ round_half_even p' (q' * 2 ^ e')) as H2.
    { rewrite <- (round_half_even_exact (2 ^ 52) 1 (2 ^ 52)) by lia. apply round_half_even_mono; nia. }
    assert (2 * 2 ^ e ≤ 2 ^ e') as H3.
    { rewrite <- Z.pow_succ_r by lia. apply Z.pow_le_mono_r; lia. }
    nia.
Qed.

Lemma round53_nonneg p q : 0 < q → 2 ^ 52 * q ≤ p → 0 ≤ round53 p q.
Proof.
  intros Hq Hp. destruct (bits_bound p q Hq Hp) as (He & _). unfold round53. fold (bits p q).
  assert (0 < 2 ^ bits p q) by (apply Z.pow_pos_nonneg; lia).
  pose proof (round_half_even_nonneg p (q * 2 ^ bits p q) ltac:(lia) ltac:(nia)). nia.
Qed.

(** ** The operations *)

Lemma unit_pow : unit = 2 ^ 200.
Proof. reflexivity. Qed.

Lemma of_int_mono s t : 1 ≤ s ≤ t → of_int s ≤ of_int t.
Proof.
  intros Hs. unfold of_int. destruct (Z.ltb_spec s 0); [lia|]. destruct (Z.ltb_spec t 0); [lia|].
  pose proof unit_pos. apply round53_mono; [lia|lia|rewrite unit_pow; nia|nia].
Qed.

Lemma of_int_error s : 1 ≤ s → 2 ^ 53 * Z.abs (of_int s - s * unit) ≤ s * unit.
Proof.
  intros Hs. unfold of_int. destruct (Z.ltb_spec s 0); [lia|].
  pose proof (round53_error (s * unit) 1 ltac:(lia) ltac:(rewrite unit_pow; nia)). rewrite Z.mul_1_l in *. done.
Qed.

(** The smallest numbers that are divided. *)
Definition fits (x d : Z) : Prop := 0 < d ≤ 2 ^ 70 ∧ unit ≤ x.

Lemma fits_bits x d : fits x d → 2 ^ 52 * (d * unit) ≤ x * unit.
Proof. intros [Hd Hx]. rewrite unit_pow in *. nia. Qed.

Lemma div_mono x y d : fits x d → x ≤ y → div x (d * unit) ≤ div y (d * unit).
Proof.
  intros Hf Hy. pose proof unit_pos. pose proof (fits_bits x d Hf). destruct Hf. unfold div.
  apply round53_mono; [nia|nia|done|]. apply Z.mul_le_mono_nonneg_r; nia.
Qed.

Lemma div_error x d : fits x d → 2 ^ 53 * Z.abs (d * div x (d * unit) - x) ≤ x.
Proof.
  intros Hf. pose proof unit_pos. pose proof (fits_bits x d Hf) as Hb. destruct Hf as [Hd Hx]. unfold div.
  pose proof (round53_error (x * unit) (d * unit) ltac:(nia) Hb) as He.
  replace (d * unit * round53 (x * unit) (d * unit) - x * unit)
    with ((d * round53 (x * unit) (d * unit) - x) * unit) in He by ring.
  rewrite Z.abs_mul, (Z.abs_eq unit) in He by lia. nia.
Qed.

Lemma div_nonneg x d : fits x d → 0 ≤ div x (d * unit).
Proof.
  intros Hf. pose proof unit_pos. pose proof (fits_bits x d Hf) as Hb. destruct Hf as [Hd Hx]. apply round53_nonneg; nia.
Qed.

Lemma scaled_mono k x y : 0 ≤ k → x ≤ y → scaled k x ≤ scaled k y.
Proof.
  intros Hk Hx. pose proof unit_pos. assert (0 < 10 ^ k) by (apply Z.pow_pos_nonneg; lia).
  unfold scaled. apply round_half_even_mono; [done|done|]. do 2 (apply Z.mul_le_mono_nonneg_r; [lia|]). done.
Qed.

Lemma scaled_error k x : 2 * Z.abs (unit * scaled k x - x * 10 ^ k) ≤ unit.
Proof. apply round_half_even_error, unit_pos. Qed.

(** A double of at least 2^[j] is a multiple of its last bit. *)
Lemma of_int_grid s j : 1 ≤ s → 0 ≤ j → 2 ^ j * unit ≤ of_int s → (2 ^ (148 + j) | of_int s).
Proof.
  intros Hs Hj Hn. assert (2 ^ 52 * 1 ≤ s * unit) as Hp by (rewrite unit_pow; nia).
  destruct (bits_bound (s * unit) 1 ltac:(lia) Hp) as (He & Hlo & Hhi).
  destruct (Z.le_gt_cases (148 + j) (bits (s * unit) 1)) as [Hb|Hb].
  - unfold of_int. destruct (Z.ltb_spec s 0); [lia|]. unfold round53. fold (bits (s * unit) 1).
    apply Z.divide_mul_r. exists (2 ^ (bits (s * unit) 1 - (148 + j))). rewrite <- Z.pow_add_r by lia. f_equal. ring.
  - assert (of_int s ≤ 2 ^ j * unit) as Hle.
    { unfold of_int. destruct (Z.ltb_spec s 0); [lia|]. unfold round53. fold (bits (s * unit) 1). set (e := bits (s * unit) 1) in *.
      assert (0 < 2 ^ e) as Hpe by (apply Z.pow_pos_nonneg; lia).
      assert (round_half_even (s * unit) (1 * 2 ^ e) ≤ 2 ^ 53) as H1.
      { rewrite <- (round_half_even_exact (2 ^ 53) 1 (2 ^ 53)) by lia. apply round_half_even_mono; nia. }
      assert (2 ^ 53 * 2 ^ e ≤ 2 ^ j * unit).
      { rewrite unit_pow, <- !Z.pow_add_r by lia. apply Z.pow_le_mono_r; lia. }
      nia. }
    replace (of_int s) with (2 ^ j * unit) by lia. rewrite unit_pow, <- Z.pow_add_r by lia.
    replace (j + 200) with (52 + (148 + j)) by ring. rewrite (Z.pow_add_r 2 52) by lia. by exists (2 ^ 52).
Qed.

(** ** Signed numbers

    A quotient of any sign; what is smaller than 2^-148 becomes 0. *)

Definition sround (p q : Z) : Z := if p <? 0 then - round53 (- p) q else round53 p q.

Definition add (x y : Z) : Z := sround (x + y) 1.
Definition sub (x y : Z) : Z := sround (x - y) 1.
Definition smul (x y : Z) : Z := sround (x * y) unit.

(** The conversion to an integer, and the least integer that is not less. *)
Definition trunc (x : Z) : Z := Z.quot x unit.
Definition ceil (x : Z) : Z := - (- x / unit) * unit.

Lemma round53_small p q : 0 ≤ p → 0 < q → p < 2 ^ 52 * q → round53 p q = 0.
Proof.
  intros Hp Hq Hl. unfold round53. assert (p / q < 2 ^ 52) as H by (apply Z.div_lt_upper_bound; lia).
  assert (Z.log2 (p / q) - 52 < 0) as Hn.
  { pose proof (Z.div_pos p q Hp Hq). destruct (Z.eq_dec (p / q) 0) as [->|Hne]; [done|].
    pose proof (proj1 (Z.log2_lt_pow2 (p / q) 52 ltac:(lia)) H). lia. }
  rewrite (Z.pow_neg_r 2) by done. lia.
Qed.

Lemma round53_ge0 p q : 0 ≤ p → 0 < q → 0 ≤ round53 p q.
Proof.
  intros Hp Hq. destruct (Z.le_gt_cases (2 ^ 52 * q) p); [by apply round53_nonneg|by rewrite round53_small].
Qed.

Lemma sround_mono p q p' q' : 0 < q → 0 < q' → p * q' ≤ p' * q → sround p q ≤ sround p' q'.
Proof.
  intros Hq Hq' Hle.
  assert (∀ a b c d, 0 ≤ a → 0 < b → 0 < d → a * d ≤ c * b → round53 a b ≤ round53 c d) as Hm.
  { intros a b c d Ha Hb Hd H. destruct (Z.le_gt_cases (2 ^ 52 * b) a); [by apply round53_mono|].
    rewrite round53_small by done. apply round53_ge0; nia. }
  unfold sround. destruct (Z.ltb_spec p 0), (Z.ltb_spec p' 0).
  - pose proof (Hm (- p') q' (- p) q ltac:(lia) Hq' Hq ltac:(lia)). lia.
  - pose proof (round53_ge0 (- p) q ltac:(lia) Hq). pose proof (round53_ge0 p' q' ltac:(lia) Hq'). lia.
  - nia.
  - by apply Hm.
Qed.

(** Numbers of 53 bits that are not too small. *)
Definition dbl (r : Z) : Prop := r = 0 ∨ ∃ n j, r = n * 2 ^ j ∧ 0 < Z.abs n < 2 ^ 53 ∧ 52 ≤ j.

Lemma round53_exact q n j : 0 < q → 0 < n < 2 ^ 53 → 52 ≤ j → round53 (q * (n * 2 ^ j)) q = n * 2 ^ j.
Proof.
  intros Hq Hn Hj. unfold round53. rewrite (Z.mul_comm q), Z.div_mul by lia.
  rewrite Z.log2_mul_pow2 by lia. set (e := j + Z.log2 n - 52).
  assert (0 ≤ Z.log2 n < 53) as Hl by (split; [apply Z.log2_nonneg|apply Z.log2_lt_pow2; lia]).
  assert (2 ^ j = 2 ^ e * 2 ^ (j - e)) as E by (rewrite <- Z.pow_add_r by (unfold e; lia); f_equal; lia).
  rewrite (round_half_even_exact _ _ (n * 2 ^ (j - e))).
  - rewrite E. ring.
  - pose proof (Z.pow_pos_nonneg 2 e ltac:(lia) ltac:(unfold e; lia)). nia.
  - rewrite E. ring.
Qed.

Lemma sround_dbl q r : 0 < q → dbl r → sround (r * q) q = r.
Proof.
  intros Hq [->|(n & j & -> & Hn & Hj)].
  - rewrite Z.mul_0_l. unfold sround. cbn [Z.ltb Z.compare]. apply round53_small; lia.
  - pose proof (Z.pow_pos_nonneg 2 j ltac:(lia) ltac:(lia)) as Hp. unfold sround.
    destruct (Z.ltb_spec (n * 2 ^ j * q) 0) as [H|H].
    + replace (- (n * 2 ^ j * q)) with (q * (- n * 2 ^ j)) by ring. rewrite round53_exact; [ring|done|nia|done].
    + replace (n * 2 ^ j * q) with (q * (n * 2 ^ j)) by ring. apply round53_exact; [done|nia|done].
Qed.

(** Rounding does not cross a double. *)
Lemma sround_le p q r : 0 < q → dbl r → p ≤ r * q → sround p q ≤ r.
Proof. intros Hq Hr Hp. rewrite <- (sround_dbl q r) by done. apply sround_mono; nia. Qed.

Lemma sround_ge p q r : 0 < q → dbl r → r * q ≤ p → r ≤ sround p q.
Proof. intros Hq Hr Hp. rewrite <- (sround_dbl q r) at 1 by done. apply sround_mono; nia. Qed.

(** Fractions with a small power of two below. *)
Lemma dbl_frac n k : Z.abs n < 2 ^ 53 → 0 ≤ k ≤ 100 → dbl (n * 2 ^ (200 - k)).
Proof.
  intros Hn Hk. destruct (Z.eq_dec n 0) as [->|Hne]; [by left|]. right. exists n, (200 - k). split; [done|]. split; lia.
Qed.

Lemma dbl_int n : Z.abs n < 2 ^ 53 → dbl (n * unit).
Proof. intros Hn. rewrite unit_pow. by apply (dbl_frac n 0). Qed.

Lemma of_int_exact n : Z.abs n < 2 ^ 53 → of_int n = n * unit.
Proof.
  intros Hn. rewrite <- (sround_dbl 1 (n * unit)) by (done || by apply dbl_int). unfold of_int, sround.
  pose proof unit_pos. rewrite Z.mul_1_r.
  destruct (Z.ltb_spec n 0), (Z.ltb_spec (n * unit) 0); try nia; try done.
  by rewrite Z.mul_opp_l.
Qed.

Lemma trunc_range x n : 0 ≤ x → x < (n + 1) * unit → 0 ≤ trunc x ≤ n.
Proof.
  intros Hx Hn. pose proof unit_pos. unfold trunc. rewrite Z.quot_div_nonneg by lia. split; [by apply Z.div_pos|].
  assert (x / unit < n + 1); [|lia]. apply Z.div_lt_upper_bound; lia.
Qed.

Lemma trunc_mono x y : x ≤ y → trunc x ≤ trunc y.
Proof. intros. apply Z.quot_le_mono; [apply unit_pos|done]. Qed.

Lemma ceil_ge x : x ≤ ceil x < x + unit.
Proof.
  pose proof unit_pos. unfold ceil. pose proof (Z.div_mod (- x) unit ltac:(lia)). pose proof (Z.mod_pos_bound (- x) unit ltac:(lia)). nia.
Qed.

(** A result is short of the exact one by a part in 2^53. *)
Lemma sround_under p q : 0 < q → 2 ^ 52 * q ≤ p → (2 ^ 53 - 1) * p ≤ 2 ^ 53 * (q * sround p q).
Proof.
  intros Hq Hp. unfold sround. destruct (Z.ltb_spec p 0); [lia|]. pose proof (round53_error p q Hq Hp). lia.
Qed.

End Doubles.
