(* ===== verification/Timestamp.v ===== *)
(** Time stamps ([base/time/Timestamp.h], [base/time/Timestamp.cpp]): an [int64_t]
    of microseconds since the epoch.

    [double] is IEEE binary64, computed by the Standard Library's [SpecFloat]
    operations (round to nearest even).  [gmtime_r] belongs to the C library and
    is a parameter of the formatting functions. *)

From S2P Require Import Prelude Date.
From Stdlib Require Import SpecFloat.
Import Date.

Module Timestamp.

Definition kMicroSecondsPerSecond : Z := i32 (1000 * 1000).

(** [Timestamp] is its [microSecondsSinceEpoch_]. *)
Abbreviation Timestamp := Z.

Definition invalid : Timestamp := 0.
Definition valid (t : Timestamp) : bool := 0 <? t.

Definition secondsSinceEpoch (t : Timestamp) : Z := i64 (Z.quot t kMicroSecondsPerSecond).

Definition fromUnixTime (t microseconds : Z) : Timestamp :=
  i64 (i64 (t * kMicroSecondsPerSecond) + microseconds).

(** [now()] from what [gettimeofday] stored. *)
Definition now (tv_sec tv_usec : Z) : Timestamp :=
  i64 (i64 (tv_sec * kMicroSecondsPerSecond) + tv_usec).

Definition timestamp_lt (lhs rhs : Timestamp) : bool := lhs <? rhs.

(** ** double *)

Abbreviation double := spec_float.

Definition double_of_Z (z : Z) : double := binary_normalize 53 1024 z 0 false.

(** [static_cast<int64_t>(double)]: truncation; what does not fit has no defined
    value in C++, x86-64 stores the smallest integer. *)
Definition int64_of_double (x : double) : Z :=
  match x with
  | S754_finite s m e =>
      let v := if 0 <=? e then Z.pos m * 2 ^ e else Z.pos m / 2 ^ (- e) in
      let v := if s then - v else v in
      if (- 2 ^ 63 <=? v) && (v <? 2 ^ 63) then v else - 2 ^ 63
  | S754_zero _ => 0
  | _ => - 2 ^ 63
  end.

Definition timeDifference (high low : Timestamp) : double :=
  SFdiv 53 1024 (double_of_Z (i64 (high - low))) (double_of_Z kMicroSecondsPerSecond).

Definition addTime (timestamp : Timestamp) (seconds : double) : Timestamp :=
  int64_of_double
    (SFadd 53 1024 (SFmul 53 1024 seconds (double_of_Z kMicroSecondsPerSecond))
                   (double_of_Z timestamp)).

(** ** Text *)

Definition toString (t : Timestamp) : bytes :=
  let seconds := i64 (Z.quot t kMicroSecondsPerSecond) in
  let microseconds := i64 (Z.rem t kMicroSecondsPerSecond) in
  ztake 30 (dec seconds ++ str "." ++ zpad 6 microseconds).

Section Format.
Context (gmtime_r : Z → tm).

Definition toFormattedString (showMicroseconds : bool) (t : Timestamp) : bytes :=
  let seconds := i64 (Z.rem t kMicroSecondsPerSecond) in
  let tm_time := gmtime_r seconds in
  let microseconds := i32 (Z.rem t kMicroSecondsPerSecond) in
  let date := pad_left Byte.x20 3 (dec (tm_year tm_time)) ++ zpad 2 (tm_mon tm_time) ++
              zpad 2 (tm_mday tm_time) ++ str " " ++ zpad 2 (tm_hour tm_time) ++ str ":" ++
              zpad 2 (tm_min tm_time) ++ str ":" ++ zpad 2 (tm_sec tm_time) in
  ztake 63 (if showMicroseconds then date ++ str "." ++ zpad 6 microseconds else date).

End Format.

(** ** Lemmas *)

Example addTime_half_second : addTime 1600000000000000 (S754_finite false 1 (-1)) = 1600000000500000.
Proof. vm_compute. reflexivity. Qed.

Example timeDifference_two_seconds : timeDifference 3000000 1000000 = double_of_Z 2.
Proof. vm_compute. reflexivity. Qed.

Lemma i64_small z : - 2 ^ 63 ≤ z < 2 ^ 63 → i64 z = z.
Proof. intros. apply swrap_small; lia. Qed.

(** Splitting into seconds and microseconds loses nothing. *)
Lemma seconds_split t :
  - 2 ^ 63 ≤ t < 2 ^ 63 →
  fromUnixTime (secondsSinceEpoch t) (i32 (Z.rem t kMicroSecondsPerSecond)) = t.
Proof.
  intros Ht. unfold fromUnixTime, secondsSinceEpoch. change kMicroSecondsPerSecond with 1000000.
  pose proof (Z.quot_rem t 1000000 ltac:(lia)) as E.
  pose proof (Z.rem_bound_abs t 1000000 ltac:(lia)) as Hr.
  assert (Z.rem t 1000000 = 0 ∨ Z.sgn (Z.rem t 1000000) = Z.sgn t) as Hs
    by (destruct (Z.eq_dec (Z.rem t 1000000) 0); [by left|right; by apply Z.rem_sign_nz]).
  rewrite (i64_small (Z.quot _ _)), (i64_small (_ * 1000000)) by lia.
  rewrite i32_small, i64_small by lia. lia.
Qed.

(** The formatted time shows the wrong second: [toFormattedString] computes the
    seconds with [%] instead of [/], so the text depends only on the microseconds
    within the second; all times a whole number of seconds apart print alike. *)
Theorem toFormattedString_ignores_seconds gmtime_r show t k :
  0 ≤ t → 0 ≤ k →
  toFormattedString gmtime_r show (t + k * kMicroSecondsPerSecond) = toFormattedString gmtime_r show t.
Proof.
  intros Ht Hk. unfold toFormattedString. change kMicroSecondsPerSecond with 1000000.
  assert (Z.rem (t + k * 1000000) 1000000 = Z.rem t 1000000) as ->; [|done].
  rewrite !Z.rem_mod_nonneg by lia. apply Z_mod_plus_full.
Qed.

Definition gmtime_seconds (s : Z) : tm := mkTm s 0 0 1 0 70 4 0 0 0 (str "GMT").

Lemma toFormattedString_ignores_seconds_witness :
  toFormattedString gmtime_seconds true (500 + 3600 * kMicroSecondsPerSecond) =
  toFormattedString gmtime_seconds true 500.
Proof. apply toFormattedString_ignores_seconds; lia. Defined.

End Timestamp.
