(* ===== verification/TimeZone.v ===== *)
(** Time zones ([base/time/TimeZone.h], [base/time/TimeZone.cpp]).

    A zone is the list of its transitions and of its local time types.
    [readTimeZoneFile] reads a TZif file: the reader passes the rest of the file
    and the [Data] it fills, because what was filled before an exception stays;
    [None] is a [logic_error], which [readTimeZoneFile] catches.  [gmtime_r] and
    [timegm] belong to the C library: they are parameters, and what the code relies
    on is that [timegm] inverts [gmtime_r] and looks at the broken-down date and
    time only. *)

From S2P Require Import Prelude Endian Date Timestamp.
From Stdlib Require Import Sorted.
Import Endian Date Timestamp.

Module TimeZone.

Record Transition := mkTransition {
  gmttime : Z; (* time_t *)
  localtime : Z; (* time_t *)
  localtimeIdx : Z; (* int *)
}.

Record Localtime := mkLocaltime {
  gmtOffset : Z; (* time_t *)
  isDst : bool;
  arrbIdx : Z; (* int *)
}.

Record Data := mkData {
  transitions : list Transition;
  localtimes : list Localtime;
  names : list bytes;
  abbreviation : bytes;
}.

(** [Comp::operator()] and [Comp::equal]; the flag is [compareGmt]. *)
Definition comp (compareGmt : bool) (lhs rhs : Transition) : bool :=
  if compareGmt then gmttime lhs <? gmttime rhs else localtime lhs <? localtime rhs.

Definition comp_equal (compareGmt : bool) (lhs rhs : Transition) : bool :=
  if compareGmt then gmttime lhs =? gmttime rhs else localtime lhs =? localtime rhs.

Definition kSecondsPerDay : Z := 24 * 60 * 60.

(** Seconds, minutes and hours of [unsigned seconds]. *)
Definition fillHMS (seconds : Z) : Z * Z * Z :=
  let tm_sec := i32 (seconds mod 60) in
  let minutes := seconds / 60 in
  (tm_sec, i32 (minutes mod 60), i32 (minutes / 60)).

(** ** The reader of zone files *)

(** A reader gets the data filled so far and the rest of the file. *)
Definition reader (A : Type) : Type := Data → bytes → res (Data * option (A * bytes)).

Definition ret {A} (a : A) : reader A := λ d f, Ok (d, Some (a, f)).
Definition throw {A} : reader A := λ d _, Ok (d, None).
Definition bind {A B} (m : reader A) (k : A → reader B) : reader B := λ d f,
  let! (d, r) := m d f in
  match r with
  | Some (a, f) => k a d f
  | None => Ok (d, None)
  end.

Notation "'read!' x ':=' m 'in' k" := (bind m (fun x => k))
  (at level 10, x pattern, m at level 100, k at level 200,
   format "'[v' 'read!'  x  ':='  m  'in' '/' k ']'") : res_scope.

(** [char buf[n]] needs a non-negative [n]. *)
Definition readBytes (n : Z) : reader bytes := λ d f,
  if n <? 0 then Err OutOfRange
  else if zlen f <? n then throw d f
  else ret (ztake n f) d (zdrop n f).

Definition readInt32 : reader Z := λ d f,
  if zlen f <? 4 then throw d f
  else ret (i32 (networkToHost32 (le_val (ztake 4 f)))) d (zdrop 4 f).

Definition readUInt8 : reader Z := λ d f,
  if zlen f <? 1 then throw d f
  else ret (le_val (ztake 1 f)) d (zdrop 1 f).

(** [for (int i = 0; i < n; ++i) v.push_back(f.read())]. *)
Fixpoint read_times {A} (n : nat) (r : reader A) : reader (list A) :=
  match n with
  | O => ret []
  | S n => read! x := r in read! xs := read_times n r in ret (x :: xs)
  end.

Definition push_localtime (l : Localtime) : reader unit := λ d f,
  ret tt (mkData (transitions d) (localtimes d ++ [l]) (names d) (abbreviation d)) f.

Fixpoint read_localtimes (n : nat) : reader unit :=
  match n with
  | O => ret tt
  | S n =>
      read! gmtoff := readInt32 in
      read! isdst := readUInt8 in
      read! abbrind := readUInt8 in
      read! _ := push_localtime (mkLocaltime gmtoff (negb (isdst =? 0)) abbrind) in
      read_localtimes n
  end.

(** The loop that pairs times and types; an index outside [data->localtimes] is
    out of range. *)
Fixpoint push_transitions (trans idx : list Z) : reader unit := λ d f,
  match trans, idx with
  | t :: trans, i :: idx =>
      match localtimes d !! Z.to_nat i with
      | Some l =>
          push_transitions trans idx
            (mkData (transitions d ++ [mkTransition t (i64 (t + gmtOffset l)) i])
               (localtimes d) (names d) (abbreviation d)) f
      | None => Err OutOfRange
      end
  | _, _ => ret tt d f
  end.

Definition set_abbreviation (a : bytes) : reader unit := λ d f,
  ret tt (mkData (transitions d) (localtimes d) (names d) a) f.

(** [vector::reserve] of a negative count throws [length_error], a [logic_error]. *)
Definition reserve (n : Z) : reader unit := if n <? 0 then throw else ret tt.

Definition read_body : reader unit :=
  read! head := readBytes 4 in
  if bool_decide (head ≠ str "TZif") then throw else
  read! version := readBytes 1 in
  read! _ := readBytes 15 in
  read! isgmtcnt := readInt32 in
  read! isstdcnt := readInt32 in
  read! leapcnt := readInt32 in
  read! timecnt := readInt32 in
  read! typecnt := readInt32 in
  read! charcnt := readInt32 in
  read! _ := reserve timecnt in
  read! trans := read_times (Z.to_nat timecnt) readInt32 in
  read! local := read_times (Z.to_nat timecnt) readUInt8 in
  read! _ := read_localtimes (Z.to_nat typecnt) in
  read! _ := push_transitions trans local in
  read! a := readBytes charcnt in
  set_abbreviation a.

(** [file] is what [fopen] found. The source returns [true] on every path. *)
Definition readTimeZoneFile (file : option bytes) (data : Data) : res (bool * Data) :=
  match file with
  | Some f => let! (d, _) := read_body data f in Ok (true, d)
  | None => Ok (true, data)
  end.

(** ** Zones *)

(** [shared_ptr<Data> data_]. *)
Definition TimeZone : Type := option Data.

Definition new_Data : Data := mkData [] [] [] [].

Definition TimeZone_file (file : option bytes) : res TimeZone :=
  let! (ok, d) := readTimeZoneFile file new_Data in
  Ok (if ok then Some d else None).

Definition TimeZone_fixed (eastOfUtc : Z) (name : bytes) : TimeZone :=
  Some (mkData [] [mkLocaltime eastOfUtc false 0] [] name).

Definition tz_valid (tz : TimeZone) : bool := bool_decide (is_Some tz).

(** [std::lower_bound] on a range ordered by [comp]: the first element that is not
    before the sentry. *)
Fixpoint lower_bound (before : Transition → bool) (l : list Transition) : nat :=
  match l with
  | [] => O
  | t :: l => if before t then S (lower_bound before l) else O
  end.

Definition at_ {A} (l : list A) (i : Z) : res A :=
  match l !! Z.to_nat i with
  | Some x => if 0 <=? i then Ok x else Err OutOfRange
  | None => Err OutOfRange
  end.

Definition findLocaltime (data : Data) (sentry : Transition) (gmt : bool) : res Localtime :=
  match transitions data with
  | [] => at_ (localtimes data) 0
  | front :: _ =>
      if comp gmt sentry front then at_ (localtimes data) 0
      else
        let i := lower_bound (λ t, comp gmt t sentry) (transitions data) in
        match transitions data !! i with
        | Some t =>
            if negb (comp_equal gmt sentry t) then
              assert! negb (i =? 0)%nat in
              let! t := at_ (transitions data) (Z.of_nat i - 1) in
              at_ (localtimes data) (localtimeIdx t)
            else at_ (localtimes data) (localtimeIdx t)
        | None =>
            let! t := at_ (transitions data) (zlen (transitions data) - 1) in
            at_ (localtimes data) (localtimeIdx t)
        end
  end.

(** The C string at [&abbreviation[i]]. *)
Fixpoint c_string (l : bytes) : bytes :=
  match l with
  | [] => []
  | b :: l => if Byte.eqb b Byte.x00 then [] else b :: c_string l
  end.

Definition zone_name (a : bytes) (i : Z) : res bytes :=
  if (0 <=? i) && (i <=? zlen a) then Ok (c_string (zdrop i a)) else Err OutOfRange.

(** [memZero] sets every byte to [-1] ([base/Types.h]). *)
Definition memZero_tm : tm := mkTm (-1) (-1) (-1) (-1) (-1) (-1) (-1) (-1) (-1) (-1) [].

Definition b2z (b : bool) : Z := if b then 1 else 0.

Section Libc.
Context (gmtime_r : Z → tm) (timegm : tm → Z).

Definition toLocalTime (tz : TimeZone) (seconds : Z) : res tm :=
  match tz with
  | None => Err AssertFailed
  | Some data =>
      let sentry := mkTransition seconds 0 0 in
      let! local := findLocaltime data sentry true in
      let localSeconds := i64 (seconds + gmtOffset local) in
      let t := gmtime_r localSeconds in
      let! zone := zone_name (abbreviation data) (arrbIdx local) in
      Ok (mkTm (tm_sec t) (tm_min t) (tm_hour t) (tm_mday t) (tm_mon t) (tm_year t) (tm_wday t)
            (tm_yday t) (b2z (isDst local)) (gmtOffset local) zone)
  end.

Definition fromLocalTime (tz : TimeZone) (localTm : tm) : res Z :=
  match tz with
  | None => Err AssertFailed
  | Some data =>
      let seconds := timegm localTm in
      let sentry := mkTransition 0 seconds 0 in
      let! local := findLocaltime data sentry false in
      let! seconds :=
        if negb (tm_isdst localTm =? 0) then
          let! tryTm := toLocalTime tz (i64 (seconds - gmtOffset local)) in
          if (tm_isdst tryTm =? 0) && (tm_hour tryTm =? tm_hour localTm) &&
             (tm_min tryTm =? tm_min localTm)
          then Ok (i64 (seconds - 3600)) else Ok seconds
        else Ok seconds in
      Ok (i64 (seconds - gmtOffset local))
  end.

End Libc.

Definition toUtcTime (secondsSinceEpoch : Z) (yday : bool) : tm :=
  let seconds := i32 (Z.rem secondsSinceEpoch kSecondsPerDay) in
  let days := i32 (Z.quot secondsSinceEpoch kSecondsPerDay) in
  let '(seconds, days) :=
    if seconds <? 0 then (seconds +i kSecondsPerDay, days -i 1) else (seconds, days) in
  let '(sec, min, hour) := fillHMS (u32 seconds) in
  let date := days +i kJulianDayOf1970_01_01 in
  let ymd := yearMonthDay date in
  let utc := memZero_tm in
  mkTm sec min hour (day ymd) (month ymd -i 1) (year ymd -i 1900) (weekDay date)
    (if yday then date -i Date_of_ymd (year ymd) 1 1 else tm_yday utc)
    (tm_isdst utc) (tm_gmtoff utc) (str "GMT").

Definition fromUtcTime6 (year month day hour minute seconds : Z) : Z :=
  let date := Date_of_ymd year month day in
  let secondsInDay := hour *i 3600 +i minute *i 60 +i seconds in
  let days := date -i kJulianDayOf1970_01_01 in
  i64 (i64 (days * kSecondsPerDay) + secondsInDay).

Definition fromUtcTime (utc : tm) : Z :=
  fromUtcTime6 (tm_year utc +i 1900) (tm_mon utc +i 1) (tm_mday utc) (tm_hour utc) (tm_min utc)
    (tm_sec utc).

(** ** UTC *)

Definition epoch_day : Z := 2440588.

Lemma kJulian_epoch : kJulianDayOf1970_01_01 = epoch_day.
Proof. done. Qed.

(** Truncating division and the correction of a negative remainder give the day
    and the second of the day. *)
Lemma day_split t :
  - 2 ^ 31 ≤ t / 86400 < 2 ^ 31 - 1 →
  (let seconds := i32 (Z.rem t kSecondsPerDay) in
   let days := i32 (Z.quot t kSecondsPerDay) in
   if seconds <? 0 then (seconds +i kSecondsPerDay, days -i 1) else (seconds, days)) =
  (t mod 86400, t / 86400).
Proof.
  intros Ht. change kSecondsPerDay with 86400. cbv zeta.
  pose proof (Z.quot_rem t 86400 ltac:(lia)) as E.
  pose proof (Z.rem_bound_abs t 86400 ltac:(lia)) as Hr.
  pose proof (Z.div_mod t 86400 ltac:(lia)) as Ed. pose proof (Z.mod_pos_bound t 86400 ltac:(lia)).
  rewrite (i32_small (Z.rem t 86400)) by lia.
  destruct (Z.rem t 86400 <? 0) eqn:Es; bool_prop.
  - assert (t / 86400 = Z.quot t 86400 - 1) as Hq by (symmetry; apply (Z.div_unique_pos _ _ _ (Z.rem t 86400 + 86400)); lia).
    assert (t mod 86400 = Z.rem t 86400 + 86400) as Hm by lia. rewrite Hq, Hm in *. int_ops. done.
  - assert (t / 86400 = Z.quot t 86400) as Hq by (symmetry; apply (Z.div_unique_pos _ _ _ (Z.rem t 86400)); lia).
    assert (t mod 86400 = Z.rem t 86400) as Hm by lia. rewrite Hq, Hm in *. int_ops. done.
Qed.

Lemma fillHMS_spec s :
  0 ≤ s < 86400 → ∃ h m c, fillHMS s = (c, m, h) ∧ s = h * 3600 + m * 60 + c ∧
    0 ≤ c < 60 ∧ 0 ≤ m < 60 ∧ 0 ≤ h < 24.
Proof.
  intros Hs. pose proof (Z.div_mod s 60 ltac:(lia)). pose proof (Z.mod_pos_bound s 60 ltac:(lia)).
  pose proof (Z.div_mod (s / 60) 60 ltac:(lia)). pose proof (Z.mod_pos_bound (s / 60) 60 ltac:(lia)).
  exists (s / 60 / 60), ((s / 60) mod 60), (s mod 60). unfold fillHMS.
  assert (0 ≤ s / 60 / 60 < 24) by lia. int_ops. split_and!; [done|lia..].
Qed.

(** Days since the first of January. *)
Lemma year_day x : date_ok x → 0 ≤ jdn x - jdn (mkYMD (year x) 1 1) ≤ 365.
Proof.
  intros Hx. pose proof (mday_bounds x Hx) as Hb. rewrite !jdn_yterm.
  destruct x as [y m d]. destruct Hx as (Hy & Hm & Hd); cbn [year month day] in *.
  pose proof (yterm_succ y) as Hs. pose proof (dim_bounds y m) as Hdm.
  revert Hd Hb. unfold days_in_month in *.
  month_cases m; unfold mday, myear, mmonth; cbn [year month day]; month_eval;
    replace (y + 4800 - 0) with (y + 4800) by lia;
    replace (y + 4800 - 1) with (y + 4799) by lia; simpl (_ =? _); cbn [orb]; cbv iota;
    destruct (leap y); lia.
Qed.

Definition utc_ok (t : Z) : Prop :=
  - epoch_day * 86400 ≤ t < (jdn_max - epoch_day + 1) * 86400.

(** The date of a day number in range. *)
Lemma utc_date t :
  utc_ok t → ∃ x, date_ok x ∧ jdn x = t / 86400 + epoch_day ∧ 0 ≤ t / 86400 + epoch_day ≤ jdn_max ∧
    yearMonthDay (t / 86400 +i kJulianDayOf1970_01_01) = x ∧
    t / 86400 +i kJulianDayOf1970_01_01 = t / 86400 + epoch_day.
Proof.
  intros Ht. unfold utc_ok in Ht.
  assert (0 ≤ t / 86400 + epoch_day ≤ jdn_max) as Hr.
  { pose proof (Z.div_mod t 86400 ltac:(lia)). pose proof (Z.mod_pos_bound t 86400 ltac:(lia)). lia. }
  assert (jdn_max = 366963925) as Hmax by (vm_compute; done).
  assert (jdn_min = -31738) as Hmin by (vm_compute; done).
  destruct (jdn_surj (t / 86400 + epoch_day)) as (x & Hx & Ej); [lia|].
  assert (t / 86400 +i kJulianDayOf1970_01_01 = t / 86400 + epoch_day) as E
    by (rewrite kJulian_epoch; unfold epoch_day in *; apply i32_small; lia).
  exists x. split_and!; try done; try lia. rewrite E, <- Ej. by apply getYearMonthDay_jdn.
Qed.

(** The fields of the broken-down time. *)
Lemma toUtcTime_shape t b :
  utc_ok t →
  ∃ x h m c, date_ok x ∧ jdn x = t / 86400 + epoch_day ∧ 0 ≤ jdn x ≤ jdn_max ∧
    t mod 86400 = h * 3600 + m * 60 + c ∧ 0 ≤ c < 60 ∧ 0 ≤ m < 60 ∧ 0 ≤ h < 24 ∧
    toUtcTime t b = mkTm c m h (day x) (month x - 1) (year x - 1900) ((t / 86400 + 4) mod 7)
      (if b then jdn x - jdn (mkYMD (year x) 1 1) else -1) (-1) (-1) (str "GMT").
Proof.
  intros Ht. destruct (utc_date t Ht) as (x & Hx & Ej & Hr & Ey & Ei).
  assert (jdn_max = 366963925) as Hmax by (vm_compute; done).
  pose proof (Z.mod_pos_bound t 86400 ltac:(lia)) as Hs.
  assert (- 2 ^ 31 ≤ t / 86400 < 2 ^ 31 - 1) as H31 by (unfold epoch_day in *; lia).
  pose proof (day_split t H31) as Hd.
  destruct (fillHMS_spec (t mod 86400) Hs) as (h & m & c & Eh & Ec & Hc & Hm & Hh).
  exists x, h, m, c. split_and!; try done; try lia.
  unfold toUtcTime. cbv zeta in *. rewrite Hd, Ei. rewrite Ei in Ey. rewrite Ey.
  assert (u32 (t mod 86400) = t mod 86400) as -> by (apply uwrap_small; lia). rewrite Eh.
  pose proof Hx as (Hyr & Hmo & Hda). rewrite (i32_small (year x - 1900)), (i32_small (month x - 1)) by lia.
  assert (weekDay (t / 86400 + epoch_day) = (t / 86400 + 4) mod 7) as ->.
  { unfold weekDay. rewrite (i32_small (_ + 1)) by (unfold epoch_day in *; lia).
    rewrite Z.rem_mod_nonneg by (unfold kDaysPerWeek, epoch_day in *; lia).
    change kDaysPerWeek with 7.
    replace (t / 86400 + epoch_day + 1) with (t / 86400 + 4 + 348655 * 7) by (unfold epoch_day; lia).
    rewrite Z_mod_plus_full. apply i32_small.
    pose proof (Z.mod_pos_bound (t / 86400 + 4) 7 ltac:(lia)). lia. }
  destruct b; [|done]. pose proof (year_day x Hx) as Hyd.
  assert (date_ok (mkYMD (year x) 1 1)) as H1 by (unfold date_ok; cbn; lia).
  pose proof (getJulianDayNumber_jdn _ H1) as Ej1. cbn [year month day] in Ej1.
  unfold Date_of_ymd. rewrite Ej1, <- Ej, i32_small by lia. done.
Qed.

Lemma fromUtc_toUtc t b : utc_ok t → fromUtcTime (toUtcTime t b) = t.
Proof.
  intros Ht. destruct (toUtcTime_shape t b Ht) as (x & h & m & c & Hx & Ej & Hr & Es & Hc & Hm & Hh & ->).
  assert (jdn_max = 366963925) as Hmax by (vm_compute; done).
  pose proof Hx as (Hyr & Hmo & Hda). pose proof (Z.div_mod t 86400 ltac:(lia)).
  unfold fromUtcTime, fromUtcTime6; cbn [tm_sec tm_min tm_hour tm_mday tm_mon tm_year].
  rewrite (i32_small (year x - 1900 + 1900)), (i32_small (month x - 1 + 1)) by lia.
  replace (year x - 1900 + 1900) with (year x) by lia. replace (month x - 1 + 1) with (month x) by lia.
  unfold Date_of_ymd. rewrite (getJulianDayNumber_jdn x Hx), kJulian_epoch.
  rewrite (i32_small (jdn x - epoch_day)) by (unfold epoch_day in *; lia).
  int_ops. change kSecondsPerDay with 86400.
  rewrite (i64_small (_ * 86400)), i64_small by (unfold epoch_day in *; lia). lia.
Qed.

(** [fromUtcTime] inverts [toUtcTime] from Julian day 0 to the year 1000000:
    the broken-down time has its fields in their ranges, is a date of the Gregorian
    calendar, has the right day of the week (1970-01-01 was a Thursday) and, when
    asked for, the day of the year. *)
Theorem utc_roundtrip t b :
  utc_ok t →
  let u := toUtcTime t b in
  fromUtcTime u = t ∧ 0 ≤ tm_sec u < 60 ∧ 0 ≤ tm_min u < 60 ∧ 0 ≤ tm_hour u < 24 ∧
  date_ok (mkYMD (tm_year u + 1900) (tm_mon u + 1) (tm_mday u)) ∧
  tm_wday u = (t / 86400 + 4) mod 7 ∧
  (b = true → 0 ≤ tm_yday u ≤ 365 ∧
     getJulianDayNumber (tm_year u + 1900) 1 1 + tm_yday u = t / 86400 + epoch_day).
Proof.
  intros Ht u. split; [by apply fromUtc_toUtc|]. subst u.
  destruct (toUtcTime_shape t b Ht) as (x & h & m & c & Hx & Ej & Hr & Es & Hc & Hm & Hh & ->).
  cbn [tm_sec tm_min tm_hour tm_mday tm_mon tm_year tm_wday tm_yday].
  replace (year x - 1900 + 1900) with (year x) by lia. replace (month x - 1 + 1) with (month x) by lia.
  assert (mkYMD (year x) (month x) (day x) = x) as -> by (by destruct x).
  split_and!; try lia; try done. intros ->. pose proof (year_day x Hx) as Hyd. split; [done|].
  assert (date_ok (mkYMD (year x) 1 1)) as H1 by (pose proof Hx as (? & ? & ?); unfold date_ok; cbn; lia).
  pose proof (getJulianDayNumber_jdn _ H1) as Ej1. cbn [year month day] in Ej1. lia.
Qed.

Lemma utc_roundtrip_witness :
  fromUtcTime (toUtcTime 951782400 true) = 951782400 ∧ tm_mday (toUtcTime 951782400 true) = 29.
Proof.
  split; [|vm_compute; reflexivity].
  apply (utc_roundtrip 951782400 true). unfold utc_ok. vm_compute. split; [discriminate|reflexivity].
Defined.

(** [memZero] writes [-1], so [toUtcTime] leaves [-1] in the fields it does not
    set: the daylight flag, the offset and, unless asked for, the day of the year. *)
Theorem toUtcTime_unset_fields t :
  tm_isdst (toUtcTime t false) = -1 ∧ tm_gmtoff (toUtcTime t false) = -1 ∧
  tm_yday (toUtcTime t false) = -1.
Proof. unfold toUtcTime. cbv zeta. repeat case_match; done. Qed.

(** ** Finding the local time type *)

Definition key (gmt : bool) (t : Transition) : Z := if gmt then gmttime t else localtime t.

Definition sorted_by (gmt : bool) (l : list Transition) : Prop :=
  StronglySorted (λ a b, key gmt a < key gmt b) l.

(** The transition in force at [k]: the last one not after it. *)
Definition active (gmt : bool) (k : Z) (l : list Transition) : option Transition :=
  last (filter (λ t, key gmt t ≤ k) l).

Lemma comp_key gmt a b : comp gmt a b = (key gmt a <? key gmt b).
Proof. by destruct gmt. Qed.

Lemma comp_equal_key gmt a b : comp_equal gmt a b = (key gmt a =? key gmt b).
Proof. by destruct gmt. Qed.

Lemma lower_bound_comp gmt sentry l :
  lower_bound (λ t, comp gmt t sentry) l = lower_bound (λ t, key gmt t <? key gmt sentry) l.
Proof. induction l as [|t l IH]; simpl; [done|]. by rewrite comp_key, IH. Qed.

(** A sorted list splits at a key. *)
Lemma lower_bound_split gmt k l :
  sorted_by gmt l →
  let i := lower_bound (λ t, key gmt t <? k) l in
  Forall (λ t, key gmt t < k) (take i l) ∧ Forall (λ t, k ≤ key gmt t) (drop i l) ∧ (i ≤ length l)%nat.
Proof.
  unfold sorted_by. induction 1 as [|t l Hl IH Ht]; simpl; [by split_and!|].
  destruct (key gmt t <? k) eqn:E; bool_prop; simpl.
  - destruct IH as (? & ? & ?). split_and!; [by constructor|done|lia].
  - split_and!; [done| |lia]. constructor; [done|].
    eapply Forall_impl; [done|]. simpl. lia.
Qed.

Lemma filter_none gmt k l : Forall (λ t, k < key gmt t) l → filter (λ t, key gmt t ≤ k) l = [].
Proof.
  induction 1 as [|t l Ht Hl IH]; [done|]. rewrite filter_cons_False by lia. done.
Qed.

Lemma filter_all gmt k l : Forall (λ t, key gmt t ≤ k) l → filter (λ t, key gmt t ≤ k) l = l.
Proof.
  induction 1 as [|t l Ht Hl IH]; [done|]. rewrite filter_cons_True by done. by rewrite IH.
Qed.

(** The two parts of a sorted list around [k]. *)
Lemma active_split gmt k l1 l2 :
  Forall (λ t, key gmt t ≤ k) l1 → Forall (λ t, k < key gmt t) l2 → active gmt k (l1 ++ l2) = last l1.
Proof.
  intros H1 H2. unfold active. by rewrite filter_app, (filter_none _ _ l2), app_nil_r, filter_all.
Qed.

Lemma last_lookup_pred {A} (l : list A) i x : (length l = S i)%nat → l !! i = Some x → last l = Some x.
Proof. intros Hl Hx. rewrite last_lookup, Hl. done. Qed.

(** Strictly after a point of a sorted list. *)
Lemma sorted_after gmt l i t :
  sorted_by gmt l → l !! i = Some t → Forall (λ u, key gmt t < key gmt u) (drop (S i) l).
Proof.
  unfold sorted_by. intros Hs Et. rewrite <- (take_drop_middle l i t Et) in Hs. revert Hs.
  generalize (take i l) as xs. induction xs as [|x xs IH]; simpl; intros Hs.
  - by apply StronglySorted_inv in Hs as [_ ?].
  - apply StronglySorted_inv in Hs as [? _]. auto.
Qed.

(** What [lower_bound] finds, as the transition in force. *)
Lemma active_found gmt k l t :
  sorted_by gmt l → let i := lower_bound (λ t, key gmt t <? k) l in
  l !! i = Some t → active gmt k l = if k =? key gmt t then Some t else last (take i l).
Proof.
  intros Hs i Et. destruct (lower_bound_split gmt k l Hs) as (H1 & H2 & _). fold i in H1, H2.
  pose proof (take_drop_middle l i t Et) as Em. pose proof (sorted_after gmt l i t Hs Et) as H3.
  rewrite (drop_S l t i Et) in H2. apply Forall_cons in H2 as [Hk _].
  assert (Forall (λ t, key gmt t ≤ k) (take i l)) as H1'
    by (eapply Forall_impl; [exact H1|]; simpl; lia).
  destruct (k =? key gmt t) eqn:Ek; bool_prop.
  - rewrite <- Em, cons_middle, app_assoc, active_split; [by rewrite last_snoc| |].
    + apply Forall_app. split; [done|]. constructor; [lia|done].
    + eapply Forall_impl; [exact H3|]. simpl. lia.
  - rewrite <- Em at 1. apply active_split; [done|].
    constructor; [lia|]. eapply Forall_impl; [exact H3|]. simpl. lia.
Qed.

Lemma active_end gmt k l :
  sorted_by gmt l → l !! lower_bound (λ t, key gmt t <? k) l = None → active gmt k l = last l.
Proof.
  intros Hs Et%lookup_ge_None. destruct (lower_bound_split gmt k l Hs) as (H1 & _ & _).
  rewrite take_ge in H1 by lia. rewrite <- (app_nil_r l) at 1. apply active_split; [|constructor].
  eapply Forall_impl; [exact H1|]. simpl. lia.
Qed.

Lemma active_before gmt k front l :
  sorted_by gmt (front :: l) → k < key gmt front → active gmt k (front :: l) = None.
Proof.
  intros Hs Hk. apply StronglySorted_inv in Hs as [_ Hs].
  rewrite <- (app_nil_l (front :: l)), active_split; [done|constructor|].
  constructor; [done|]. eapply Forall_impl; [exact Hs|]. simpl. lia.
Qed.

(** Reading the last element by its index. *)
Lemma at_last {A} (l : list A) n : l ≠ [] → n = zlen l → ∃ x, at_ l (n - 1) = Ok x ∧ last l = Some x.
Proof.
  intros Hne ->. destruct (lookup_lt_is_Some_2 l (length l - 1)) as [p Hp];
    [destruct l; simpl; done || lia|].
  assert (0 < zlen l) by (destruct l; simpl; done || lia).
  exists p. unfold at_. replace (Z.to_nat (zlen l - 1)) with (length l - 1)%nat by lia.
  rewrite Hp, (proj2 (Z.leb_le _ _)) by lia. split; [done|].
  apply (last_lookup_pred _ (length l - 1)); [lia|done].
Qed.

Lemma at_take {A} (l : list A) i x : at_ (take i l) (Z.of_nat i - 1) = Ok x → at_ l (Z.of_nat i - 1) = Ok x.
Proof.
  unfold at_. destruct (take i l !! _) eqn:E; [|done]. apply lookup_take_Some in E as [E _]. by rewrite E.
Qed.

(** [findLocaltime] picks the type of the transition in force, and the first type
    before the first transition. *)
Lemma findLocaltime_spec data sentry gmt :
  sorted_by gmt (transitions data) →
  findLocaltime data sentry gmt =
  match active gmt (key gmt sentry) (transitions data) with
  | Some t => at_ (localtimes data) (localtimeIdx t)
  | None => at_ (localtimes data) 0
  end.
Proof.
  unfold findLocaltime. generalize (transitions data) as l. intros l Hs.
  destruct l as [|front l'] eqn:El; [done|]. rewrite <- El in *. rewrite comp_key, lower_bound_comp.
  set (k := key gmt sentry). destruct (k <? key gmt front) eqn:Ef; bool_prop.
  { by rewrite El, active_before by (by rewrite <- ?El). }
  set (i := lower_bound _ l). destruct (l !! i) as [t|] eqn:Et.
  - rewrite (active_found gmt k l t Hs Et), comp_equal_key. fold k i.
    destruct (k =? key gmt t) eqn:Ek; bool_prop; cbn [negb]; [done|].
    destruct (Nat.eqb_spec i 0) as [Ei|Ei]; cbn [negb].
    { exfalso. rewrite Ei, El in Et. injection Et as <-. unfold i in Ei. rewrite El in Ei. simpl in Ei.
      destruct (key gmt front <? k) eqn:E; bool_prop; [done|lia]. }
    pose proof (lookup_lt_Some _ _ _ Et) as Hlt.
    destruct (at_last (take i l) (Z.of_nat i)) as (p & Hp & ->).
    + intros E. apply (f_equal length) in E. rewrite length_take in E. simpl in E. lia.
    + rewrite length_take. lia.
    + apply at_take in Hp. by rewrite Hp.
  - rewrite (active_end gmt k l Hs Et).
    destruct (at_last l (zlen l)) as (p & -> & ->); [by rewrite El|done|done].
Qed.

(** On a zone with increasing transitions [findLocaltime] returns the type of
    the last transition not after the given time (in UTC or in local time), and the
    first type when the time is before every transition. *)
Theorem findLocaltime_in_force data sentry gmt :
  sorted_by gmt (transitions data) →
  findLocaltime data sentry gmt =
  match active gmt (key gmt sentry) (transitions data) with
  | Some t => at_ (localtimes data) (localtimeIdx t)
  | None => at_ (localtimes data) 0
  end.
Proof. apply findLocaltime_spec. Qed.

(** ** Local times *)

(** A zone as [readTimeZoneFile] builds it from a sane file. *)
Record zone_ok (d : Data) : Prop := {
  zo_sorted_gmt : sorted_by true (transitions d);
  zo_sorted_local : sorted_by false (transitions d);
  zo_index : Forall (λ t, ∃ l, at_ (localtimes d) (localtimeIdx t) = Ok l ∧
                localtime t = gmttime t + gmtOffset l) (transitions d);
  zo_types : Forall (λ l, - 2 ^ 31 ≤ gmtOffset l < 2 ^ 31 ∧ 0 ≤ arrbIdx l ≤ zlen (abbreviation d)) (localtimes d);
  zo_nonempty : localtimes d ≠ [];
}.

(** The type in force at the UTC time [t]. *)
Definition type_at (d : Data) (t : Z) : res Localtime :=
  match active true t (transitions d) with
  | Some tr => at_ (localtimes d) (localtimeIdx tr)
  | None => at_ (localtimes d) 0
  end.

(** The local time of [t] is before the local time at which the next transition
    takes effect, that is, [t] is not in a repeated hour. *)
Definition unambiguous (d : Data) (t : Z) (off : Z) : Prop :=
  Forall (λ tr, t < gmttime tr → t + off < localtime tr) (transitions d).

Lemma at_elem {A} (l : list A) i x : at_ l i = Ok x → x ∈ l.
Proof.
  unfold at_. destruct (l !! _) eqn:E; [|done]. case_match; [|done]. intros [= <-].
  by eapply list_elem_of_lookup_2.
Qed.

Lemma at_0 {A} (l : list A) : l ≠ [] → ∃ x, at_ l 0 = Ok x.
Proof. destruct l as [|x l]; [done|]. by exists x. Qed.

Lemma active_elem gmt k l t : active gmt k l = Some t → t ∈ l ∧ key gmt t ≤ k.
Proof.
  unfold active. intros H. apply last_Some_elem_of in H.
  apply list_elem_of_filter in H as [? ?]. done.
Qed.

Lemma type_at_ok d t : zone_ok d → ∃ l, type_at d t = Ok l ∧ l ∈ localtimes d.
Proof.
  intros [_ _ Hi _ Hne]. unfold type_at. destruct (active _ _ _) as [tr|] eqn:Ea.
  - apply active_elem in Ea as [Hin _]. rewrite Forall_forall in Hi.
    destruct (Hi _ Hin) as (l & Hl & _). exists l. split; [done|by eapply at_elem].
  - destruct (at_0 _ Hne) as [l Hl]. exists l. split; [done|by eapply at_elem].
Qed.

(** The split of a sorted list at [k]. *)
Lemma sorted_split gmt k l :
  sorted_by gmt l → ∃ l1 l2, l = l1 ++ l2 ∧ Forall (λ t, key gmt t ≤ k) l1 ∧ Forall (λ t, k < key gmt t) l2.
Proof.
  intros Hs. pose proof (lower_bound_split gmt (k + 1) l Hs) as (H1 & H2 & _).
  eexists _, _. split; [symmetry; apply take_drop|].
  split; (eapply Forall_impl; [eassumption|]; simpl; lia).
Qed.

Lemma last_cases {A} (l : list A) : l = [] ∨ ∃ l' x, l = l' ++ [x].
Proof. induction l using rev_ind; eauto. Qed.

Lemma sorted_last gmt l x :
  sorted_by gmt (l ++ [x]) → Forall (λ t, key gmt t ≤ key gmt x) (l ++ [x]).
Proof.
  unfold sorted_by. induction l as [|y l IH]; simpl; intros H.
  - by repeat constructor.
  - apply StronglySorted_inv in H as [H1 H2]. constructor; [|auto].
    apply Forall_app in H2 as [_ H2]. apply Forall_cons in H2 as [H2 _]. simpl in *. lia.
Qed.

Lemma sorted_app_l gmt l1 l2 : sorted_by gmt (l1 ++ l2) → sorted_by gmt l1.
Proof.
  unfold sorted_by. induction l1 as [|x l1 IH]; simpl; intros H; [constructor|].
  apply StronglySorted_inv in H as [H1 H2]. constructor; [auto|]. by apply Forall_app in H2 as [? _].
Qed.

(** Looking the local time up finds the same transition. *)
Lemma active_local d t l :
  zone_ok d → type_at d t = Ok l → unambiguous d t (gmtOffset l) →
  active false (t + gmtOffset l) (transitions d) = active true t (transitions d).
Proof.
  intros [Hg Hlo Hi _ _] Ht Hu. unfold type_at in Ht.
  destruct (sorted_split true t _ Hg) as (l1 & l2 & El & H1 & H2).
  unfold unambiguous in Hu. rewrite El in *. apply Forall_app in Hu as [_ Hu2].
  rewrite (active_split true t l1 l2) in Ht |- * by done.
  rewrite active_split; [done| |].
  - destruct (last_cases l1) as [->|(l1' & x & ->)]; [constructor|].
    apply sorted_app_l in Hlo. pose proof (sorted_last false l1' x Hlo) as Hx.
    rewrite last_snoc in Ht.
    apply Forall_app in Hi as [Hi _]. apply Forall_app in Hi as [_ Hi]. apply Forall_cons in Hi as [Hi _].
    destruct Hi as (l' & Hl' & Eloc). assert (l' = l) as -> by congruence.
    apply Forall_app in H1 as [_ H1]. apply Forall_cons in H1 as [H1 _]. simpl in H1.
    eapply Forall_impl; [exact Hx|]. simpl. lia.
  - rewrite Forall_forall in Hu2, H2 |- *. intros tr Hin. apply Hu2; [done|]. by apply H2.
Qed.

Section LibcLaws.
Context (gmtime_r : Z → tm) (timegm : tm → Z).

(** Broken-down times that agree on date and time of day. *)
Definition same_clock (a b : tm) : Prop :=
  tm_sec a = tm_sec b ∧ tm_min a = tm_min b ∧ tm_hour a = tm_hour b ∧
  tm_mday a = tm_mday b ∧ tm_mon a = tm_mon b ∧ tm_year a = tm_year b.

Hypothesis timegm_gmtime : ∀ s, - 2 ^ 37 ≤ s < 2 ^ 44 → timegm (gmtime_r s) = s.
Hypothesis timegm_clock : ∀ a b, same_clock a b → timegm a = timegm b.

Lemma toLocalTime_spec d t :
  zone_ok d → - 2 ^ 36 ≤ t < 2 ^ 43 →
  ∃ l u, type_at d t = Ok l ∧ - 2 ^ 31 ≤ gmtOffset l < 2 ^ 31 ∧
    toLocalTime gmtime_r (Some d) t = Ok u ∧ tm_isdst u = b2z (isDst l) ∧
    timegm u = t + gmtOffset l.
Proof.
  intros Hz Ht. destruct (type_at_ok d t Hz) as (l & Hl & Hin).
  pose proof (zo_types d Hz) as Hty. rewrite Forall_forall in Hty. destruct (Hty _ Hin) as [Ho Ha].
  unfold toLocalTime. rewrite findLocaltime_spec by apply Hz. cbn [key gmttime].
  fold (type_at d t). rewrite Hl. cbn [res_bind]. rewrite i64_small by lia.
  unfold zone_name. rewrite (proj2 (Z.leb_le _ _)), (proj2 (Z.leb_le _ _)) by lia. cbn [andb res_bind].
  eexists _, _. split; [done|]. split; [done|]. split; [done|]. split; [done|].
  rewrite (timegm_clock _ (gmtime_r (t + gmtOffset l))) by done. apply timegm_gmtime. lia.
Qed.

(** [fromLocalTime] inverts [toLocalTime] on every time whose local time is not
    repeated by a later transition (the hour after daylight time ends). *)
Theorem local_roundtrip d t l :
  zone_ok d → - 2 ^ 36 ≤ t < 2 ^ 43 → type_at d t = Ok l → unambiguous d t (gmtOffset l) →
  wp (toLocalTime gmtime_r (Some d) t) (λ u, fromLocalTime gmtime_r timegm (Some d) u = Ok t).
Proof.
  intros Hz Ht Hl Hu. destruct (toLocalTime_spec d t Hz Ht) as (l' & u & Hl' & Ho & Hu' & Hdst & Htm).
  assert (l' = l) as -> by congruence. rewrite Hu'. cbn [wp].
  unfold fromLocalTime. rewrite Htm. rewrite findLocaltime_spec by apply Hz. cbn [key localtime].
  rewrite active_local by done. fold (type_at d t). rewrite Hl. cbn [res_bind].
  replace (t + gmtOffset l - gmtOffset l) with t by lia. rewrite (i64_small t) by lia.
  rewrite Hu', Hdst. cbn [res_bind]. rewrite Hdst. destruct (isDst l); cbn [b2z Z.eqb negb andb res_bind].
  all: replace (t + gmtOffset l - gmtOffset l) with t by lia; by rewrite i64_small by lia.
Qed.

End LibcLaws.

(** ** Zone files *)

(** [reads r e g a]: [r] consumes exactly [e], changes the data by [g] and returns [a]. *)
Definition reads {A} (r : reader A) (e : bytes) (g : Data → Data) (a : A) : Prop :=
  ∀ d f, r d (e ++ f) = Ok (g d, Some (a, f)).

Lemma reads_bind {A B} (r : reader A) (k : A → reader B) e1 e2 g1 g2 a b :
  reads r e1 g1 a → reads (k a) e2 g2 b → reads (bind r k) (e1 ++ e2) (λ d, g2 (g1 d)) b.
Proof. intros H1 H2 d f. unfold bind. rewrite <- app_assoc, H1. cbn [res_bind]. by rewrite H2. Qed.

Lemma reads_ret {A} (a : A) : reads (ret a) [] (λ d, d) a.
Proof. by intros d f. Qed.

Lemma reads_bytes l : reads (readBytes (zlen l)) l (λ d, d) l.
Proof.
  intros d f. unfold readBytes. rewrite (proj2 (Z.ltb_ge _ _)) by lia.
  rewrite (proj2 (Z.ltb_ge _ _)) by (rewrite length_app; lia).
  by rewrite ztake_app_len, zdrop_app_len.
Qed.

Lemma reads_int32 z : - 2 ^ 31 ≤ z < 2 ^ 31 → reads readInt32 (be_bytes 4 z) (λ d, d) z.
Proof.
  intros Hz d f. unfold readInt32. pose proof (length_be_bytes 4 z) as Hl.
  rewrite (proj2 (Z.ltb_ge _ _)) by (rewrite length_app, Hl; lia).
  rewrite ztake_app_len, zdrop_app_len by (by rewrite Hl). unfold ret. do 4 f_equal.
  pose proof (load_net 4 (be_bytes 4 z) Hl) as E. change (8 * Z.of_nat 4) with 32 in E.
  change (networkToHost32 ?x) with (bswap 4 (uwrap 32 x)). rewrite E, be_val_bytes.
  change (8 * Z.of_nat 4) with 32. unfold i32. rewrite swrap_uwrap by lia. apply swrap_small; lia.
Qed.

Lemma reads_uint8 z : 0 ≤ z < 256 → reads readUInt8 [byte_of_Z z] (λ d, d) z.
Proof.
  intros Hz d f. unfold readUInt8. rewrite (proj2 (Z.ltb_ge _ _)) by (rewrite length_app; simpl; lia).
  rewrite ztake_app_len, zdrop_app_len by done. unfold ret. do 4 f_equal. simpl.
  rewrite ub_byte_of_Z, Z.mod_small by lia. lia.
Qed.

Lemma reads_times {A} (r : reader A) (enc : A → bytes) xs :
  Forall (λ x, reads r (enc x) (λ d, d) x) xs →
  reads (read_times (length xs) r) (concat (map enc xs)) (λ d, d) xs.
Proof.
  induction 1 as [|x xs Hx Hxs IH]; [apply reads_ret|]. cbn [length read_times map concat].
  apply (reads_bind _ _ _ _ _ (λ d, d) _ _ Hx).
  rewrite <- (app_nil_r (concat (map enc xs))).
  apply (reads_bind _ _ _ _ _ (λ d, d) _ _ IH). apply reads_ret.
Qed.

Definition enc_type (l : Localtime) : bytes :=
  be_bytes 4 (gmtOffset l) ++ [byte_of_Z (b2z (isDst l))] ++ [byte_of_Z (arrbIdx l)].

Definition type_ok (l : Localtime) : Prop :=
  - 2 ^ 31 ≤ gmtOffset l < 2 ^ 31 ∧ 0 ≤ arrbIdx l < 256.

Definition add_types (ls : list Localtime) (d : Data) : Data :=
  mkData (transitions d) (localtimes d ++ ls) (names d) (abbreviation d).

Lemma reads_localtimes ls :
  Forall type_ok ls → reads (read_localtimes (length ls)) (concat (map enc_type ls)) (add_types ls) tt.
Proof.
  induction 1 as [|l ls [Ho Ha] Hls IH]; intros d f.
  - unfold add_types. rewrite app_nil_r. by destruct d.
  - cbn [length read_localtimes map concat]. unfold enc_type at 1. rewrite <- !app_assoc.
    unfold bind at 1. rewrite reads_int32 by done. cbn [res_bind].
    unfold bind at 1. rewrite reads_uint8 by (destruct (isDst l); simpl; lia). cbn [res_bind].
    unfold bind at 1. rewrite reads_uint8 by done. cbn [res_bind].
    unfold bind at 1, push_localtime, ret. cbn [res_bind]. rewrite IH.
    unfold add_types; cbn [transitions localtimes names abbreviation]. rewrite <- app_assoc.
    assert (mkLocaltime (gmtOffset l) (negb (b2z (isDst l) =? 0)) (arrbIdx l) = l) as ->; [|done].
    by destruct l as [? [] ?].
Qed.

(** The transitions a file describes. *)
Definition transition_of (types : list Localtime) (p : Z * Z) : Transition :=
  mkTransition p.1 (p.1 + gmtOffset (default (mkLocaltime 0 false 0) (types !! Z.to_nat p.2))) p.2.

Definition trans_ok (types : list Localtime) (p : Z * Z) : Prop :=
  - 2 ^ 31 ≤ p.1 < 2 ^ 31 ∧ 0 ≤ p.2 < 256 ∧ p.2 < zlen types.

Lemma push_transitions_spec types trans d f :
  localtimes d = types → Forall type_ok types → Forall (trans_ok types) trans →
  push_transitions (map fst trans) (map snd trans) d f =
  Ok (mkData (transitions d ++ map (transition_of types) trans) (localtimes d) (names d) (abbreviation d),
      Some (tt, f)).
Proof.
  intros Ed Hty Htr. revert d Ed. induction Htr as [|[t i] trans (Ht & Hi & Hl) Htr IH]; intros d Ed.
  - cbn. rewrite app_nil_r. by destruct d.
  - cbn [map fst snd push_transitions] in *. rewrite Ed.
    destruct (lookup_lt_is_Some_2 types (Z.to_nat i)) as [l El]; [lia|]. rewrite El.
    rewrite IH by done. cbn [transitions localtimes names abbreviation]. rewrite <- app_assoc.
    do 5 f_equal. unfold transition_of; cbn [fst snd app]. rewrite El. cbn [default].
    rewrite Forall_forall in Hty. destruct (Hty l) as [? _]; [by eapply list_elem_of_lookup_2|].
    by rewrite i64_small by lia.
Qed.

(** A TZif file (version 1 data block); [trailer] is whatever follows it. *)
Definition enc_file (ver : byte) (reserved : bytes) (isgmt isstd leap : Z) (trans : list (Z * Z))
    (types : list Localtime) (abbr trailer : bytes) : bytes :=
  str "TZif" ++ [ver] ++ reserved ++ be_bytes 4 isgmt ++ be_bytes 4 isstd ++ be_bytes 4 leap ++
  be_bytes 4 (zlen trans) ++ be_bytes 4 (zlen types) ++ be_bytes 4 (zlen abbr) ++
  concat (map (be_bytes 4) (map fst trans)) ++ concat (map (λ i, [byte_of_Z i]) (map snd trans)) ++
  concat (map enc_type types) ++ abbr ++ trailer.

Ltac read_step lem := unfold bind at 1; rewrite lem; cbn [res_bind].

(** C32. [readTimeZoneFile] decodes a TZif data block: transition times with their
    types and offsets, the local time types and the abbreviations, whatever follows
    the block. *)
Theorem zonefile_roundtrip ver reserved isgmt isstd leap trans types abbr trailer :
  length reserved = 15%nat →
  - 2 ^ 31 ≤ isgmt < 2 ^ 31 → - 2 ^ 31 ≤ isstd < 2 ^ 31 → - 2 ^ 31 ≤ leap < 2 ^ 31 →
  zlen trans < 2 ^ 31 → zlen types < 2 ^ 31 → zlen abbr < 2 ^ 31 →
  Forall type_ok types → Forall (trans_ok types) trans →
  TimeZone_file (Some (enc_file ver reserved isgmt isstd leap trans types abbr trailer)) =
  Ok (Some (mkData (map (transition_of types) trans) types [] abbr)).
Proof.
  intros Hres H1 H2 H3 H4 H5 H6 Hty Htr.
  unfold TimeZone_file, readTimeZoneFile, read_body, enc_file.
  read_step (reads_bytes (str "TZif")). rewrite bool_decide_false by (by intros []).
  read_step (reads_bytes [ver]).
  replace 15 with (zlen reserved) by lia. read_step (reads_bytes reserved).
  read_step reads_int32; [|lia]. read_step reads_int32; [|lia]. read_step reads_int32; [|lia].
  read_step reads_int32; [|lia]. read_step reads_int32; [|lia]. read_step reads_int32; [|lia].
  unfold bind at 1, reserve. rewrite (proj2 (Z.ltb_ge _ _)) by lia. unfold ret at 1. cbn [res_bind].
  rewrite !Nat2Z.id.
  replace (length trans) with (length (map fst trans)) at 1 by apply length_map.
  read_step (reads_times readInt32 (be_bytes 4) (map fst trans)).
  2: { apply Forall_map. eapply Forall_impl; [exact Htr|]. intros p Hp. apply reads_int32, Hp. }
  replace (length trans) with (length (map snd trans)) by apply length_map.
  read_step (reads_times readUInt8 (λ i, [byte_of_Z i]) (map snd trans)).
  2: { apply Forall_map. eapply Forall_impl; [exact Htr|]. intros p Hp. apply reads_uint8, Hp. }
  read_step (reads_localtimes types Hty).
  read_step (push_transitions_spec types trans (add_types types new_Data) (abbr ++ trailer));
    [|done|done|done].
  by read_step (reads_bytes abbr).
Qed.

(** A zone file that is missing or is not a TZif file does not make an invalid
    zone: the constructor keeps an empty [Data], [valid()] says true, and the first
    conversion reads [front()] of an empty vector. *)
Theorem bad_zonefile_valid gmtime_r file t :
  (∀ f, file = Some f → ztake 4 f ≠ str "TZif") →
  TimeZone_file file = Ok (Some new_Data) ∧ tz_valid (Some new_Data) = true ∧
  toLocalTime gmtime_r (Some new_Data) t = Err OutOfRange.
Proof.
  intros Hf. split; [|by split].
  destruct file as [f|]; [|done]. specialize (Hf f eq_refl).
  unfold TimeZone_file, readTimeZoneFile, read_body, bind at 1, readBytes at 1.
  change (4 <? 0) with false. cbv iota. destruct (zlen f <? 4); [done|].
  unfold ret at 1. cbn [res_bind]. by rewrite bool_decide_true.
Qed.

(** ** Witnesses *)

Definition demo_types : list Localtime :=
  [mkLocaltime (-28800) false 0; mkLocaltime (-25200) true 4].
Definition demo_trans : list (Z * Z) := [(1000000000, 1); (1020000000, 0); (1030000000, 1)].
Definition demo_abbr : bytes := str "PST" ++ [Byte.x00] ++ str "PDT" ++ [Byte.x00].
Definition demo_zone : Data := mkData (map (transition_of demo_types) demo_trans) demo_types [] demo_abbr.

Lemma demo_zone_ok : zone_ok demo_zone.
Proof.
  constructor.
  - unfold sorted_by. repeat constructor.
  - unfold sorted_by. repeat constructor.
  - repeat constructor; (eexists; split; [vm_compute; reflexivity|vm_compute; reflexivity]).
  - repeat constructor; simpl; try lia; vm_compute; discriminate.
  - discriminate.
Qed.

Lemma findLocaltime_in_force_witness :
  findLocaltime demo_zone (mkTransition 1010000000 0 0) true = Ok (mkLocaltime (-25200) true 4).
Proof.
  assert (sorted_by true (transitions demo_zone)) as H by apply demo_zone_ok.
  rewrite (findLocaltime_in_force demo_zone (mkTransition 1010000000 0 0) true H).
  vm_compute. reflexivity.
Defined.

Lemma local_roundtrip_witness :
  wp (toLocalTime (λ s, toUtcTime s false) (Some demo_zone) 1010000000)
     (λ u, fromLocalTime (λ s, toUtcTime s false) fromUtcTime (Some demo_zone) u = Ok 1010000000).
Proof.
  apply (local_roundtrip (λ s, toUtcTime s false) fromUtcTime) with (l := mkLocaltime (-25200) true 4).
  - intros s Hs.
    assert (utc_ok s) as Hu
      by (unfold utc_ok; split; [apply Z.le_trans with (- 2 ^ 37); [vm_compute; discriminate|apply Hs]
                                |apply Z.lt_le_trans with (2 ^ 44); [apply Hs|vm_compute; discriminate]]).
    by apply fromUtc_toUtc.
  - intros a b (E1 & E2 & E3 & E4 & E5 & E6). unfold fromUtcTime. congruence.
  - apply demo_zone_ok.
  - lia.
  - vm_compute. reflexivity.
  - unfold unambiguous. repeat constructor; vm_compute; congruence.
Defined.

Lemma zonefile_roundtrip_witness :
  TimeZone_file (Some (enc_file Byte.x32 (replicate 15 Byte.x00) 0 0 0 demo_trans demo_types demo_abbr
                   (str "TZif"))) = Ok (Some demo_zone).
Proof.
  apply zonefile_roundtrip; try done; unfold type_ok, trans_ok; repeat constructor; vm_compute; discriminate.
Defined.

Lemma bad_zonefile_valid_witness :
  TimeZone_file (Some (str "#!/bin/sh")) = Ok (Some new_Data) ∧ tz_valid (Some new_Data) = true ∧
  toLocalTime (λ s, toUtcTime s false) (Some new_Data) 0 = Err OutOfRange.
Proof. apply bad_zonefile_valid. intros f [= <-]. vm_compute. discriminate. Defined.

End TimeZone.
