(* ===== verification/TimerQueue.v ===== *)
(** Timers ([netLayer/timer]: [Timer.h], [Timer.cpp], [TimerId.h],
    [TimerQueue.h], [TimerQueue.cpp]; the sequence counter is [base/Atomic.h]).

    The queue owns its timers through raw pointers, so the model has a heap from
    addresses to [Timer] objects: using a deleted one is [UseAfterFree].
    [std::set<Entry>] is its sorted list of elements, [std::set<ActiveTimer>] a
    finite set.  A user callback is a number; [behaviour] says which calls of the
    queue it makes (it runs in the loop thread, where [runInLoop] calls at once).
    The allocator and [Timestamp::now()] are parameters. *)

From S2P Require Import Prelude Timestamp.
From Stdlib Require Import Sorted SpecFloat.
Import Timestamp.

Module TimerQueue.

(** ** Timer *)

Record Timer := mkTimer {
  callback_ : Z;
  expiration_ : Z; (* Timestamp *)
  interval_ : double;
  repeat_ : bool;
  sequence_ : Z; (* int64_t *)
}.

(** [AtomicInt64::incrementAndGet]. *)
Definition incrementAndGet (value : Z) : Z := i64 (value + 1).

(** The constructor, with the value of [s_numCreated_]. *)
Definition new_Timer (cb when : Z) (interval : double) (numCreated : Z) : Timer * Z :=
  let n := incrementAndGet numCreated in
  (mkTimer cb when interval (SFltb (S754_zero false) interval) n, n).

Definition restart (now : Z) (t : Timer) : Timer :=
  mkTimer (callback_ t)
    (if repeat_ t then addTime now (interval_ t) else invalid)
    (interval_ t) (repeat_ t) (sequence_ t).

(** [TimerId]: the pointer and the sequence number. *)
Record TimerId := mkTimerId { timer_ : Z; id_sequence_ : Z }.

(** ** timerfd *)

Record timespec := mkTimespec { tv_sec : Z; tv_nsec : Z }.

Definition howMuchTimeFromNow (when now : Z) : timespec :=
  let microseconds := i64 (when - now) in
  let microseconds := if microseconds <? 100 then 100 else microseconds in
  mkTimespec (i64 (Z.quot microseconds kMicroSecondsPerSecond))
    (i64 (Z.rem microseconds kMicroSecondsPerSecond * 1000)).

(** [it_value] and [it_interval] of the last [timerfd_settime]. *)
Record itimerspec := mkItimerspec { it_value : timespec; it_interval : timespec }.

(** ** TimerQueue *)

(** [std::pair<Timestamp, Timer*>] and its order. *)
Abbreviation Entry := (Z * Z)%type.

Definition entry_lt (x y : Entry) : bool := (x.1 <? y.1) || ((x.1 =? y.1) && (x.2 <? y.2)).

(** [std::set<Entry>::insert] and [erase]: the set and whether it changed. *)
Fixpoint set_insert (e : Entry) (l : list Entry) : list Entry * bool :=
  match l with
  | [] => ([e], true)
  | x :: l' =>
      if entry_lt e x then (e :: l, true)
      else if entry_lt x e then let '(l2, b) := set_insert e l' in (x :: l2, b)
      else (l, false)
  end.

Fixpoint set_erase (e : Entry) (l : list Entry) : list Entry * bool :=
  match l with
  | [] => ([], false)
  | x :: l' =>
      if entry_lt e x then (l, false)
      else if entry_lt x e then let '(l2, b) := set_erase e l' in (x :: l2, b)
      else (l', true)
  end.

Record TimerQueue := mkQueue {
  timers_ : list Entry;
  activeTimers_ : gset (Z * Z);
  callingExpiredTimers_ : bool;
  cancelingTimers_ : gset (Z * Z);
  timerfd_ : option itimerspec;
  heap : gmap Z Timer;
  s_numCreated_ : Z;
}.

Definition set_timers (v : list Entry) (q : TimerQueue) : TimerQueue :=
  mkQueue v (activeTimers_ q) (callingExpiredTimers_ q) (cancelingTimers_ q) (timerfd_ q) (heap q) (s_numCreated_ q).
Definition set_active (v : gset (Z * Z)) (q : TimerQueue) : TimerQueue :=
  mkQueue (timers_ q) v (callingExpiredTimers_ q) (cancelingTimers_ q) (timerfd_ q) (heap q) (s_numCreated_ q).
Definition set_calling (v : bool) (q : TimerQueue) : TimerQueue :=
  mkQueue (timers_ q) (activeTimers_ q) v (cancelingTimers_ q) (timerfd_ q) (heap q) (s_numCreated_ q).
Definition set_canceling (v : gset (Z * Z)) (q : TimerQueue) : TimerQueue :=
  mkQueue (timers_ q) (activeTimers_ q) (callingExpiredTimers_ q) v (timerfd_ q) (heap q) (s_numCreated_ q).
Definition set_timerfd (v : option itimerspec) (q : TimerQueue) : TimerQueue :=
  mkQueue (timers_ q) (activeTimers_ q) (callingExpiredTimers_ q) (cancelingTimers_ q) v (heap q) (s_numCreated_ q).
Definition set_heap (v : gmap Z Timer) (q : TimerQueue) : TimerQueue :=
  mkQueue (timers_ q) (activeTimers_ q) (callingExpiredTimers_ q) (cancelingTimers_ q) (timerfd_ q) v (s_numCreated_ q).
Definition set_numCreated (v : Z) (q : TimerQueue) : TimerQueue :=
  mkQueue (timers_ q) (activeTimers_ q) (callingExpiredTimers_ q) (cancelingTimers_ q) (timerfd_ q) (heap q) v.

Definition new_TimerQueue : TimerQueue := mkQueue [] ∅ false ∅ None ∅ 0.

(** Reading through a [Timer*], and [delete]. *)
Definition deref (a : Z) (q : TimerQueue) : res Timer :=
  match heap q !! a with Some t => Ok t | None => Err UseAfterFree end.

Definition delete_timer (a : Z) (q : TimerQueue) : res TimerQueue :=
  let! _ := deref a q in Ok (set_heap (delete a (heap q)) q).

Definition sizes_agree (q : TimerQueue) : bool := (length (timers_ q) =? size (activeTimers_ q))%nat.

Definition resetTimerfd (expiration now : Z) (q : TimerQueue) : TimerQueue :=
  let ts := howMuchTimeFromNow expiration now in
  set_timerfd (Some (mkItimerspec ts ts)) q.

Definition insert (timer : Z) (q : TimerQueue) : res (bool * TimerQueue) :=
  assert! sizes_agree q in
  let! t := deref timer q in
  let when := expiration_ t in
  let earliestChanged := match timers_ q with [] => true | it :: _ => when <? it.1 end in
  let '(ts, inserted) := set_insert (when, timer) (timers_ q) in
  assert! inserted in
  assert! bool_decide ((timer, sequence_ t) ∉ activeTimers_ q) in
  let q := set_active ({[ (timer, sequence_ t) ]} ∪ activeTimers_ q) (set_timers ts q) in
  assert! sizes_agree q in
  Ok (earliestChanged, q).

Definition addTimerInLoop (now timer : Z) (q : TimerQueue) : res TimerQueue :=
  let! (earliestChanged, q) := insert timer q in
  if earliestChanged then
    let! t := deref timer q in
    Ok (resetTimerfd (expiration_ t) now q)
  else Ok q.

Definition cancelInLoop (timerId : TimerId) (q : TimerQueue) : res TimerQueue :=
  assert! sizes_agree q in
  let timer := (timer_ timerId, id_sequence_ timerId) in
  let! q :=
    if bool_decide (timer ∈ activeTimers_ q) then
      let! t := deref timer.1 q in
      let '(ts, n) := set_erase (expiration_ t, timer.1) (timers_ q) in
      assert! n in
      let! q := delete_timer timer.1 (set_timers ts q) in
      Ok (set_active (activeTimers_ q ∖ {[ timer ]}) q)
    else if callingExpiredTimers_ q then
      Ok (set_canceling ({[ timer ]} ∪ cancelingTimers_ q) q)
    else Ok q in
  assert! sizes_agree q in
  Ok q.

(** [UINTPTR_MAX]. *)
Definition UINTPTR_MAX : Z := 2 ^ 64 - 1.

Fixpoint set_lower_bound (sentry : Entry) (l : list Entry) : nat :=
  match l with
  | [] => O
  | x :: l => if entry_lt x sentry then S (set_lower_bound sentry l) else O
  end.

Fixpoint erase_active (expired : list Entry) (q : TimerQueue) : res TimerQueue :=
  match expired with
  | [] => Ok q
  | it :: rest =>
      let! t := deref it.2 q in
      let timer := (it.2, sequence_ t) in
      assert! bool_decide (timer ∈ activeTimers_ q) in
      erase_active rest (set_active (activeTimers_ q ∖ {[ timer ]}) q)
  end.

Definition getExpired (now : Z) (q : TimerQueue) : res (list Entry * TimerQueue) :=
  assert! sizes_agree q in
  let end_ := set_lower_bound (now, UINTPTR_MAX) (timers_ q) in
  assert! match timers_ q !! end_ with None => true | Some e => now <? e.1 end in
  let expired := take end_ (timers_ q) in
  let! q := erase_active expired (set_timers (drop end_ (timers_ q)) q) in
  assert! sizes_agree q in
  Ok (expired, q).

Fixpoint reset_loop (expired : list Entry) (now : Z) (q : TimerQueue) : res TimerQueue :=
  match expired with
  | [] => Ok q
  | it :: rest =>
      let! t := deref it.2 q in
      let timer := (it.2, sequence_ t) in
      if repeat_ t && negb (bool_decide (timer ∈ cancelingTimers_ q)) then
        let q := set_heap (<[it.2 := restart now t]> (heap q)) q in
        let! (_, q) := insert it.2 q in
        reset_loop rest now q
      else
        let! q := delete_timer it.2 q in
        reset_loop rest now q
  end.

Definition reset (expired : list Entry) (now clk : Z) (q : TimerQueue) : res TimerQueue :=
  let! q := reset_loop expired now q in
  let! nextExpire :=
    match timers_ q with
    | [] => Ok invalid
    | e :: _ => let! t := deref e.2 q in Ok (expiration_ t)
    end in
  if valid nextExpire then Ok (resetTimerfd nextExpire clk q) else Ok q.

(** The destructor's loop. *)
Fixpoint delete_all (l : list Entry) (q : TimerQueue) : res TimerQueue :=
  match l with
  | [] => Ok q
  | e :: l => let! q := delete_timer e.2 q in delete_all l q
  end.

Definition destroy (q : TimerQueue) : res TimerQueue := delete_all (timers_ q) q.

(** What a callback asks of the queue. *)
Inductive call :=
| CAdd (cb when : Z) (interval : double)
| CCancel (id : TimerId).

Section Environment.
(** The allocator: an address, or [std::bad_alloc]. *)
Context (alloc : gmap Z Timer → option Z).
(** The calls a callback makes when it runs. *)
Context (behaviour : Z → TimerQueue → list call).

(** [new Timer] in [addTimer]; the result is the pointer. *)
Definition create_timer (cb when : Z) (interval : double) (q : TimerQueue) : res (Z * TimerQueue) :=
  match alloc (heap q) with
  | Some a =>
      let '(t, n) := new_Timer cb when interval (s_numCreated_ q) in
      Ok (a, set_numCreated n (set_heap (<[a := t]> (heap q)) q))
  | None => Err BadAlloc
  end.

(** [TimerId(timer, timer->sequence())], read when the timer has been handed to the
    loop. *)
Definition timer_id (a : Z) (q : TimerQueue) : res TimerId :=
  let! t := deref a q in Ok (mkTimerId a (sequence_ t)).

(** [addTimer] called in the loop thread, where [runInLoop] calls at once. *)
Definition addTimer (clk cb when : Z) (interval : double) (q : TimerQueue) : res (TimerId * TimerQueue) :=
  let! (timer, q) := create_timer cb when interval q in
  let! q := addTimerInLoop clk timer q in
  let! id := timer_id timer q in
  Ok (id, q).

Definition run_call (clk : Z) (c : call) (q : TimerQueue) : res TimerQueue :=
  match c with
  | CAdd cb when interval => let! (_, q) := addTimer clk cb when interval q in Ok q
  | CCancel id => cancelInLoop id q
  end.

Fixpoint run_calls (clk : Z) (cs : list call) (q : TimerQueue) : res TimerQueue :=
  match cs with
  | [] => Ok q
  | c :: cs => let! q := run_call clk c q in run_calls clk cs q
  end.

(** [it.second->run()] for every expired entry; the callbacks run, in order. *)
Fixpoint run_expired (clk : Z) (expired : list Entry) (q : TimerQueue) : res (list Z * TimerQueue) :=
  match expired with
  | [] => Ok ([], q)
  | it :: rest =>
      let! t := deref it.2 q in
      let! q := run_calls clk (behaviour (callback_ t) q) q in
      let! (ran, q) := run_expired clk rest q in
      Ok (callback_ t :: ran, q)
  end.

Definition handleRead (now clk : Z) (q : TimerQueue) : res (list Z * TimerQueue) :=
  let! (expired, q) := getExpired now q in
  let q := set_canceling ∅ (set_calling true q) in
  let! (ran, q) := run_expired clk expired q in
  let q := set_calling false q in
  let! q := reset expired now clk q in
  Ok (ran, q).

End Environment.

(** ** The ordered set of entries *)

Definition sorted (l : list Entry) : Prop := StronglySorted (λ x y, entry_lt x y = true) l.

Lemma entry_lt_irrefl e : entry_lt e e = false.
Proof. unfold entry_lt. rewrite !Z.ltb_irrefl. by rewrite andb_false_r. Qed.

Lemma entry_lt_iff x y : entry_lt x y = true ↔ x.1 < y.1 ∨ (x.1 = y.1 ∧ x.2 < y.2).
Proof. unfold entry_lt. rewrite orb_true_iff, andb_true_iff, !Z.ltb_lt, Z.eqb_eq. done. Qed.

Lemma entry_lt_trans x y z : entry_lt x y = true → entry_lt y z = true → entry_lt x z = true.
Proof. rewrite !entry_lt_iff. lia. Qed.

Lemma entry_lt_total x y : entry_lt x y = false → entry_lt y x = false → x = y.
Proof.
  destruct (entry_lt x y) eqn:E1; [done|]. destruct (entry_lt y x) eqn:E2; [done|]. intros _ _.
  apply not_true_iff_false in E1, E2. rewrite entry_lt_iff in E1, E2.
  destruct x as [a b], y as [c d]; simpl in *. f_equal; lia.
Qed.

#[local] Hint Resolve entry_lt_trans : tank.

Lemma set_insert_perm e l : (set_insert e l).2 = true → (set_insert e l).1 ≡ₚ e :: l.
Proof.
  induction l as [|x l IH]; simpl; [done|].
  destruct (entry_lt e x); [done|]. destruct (entry_lt x e); [|done].
  destruct (set_insert e l) as [l2 b]; simpl in *. intros ->. rewrite IH by done. apply Permutation_swap.
Qed.

Lemma set_insert_new e l : e ∉ l → (set_insert e l).2 = true.
Proof.
  induction l as [|x l IH]; intros He; simpl; [done|]. apply not_elem_of_cons in He as [Hne He].
  destruct (entry_lt e x) eqn:E1; [done|]. destruct (entry_lt x e) eqn:E2.
  - destruct (set_insert e l) as [l2 b]; simpl in *. auto.
  - by destruct Hne; apply entry_lt_total.
Qed.

Lemma set_insert_Forall (P : Entry → Prop) e l : P e → Forall P l → Forall P (set_insert e l).1.
Proof.
  intros He. induction 1 as [|x l Hx Hl IH]; simpl; [by constructor|].
  destruct (entry_lt e x); [by repeat constructor|]. destruct (entry_lt x e); [|by constructor].
  destruct (set_insert e l) as [l2 b]; simpl in *. by constructor.
Qed.

Lemma set_insert_sorted e l : sorted l → sorted (set_insert e l).1.
Proof.
  unfold sorted. induction 1 as [|x l Hl IH Hx]; simpl; [by repeat constructor|].
  destruct (entry_lt e x) eqn:E1.
  - constructor; [by constructor|]. constructor; [done|].
    eapply Forall_impl; [exact Hx|]. simpl. eauto with tank.
  - destruct (entry_lt x e) eqn:E2; [|by constructor].
    pose proof (set_insert_Forall (λ y, entry_lt x y = true) e l E2 Hx) as HF.
    destruct (set_insert e l) as [l2 b]; simpl in *. by constructor.
Qed.

(** The head after an insertion. *)
Lemma set_insert_head e l :
  head (set_insert e l).1 =
  match l with [] => Some e | x :: _ => if entry_lt e x then Some e else Some x end.
Proof.
  destruct l as [|x l]; simpl; [done|]. destruct (entry_lt e x); [done|].
  destruct (entry_lt x e); [|done]. by destruct (set_insert e l).
Qed.

Lemma set_erase_spec e l :
  sorted l → e ∈ l → (set_erase e l).2 = true ∧ sorted (set_erase e l).1 ∧ l ≡ₚ e :: (set_erase e l).1.
Proof.
  unfold sorted. induction 1 as [|x l Hl IH Hx]; intros He; [by apply elem_of_nil in He|].
  simpl. apply elem_of_cons in He as [->|He].
  - by rewrite entry_lt_irrefl.
  - rewrite Forall_forall in Hx. pose proof (Hx _ He) as Hxe.
    assert (entry_lt e x = false) as ->.
    { destruct (entry_lt e x) eqn:E; [|done]. pose proof (entry_lt_trans _ _ _ E Hxe) as C.
      by rewrite entry_lt_irrefl in C. }
    rewrite Hxe. destruct (IH He) as (H1 & H2 & H3).
    destruct (set_erase e l) as [l2 b]; simpl in *. split_and!; [done| |].
    + constructor; [done|]. apply Forall_forall. intros y Hy. apply Hx. rewrite H3. by right.
    + rewrite H3 at 1. apply Permutation_swap.
Qed.

Lemma sorted_drop n l : sorted l → sorted (drop n l).
Proof.
  unfold sorted. revert l. induction n as [|n IH]; intros l Hl; [by rewrite drop_0|].
  destruct Hl as [|x l Hl Hx]; simpl; [constructor|auto].
Qed.

(** What [lower_bound] of the sentry splits off, when addresses are below it. *)
Lemma set_lower_bound_split now l :
  sorted l → Forall (λ e, e.2 < UINTPTR_MAX) l →
  let n := set_lower_bound (now, UINTPTR_MAX) l in
  take n l = filter (λ e, e.1 ≤ now) l ∧ drop n l = filter (λ e, now < e.1) l.
Proof.
  unfold sorted. induction 1 as [|x l Hl IH Hx]; intros Ha; [done|].
  apply Forall_cons in Ha as [Hxa Ha]. specialize (IH Ha) as [IH1 IH2]. cbn [set_lower_bound].
  assert (entry_lt x (now, UINTPTR_MAX) = bool_decide (x.1 ≤ now)) as ->.
  { apply eq_true_iff_eq. rewrite entry_lt_iff, bool_decide_eq_true. simpl. lia. }
  case_bool_decide as E.
  - simpl. rewrite filter_cons_True, filter_cons_False by (done || lia). by rewrite IH1, IH2.
  - assert (Forall (λ e, now < e.1) (x :: l)) as HF.
    { constructor; [lia|]. eapply Forall_impl; [exact Hx|]. simpl. intros y Hy%entry_lt_iff. lia. }
    rewrite take_0, drop_0. split; symmetry.
    + clear -HF. induction HF as [|y k Hy _ IHk]; [done|]. rewrite filter_cons_False by lia. done.
    + clear -HF. induction HF as [|y k Hy _ IHk]; [done|]. rewrite filter_cons_True by lia. by rewrite IHk.
Qed.

(** ** The invariant *)

Definition active_of (h : gmap Z Timer) (e : Entry) : Z * Z :=
  (e.2, default 0 (sequence_ <$> h !! e.2)).

Record wfq (q : TimerQueue) : Prop := {
  w_sorted : sorted (timers_ q);
  w_heap : Forall (λ e, ∃ t, heap q !! e.2 = Some t ∧ expiration_ t = e.1) (timers_ q);
  w_active : activeTimers_ q = list_to_set (map (active_of (heap q)) (timers_ q));
  w_addr : ∀ a, is_Some (heap q !! a) → 0 < a < UINTPTR_MAX;
}.

(** [owned q R]: the queue is well formed and the addresses [R], alive and outside
    the queue, belong to somebody else (expired entries, pending functors). *)
Record owned (q : TimerQueue) (R : list Z) : Prop := {
  o_wf : wfq q;
  o_nodup : NoDup (map snd (timers_ q) ++ R);
  o_alive : Forall (λ a, is_Some (heap q !! a)) R;
}.

Lemma sizes_agree_ok q R : owned q R → sizes_agree q = true.
Proof.
  intros [[_ _ Ha _] Hn _]. unfold sizes_agree. apply Nat.eqb_eq. rewrite Ha.
  rewrite size_list_to_set, length_map; [done|].
  apply NoDup_app in Hn as [Hn _]. revert Hn. generalize (timers_ q) as l.
  induction l as [|e l IH]; simpl; intros Hn; [constructor|].
  apply NoDup_cons in Hn as [He Hn]. constructor; [|auto].
  intros Hin. apply He. apply list_elem_of_fmap in Hin as (y & Ey & Hy).
  unfold active_of in Ey. injection Ey as E _. rewrite E. apply list_elem_of_fmap. eauto.
Qed.

(** The invariant reads the heap only at the queue's own timers. *)
Lemma active_of_ext h h' l :
  (∀ e, e ∈ l → h !! e.2 = h' !! e.2) → map (active_of h) l = map (active_of h') l.
Proof.
  intros H. apply map_ext_in. intros e He%list_elem_of_In. unfold active_of. by rewrite H.
Qed.

Lemma wfq_heap q h :
  wfq q → (∀ e, e ∈ timers_ q → h !! e.2 = heap q !! e.2) →
  (∀ a, is_Some (h !! a) → 0 < a < UINTPTR_MAX) → wfq (set_heap h q).
Proof.
  intros [Hs Hh Ha Hd] He Had. constructor; simpl; [done| | |done].
  - rewrite Forall_forall in Hh |- *. intros e Hin. rewrite He by done. auto.
  - rewrite Ha. f_equal. apply active_of_ext. intros e Hin. symmetry. auto.
Qed.

Lemma deref_ok a q t : heap q !! a = Some t → deref a q = Ok t.
Proof. intros H. unfold deref. by rewrite H. Qed.

Lemma NoDup_snd_entry (l : list Entry) R a w : NoDup (map snd l ++ a :: R) → (w, a) ∉ l.
Proof.
  intros Hn Hin. apply NoDup_app in Hn as (_ & Hd & _). apply (Hd a); [|left].
  apply list_elem_of_fmap. by exists (w, a).
Qed.

Lemma active_snd h l a s : (a, s) ∈ map (active_of h) l → a ∈ map snd l.
Proof.
  intros H%list_elem_of_fmap. destruct H as (e & [= -> _] & He). apply list_elem_of_fmap. eauto.
Qed.

(** Putting an owned timer into the queue. *)
Lemma insert_spec a t q R :
  owned q (a :: R) → heap q !! a = Some t →
  wp (insert a q) (λ '(earliest, q'), owned q' R ∧
    q' = set_active ({[ (a, sequence_ t) ]} ∪ activeTimers_ q)
           (set_timers (set_insert (expiration_ t, a) (timers_ q)).1 q) ∧
    timers_ q' ≡ₚ (expiration_ t, a) :: timers_ q ∧
    earliest = match timers_ q with [] => true | it :: _ => expiration_ t <? it.1 end).
Proof.
  intros Ho Ht. pose proof (sizes_agree_ok _ _ Ho) as Hsz. destruct Ho as [[Hs Hh Ha Hd] Hn Hal].
  unfold insert. rewrite Hsz, (deref_ok a q t Ht). cbn [res_bind].
  pose proof (NoDup_snd_entry _ _ _ (expiration_ t) Hn) as Hne.
  pose proof (set_insert_new _ _ Hne) as Hnew. pose proof (set_insert_perm _ _ Hnew) as Hp.
  pose proof (set_insert_sorted (expiration_ t, a) _ Hs) as Hs'.
  destruct (set_insert _ (timers_ q)) as [ts ins]; simpl in Hnew, Hp, Hs'. subst ins.
  assert ((a, sequence_ t) ∉ activeTimers_ q) as Hna.
  { rewrite Ha, elem_of_list_to_set. intros Hin%active_snd.
    apply NoDup_app in Hn as (_ & Hdis & _). apply (Hdis a); [done|left]. }
  rewrite bool_decide_true by done.
  set (q' := set_active _ _).
  assert (owned q' R) as Ho'.
  { constructor; [constructor|..]; unfold q'; simpl; [done| | |done| |].
    - rewrite Hp. constructor; [by exists t|done].
    - rewrite Hp. simpl. rewrite Ha. unfold active_of at 2; simpl. by rewrite Ht.
    - rewrite Hp. simpl. rewrite Permutation_middle. done.
    - by apply Forall_cons in Hal as [_ Hal]. }
  rewrite (sizes_agree_ok _ _ Ho'). simpl. split_and!; done.
Qed.

(** Changing or dropping a timer outside the queue. *)
Lemma owned_update q R a t :
  owned q (a :: R) → owned (set_heap (<[a := t]> (heap q)) q) (a :: R).
Proof.
  intros [Hw Hn Hal]. assert (0 < a < UINTPTR_MAX) as Hab.
  { apply (w_addr q Hw). by apply Forall_cons in Hal as [? _]. }
  constructor; [|done|].
  - apply wfq_heap; [done| |].
    + intros [w b] Hin. simpl. apply lookup_insert_ne. intros <-. by apply (NoDup_snd_entry _ _ _ w Hn).
    + intros b. rewrite lookup_insert_is_Some. intros [<-|[_ ?]]; [done|by apply (w_addr q Hw)].
  - simpl. eapply Forall_impl; [exact Hal|]. intros b Hb. apply lookup_insert_is_Some'. by right.
Qed.

Lemma owned_delete q R a :
  owned q (a :: R) → owned (set_heap (delete a (heap q)) q) R.
Proof.
  intros [Hw Hn Hal]. apply Forall_cons in Hal as [_ Hal].
  pose proof Hn as Hn2. rewrite <- Permutation_middle in Hn2. apply NoDup_cons in Hn2 as [Hna Hn2].
  constructor; [|done|].
  - apply wfq_heap; [done| |].
    + intros [w b] Hin. simpl. apply lookup_delete_ne. intros <-. by apply (NoDup_snd_entry _ _ _ w Hn).
    + intros b. rewrite lookup_delete_is_Some. intros [_ ?]. by apply (w_addr q Hw).
  - simpl. rewrite Forall_forall in Hal |- *. intros b Hb. apply lookup_delete_is_Some. split; [|auto].
    intros <-. apply Hna, elem_of_app. by right.
Qed.

(** The heap is the same at [R]. *)
Definition same_at (R : list Z) (q q' : TimerQueue) : Prop :=
  ∀ a, a ∈ R → heap q' !! a = heap q !! a.

Lemma same_at_trans R q1 q2 q3 : same_at R q1 q2 → same_at R q2 q3 → same_at R q1 q3.
Proof. intros H1 H2 a Ha. by rewrite H2, H1. Qed.

(** Only the sets of the queue and its heap are read by the invariant. *)
Lemma owned_ext q q' R :
  owned q R → timers_ q' = timers_ q → activeTimers_ q' = activeTimers_ q → heap q' = heap q → owned q' R.
Proof.
  intros [[Hs Hh Ha Hd] Hn Hal] E1 E2 E3. constructor; [constructor|..]; by rewrite ?E1, ?E2, ?E3.
Qed.

Lemma owned_active q R a s :
  owned q R → (a, s) ∈ activeTimers_ q →
  ∃ t, heap q !! a = Some t ∧ sequence_ t = s ∧ (expiration_ t, a) ∈ timers_ q.
Proof.
  intros [[Hs Hh Ha Hd] Hn Hal]. rewrite Ha, elem_of_list_to_set.
  intros ([w b] & [= -> Es] & He)%list_elem_of_fmap. rewrite Forall_forall in Hh.
  destruct (Hh _ He) as (t & Ht & Ew). simpl in *. rewrite Ht in Es. simpl in Es. subst.
  by exists t.
Qed.

(** Taking a timer out of the queue and deleting it. *)
Lemma owned_erase q R a t :
  owned q R → heap q !! a = Some t → (expiration_ t, a) ∈ timers_ q →
  let ts := (set_erase (expiration_ t, a) (timers_ q)).1 in
  let q' := set_active (activeTimers_ q ∖ {[ (a, sequence_ t) ]})
              (set_heap (delete a (heap q)) (set_timers ts q)) in
  owned q' R ∧ same_at R q q'.
Proof.
  intros [[Hs Hh Ha Hd] Hn Hal] Ht Hin ts q'.
  destruct (set_erase_spec _ _ Hs Hin) as (_ & Hs' & Hp). fold ts in Hs', Hp.
  pose proof Hn as Hn2. rewrite Hp in Hn2. cbn [map app snd] in Hn2.
  apply NoDup_cons in Hn2 as [Hna Hn2]. rewrite elem_of_app in Hna.
  assert (∀ e, e ∈ ts → delete a (heap q) !! e.2 = heap q !! e.2) as Hext.
  { intros e He. apply lookup_delete_ne. intros ->. apply Hna. left. apply list_elem_of_fmap. eauto. }
  assert (same_at R q q') as Hsame.
  { intros b Hb. unfold q'; simpl. apply lookup_delete_ne. intros <-. tauto. }
  split; [|done]. constructor; [constructor|..]; unfold q'; simpl; [done| | | |done|].
  - rewrite Hp in Hh. apply Forall_cons in Hh as [_ Hh]. rewrite Forall_forall in Hh |- *.
    intros e He. rewrite Hext by done. auto.
  - rewrite (active_of_ext _ (heap q)) by (intros; by rewrite Hext).
    rewrite Ha, Hp. simpl. unfold active_of at 1; simpl. rewrite Ht. simpl.
    assert ((a, sequence_ t) ∉ (list_to_set (map (active_of (heap q)) ts) : gset (Z * Z))) as Hnin.
    { rewrite elem_of_list_to_set. intros Hx%active_snd. tauto. }
    rewrite difference_union_distr_l_L, difference_diag_L, (left_id_L ∅ (∪)).
    apply difference_disjoint_L. by apply disjoint_singleton_r.
  - intros b. rewrite lookup_delete_is_Some. intros [_ ?]. by apply Hd.
  - rewrite Forall_forall in Hal |- *. intros b Hb. unfold same_at, q' in Hsame. simpl in Hsame.
    rewrite Hsame by done. auto.
Qed.

(** What cancelling does. *)
Lemma cancel_spec id q R :
  owned q R →
  wp (cancelInLoop id q) (λ q', owned q' R ∧ same_at R q q' ∧
    callingExpiredTimers_ q' = callingExpiredTimers_ q ∧ timerfd_ q' = timerfd_ q ∧
    s_numCreated_ q' = s_numCreated_ q ∧
    if bool_decide ((timer_ id, id_sequence_ id) ∈ activeTimers_ q) then
      ∃ w, timers_ q ≡ₚ (w, timer_ id) :: timers_ q' ∧ heap q' = delete (timer_ id) (heap q) ∧
           activeTimers_ q' = activeTimers_ q ∖ {[ (timer_ id, id_sequence_ id) ]} ∧
           cancelingTimers_ q' = cancelingTimers_ q
    else timers_ q' = timers_ q ∧ heap q' = heap q ∧ activeTimers_ q' = activeTimers_ q ∧
         cancelingTimers_ q' = (if callingExpiredTimers_ q
           then {[ (timer_ id, id_sequence_ id) ]} ∪ cancelingTimers_ q else cancelingTimers_ q)).
Proof.
  intros Ho. pose proof (sizes_agree_ok _ _ Ho) as Hsz. unfold cancelInLoop. rewrite Hsz. cbn [fst].
  destruct id as [a s]; cbn [timer_ id_sequence_].
  destruct (bool_decide ((a, s) ∈ activeTimers_ q)) eqn:Eb; bool_prop.
  - destruct (owned_active _ _ _ _ Ho Eb) as (t & Ht & Es & Hin).
    rewrite (deref_ok a q t Ht). cbn [res_bind].
    destruct (owned_erase q R a t Ho Ht Hin) as [Ho' Hsame]. cbv zeta in Ho', Hsame.
    destruct (set_erase_spec _ _ (w_sorted q (o_wf q R Ho)) Hin) as (Hb & _ & Hp).
    destruct (set_erase _ (timers_ q)) as [ts b]; simpl in Hb, Hp, Ho', Hsame. subst b.
    unfold delete_timer, deref. change (heap (set_timers ts q)) with (heap q). rewrite Ht. cbn [res_bind].
    change (activeTimers_ (set_heap (delete a (heap q)) (set_timers ts q))) with (activeTimers_ q).
    rewrite Es in Ho', Hsame. rewrite (sizes_agree_ok _ _ Ho'). cbn [wp].
    split_and!; try done. by exists (expiration_ t).
  - destruct (callingExpiredTimers_ q) eqn:Ec; cbn [res_bind].
    + set (q' := set_canceling _ _). assert (owned q' R) as Ho' by (by eapply owned_ext).
      rewrite (sizes_agree_ok _ _ Ho'). cbn [wp]. split_and!; done.
    + rewrite Hsz. cbn [wp]. split_and!; done.
Qed.

Lemma addTimerInLoop_spec clk a t q R :
  owned q (a :: R) → heap q !! a = Some t →
  wp (addTimerInLoop clk a q) (λ q', owned q' R ∧ heap q' = heap q ∧
    timers_ q' = (set_insert (expiration_ t, a) (timers_ q)).1 ∧
    timers_ q' ≡ₚ (expiration_ t, a) :: timers_ q ∧
    activeTimers_ q' = {[ (a, sequence_ t) ]} ∪ activeTimers_ q ∧
    cancelingTimers_ q' = cancelingTimers_ q ∧ callingExpiredTimers_ q' = callingExpiredTimers_ q ∧
    timerfd_ q' =
      (if match timers_ q with [] => true | it :: _ => expiration_ t <? it.1 end
       then let ts := howMuchTimeFromNow (expiration_ t) clk in Some (mkItimerspec ts ts)
       else timerfd_ q)).
Proof.
  intros Ho Ht. unfold addTimerInLoop. eapply wp_bind; [by apply insert_spec|].
  intros [earliest q1] (Ho1 & -> & Hp & ->). cbv beta iota.
  destruct (match timers_ q with [] => _ | _ => _ end).
  - unfold deref. change (heap (set_active _ _)) with (heap q). rewrite Ht. cbn [res_bind wp].
    split_and!; try done. by eapply owned_ext.
  - cbn [wp]. split_and!; done.
Qed.

(** ** Expired timers *)

Lemma erase_active_spec h expired rest q :
  heap q = h → Forall (λ e, is_Some (h !! e.2)) expired → NoDup (map snd (expired ++ rest)) →
  activeTimers_ q = list_to_set (map (active_of h) (expired ++ rest)) →
  erase_active expired q = Ok (set_active (list_to_set (map (active_of h) rest)) q).
Proof.
  intros Hh Hal. revert q Hh. induction Hal as [|e expired [t Ht] Hal IH]; intros q Hh Hn Ha; cbn [erase_active].
  - simpl in Ha. rewrite <- Ha. by destruct q.
  - unfold deref. rewrite Hh, Ht. cbn [res_bind].
    assert (active_of h e = (e.2, sequence_ t)) as Ee by (unfold active_of; by rewrite Ht).
    cbn [map app list_to_set] in Ha, Hn. rewrite Ee in Ha. apply NoDup_cons in Hn as [Hne Hn].
    rewrite bool_decide_true by (rewrite Ha; apply elem_of_union_l, elem_of_singleton; done).
    rewrite IH; [done|done|done|].
    change (activeTimers_ (set_active ?x q)) with x. rewrite Ha.
    rewrite difference_union_distr_l_L, difference_diag_L, (left_id_L ∅ (∪)).
    apply difference_disjoint_L, disjoint_singleton_r. rewrite elem_of_list_to_set.
    intros Hx%active_snd. done.
Qed.

Definition due (now : Z) (l : list Entry) : list Entry := filter (λ e, e.1 ≤ now) l.
Definition later (now : Z) (l : list Entry) : list Entry := filter (λ e, now < e.1) l.

Lemma getExpired_spec now q R :
  owned q R →
  wp (getExpired now q) (λ '(expired, q'), owned q' (map snd expired ++ R) ∧
    expired = due now (timers_ q) ∧ timers_ q' = later now (timers_ q) ∧ heap q' = heap q ∧
    timerfd_ q' = timerfd_ q).
Proof.
  intros Ho. pose proof (sizes_agree_ok _ _ Ho) as Hsz. destruct Ho as [[Hs Hh Ha Hd] Hn Hal].
  unfold getExpired. rewrite Hsz.
  assert (Forall (λ e, e.2 < UINTPTR_MAX) (timers_ q)) as Hlt.
  { eapply Forall_impl; [exact Hh|]. intros e (t & Ht & _). apply Hd. eauto. }
  pose proof (set_lower_bound_split now _ Hs Hlt) as [E1 E2]. set (n := set_lower_bound _ _) in *.
  fold (due now (timers_ q)) in E1. fold (later now (timers_ q)) in E2.
  assert (match timers_ q !! n with None => true | Some e => now <? e.1 end = true) as ->.
  { destruct (timers_ q !! n) as [e|] eqn:Ee; [|done]. apply Z.ltb_lt.
    assert (e ∈ later now (timers_ q)) as Hin by (rewrite <- E2, (drop_S _ _ _ Ee); left).
    by apply list_elem_of_filter in Hin as [? _]. }
  rewrite E1, E2.
  assert (due now (timers_ q) ++ later now (timers_ q) = timers_ q) as Eapp
    by (rewrite <- E1, <- E2; apply take_drop).
  rewrite (erase_active_spec (heap q) _ (later now (timers_ q))); [|done| | |by rewrite Eapp].
  - cbn [res_bind]. set (q' := set_active _ _).
    assert (owned q' (map snd (due now (timers_ q)) ++ R)) as Ho'.
    { constructor; [constructor|..]; unfold q'; simpl.
      - rewrite <- E2. by apply sorted_drop.
      - rewrite <- Eapp in Hh. by apply Forall_app in Hh as [_ Hh].
      - done.
      - done.
      - rewrite app_assoc, (Permutation_app_comm (map snd (later now _))), <- map_app, Eapp. done.
      - apply Forall_app. split; [|done]. apply Forall_map. rewrite <- Eapp in Hh.
        apply Forall_app in Hh as [Hh _]. eapply Forall_impl; [exact Hh|]. intros e (t & -> & _). eauto. }
    rewrite (sizes_agree_ok _ _ Ho'). cbn [wp]. by split_and!.
  - rewrite <- Eapp in Hh. apply Forall_app in Hh as [Hh _].
    eapply Forall_impl; [exact Hh|]. intros e (t & -> & _). eauto.
  - rewrite Eapp. by apply NoDup_app in Hn as [Hn _].
Qed.

(** The entries that [reset] puts back: repeating and not cancelled meanwhile. *)
Definition survivor (now : Z) (q : TimerQueue) (e : Entry) : option Entry :=
  match heap q !! e.2 with
  | Some t => if repeat_ t && negb (bool_decide ((e.2, sequence_ t) ∈ cancelingTimers_ q))
              then Some (addTime now (interval_ t), e.2) else None
  | None => None
  end.

Lemma survivor_ext now q q' (l : list Entry) :
  (∀ e, e ∈ l → heap q' !! e.2 = heap q !! e.2) → cancelingTimers_ q' = cancelingTimers_ q →
  omap (survivor now q') l = omap (survivor now q) l.
Proof.
  intros Hh Hc. induction l as [|e l IH]; [done|]. cbn [omap list_omap].
  assert (survivor now q' e = survivor now q e) as ->
    by (unfold survivor; rewrite Hh, Hc by left; done).
  rewrite IH; [done|]. intros x Hx. apply Hh. by right.
Qed.

Lemma reset_loop_spec now expired q R :
  owned q (map snd expired ++ R) →
  wp (reset_loop expired now q) (λ q', owned q' R ∧ timerfd_ q' = timerfd_ q ∧
    timers_ q' ≡ₚ omap (survivor now q) expired ++ timers_ q ∧
    (∀ b, b ∉ map snd expired → heap q' !! b = heap q !! b) ∧
    (∀ e, e ∈ expired → survivor now q e = None → heap q' !! e.2 = None)).
Proof.
  revert q. induction expired as [|e expired IH]; intros q Ho; cbn [reset_loop].
  { split_and!; try done. by intros e He%elem_of_nil. }
  cbn [map app] in Ho. pose proof (o_alive _ _ Ho) as Hal. apply Forall_cons in Hal as [[t Ht] _].
  pose proof (o_nodup _ _ Ho) as Hn. rewrite <- Permutation_middle in Hn. apply NoDup_cons in Hn as [Hne _].
  rewrite !elem_of_app in Hne.
  assert (∀ x, x ∈ expired → x.2 ≠ e.2) as Hnee.
  { intros x Hx E. apply Hne. right. left. apply list_elem_of_fmap. by exists x. }
  assert (survivor now q e = if repeat_ t && negb (bool_decide ((e.2, sequence_ t) ∈ cancelingTimers_ q))
            then Some (addTime now (interval_ t), e.2) else None) as Hsv by (unfold survivor; by rewrite Ht).
  rewrite (deref_ok _ _ _ Ht). cbn [res_bind omap list_omap map]. rewrite Hsv.
  destruct (repeat_ t && _) eqn:Er.
  - apply andb_true_iff in Er as [Er _].
    eapply wp_bind; [eapply insert_spec; [by apply owned_update|apply lookup_insert_eq]|].
    intros [ec q1] (Ho1 & Eq1 & Hp & _). cbv beta iota.
    assert (∀ b, b ≠ e.2 → heap q1 !! b = heap q !! b) as Hh1
      by (intros b Hb; subst q1; simpl; by apply lookup_insert_ne, not_eq_sym).
    assert (∀ x, x ∈ expired → survivor now q1 x = survivor now q x) as Hsx
      by (intros x Hx; unfold survivor; rewrite Hh1 by auto; by subst q1).
    eapply wp_mono; [by apply IH|]. intros q2 (Ho2 & Hf2 & Hp2 & Hk2 & Hd2). split_and!; [done| | | |].
    + rewrite Hf2. by subst q1.
    + rewrite Hp2, Hp. rewrite (survivor_ext now q q1) by (by auto || by subst q1).
      cbn [timers_ set_heap restart expiration_]. rewrite Er. by rewrite <- Permutation_middle.
    + intros b [Hb1 Hb2]%not_elem_of_cons. rewrite Hk2, Hh1 by done. done.
    + intros x [->|Hx]%elem_of_cons; [congruence|]. rewrite <- Hsx by done. by apply Hd2.
  - unfold delete_timer, deref. rewrite Ht. cbn [res_bind].
    set (q1 := set_heap _ q). assert (owned q1 (map snd expired ++ R)) as Ho1 by (by apply owned_delete).
    assert (∀ b, b ≠ e.2 → heap q1 !! b = heap q !! b) as Hh1
      by (intros b Hb; unfold q1; simpl; by apply lookup_delete_ne, not_eq_sym).
    assert (∀ x, x ∈ expired → survivor now q1 x = survivor now q x) as Hsx
      by (intros x Hx; unfold survivor; by rewrite Hh1 by auto).
    eapply wp_mono; [by apply IH|]. intros q2 (Ho2 & Hf2 & Hp2 & Hk2 & Hd2). split_and!; [done|done| | |].
    + rewrite Hp2. rewrite (survivor_ext now q q1) by auto. done.
    + intros b [Hb1 Hb2]%not_elem_of_cons. rewrite Hk2, Hh1 by done. done.
    + intros x [->|Hx]%elem_of_cons Hx'.
      * rewrite Hk2; [unfold q1; simpl; apply lookup_delete_eq|]. tauto.
      * rewrite <- Hsx in Hx' by done. by apply Hd2.
Qed.

Definition armed (w clk : Z) : option itimerspec :=
  let ts := howMuchTimeFromNow w clk in Some (mkItimerspec ts ts).

Lemma first_expiration q R w a l :
  owned q R → timers_ q = (w, a) :: l → ∃ t, heap q !! a = Some t ∧ expiration_ t = w.
Proof.
  intros [[_ Hh _ _] _ _] E. rewrite E in Hh. by apply Forall_cons in Hh as [Hh _].
Qed.

Lemma reset_spec now clk expired q R :
  owned q (map snd expired ++ R) →
  wp (reset expired now clk q) (λ q', owned q' R ∧
    timerfd_ q' = match timers_ q' with
                  | e :: _ => if valid e.1 then armed e.1 clk else timerfd_ q
                  | [] => timerfd_ q
                  end ∧
    timers_ q' ≡ₚ omap (survivor now q) expired ++ timers_ q ∧
    (∀ b, b ∉ map snd expired → heap q' !! b = heap q !! b) ∧
    (∀ e, e ∈ expired → survivor now q e = None → heap q' !! e.2 = None)).
Proof.
  intros Ho. unfold reset. eapply wp_bind; [by apply reset_loop_spec|].
  intros q1 (Ho1 & Hf1 & Hp1 & Hk1 & Hd1). cbv beta.
  destruct (timers_ q1) as [|[w a] l] eqn:Et; cbn [res_bind].
  - change (valid invalid) with false. cbv iota. cbn [wp]. rewrite Et. split_and!; done.
  - destruct (first_expiration _ _ _ _ _ Ho1 Et) as (t & Ht & Ew).
    cbn [snd]. rewrite (deref_ok _ _ _ Ht). cbn [res_bind]. rewrite Ew.
    destruct (valid w) eqn:Ev; cbn [wp].
    + change (timers_ (resetTimerfd w clk q1)) with (timers_ q1). rewrite Et. cbn [fst]. rewrite Ev.
      split_and!; try done. by eapply owned_ext.
    + rewrite Et. cbn [fst]. rewrite Ev. split_and!; done.
Qed.

Section Laws.
Context (alloc : gmap Z Timer → option Z) (behaviour : Z → TimerQueue → list call).

(** [operator new] returns the address of no live object. *)
Hypothesis alloc_fresh : ∀ h a, alloc h = Some a → h !! a = None ∧ 0 < a < UINTPTR_MAX.

Lemma create_spec cb when interval q R :
  owned q R →
  wpo (create_timer alloc cb when interval q) (λ '(a, q'),
  owned q' (a :: R) ∧ same_at R q q' ∧ heap q !! a = None ∧
  timers_ q' = timers_ q ∧ activeTimers_ q' = activeTimers_ q ∧
  timerfd_ q' = timerfd_ q ∧ callingExpiredTimers_ q' = callingExpiredTimers_ q ∧
  cancelingTimers_ q' = cancelingTimers_ q ∧
  heap q' = <[a := (new_Timer cb when interval (s_numCreated_ q)).1]> (heap q)).
Proof.
  intros [Hw Hn Hal]. unfold create_timer, new_Timer. destruct (alloc (heap q)) as [a|] eqn:Ea; [|done].
  destruct (alloc_fresh _ _ Ea) as [Hf Hb]. cbn [wpo sequence_ fst].
  assert (∀ b, is_Some (heap q !! b) → b ≠ a) as Hne.
  { intros b [t Hb'] ->. congruence. }
  assert (∀ e, e ∈ timers_ q → e.2 ≠ a) as Hne1.
  { intros e He. apply Hne. pose proof (w_heap q Hw) as Hh. rewrite Forall_forall in Hh.
    destruct (Hh _ He) as (t & -> & _). eauto. }
  split_and!; try done.
  - constructor.
    + set (h := <[a := _]> (heap q)). assert (wfq (set_heap h q)) as [? ? ? ?]; [|by constructor].
      apply wfq_heap; [done|intros e He|intros b Hx]; unfold h in *.
      * by apply lookup_insert_ne, not_eq_sym, Hne1.
      * apply lookup_insert_is_Some in Hx as [<-|[_ Hx]]; [done|by apply (w_addr q Hw)].
    + simpl. rewrite <- Permutation_middle. constructor; [|done]. rewrite elem_of_app. intros [H|H].
      * apply list_elem_of_fmap in H as (e & E & He). by apply (Hne1 e He).
      * rewrite Forall_forall in Hal. by apply (Hne a); [apply Hal|].
    + simpl. constructor; [rewrite lookup_insert_eq; eauto|].
      eapply Forall_impl; [exact Hal|]. intros b Hx. apply lookup_insert_is_Some'. by right.
  - intros b Hin. simpl. rewrite Forall_forall in Hal. apply lookup_insert_ne, not_eq_sym, Hne, Hal, Hin.
Qed.

Lemma addTimer_spec clk cb when interval q R :
  owned q R →
  wpo (addTimer alloc clk cb when interval q) (λ '(id, q'), owned q' R ∧ same_at R q q' ∧
    cancelingTimers_ q' = cancelingTimers_ q ∧ callingExpiredTimers_ q' = callingExpiredTimers_ q ∧
    (timer_ id, id_sequence_ id) ∈ activeTimers_ q').
Proof.
  intros Ho. unfold addTimer. eapply wpo_bind; [by apply create_spec|].
  intros [a q1] (Ho1 & Hs1 & _ & _ & _ & _ & Hc1 & Hcc1 & Hh).
  eapply wpo_bind; [eapply wp_wpo, addTimerInLoop_spec; [exact Ho1|]|].
  { rewrite Hh. apply lookup_insert_eq. }
  intros q2 (Ho2 & Hh2 & _ & _ & Ha2 & Hcc2 & Hc2 & _). unfold timer_id, deref.
  rewrite Hh2, Hh, lookup_insert_eq. cbn [res_bind wpo timer_ id_sequence_].
  split_and!; [done| |congruence|congruence|].
  - intros b Hb. rewrite Hh2. by apply Hs1.
  - rewrite Ha2. apply elem_of_union_l. by apply elem_of_singleton.
Qed.

Lemma run_call_spec clk c q R :
  owned q R → wpo (run_call alloc clk c q) (λ q', owned q' R ∧ same_at R q q').
Proof.
  intros Ho. destruct c as [cb when interval|id]; cbn [run_call].
  - eapply wpo_bind; [by apply addTimer_spec|]. intros [id q1] (? & ? & _). done.
  - eapply wpo_mono; [by apply wp_wpo, cancel_spec|]. intros q' (? & ? & _). done.
Qed.

Lemma run_calls_spec clk cs q R :
  owned q R → wpo (run_calls alloc clk cs q) (λ q', owned q' R ∧ same_at R q q').
Proof.
  revert q. induction cs as [|c cs IH]; intros q Ho; cbn [run_calls]; [by split|].
  eapply wpo_bind; [by apply run_call_spec|]. intros q1 [Ho1 Hs1].
  eapply wpo_mono; [by apply IH|]. intros q2 [Ho2 Hs2]. split; [done|]. by eapply same_at_trans.
Qed.

(** While expired timers run, a cancelled one is remembered. *)
Lemma run_call_canceling clk c q R a s :
  owned q R → callingExpiredTimers_ q = true → a ∈ R →
  wpo (run_call alloc clk c q) (λ q', callingExpiredTimers_ q' = true ∧
    ((a, s) ∈ cancelingTimers_ q' ↔ (a, s) ∈ cancelingTimers_ q ∨ c = CCancel (mkTimerId a s))).
Proof.
  intros Ho Hc Ha. destruct c as [cb when interval|[b s']]; cbn [run_call].
  - eapply wpo_bind; [by apply addTimer_spec|]. intros [id q1] (_ & _ & Hcc & Hc' & _). cbn [wpo].
    rewrite Hc', Hcc. split; [done|]. split; [by left|by intros [?|?]].
  - eapply wpo_mono; [by apply wp_wpo, cancel_spec|]. cbn [timer_ id_sequence_].
    intros q' (_ & _ & Hc' & _ & _ & Hif). split; [congruence|].
    destruct (bool_decide ((b, s') ∈ activeTimers_ q)) eqn:Eb; bool_prop.
    + destruct Hif as (w & _ & _ & _ & ->). split; [by left|]. intros [?|E]; [done|].
      injection E as -> ->. exfalso.
      destruct (owned_active _ _ _ _ Ho Eb) as (t & _ & _ & Hin).
      pose proof (o_nodup _ _ Ho) as Hn. apply NoDup_app in Hn as (_ & Hd & _).
      apply (Hd a); [|done]. apply list_elem_of_fmap. by exists (expiration_ t, a).
    + destruct Hif as (_ & _ & _ & ->). rewrite Hc, elem_of_union, elem_of_singleton. split.
      * intros [E|?]; [right; by injection E as -> ->|by left].
      * intros [?|E]; [by right|left; by injection E as -> ->].
Qed.

Lemma run_calls_canceling clk cs q R a s :
  owned q R → callingExpiredTimers_ q = true → a ∈ R →
  wpo (run_calls alloc clk cs q) (λ q', callingExpiredTimers_ q' = true ∧
    ((a, s) ∈ cancelingTimers_ q' ↔ (a, s) ∈ cancelingTimers_ q ∨ CCancel (mkTimerId a s) ∈ cs)).
Proof.
  revert q. induction cs as [|c cs IH]; intros q Ho Hc Ha; cbn [run_calls].
  { split; [done|]. rewrite elem_of_nil. tauto. }
  eapply wpo_bind; [apply wpo_conj; [by apply run_call_spec|by eapply (run_call_canceling _ _ _ R)]|].
  intros q1 [[Ho1 _] [Hc1 H1]]. eapply wpo_mono; [by apply IH|].
  intros q2 [Hc2 H2]. split; [done|]. rewrite H2, H1, elem_of_cons.
  split; [intros [[?|?]|?]|intros [?|[?|?]]]; auto.
Qed.

(** The callback of the timer at [a]. *)
Definition callback_at (q : TimerQueue) (a : Z) : Z := default 0 (callback_ <$> heap q !! a).

(** The callbacks run in order; a timer is marked cancelled exactly by the calls
    they make. *)
Lemma run_expired_spec clk expired q R :
  owned q R → Forall (λ e, e.2 ∈ R) expired → callingExpiredTimers_ q = true →
  wpo (run_expired alloc behaviour clk expired q) (λ '(ran, q'),
    owned q' R ∧ same_at R q q' ∧ ran = map (λ e, callback_at q e.2) expired ∧
    ∀ a s, a ∈ R →
      ((∀ cb q, CCancel (mkTimerId a s) ∉ behaviour cb q) → (a, s) ∈ cancelingTimers_ q' → (a, s) ∈ cancelingTimers_ q) ∧
      ((a, s) ∈ cancelingTimers_ q ∨
       (∃ e, e ∈ expired ∧ ∀ q', CCancel (mkTimerId a s) ∈ behaviour (callback_at q e.2) q') →
       (a, s) ∈ cancelingTimers_ q')).
Proof.
  intros Ho He. revert q Ho. induction He as [|e expired He Hes IH]; intros q Ho Hc.
  { split_and!; try done. intros a s Ha. split; [done|]. intros [?|(e & Hin%elem_of_nil & _)]; done. }
  cbn [run_expired]. pose proof (o_alive q R Ho) as Hal. rewrite Forall_forall in Hal.
  destruct (Hal _ He) as [t Ht]. rewrite (deref_ok _ _ _ Ht). cbn [res_bind].
  assert (callback_at q e.2 = callback_ t) as Ecb by (unfold callback_at; by rewrite Ht).
  set (cs := behaviour (callback_ t) q).
  pose proof (run_calls_spec clk cs q R Ho) as Hrun. pose proof (λ a s, run_calls_canceling clk cs q R a s Ho Hc) as Hcs.
  destruct (run_calls alloc clk cs q) as [q1|f] eqn:Erc; cbn [wpo res_bind] in *; [|done].
  destruct Hrun as [Ho1 Hs1].
  assert (∀ x, x ∈ R → callback_at q1 x = callback_at q x) as Hcb
    by (intros x Hx; unfold callback_at; by rewrite Hs1).
  assert (callingExpiredTimers_ q1 = true) as Hc1 by apply (Hcs e.2 0 He).
  eapply wpo_bind; [by apply IH|]. intros [ran q2] (Ho2 & Hs2 & -> & Hcan). cbn [wpo].
  rewrite Forall_forall in Hes. split_and!; [done|by eapply same_at_trans| |].
  - cbn [map]. rewrite Ecb. f_equal. apply map_ext_in. intros x Hx%list_elem_of_In. auto.
  - intros a s Ha. destruct (Hcan a s Ha) as [H1 H2].
    destruct (Hcs a s Ha) as [_ H].
    split.
    + intros Hno Hin. apply H1 in Hin; [|done]. apply H in Hin as [?|Hin]; [done|].
      by destruct (Hno (callback_ t) q).
    + intros [Hin|(x & [->|Hx]%elem_of_cons & Hall)]; apply H2.
      * left. apply H. by left.
      * left. apply H. right. unfold cs. rewrite <- Ecb. apply Hall.
      * right. exists x. split; [done|]. intros q'. rewrite Hcb by auto. apply Hall.
Qed.

Lemma handleRead_spec now clk q R :
  owned q R →
  wpo (handleRead alloc behaviour now clk q) (λ '(ran, q'), owned q' R ∧ same_at R q q' ∧
    ran = map (λ e, callback_at q e.2) (due now (timers_ q)) ∧
    (∀ e l, timers_ q' = e :: l → valid e.1 = true → timerfd_ q' = armed e.1 clk) ∧
    ∀ e t, e ∈ due now (timers_ q) → heap q !! e.2 = Some t →
      let id := mkTimerId e.2 (sequence_ t) in
      (repeat_ t = false → heap q' !! e.2 = None) ∧
      (repeat_ t = true → (∀ cb q, CCancel id ∉ behaviour cb q) →
         (addTime now (interval_ t), e.2) ∈ timers_ q') ∧
      ((∀ q', CCancel id ∈ behaviour (callback_ t) q') → heap q' !! e.2 = None)).
Proof.
  intros Ho. unfold handleRead.
  eapply wpo_bind; [by apply wp_wpo, getExpired_spec|]. intros [expired q1] (Ho1 & -> & Ht1 & Hh1 & Hf1). cbv beta iota.
  set (expired := due now (timers_ q)) in *. set (q2 := set_canceling ∅ (set_calling true q1)).
  assert (owned q2 (map snd expired ++ R)) as Ho2 by (by eapply owned_ext).
  assert (Forall (λ e, e.2 ∈ map snd expired ++ R) expired) as Hin.
  { apply Forall_forall. intros e He. apply elem_of_app. left. apply list_elem_of_fmap. eauto. }
  eapply wpo_bind; [by apply (run_expired_spec clk expired q2 (map snd expired ++ R))|].
  intros [ran q3] (Ho3 & Hs3 & -> & Hcan). cbv beta iota.
  set (q4 := set_calling false q3).
  assert (owned q4 (map snd expired ++ R)) as Ho4 by (by eapply owned_ext).
  eapply wpo_bind; [by apply wp_wpo, reset_spec|]. intros q5 (Ho5 & Hf5 & Hp5 & Hk5 & Hd5). cbn [wpo].
  assert (∀ a, a ∈ map snd expired ++ R → heap q4 !! a = heap q !! a) as Hh4.
  { intros a Ha. change (heap q4) with (heap q3). rewrite Hs3 by done.
    change (heap q2) with (heap q1). by rewrite Hh1. }
  split_and!; [done| | | |].
  - intros a Ha. rewrite Hk5, Hh4; [done|by apply elem_of_app; right|].
    pose proof (o_nodup _ _ Ho4) as Hn. apply NoDup_app in Hn as (_ & _ & Hn).
    apply NoDup_app in Hn as (_ & Hd & _). intros Hx. by apply (Hd a).
  - apply map_ext. intros e. unfold callback_at. change (heap q2) with (heap q1). by rewrite Hh1.
  - intros e l E Hv. rewrite E in Hf5. by rewrite Hv in Hf5.
  - intros e t He Ht.
    assert (e.2 ∈ map snd expired ++ R) as Hea by (rewrite Forall_forall in Hin; auto).
    assert (survivor now q4 e = if repeat_ t && negb (bool_decide ((e.2, sequence_ t) ∈ cancelingTimers_ q4))
              then Some (addTime now (interval_ t), e.2) else None) as Hsv
      by (unfold survivor; by rewrite Hh4, Ht).
    destruct (Hcan e.2 (sequence_ t) Hea) as [Hno Hyes]. change (cancelingTimers_ q4) with (cancelingTimers_ q3) in Hsv.
    split_and!.
    + intros Hr. apply Hd5; [done|]. by rewrite Hsv, Hr.
    + intros Hr Hnever. rewrite Hp5. apply elem_of_app. left. apply list_elem_of_omap. exists e. split; [done|].
      rewrite Hsv, Hr. rewrite bool_decide_false; [done|]. intros Hx. by apply Hno in Hx.
    + intros Hall. apply Hd5; [done|]. rewrite Hsv, bool_decide_true; [by rewrite andb_false_r|].
      apply Hyes. right. exists e. split; [done|].
      assert (callback_at q2 e.2 = callback_ t) as ->; [|done].
      unfold callback_at. change (heap q2) with (heap q1). by rewrite Hh1, Ht.
Qed.

(** ** The queue and the rest of the program

    Other threads create timers and ask for cancellation through [runInLoop]; the
    loop runs their functors and the timer handler in any order.  [addTimer] hands
    its timer over and only then reads [timer->sequence()] for the [TimerId] it
    returns: until then its thread is in [returning], and the loop goes on. *)

Inductive functor :=
| FAdd (timer : Z)
| FCancel (id : TimerId).

Record system := mkSystem {
  queue : TimerQueue;
  pending : list functor;
  returning : list Z;       (* the timers whose [addTimer] has not returned yet *)
  returned : list TimerId;  (* what the calls have returned *)
}.

Inductive event :=
| EAdd (cb when : Z) (interval : double)   (* addTimer in another thread, up to runInLoop *)
| EReturn (i : nat)                        (* a thread in addTimer reads sequence() and returns *)
| ECancel (id : TimerId)                   (* cancel in another thread *)
| EFunctor (clk : Z)                       (* the loop runs the next functor *)
| ETimer (now clk : Z).                    (* the timerfd is readable *)

Definition system_step (e : event) (s : system) : res system :=
  match e with
  | EAdd cb when interval =>
      let! (a, q) := create_timer alloc cb when interval (queue s) in
      Ok (mkSystem q (pending s ++ [FAdd a]) (returning s ++ [a]) (returned s))
  | EReturn i =>
      match returning s !! i with
      | Some a =>
          let! id := timer_id a (queue s) in
          Ok (mkSystem (queue s) (pending s) (delete i (returning s)) (id :: returned s))
      | None => Ok s
      end
  | ECancel id => Ok (mkSystem (queue s) (pending s ++ [FCancel id]) (returning s) (returned s))
  | EFunctor clk =>
      match pending s with
      | [] => Ok s
      | FAdd a :: fs =>
          let! q := addTimerInLoop clk a (queue s) in Ok (mkSystem q fs (returning s) (returned s))
      | FCancel id :: fs =>
          let! q := cancelInLoop id (queue s) in Ok (mkSystem q fs (returning s) (returned s))
      end
  | ETimer now clk =>
      let! (_, q) := handleRead alloc behaviour now clk (queue s) in
      Ok (mkSystem q (pending s) (returning s) (returned s))
  end.

Fixpoint system_run (es : list event) (s : system) : res system :=
  match es with
  | [] => Ok s
  | e :: es => let! s := system_step e s in system_run es s
  end.

(** The program before any timer. *)
Definition new_system : system := mkSystem new_TimerQueue [] [] [].

(** The timers that pending functors will insert. *)
Definition reserved (fs : list functor) : list Z :=
  omap (λ f, match f with FAdd a => Some a | FCancel _ => None end) fs.

Definition system_ok (s : system) : Prop := owned (queue s) (reserved (pending s)).

(** [addTimer] is about to read the sequence number of a timer that the loop has
    inserted and deleted in the meantime. *)
Definition late (e : event) (s : system) : Prop :=
  ∃ i a, e = EReturn i ∧ returning s !! i = Some a ∧ heap (queue s) !! a = None ∧ FAdd a ∉ pending s.

Lemma owned_perm q R R' : R ≡ₚ R' → owned q R → owned q R'.
Proof. intros HR [Hw Hn Hal]. constructor; [done|by rewrite <- HR|by rewrite <- HR]. Qed.

Lemma new_system_ok : system_ok new_system.
Proof.
  constructor; [constructor|..]; simpl; [constructor|done|done| |constructor|done].
  intros a [t Ht]. by rewrite lookup_empty in Ht.
Qed.

(** A timer whose functor is pending is alive. *)
Lemma pending_alive s a : system_ok s → FAdd a ∈ pending s → is_Some (heap (queue s) !! a).
Proof.
  intros Ho Hin. pose proof (o_alive _ _ Ho) as Hal. rewrite Forall_forall in Hal. apply Hal.
  apply list_elem_of_omap. by exists (FAdd a).
Qed.

Lemma return_ok i s :
  system_ok s →
  wpo (system_step (EReturn i) s) system_ok ∨ system_step (EReturn i) s = Err UseAfterFree ∧ late (EReturn i) s.
Proof.
  intros Ho. cbn [system_step]. destruct (returning s !! i) as [a|] eqn:Er; [|by left].
  unfold timer_id, deref. destruct (heap (queue s) !! a) as [t|] eqn:Eh; [by left|]. right.
  split; [done|]. exists i, a. split_and!; [done..|]. intros Hin.
  destruct (pending_alive s a Ho Hin). congruence.
Qed.

Lemma system_step_ok e s :
  system_ok s → wpo (system_step e s) system_ok ∨ system_step e s = Err UseAfterFree ∧ late e s.
Proof.
  intros Ho. destruct e as [cb when interval|i|id|clk|now clk]; [left|by apply return_ok|left..];
    unfold system_ok in *; cbn [system_step].
  - eapply wpo_bind; [by apply create_spec|]. intros [a q] H.
    cbn [wpo queue pending]. unfold reserved in *. rewrite omap_app. cbn [omap list_omap].
    eapply owned_perm; [|apply H]. apply Permutation_cons_append.
  - cbn [wpo queue pending]. unfold reserved in *. rewrite omap_app. cbn [omap list_omap]. by rewrite app_nil_r.
  - destruct (pending s) as [|[a|id] fs] eqn:Ep.
    + cbn [wpo]. by rewrite Ep.
    + assert (reserved (FAdd a :: fs) = a :: reserved fs) as E by done. rewrite E in Ho.
      pose proof (o_alive _ _ Ho) as Hal. apply Forall_cons in Hal as [[t Ht] _].
      eapply wpo_bind; [by eapply wp_wpo, addTimerInLoop_spec|]. intros q (Hq & _). done.
    + eapply wpo_bind; [apply wp_wpo, cancel_spec, Ho|]. intros q (Hq & _). done.
  - eapply wpo_bind; [by apply handleRead_spec|]. intros [ran q] (Hq & _). done.
Qed.

Lemma system_run_ok es s :
  system_ok s →
  match system_run es s with
  | Ok s' => system_ok s'
  | Err x => x = BadAlloc ∨ x = UseAfterFree ∧
      ∃ es1 e es2 s1, es = es1 ++ e :: es2 ∧ system_run es1 s = Ok s1 ∧ late e s1
  end.
Proof.
  revert s. induction es as [|e es IH]; intros s Hs; cbn [system_run]; [done|].
  destruct (system_step_ok e s Hs) as [Hw|[-> Hl]].
  - destruct (system_step e s) as [s1|x] eqn:Es; cbn [res_bind]; [|left; by destruct x].
    specialize (IH s1 Hw). destruct (system_run es s1) as [s2|x]; [done|].
    destruct IH as [->|[-> (es1 & e' & es2 & s2 & -> & Hr & Hl)]]; [by left|right]. split; [done|].
    exists (e :: es1), e', es2, s2. split_and!; [done| |done]. cbn [system_run]. by rewrite Es.
  - cbn [res_bind]. right. split; [done|]. by exists [], e, es, s.
Qed.

(** C8. The timer queue never fails an assertion and never touches a deleted timer,
    with one exception.  From the empty queue, take any interleaving of timers added
    and cancelled by other threads (with any, also stale, ids), functors run by the
    loop and timer handlers whose callbacks add and cancel timers.  The run ends with
    the two sets of the queue describing the same live timers, or memory runs out, or
    a thread in [addTimer] reads [timer->sequence()] after [runInLoop] although the
    loop has already inserted, run and deleted that timer (see [late_return], which
    exhibits it).  A thread that reads while its functor is still queued is safe, and
    so are runs of adds from the loop's own thread, where nothing comes between. *)
Theorem timer_queue_safe es :
  match system_run es new_system with
  | Ok s => wfq (queue s) ∧ length (timers_ (queue s)) = size (activeTimers_ (queue s))
  | Err x => x = BadAlloc ∨ x = UseAfterFree ∧
      ∃ es1 i es2 s1 a, es = es1 ++ EReturn i :: es2 ∧ system_run es1 new_system = Ok s1 ∧
        returning s1 !! i = Some a ∧ heap (queue s1) !! a = None ∧ FAdd a ∉ pending s1
  end.
Proof.
  pose proof (system_run_ok es new_system new_system_ok) as H.
  destruct (system_run es new_system) as [s|x].
  - split; [apply H|]. by apply Nat.eqb_eq, (sizes_agree_ok _ _ H).
  - destruct H as [->|[-> (es1 & e & es2 & s1 & -> & Hr & i & a & -> & Hl)]]; [by left|right].
    split; [done|]. by exists es1, i, es2, s1, a.
Qed.

(** C24. When the timerfd fires, the callbacks of exactly the timers due at [now] run,
    once each and in the order of the queue; a one-shot timer is deleted, a repeating
    one is queued again at [now + interval] unless it was cancelled, and one that its
    own callback cancels is deleted; the timerfd is armed for the next timer. *)
Theorem handleRead_runs_due now clk q R :
  owned q R →
  wpo (handleRead alloc behaviour now clk q) (λ '(ran, q'), owned q' R ∧
    ran = map (λ e, callback_at q e.2) (due now (timers_ q)) ∧
    (∀ e l, timers_ q' = e :: l → valid e.1 = true → timerfd_ q' = armed e.1 clk) ∧
    ∀ e t, e ∈ due now (timers_ q) → heap q !! e.2 = Some t →
      let id := mkTimerId e.2 (sequence_ t) in
      (repeat_ t = false → heap q' !! e.2 = None) ∧
      (repeat_ t = true → (∀ cb q, CCancel id ∉ behaviour cb q) →
         (addTime now (interval_ t), e.2) ∈ timers_ q') ∧
      ((∀ q', CCancel id ∈ behaviour (callback_ t) q') → heap q' !! e.2 = None)).
Proof.
  intros Ho. eapply wpo_mono; [by apply handleRead_spec|].
  intros [ran q'] (H1 & _ & H2 & H3 & H4). split_and!; done.
Qed.

End Laws.

(** Cancelling an active timer removes exactly that timer; cancelling with an id
    that is not active (already run, already cancelled, or stale although its address
    is in use again) changes neither the timers nor the memory. *)
Theorem cancel_exact id q R :
  owned q R →
  wp (cancelInLoop id q) (λ q', owned q' R ∧
    ((timer_ id, id_sequence_ id) ∉ activeTimers_ q') ∧
    (if bool_decide ((timer_ id, id_sequence_ id) ∈ activeTimers_ q) then
       (∃ w, timers_ q ≡ₚ (w, timer_ id) :: timers_ q') ∧ heap q' = delete (timer_ id) (heap q)
     else timers_ q' = timers_ q ∧ heap q' = heap q)).
Proof.
  intros Ho. eapply wp_mono; [by apply cancel_spec|]. intros q' (Ho' & _ & _ & _ & _ & Hif).
  destruct (bool_decide _) eqn:Eb; bool_prop.
  - destruct Hif as (w & Hp & Hh & -> & _). split_and!; [done| |by exists w|done].
    rewrite elem_of_difference, elem_of_singleton. tauto.
  - destruct Hif as (Ht & Hh & -> & _). split_and!; done.
Qed.

(** The time handed to the timerfd is at least 100 microseconds, never less than
    the time to the expiration, and a valid [timespec]. *)
Theorem howMuchTimeFromNow_valid when now :
  - 2 ^ 62 ≤ when < 2 ^ 62 → - 2 ^ 62 ≤ now < 2 ^ 62 →
  let ts := howMuchTimeFromNow when now in
  tv_sec ts * 1000000 + tv_nsec ts / 1000 = Z.max 100 (when - now) ∧
  0 ≤ tv_sec ts ∧ 0 ≤ tv_nsec ts < 1000000000.
Proof.
  intros Hw Hn. unfold howMuchTimeFromNow. change kMicroSecondsPerSecond with 1000000.
  rewrite (i64_small (when - now)) by lia. set (us := if when - now <? 100 then 100 else when - now).
  assert (us = Z.max 100 (when - now)) as Hus
    by (unfold us; destruct (when - now <? 100) eqn:E; bool_prop; lia).
  assert (100 ≤ us < 2 ^ 63) as Hr by lia. cbn [tv_sec tv_nsec].
  rewrite Z.quot_div_nonneg, Z.rem_mod_nonneg by lia.
  pose proof (Z.div_mod us 1000000 ltac:(lia)). pose proof (Z.mod_pos_bound us 1000000 ltac:(lia)).
  rewrite !i64_small by lia. rewrite Z_div_mult by lia. lia.
Qed.

(** Nothing disarms the timerfd: [resetTimerfd] also sets the interval, and when
    the queue is empty the handler leaves the setting as it is, so a queue without
    timers is woken up for ever with the period of the last setting (down to 100
    microseconds). *)
Theorem idle_queue_keeps_ticking alloc behaviour now clk q its :
  timers_ q = [] → activeTimers_ q = ∅ → timerfd_ q = Some its →
  wp (handleRead alloc behaviour now clk q) (λ '(ran, q'),
    ran = [] ∧ timers_ q' = [] ∧ activeTimers_ q' = ∅ ∧ timerfd_ q' = Some its).
Proof.
  destruct q as [ts act calling canc tfd h n]. cbn [timers_ activeTimers_ timerfd_]. intros -> -> ->.
  unfold handleRead, getExpired, sizes_agree. cbn [timers_ activeTimers_ length]. by rewrite size_empty.
Qed.

(** ** Witnesses *)

(** An allocator with its law. *)
Definition demo_alloc (h : gmap Z Timer) : option Z :=
  let a := Z.of_nat (size h) + 1 in
  if bool_decide (h !! a = None) && (a <? UINTPTR_MAX) then Some a else None.

Lemma demo_alloc_fresh h a : demo_alloc h = Some a → h !! a = None ∧ 0 < a < UINTPTR_MAX.
Proof.
  unfold demo_alloc. destruct (bool_decide _) eqn:E; [|done]. destruct (_ <? UINTPTR_MAX) eqn:E2; [|done].
  bool_prop. intros [= <-]. split; [done|lia].
Qed.

(** Callback 1 cancels the timer (2, 2) and adds a timer; the others do nothing. *)
Definition demo_behaviour (cb : Z) (q : TimerQueue) : list call :=
  if cb =? 1 then [CCancel (mkTimerId 2 2); CAdd 3 900 (S754_zero false)] else [].

(** A repeating timer at 100 and a one-shot timer at 200. *)
Definition demo_events : list event :=
  [EAdd 1 100 (S754_finite false 1 0); EReturn 0; EAdd 2 200 (S754_zero false); EFunctor 50; EReturn 0; EFunctor 60].

Definition demo_queue : res system := system_run demo_alloc demo_behaviour demo_events new_system.

Example demo_handler :
  (let! s := demo_queue in let! (ran, q) := handleRead demo_alloc demo_behaviour 250 260 (queue s) in
   Ok (ran, timers_ q)) = Ok ([1; 2], [(900, 3); (1000250, 1)]).
Proof. vm_compute. reflexivity. Qed.

(** The ids that [addTimer] returned are those of the timers. *)
Example demo_ids :
  (let! s := demo_queue in Ok (returned s)) = Ok [mkTimerId 2 2; mkTimerId 1 1].
Proof. vm_compute. reflexivity. Qed.

(** One thread adds a timer that is already due; before it reads the sequence number
    the loop inserts the timer, runs it and deletes it: [addTimer] reads freed memory. *)
Example late_return :
  system_run demo_alloc demo_behaviour
    [EAdd 2 100 (S754_zero false); EFunctor 120; ETimer 130 131; EReturn 0] new_system = Err UseAfterFree.
Proof. vm_compute. reflexivity. Qed.

(** When the freed address is in use again, the call returns the identifier of
    somebody else's timer, and cancelling it removes that timer. *)
Example late_return_wrong_id :
  (let! s := system_run demo_alloc demo_behaviour
     [EAdd 2 100 (S754_zero false); EFunctor 120; ETimer 130 131; EAdd 2 900 (S754_zero false); EFunctor 140;
      EReturn 0] new_system in
   let! q := cancelInLoop (default (mkTimerId 0 0) (head (returned s))) (queue s) in
   Ok (returned s, timers_ (queue s), timers_ q)) = Ok ([mkTimerId 1 2], [(900, 1)], []).
Proof. vm_compute. reflexivity. Qed.

Definition demo_q : TimerQueue :=
  match demo_queue with Ok s => queue s | Err _ => new_TimerQueue end.

Lemma demo_owned : owned demo_q [].
Proof.
  pose proof (system_run_ok demo_alloc demo_behaviour demo_alloc_fresh demo_events new_system new_system_ok) as H.
  change (system_run demo_alloc demo_behaviour demo_events new_system) with demo_queue in H.
  assert (demo_queue = Ok (mkSystem demo_q [] [] [mkTimerId 2 2; mkTimerId 1 1])) as E by (vm_compute; reflexivity).
  rewrite E in H. exact H.
Qed.

Lemma timer_queue_safe_witness :
  match demo_queue with
  | Ok s => wfq (queue s) ∧ length (timers_ (queue s)) = size (activeTimers_ (queue s))
  | Err _ => False
  end.
Proof.
  pose proof (timer_queue_safe demo_alloc demo_behaviour demo_alloc_fresh demo_events) as H.
  change (system_run demo_alloc demo_behaviour demo_events new_system) with demo_queue in H.
  assert (demo_queue = Ok (mkSystem demo_q [] [] [mkTimerId 2 2; mkTimerId 1 1])) as E by (vm_compute; reflexivity).
  rewrite E in H |- *. exact H.
Defined.

Lemma handleRead_runs_due_witness :
  wpo (handleRead demo_alloc demo_behaviour 150 160 demo_q) (λ '(ran, q'),
    ran = [1] ∧ (1000150, 1) ∈ timers_ q').
Proof.
  eapply wpo_mono; [apply (handleRead_runs_due demo_alloc demo_behaviour demo_alloc_fresh 150 160 demo_q [] demo_owned)|].
  intros [ran q'] (_ & -> & _ & H). split; [vm_compute; reflexivity|].
  destruct (H (100, 1) (mkTimer 1 100 (S754_finite false 1 0) true 1)) as (_ & Hr & _).
  - vm_compute. left.
  - vm_compute. reflexivity.
  - apply Hr; [reflexivity|]. intros cb q. unfold demo_behaviour. destruct (cb =? 1); [|apply not_elem_of_nil].
    intros Hin. apply elem_of_cons in Hin as [Hin|Hin]; [done|]. apply list_elem_of_singleton in Hin. done.
Defined.

Lemma cancel_exact_witness :
  wp (cancelInLoop (mkTimerId 1 7) demo_q) (λ q', timers_ q' = timers_ demo_q) ∧
  wp (cancelInLoop (mkTimerId 1 1) demo_q) (λ q', heap q' = delete 1 (heap demo_q)).
Proof.
  split.
  - eapply wp_mono; [apply (cancel_exact (mkTimerId 1 7) demo_q [] demo_owned)|].
    intros q' (_ & _ & H).
    assert (bool_decide ((1, 7) ∈ activeTimers_ demo_q) = false) as E by (vm_compute; reflexivity).
    cbn [timer_ id_sequence_] in H. rewrite E in H. apply H.
  - eapply wp_mono; [apply (cancel_exact (mkTimerId 1 1) demo_q [] demo_owned)|].
    intros q' (_ & _ & H).
    assert (bool_decide ((1, 1) ∈ activeTimers_ demo_q) = true) as E by (vm_compute; reflexivity).
    cbn [timer_ id_sequence_] in H. rewrite E in H. apply H.
Defined.

Lemma howMuchTimeFromNow_valid_witness :
  tv_sec (howMuchTimeFromNow 1000 995) * 1000000 + tv_nsec (howMuchTimeFromNow 1000 995) / 1000 = 100.
Proof. apply (howMuchTimeFromNow_valid 1000 995); lia. Defined.

Lemma idle_queue_keeps_ticking_witness :
  wp (handleRead demo_alloc demo_behaviour 5 6 (set_timerfd (armed 0 0) new_TimerQueue)) (λ '(ran, q'),
    ran = [] ∧ timers_ q' = [] ∧ activeTimers_ q' = ∅ ∧
    timerfd_ q' = Some (mkItimerspec (mkTimespec 0 100000) (mkTimespec 0 100000))).
Proof. apply idle_queue_keeps_ticking; reflexivity. Defined.

End TimerQueue.
