(* ===== verification/Poller.v ===== *)
(** Channels and I/O multiplexing ([netLayer/event/Channel.h], [Channel.cpp],
    [netLayer/poller/Poller.h], [Poller.cpp], [PollPoller.cpp], [EPollPoller.h],
    [EpollPoller.cpp]).

    Channels are objects shared between their owner and the poller, so they live in
    a store [world] from addresses to [Channel] records.  [Poller] is a class of the
    source with two implementations; here it is a type class with the laws a client
    may rely on ([Poller], [PollerLaws]), and both implementations are instances.
    [epoll_ctl] and [poll] belong to the kernel: the interest set of an epoll
    instance is modelled with the errors [epoll_ctl] documents for it, the reported
    events are arguments. *)

From S2P Require Import Prelude.

(** ** Channel *)

Module Channel.

(** poll(2) bits. *)
Definition POLLIN : Z := 1.
Definition POLLPRI : Z := 2.
Definition POLLOUT : Z := 4.
Definition POLLERR : Z := 8.
Definition POLLHUP : Z := 16.
Definition POLLNVAL : Z := 32.
Definition POLLRDHUP : Z := 8192.

Definition kNoneEvent : Z := 0.
Definition kReadEvent : Z := Z.lor POLLIN POLLPRI.
Definition kWriteEvent : Z := POLLOUT.

(** Which callbacks have been set. *)
Record Callbacks := mkCallbacks { readCallback_ : bool; writeCallback_ : bool; closeCallback_ : bool; errorCallback_ : bool }.

Record Channel := mkChannel {
  fd_ : Z;
  events_ : Z;
  revents_ : Z;
  index_ : Z;
  logHup_ : bool;
  tied_ : bool;
  eventHandling_ : bool;
  addedToLoop_ : bool;
  callbacks_ : Callbacks;
}.

Definition new_Channel (fd : Z) : Channel :=
  mkChannel fd 0 0 (-1) true false false false (mkCallbacks false false false false).

Definition set_events (v : Z) (c : Channel) : Channel :=
  mkChannel (fd_ c) v (revents_ c) (index_ c) (logHup_ c) (tied_ c) (eventHandling_ c) (addedToLoop_ c) (callbacks_ c).
Definition set_revents (v : Z) (c : Channel) : Channel :=
  mkChannel (fd_ c) (events_ c) v (index_ c) (logHup_ c) (tied_ c) (eventHandling_ c) (addedToLoop_ c) (callbacks_ c).
Definition set_index (v : Z) (c : Channel) : Channel :=
  mkChannel (fd_ c) (events_ c) (revents_ c) v (logHup_ c) (tied_ c) (eventHandling_ c) (addedToLoop_ c) (callbacks_ c).
Definition set_added (v : bool) (c : Channel) : Channel :=
  mkChannel (fd_ c) (events_ c) (revents_ c) (index_ c) (logHup_ c) (tied_ c) (eventHandling_ c) v (callbacks_ c).
Definition set_handling (v : bool) (c : Channel) : Channel :=
  mkChannel (fd_ c) (events_ c) (revents_ c) (index_ c) (logHup_ c) (tied_ c) v (addedToLoop_ c) (callbacks_ c).
Definition tie (c : Channel) : Channel :=
  mkChannel (fd_ c) (events_ c) (revents_ c) (index_ c) (logHup_ c) true (eventHandling_ c) (addedToLoop_ c) (callbacks_ c).

Definition isNoneEvent (c : Channel) : bool := events_ c =? kNoneEvent.
Definition isWriting (c : Channel) : bool := negb (Z.land (events_ c) kWriteEvent =? 0).
Definition isReading (c : Channel) : bool := negb (Z.land (events_ c) kReadEvent =? 0).

(** The new mask of each call, before [update()]. *)
Inductive change := enableReading | disableReading | enableWriting | disableWriting | disableAll.

Definition new_mask (x : change) (events : Z) : Z :=
  match x with
  | enableReading => Z.lor events kReadEvent
  | disableReading => Z.land events (Z.lnot kReadEvent)
  | enableWriting => Z.lor events kWriteEvent
  | disableWriting => Z.land events (Z.lnot kWriteEvent)
  | disableAll => kNoneEvent
  end.

(** The destructor's assertions; [registered] is [loop_->hasChannel(this)]. *)
Definition destroy (in_loop registered : bool) (c : Channel) : res unit :=
  assert! negb (eventHandling_ c) in
  assert! negb (addedToLoop_ c) in
  if in_loop then assert! negb registered in Ok tt else Ok tt.

Inductive callback := CbClose | CbError | CbRead | CbWrite.

Definition has_bit (r m : Z) : bool := negb (Z.land r m =? 0).

(** The callbacks [handleEventWithGuard] calls, in order; they cannot change
    [revents_]. *)
Definition handleEventWithGuard (c : Channel) : list callback :=
  let r := revents_ c in
  let cb := callbacks_ c in
  (if has_bit r POLLHUP && negb (has_bit r POLLIN) && closeCallback_ cb then [CbClose] else []) ++
  (if has_bit r (Z.lor POLLERR POLLNVAL) && errorCallback_ cb then [CbError] else []) ++
  (if has_bit r (Z.lor (Z.lor POLLIN POLLPRI) POLLRDHUP) && readCallback_ cb then [CbRead] else []) ++
  (if has_bit r POLLOUT && writeCallback_ cb then [CbWrite] else []).

(** [alive]: the tied object still exists. *)
Definition handleEvent (alive : bool) (c : Channel) : list callback :=
  if tied_ c then (if alive then handleEventWithGuard c else []) else handleEventWithGuard c.

Definition eventsToString (fd ev : Z) : bytes :=
  dec fd ++ str ": " ++
  (if has_bit ev POLLIN then str "IN " else []) ++
  (if has_bit ev POLLPRI then str "PRI " else []) ++
  (if has_bit ev POLLOUT then str "OUT " else []) ++
  (if has_bit ev POLLHUP then str "HUP " else []) ++
  (if has_bit ev POLLRDHUP then str "RDHUP " else []) ++
  (if has_bit ev POLLERR then str "ERR " else []) ++
  (if has_bit ev POLLNVAL then str "NVAL " else []).

End Channel.

(** ** The interface *)

Module Poller.
Import Channel.

(** [Channel*] to object. *)
Abbreviation world := (gmap Z Channel).

(** Reading through a [Channel*]. *)
Definition deref (ptr : Z) (w : world) : res Channel :=
  match w !! ptr with Some c => Ok c | None => Err UseAfterFree end.

(** What the kernel reports: descriptors with their events. *)
Abbreviation report := (list (Z * Z)).

Class Poller (P : Type) := {
  (** [std::map<int, Channel*> channels_]. *)
  registered : P → gmap Z Z;
  (** The mask with which the kernel is asked about a descriptor, if it is. *)
  watched : P → Z → option Z;
  updateChannel : Z → world → P → res (world * P);
  removeChannel : Z → world → P → res (world * P);
  (** [poll()] with the kernel's answer, [None] when the call failed; the active
      channels, in order. *)
  poll : option report → world → P → res (world * P * list Z);
  (** The answer fits the array the kernel is given. *)
  room : report → P → Prop;
  poller_inv : P → world → Prop;
}.

(** [Poller::hasChannel]. *)
Definition hasChannel `{Poller P} (ptr : Z) (w : world) (p : P) : bool :=
  match w !! ptr with
  | Some c => bool_decide (registered p !! fd_ c = Some ptr)
  | None => false
  end.

(** [Channel::update] after a change of the mask, through [EventLoop::updateChannel]. *)
Definition channel_update `{Poller P} (x : change) (ptr : Z) (w : world) (p : P) : res (world * P) :=
  match w !! ptr with
  | Some c => updateChannel ptr (<[ptr := set_added true (set_events (new_mask x (events_ c)) c)]> w) p
  | None => Err UseAfterFree
  end.

(** [Channel::remove] through [EventLoop::removeChannel]. *)
Definition channel_remove `{Poller P} (ptr : Z) (w : world) (p : P) : res (world * P) :=
  match w !! ptr with
  | Some c =>
      assert! isNoneEvent c in
      removeChannel ptr (<[ptr := set_added false c]> w) p
  | None => Err UseAfterFree
  end.

(** A mask fits [short]. *)
Definition mask_ok (e : Z) : Prop := 0 ≤ e < 2 ^ 15.

(** A channel may be updated when it is registered, or when it was never
    registered, its descriptor is free and it asks for something. *)
Definition may_update `{Poller P} (p : P) (ptr : Z) (c : Channel) (e : Z) : Prop :=
  registered p !! fd_ c = Some ptr ∨
  (registered p !! fd_ c = None ∧ index_ c = -1 ∧ e ≠ 0).

(** A report the kernel can make: each descriptor once, only watched ones, and
    some event for each. *)
Definition report_ok `{Poller P} (r : report) (p : P) : Prop :=
  NoDup r.*1 ∧ room r p ∧ Forall (λ x, 0 < x.2 < 2 ^ 15 ∧ 0 ≤ x.1 ∧ is_Some (watched p x.1)) r.

(** The parts of a channel that its owner sees. *)
Definition owner_view (c : Channel) : Z * Z * bool := (fd_ c, events_ c, addedToLoop_ c).

(** The parts that matter when events are handled. *)
Definition handler_view (c : Channel) : bool * bool * Callbacks := (tied_ c, eventHandling_ c, callbacks_ c).

(** The parts that pollers use. *)
Definition core (c : Channel) : Z * Z * Z := (fd_ c, events_ c, index_ c).

(** The active channels are those of the reported descriptors, each once and with the
    reported events. *)
Definition delivered (r : report) (reg : gmap Z Z) (w' : world) (active : list Z) : Prop :=
  (∀ ptr, ptr ∈ active ↔ ∃ fd ev, (fd, ev) ∈ r ∧ reg !! fd = Some ptr) ∧
  (∀ fd ev ptr, (fd, ev) ∈ r → reg !! fd = Some ptr →
     ∃ c, w' !! ptr = Some c ∧ fd_ c = fd ∧ revents_ c = ev) ∧
  NoDup active.

(** What the rest of the program relies on. *)
Class PollerLaws (P : Type) `{Poller P} := {
  update_law ptr w (p : P) c e :
    poller_inv p w → w !! ptr = Some c → 0 ≤ fd_ c → mask_ok e → may_update p ptr c e →
    wp (updateChannel ptr (<[ptr := set_added true (set_events e c)]> w) p) (λ '(w', p'),
      poller_inv p' w' ∧ registered p' = <[fd_ c := ptr]> (registered p) ∧
      ∃ c', w' = <[ptr := c']> w ∧ owner_view c' = (fd_ c, e, true) ∧
        revents_ c' = revents_ c ∧ handler_view c' = handler_view c);
  remove_law ptr w (p : P) c :
    poller_inv p w → w !! ptr = Some c → events_ c = 0 → registered p !! fd_ c = Some ptr →
    wp (removeChannel ptr (<[ptr := set_added false c]> w) p) (λ '(w', p'),
      poller_inv p' w' ∧ registered p' = delete (fd_ c) (registered p) ∧
      owner_view <$> w' = owner_view <$> <[ptr := set_added false c]> w ∧
      revents_ <$> w' = revents_ <$> w ∧ handler_view <$> w' = handler_view <$> w);
  poll_law r w (p : P) :
    poller_inv p w → report_ok r p →
    wp (poll (Some r) w p) (λ '(w', p', active), poller_inv p' w' ∧ registered p' = registered p ∧
      owner_view <$> w' = owner_view <$> w ∧ handler_view <$> w' = handler_view <$> w ∧
      delivered r (registered p) w' active);
  poll_failed_law w (p : P) : poll None w p = Ok (w, p, []);
  inv_registered (p : P) w fd ptr :
    poller_inv p w → registered p !! fd = Some ptr → ∃ c, w !! ptr = Some c ∧ fd_ c = fd;
  (** Whatever is watched is the mask of the registered channel. *)
  inv_watched (p : P) w fd e :
    poller_inv p w → watched p fd = Some e →
    ∃ ptr c, registered p !! fd = Some ptr ∧ w !! ptr = Some c ∧ fd_ c = fd ∧ events_ c = e;
  inv_interest (p : P) w fd ptr c :
    poller_inv p w → registered p !! fd = Some ptr → w !! ptr = Some c → events_ c ≠ 0 →
    watched p fd = Some (events_ c);
  (** The invariant is about what the poller uses of the registered channels. *)
  inv_local (p : P) w w' :
    poller_inv p w → (∀ fd ptr, registered p !! fd = Some ptr → core <$> w' !! ptr = core <$> w !! ptr) → poller_inv p w';
}.

(** *** Delivering events *)

(** Everything of a channel but the reported events. *)
Definition strip (c : Channel) : Channel := set_revents 0 c.

(** Storing the reported events in the channels, in order. *)
Definition mark_all (l : list (Z * Z)) (w : world) : world :=
  foldl (λ w x, alter (set_revents x.2) x.1 w) w l.

Lemma insert_as_alter (f : Channel → Channel) (ptr : Z) (w : world) c :
  w !! ptr = Some c → <[ptr := f c]> w = alter f ptr w.
Proof.
  intros Hc. apply map_eq. intros q. destruct (decide (ptr = q)) as [->|Hne].
  - by rewrite lookup_insert_eq, lookup_alter_eq, Hc.
  - by rewrite lookup_insert_ne, lookup_alter_ne.
Qed.

Lemma strip_alter ev ptr (w : world) : strip <$> alter (set_revents ev) ptr w = strip <$> w.
Proof.
  apply map_eq. intros q. rewrite !lookup_fmap. destruct (decide (ptr = q)) as [->|Hne].
  - rewrite lookup_alter_eq. by destruct (w !! q).
  - by rewrite lookup_alter_ne.
Qed.

Lemma strip_mark l w : strip <$> mark_all l w = strip <$> w.
Proof.
  revert w. induction l as [|x l IH]; intros w; [done|]. cbn [mark_all foldl].
  etrans; [apply IH|apply strip_alter].
Qed.

Lemma strip_owner (w w' : world) : strip <$> w' = strip <$> w → owner_view <$> w' = owner_view <$> w.
Proof.
  intros E. assert (∀ v : world, owner_view <$> v = owner_view <$> (strip <$> v)) as R.
  { intros v. rewrite <- map_fmap_compose. by apply map_fmap_ext. }
  by rewrite (R w'), E, <- R.
Qed.

Lemma strip_handler (w w' : world) : strip <$> w' = strip <$> w → handler_view <$> w' = handler_view <$> w.
Proof.
  intros E. assert (∀ v : world, handler_view <$> v = handler_view <$> (strip <$> v)) as R.
  { intros v. rewrite <- map_fmap_compose. by apply map_fmap_ext. }
  by rewrite (R w'), E, <- R.
Qed.

Lemma core_lookup (w w' : world) ptr c :
  core <$> w' !! ptr = core <$> w !! ptr → w !! ptr = Some c → ∃ c', w' !! ptr = Some c' ∧ core c' = core c.
Proof. intros E Hc. rewrite Hc in E. apply fmap_Some in E as (c' & ? & ?). by exists c'. Qed.

Lemma strip_lookup (w w' : world) ptr c :
  strip <$> w' = strip <$> w → w !! ptr = Some c → ∃ c', w' !! ptr = Some c' ∧ strip c' = strip c.
Proof.
  intros E Hc. assert ((strip <$> w') !! ptr = Some (strip c)) as L by (by rewrite E, lookup_fmap, Hc).
  rewrite lookup_fmap in L. apply fmap_Some in L as (c' & Hc' & E'). by exists c'.
Qed.

Lemma mark_other l w ptr : ptr ∉ l.*1 → mark_all l w !! ptr = w !! ptr.
Proof.
  revert w. induction l as [|[q ev] l IH]; intros w Hn; [done|]. cbn in Hn |- *.
  apply not_elem_of_cons in Hn as [Hq Hn]. etrans; [by apply IH|]. cbn. by rewrite lookup_alter_ne.
Qed.

Lemma mark_hit l w ptr ev c :
  NoDup l.*1 → (ptr, ev) ∈ l → w !! ptr = Some c → mark_all l w !! ptr = Some (set_revents ev c).
Proof.
  revert w c. induction l as [|[q ev'] l IH]; intros w c Hnd Hin Hc; [by apply not_elem_of_nil in Hin|].
  cbn in Hnd. apply NoDup_cons in Hnd as [Hq Hnd]. apply elem_of_cons in Hin as [E|Hin].
  - simplify_eq. cbn. etrans; [by apply mark_other|]. cbn. by rewrite lookup_alter_eq, Hc.
  - cbn. apply IH; [done..|]. cbn. rewrite lookup_alter_ne; [done|].
    intros ->. apply Hq. apply list_elem_of_fmap. by exists (ptr, ev).
Qed.

Lemma mark_delivers (reg : gmap Z Z) (r : report) l (w : world) :
  NoDup l.*1 →
  (∀ ptr ev, (ptr, ev) ∈ l ↔ ∃ fd, (fd, ev) ∈ r ∧ reg !! fd = Some ptr) →
  (∀ fd ptr, reg !! fd = Some ptr → ∃ c, w !! ptr = Some c ∧ fd_ c = fd) →
  delivered r reg (mark_all l w) l.*1.
Proof.
  intros Hnd Hl Hreg. split_and!; [| |done].
  - intros ptr. rewrite list_elem_of_fmap. split.
    + intros ([q ev] & -> & (fd & ? & ?)%Hl). eauto.
    + intros (fd & ev & ? & ?). exists (ptr, ev). split; [done|]. apply Hl. eauto.
  - intros fd ev ptr Hin Hch. destruct (Hreg _ _ Hch) as (c & Hc & Hf). exists (set_revents ev c).
    split_and!; [|done..]. apply mark_hit; [done| |done]. apply Hl. eauto.
Qed.

End Poller.

(** ** poll(2) *)

Module PollPoller.
Import Channel Poller.

Record pollfd := mkPollfd { pfd_fd : Z; pfd_events : Z; pfd_revents : Z }.

Record PollPoller := mkPollPoller {
  channels_ : gmap Z Z;
  pollfds_ : list pollfd;
}.

Definition new_PollPoller : PollPoller := mkPollPoller ∅ [].

Definition poll_updateChannel (ptr : Z) (w : world) (p : PollPoller) : res (world * PollPoller) :=
  let! c := deref ptr w in
  if index_ c <? 0 then
    assert! bool_decide (channels_ p !! fd_ c = None) in
    let pollfds := pollfds_ p ++ [mkPollfd (fd_ c) (i16 (events_ c)) 0] in
    let idx := zlen pollfds - 1 in
    Ok (<[ptr := set_index idx c]> w, mkPollPoller (<[fd_ c := ptr]> (channels_ p)) pollfds)
  else
    assert! bool_decide (is_Some (channels_ p !! fd_ c)) in
    assert! bool_decide (channels_ p !! fd_ c = Some ptr) in
    let idx := index_ c in
    assert! (0 <=? idx) && (idx <? zlen (pollfds_ p)) in
    match pollfds_ p !! Z.to_nat idx with
    | Some pfd =>
        assert! (pfd_fd pfd =? fd_ c) || (pfd_fd pfd =? - fd_ c - 1) in
        let pfd := mkPollfd (if isNoneEvent c then - fd_ c - 1 else fd_ c) (i16 (events_ c)) 0 in
        Ok (w, mkPollPoller (channels_ p) (<[Z.to_nat idx := pfd]> (pollfds_ p)))
    | None => Err OutOfRange
    end.

(** [iter_swap]. *)
Definition iter_swap {A} (i j : nat) (l : list A) : list A :=
  match l !! i, l !! j with
  | Some x, Some y => <[i := y]> (<[j := x]> l)
  | _, _ => l
  end.

Definition poll_removeChannel (ptr : Z) (w : world) (p : PollPoller) : res (world * PollPoller) :=
  let! c := deref ptr w in
  assert! bool_decide (is_Some (channels_ p !! fd_ c)) in
  assert! bool_decide (channels_ p !! fd_ c = Some ptr) in
  assert! isNoneEvent c in
  let idx := index_ c in
  assert! (0 <=? idx) && (idx <? zlen (pollfds_ p)) in
  match pollfds_ p !! Z.to_nat idx, last (pollfds_ p) with
  | Some pfd, Some back =>
      assert! (pfd_fd pfd =? - fd_ c - 1) && (pfd_events pfd =? events_ c) in
      let channels := delete (fd_ c) (channels_ p) in
      let n := (length (pollfds_ p) - 1)%nat in
      if idx =? Z.of_nat n then Ok (w, mkPollPoller channels (take n (pollfds_ p)))
      else
        let channelAtEnd := pfd_fd back in
        let pollfds := iter_swap (Z.to_nat idx) n (pollfds_ p) in
        let channelAtEnd := if channelAtEnd <? 0 then - channelAtEnd - 1 else channelAtEnd in
        match channels !! channelAtEnd with
        | Some q =>
            let! cq := deref q w in
            Ok (<[q := set_index idx cq]> w, mkPollPoller channels (take n pollfds))
        | None => Err UseAfterFree
        end
  | _, _ => Err OutOfRange
  end.

(** The loop of [fillActiveChannels]. *)
Fixpoint poll_fill (numEvents : Z) (pfds : list pollfd) (w : world) (p : PollPoller)
    : res (world * list Z) :=
  match pfds with
  | [] => Ok (w, [])
  | pfd :: rest =>
      if 0 <? numEvents then
        if 0 <? pfd_revents pfd then
          match channels_ p !! pfd_fd pfd with
          | Some ptr =>
              let! c := deref ptr w in
              assert! fd_ c =? pfd_fd pfd in
              let! (w, active) := poll_fill (numEvents - 1) rest (<[ptr := set_revents (pfd_revents pfd) c]> w) p in
              Ok (w, ptr :: active)
          | None => Err AssertFailed
          end
        else poll_fill numEvents rest w p
      else Ok (w, [])
  end.

(** poll(2) stores the events of each descriptor and returns how many have some;
    negative descriptors are ignored. *)
Definition kernel_poll (r : report) (pfds : list pollfd) : list pollfd :=
  map (λ pfd, mkPollfd (pfd_fd pfd) (pfd_events pfd)
    (if pfd_fd pfd <? 0 then 0 else default 0 ((list_to_map r : gmap Z Z) !! pfd_fd pfd))) pfds.

Definition poll_poll (r : option report) (w : world) (p : PollPoller)
    : res (world * PollPoller * list Z) :=
  match r with
  | None => Ok (w, p, [])
  | Some r =>
      let pfds := kernel_poll r (pollfds_ p) in
      let numEvents := zlen (filter (λ pfd, pfd_revents pfd ≠ 0) pfds) in
      let p := mkPollPoller (channels_ p) pfds in
      if 0 <? numEvents then
        let! (w, active) := poll_fill numEvents (pollfds_ p) w p in
        Ok (w, p, active)
      else Ok (w, p, [])
  end.

(** The entry a channel has. *)
Definition entry_of (c : Channel) (pfd : pollfd) : Prop :=
  pfd_fd pfd = (if isNoneEvent c then - fd_ c - 1 else fd_ c) ∧ pfd_events pfd = events_ c.

Definition norm (fd : Z) : Z := if fd <? 0 then - fd - 1 else fd.

Record poll_inv (p : PollPoller) (w : world) : Prop := {
  pi_chan : ∀ fd ptr, channels_ p !! fd = Some ptr →
    ∃ c i pfd, w !! ptr = Some c ∧ fd_ c = fd ∧ 0 ≤ fd ∧ mask_ok (events_ c) ∧ index_ c = Z.of_nat i ∧
      pollfds_ p !! i = Some pfd ∧ entry_of c pfd;
  pi_pfd : ∀ i pfd, pollfds_ p !! i = Some pfd →
    ∃ ptr c, channels_ p !! norm (pfd_fd pfd) = Some ptr ∧ w !! ptr = Some c ∧ index_ c = Z.of_nat i;
}.

(** The descriptor of an entry that is not ignored. *)
Definition poll_watched (p : PollPoller) (fd : Z) : option Z :=
  if fd <? 0 then None
  else pfd_events <$> (snd <$> list_find (λ pfd, pfd_fd pfd = fd) (pollfds_ p)).

#[global] Instance PollPoller_Poller : Poller PollPoller := {
  registered := channels_;
  watched := poll_watched;
  updateChannel := poll_updateChannel;
  removeChannel := poll_removeChannel;
  poll := poll_poll;
  room := λ _ _, True;
  poller_inv := poll_inv;
}.

(** *** The laws *)

Lemma i16_mask e : mask_ok e → i16 e = e.
Proof. intros [? ?]. apply swrap_small; lia. Qed.

Lemma entry_norm c pfd : 0 ≤ fd_ c → entry_of c pfd → norm (pfd_fd pfd) = fd_ c.
Proof. intros H0 [-> _]. unfold norm. destruct (isNoneEvent c); case_match; bool_prop; lia. Qed.

(** Two entries for one descriptor are the same entry. *)
Lemma pfd_unique p w i j a b :
  poll_inv p w → pollfds_ p !! i = Some a → pollfds_ p !! j = Some b →
  norm (pfd_fd a) = norm (pfd_fd b) → i = j.
Proof.
  intros Hi Ha Hb E. destruct (pi_pfd _ _ Hi _ _ Ha) as (pa & ca & La & Wa & Ia).
  destruct (pi_pfd _ _ Hi _ _ Hb) as (pb & cb & Lb & Wb & Ib). rewrite E in La. simplify_eq. lia.
Qed.

(** The entry of a registered channel. *)
Lemma entry_at p w ptr c :
  poll_inv p w → w !! ptr = Some c → channels_ p !! fd_ c = Some ptr →
  ∃ i pfd, index_ c = Z.of_nat i ∧ pollfds_ p !! i = Some pfd ∧ entry_of c pfd ∧ 0 ≤ fd_ c ∧
    (i < length (pollfds_ p))%nat.
Proof.
  intros Hi Hc Hr. destruct (pi_chan _ _ Hi _ _ Hr) as (c' & i & pfd & Hc' & _ & H0 & _ & Hx & Hp & He).
  simplify_eq. exists i, pfd. split_and!; try done. by eapply lookup_lt_Some.
Qed.

(** Distinct descriptors have distinct channels. *)
Lemma chan_inj p w fd fd' ptr :
  poll_inv p w → channels_ p !! fd = Some ptr → channels_ p !! fd' = Some ptr → fd = fd'.
Proof.
  intros Hi Ha Hb. destruct (pi_chan _ _ Hi _ _ Ha) as (c & ? & ? & ? & ? & _).
  destruct (pi_chan _ _ Hi _ _ Hb) as (c' & ? & ? & ? & ? & _). by simplify_eq.
Qed.

Lemma poll_update_old ptr w p c e :
  poll_inv p w → w !! ptr = Some c → mask_ok e → channels_ p !! fd_ c = Some ptr →
  let c' := set_added true (set_events e c) in
  ∃ p', poll_updateChannel ptr (<[ptr := c']> w) p = Ok (<[ptr := c']> w, p') ∧
    poll_inv p' (<[ptr := c']> w) ∧ channels_ p' = channels_ p.
Proof.
  intros Hi Hc He Hr c'. destruct (entry_at _ _ _ _ Hi Hc Hr) as (i & pfd & Hx & Hp & Hen & H0 & Hlt).
  set (pfd' := mkPollfd (if isNoneEvent c' then - fd_ c - 1 else fd_ c) e 0).
  exists (mkPollPoller (channels_ p) (<[i := pfd']> (pollfds_ p))). split.
  { unfold poll_updateChannel, deref. rewrite lookup_insert_eq. cbn [res_bind].
    change (index_ c') with (index_ c). change (fd_ c') with (fd_ c). change (events_ c') with e.
    rewrite Hx, (proj2 (Z.ltb_ge _ _)) by lia.
    rewrite !bool_decide_true by (rewrite ?Hr; eauto).
    rewrite (proj2 (Z.leb_le _ _)), (proj2 (Z.ltb_lt _ _)), Nat2Z.id, Hp, i16_mask by (done || lia). cbn [andb].
    destruct Hen as [-> _]. destruct (isNoneEvent c); rewrite ?Z.eqb_refl, ?orb_true_r; done. }
  assert (entry_of c' pfd') as Hen' by done.
  split; [constructor; cbn|done].
  - intros fd q Hq. destruct (pi_chan _ _ Hi _ _ Hq) as (d & j & x & Hd & Hfd & Hf0 & Hm & Hj & Hjx & Hjen).
    destruct (decide (ptr = q)) as [<-|Hne].
    + simplify_eq. assert (j = i) as -> by lia. exists c', i, pfd'.
      rewrite lookup_insert_eq, list_lookup_insert_eq by done. done.
    + exists d, j, x. rewrite lookup_insert_ne by done. split_and!; try done.
      rewrite list_lookup_insert_ne; [done|]. intros ->. simplify_eq.
      assert (fd_ d = fd_ c) as E.
      { etrans; [symmetry; by apply (entry_norm d pfd)|by apply entry_norm]. }
      rewrite E in Hq. by simplify_eq.
  - intros j x Hj. destruct (decide (i = j)) as [<-|Hne].
    + rewrite list_lookup_insert_eq in Hj by done. simplify_eq. exists ptr, c'.
      rewrite (entry_norm c') by done. by rewrite lookup_insert_eq.
    + rewrite list_lookup_insert_ne in Hj by done.
      destruct (pi_pfd _ _ Hi _ _ Hj) as (q & d & Hq & Hd & Hdx). exists q, d.
      rewrite lookup_insert_ne; [done|]. intros <-. simplify_eq. lia.
Qed.

Lemma poll_update_new ptr w p c e :
  poll_inv p w → w !! ptr = Some c → 0 ≤ fd_ c → mask_ok e → e ≠ 0 →
  channels_ p !! fd_ c = None → index_ c = -1 →
  let c' := set_added true (set_events e c) in
  let c'' := set_index (zlen (pollfds_ p)) c' in
  ∃ p', poll_updateChannel ptr (<[ptr := c']> w) p = Ok (<[ptr := c'']> w, p') ∧
    poll_inv p' (<[ptr := c'']> w) ∧ channels_ p' = <[fd_ c := ptr]> (channels_ p).
Proof.
  intros Hi Hc H0 He Hne Hr Hx c' c''. set (pfd := mkPollfd (fd_ c) e 0).
  exists (mkPollPoller (<[fd_ c := ptr]> (channels_ p)) (pollfds_ p ++ [pfd])). split.
  { unfold poll_updateChannel, deref. rewrite lookup_insert_eq. cbn [res_bind].
    change (index_ c') with (index_ c). change (fd_ c') with (fd_ c). change (events_ c') with e.
    rewrite Hx. cbn [Z.ltb Z.compare]. rewrite bool_decide_true, i16_mask, insert_insert_eq by done.
    rewrite length_app. cbn [length]. do 3 f_equal. unfold c''. do 2 f_equal. lia. }
  assert (entry_of c'' pfd) as Hen.
  { split; [|done]. cbn. unfold isNoneEvent. cbn. by rewrite (proj2 (Z.eqb_neq _ _)). }
  assert (∀ fd q, channels_ p !! fd = Some q → q ≠ ptr) as Hold.
  { intros fd q Hq ->. destruct (pi_chan _ _ Hi _ _ Hq) as (d & ? & ? & ? & ? & _). congruence. }
  split; [constructor; cbn|done].
  - intros fd q Hq. destruct (decide (fd = fd_ c)) as [->|Hfd].
    + rewrite lookup_insert_eq in Hq. simplify_eq. exists c'', (length (pollfds_ p)), pfd.
      rewrite lookup_insert_eq, list_lookup_middle by done. done.
    + rewrite lookup_insert_ne in Hq by done. pose proof (Hold _ _ Hq).
      destruct (pi_chan _ _ Hi _ _ Hq) as (d & j & x & ?). destruct_and!. exists d, j, x.
      rewrite lookup_insert_ne, lookup_app_l by (done || by eapply lookup_lt_Some). done.
  - intros j x [Hj|[Hl Hj]]%lookup_app_Some.
    + destruct (pi_pfd _ _ Hi _ _ Hj) as (q & d & Hq & ? & ?). pose proof (Hold _ _ Hq). exists q, d.
      rewrite lookup_insert_ne by congruence. by rewrite lookup_insert_ne.
    + apply list_lookup_singleton_Some in Hj as [Hj <-]. exists ptr, c''.
      rewrite (entry_norm c''), !lookup_insert_eq by done. split_and!; [done..|]. cbn. lia.
Qed.

(** The entries after the removal of entry [i]: the last one takes its place. *)
Definition removed (i : nat) (l l' : list pollfd) : Prop :=
  ∀ j, l' !! j = if decide (j < length l - 1)%nat then (if decide (j = i) then last l else l !! j) else None.

Lemma removed_pop (l : list pollfd) : removed (length l - 1) l (take (length l - 1) l).
Proof.
  intros j. case_decide.
  - rewrite decide_False by lia. by apply lookup_take_lt.
  - apply lookup_take_ge. lia.
Qed.

Lemma removed_swap (l : list pollfd) i :
  (i < length l - 1)%nat → removed i l (take (length l - 1) (iter_swap i (length l - 1) l)).
Proof.
  intros Hi j. unfold iter_swap.
  destruct (lookup_lt_is_Some_2 l i ltac:(lia)) as [x Hx].
  destruct (lookup_lt_is_Some_2 l (length l - 1) ltac:(lia)) as [y Hy]. rewrite Hx, Hy.
  case_decide as Hj; [rewrite lookup_take_lt by done|apply lookup_take_ge; lia].
  case_decide as Hji; subst.
  - rewrite list_lookup_insert_eq by (rewrite length_insert; lia).
    by rewrite last_lookup, <- Hy, <- Nat.sub_1_r.
  - by rewrite !list_lookup_insert_ne by lia.
Qed.

(** The world after a removal: the channel of the last entry, if it moved, has the
    freed index. *)
Definition reindexed (i n : nat) (moved ptr : Z) (w w' : world) : Prop :=
  ∀ q, q ≠ ptr → w' !! q = (if decide (q = moved ∧ i ≠ n) then set_index (Z.of_nat i) <$> w !! q else w !! q).

Lemma remove_inv p w w' ptr c i l' back moved :
  poll_inv p w → w !! ptr = Some c → channels_ p !! fd_ c = Some ptr → index_ c = Z.of_nat i →
  removed i (pollfds_ p) l' → last (pollfds_ p) = Some back →
  channels_ p !! norm (pfd_fd back) = Some moved →
  reindexed i (length (pollfds_ p) - 1) moved ptr w w' →
  poll_inv (mkPollPoller (delete (fd_ c) (channels_ p)) l') w'.
Proof.
  intros Hi Hc Hr Hx Hl Hb Hm Hw. set (n := (length (pollfds_ p) - 1)%nat) in *.
  assert (pollfds_ p !! n = Some back) as Hbn.
  { rewrite <- Hb, last_lookup. f_equal. lia. }
  destruct (entry_at _ _ _ _ Hi Hc Hr) as (i' & pi & Hx' & Hpi & Heni & H0 & Hlt).
  assert (i' = i) as -> by lia. clear Hx'. assert (norm (pfd_fd pi) = fd_ c) as Npi by by apply entry_norm.
  constructor; cbn.
  - intros fd q [Hfd Hq]%lookup_delete_Some.
    assert (q ≠ ptr) as Hqp by (intros ->; apply Hfd; eapply chan_inj; eauto).
    destruct (pi_chan _ _ Hi _ _ Hq) as (d & j & x & Hd & Hdf & Hf0 & Hdm & Hj & Hjx & Hjen).
    assert (norm (pfd_fd x) = fd) as Nx by (subst fd; by apply entry_norm).
    assert (j ≠ i) as Hji by (intros ->; congruence).
    assert (j < length (pollfds_ p))%nat as Hjl by by eapply lookup_lt_Some.
    pose proof (Hw q Hqp) as Hwq. rewrite Hd in Hwq.
    destruct (decide (q = moved)) as [->|Hqm].
    + assert (fd = norm (pfd_fd back)) as Hfb by by eapply chan_inj.
      assert (j = n) as -> by (eapply pfd_unique; eauto; congruence). simplify_eq.
      rewrite decide_True in Hwq by done. eexists _, i, back. rewrite Hwq. split_and!; try done.
      rewrite Hl, !decide_True by lia. done.
    + rewrite decide_False in Hwq by (by intros [? _]). exists d, j, x. rewrite Hwq. split_and!; try done.
      rewrite Hl, decide_True, decide_False; [done..|].
      assert (j ≠ n); [|lia]. intros ->. simplify_eq. congruence.
  - intros j x Hj. rewrite Hl in Hj. case_decide as Hjn; [|done]. case_decide as Hji.
    + subst j. rewrite Hb in Hj. simplify_eq. destruct (pi_pfd _ _ Hi _ _ Hbn) as (q & d & Hq & Hd & Hdx).
      simplify_eq. exists moved, (set_index (Z.of_nat i) d).
      assert (norm (pfd_fd x) ≠ fd_ c) as Hnf.
      { intros E. assert (n = i); [|lia]. eapply pfd_unique; eauto. congruence. }
      rewrite lookup_delete_ne by done. split_and!; [done| |done].
      rewrite Hw by (intros ->; apply Hnf; by eapply chan_inj).
      by rewrite decide_True, Hd by (split; [done|lia]).
    + destruct (pi_pfd _ _ Hi _ _ Hj) as (q & d & Hq & Hd & Hdx). exists q, d.
      rewrite lookup_delete_ne by (intros E; apply Hji; eapply pfd_unique; eauto; congruence).
      split_and!; [done| |done]. rewrite Hw, decide_False; [done| |intros ->; simplify_eq; lia].
      intros [-> _]. destruct (pi_pfd _ _ Hi _ _ Hbn) as (q' & d' & Hq' & Hd' & Hdx'). simplify_eq. lia.
Qed.

Lemma poll_remove_ok ptr w p c :
  poll_inv p w → w !! ptr = Some c → events_ c = 0 → channels_ p !! fd_ c = Some ptr →
  wp (poll_removeChannel ptr (<[ptr := set_added false c]> w) p) (λ '(w', p'),
    poll_inv p' w' ∧ channels_ p' = delete (fd_ c) (channels_ p) ∧
    owner_view <$> w' = owner_view <$> <[ptr := set_added false c]> w ∧
    revents_ <$> w' = revents_ <$> w ∧ handler_view <$> w' = handler_view <$> w).
Proof.
  intros Hi Hc He Hr. destruct (entry_at _ _ _ _ Hi Hc Hr) as (i & pfd & Hx & Hp & Hen & H0 & Hlt).
  assert (pollfds_ p ≠ []) as Hnil by (intros E; by rewrite E in Hp).
  destruct (last (pollfds_ p)) as [back|] eqn:Hb; [|by apply last_None in Hb].
  assert (pollfds_ p !! (length (pollfds_ p) - 1)%nat = Some back) as Hbn.
  { rewrite <- Hb, last_lookup. f_equal. lia. }
  destruct (pi_pfd _ _ Hi _ _ Hbn) as (q & d & Hq & Hd & Hdx).
  assert (∀ w' l', removed i (pollfds_ p) l' → reindexed i (length (pollfds_ p) - 1) q ptr w w' →
    poll_inv (mkPollPoller (delete (fd_ c) (channels_ p)) l') w') as Hinv
    by (intros; by eapply remove_inv).
  unfold poll_removeChannel, deref. rewrite lookup_insert_eq. cbn [res_bind].
  change (fd_ (set_added false c)) with (fd_ c). change (index_ (set_added false c)) with (index_ c).
  change (isNoneEvent (set_added false c)) with (isNoneEvent c).
  change (events_ (set_added false c)) with (events_ c).
  assert (isNoneEvent c = true) as Hno by (unfold isNoneEvent; by rewrite He).
  rewrite !bool_decide_true, Hno, Hx by (rewrite ?Hr; eauto).
  rewrite (proj2 (Z.leb_le _ _)), (proj2 (Z.ltb_lt _ _)), Nat2Z.id, Hp, Hb by lia. cbn [andb].
  destruct Hen as [-> ->]. rewrite Hno, !Z.eqb_refl. cbn [andb].
  destruct (Z.eqb_spec (Z.of_nat i) (Z.of_nat (length (pollfds_ p) - 1))) as [E|E].
  - split_and!; [|done|done|by rewrite fmap_insert, insert_id by (by rewrite lookup_fmap, Hc)..].
    assert (i = length (pollfds_ p) - 1)%nat as -> by lia.
    apply Hinv; [apply removed_pop|]. intros x Hne. rewrite decide_False by (by intros [_ ?]).
    by rewrite lookup_insert_ne.
  - fold (norm (pfd_fd back)).
    assert (fd_ c ≠ norm (pfd_fd back)) as Hfd.
    { intros F. rewrite F in Hr. simplify_eq. lia. }
    assert (q ≠ ptr) as Hqp by (intros ->; apply Hfd; by eapply chan_inj).
    rewrite lookup_delete_ne, Hq, lookup_insert_ne, Hd by congruence. cbn [res_bind].
    assert (∀ {B} (f : Channel → B), f (set_added false c) = f c → (∀ v, f (set_index v d) = f d) →
      f <$> <[q := set_index (Z.of_nat i) d]> (<[ptr := set_added false c]> w) = f <$> w) as Hview.
    { intros B f E1 E2. rewrite !fmap_insert, E1, E2. rewrite (insert_id _ ptr) by (by rewrite lookup_fmap, Hc).
      by rewrite insert_id by (by rewrite lookup_fmap, Hd). }
    split_and!; [|done| |by apply Hview..].
    + apply Hinv; [apply removed_swap; lia|]. intros x Hne. case_decide as Hxm.
      * destruct Hxm as [-> _]. by rewrite lookup_insert_eq, Hd.
      * destruct (decide (x = q)) as [->|Hxq]; [lia|]. by rewrite !lookup_insert_ne.
    + apply map_eq. intros x. rewrite !lookup_fmap. destruct (decide (x = q)) as [->|Hxq].
      * by rewrite lookup_insert_eq, lookup_insert_ne, Hd.
      * by rewrite lookup_insert_ne.
Qed.

(** What the loop collects. *)
Definition hits (p : PollPoller) (pfds : list pollfd) : list (Z * Z) :=
  omap (λ pfd, if 0 <? pfd_revents pfd then (λ ptr, (ptr, pfd_revents pfd)) <$> channels_ p !! pfd_fd pfd else None) pfds.

Lemma hits_none p pfds : filter (λ pfd, pfd_revents pfd ≠ 0) pfds = [] → hits p pfds = [].
Proof.
  induction pfds as [|x pfds IH]; intros Hnil; [done|]. rewrite filter_cons in Hnil.
  case_decide as Hx; [done|]. cbn. rewrite (proj2 (Z.ltb_ge _ _)) by lia. by apply IH.
Qed.

Definition deliverable (p : PollPoller) (w : world) (pfd : pollfd) : Prop :=
  0 ≤ pfd_revents pfd ∧
  (0 < pfd_revents pfd → ∃ ptr c, channels_ p !! pfd_fd pfd = Some ptr ∧ w !! ptr = Some c ∧ fd_ c = pfd_fd pfd).

Lemma deliverable_strip p (w w' : world) pfd :
  strip <$> w' = strip <$> w → deliverable p w pfd → deliverable p w' pfd.
Proof.
  intros E [H0 H]. split; [done|]. intros Hr. destruct (H Hr) as (ptr & c & Hp & Hc & Hf).
  destruct (strip_lookup _ _ _ _ E Hc) as (c' & Hc' & Es). exists ptr, c'. split_and!; [done..|].
  rewrite <- Hf. exact (f_equal fd_ Es).
Qed.

Lemma poll_fill_ok p pfds w :
  Forall (deliverable p w) pfds →
  poll_fill (zlen (filter (λ pfd, pfd_revents pfd ≠ 0) pfds)) pfds w p
  = Ok (mark_all (hits p pfds) w, (hits p pfds).*1).
Proof.
  revert w. induction pfds as [|pfd pfds IH]; intros w [[Hd0 Hd] Hds]%Forall_cons || intros w _; [done|].
  rewrite filter_cons. cbn [poll_fill hits omap list_omap]. destruct (Z.ltb_spec 0 (pfd_revents pfd)) as [Hr|Hr].
  - destruct (Hd Hr) as (ptr & c & Hp & Hc & Hf). rewrite decide_True by lia.
    rewrite (proj2 (Z.ltb_lt _ _)) by (cbn [length]; lia). rewrite Hp. unfold deref. rewrite Hc. cbn [res_bind].
    rewrite Hf, Z.eqb_refl. cbn [length]. rewrite Nat2Z.inj_succ, Z.sub_1_r, Z.pred_succ.
    rewrite (insert_as_alter (set_revents (pfd_revents pfd))) by done. rewrite IH; [done|].
    eapply Forall_impl; [exact Hds|]. intros x. apply deliverable_strip, strip_alter.
  - rewrite decide_False by lia. rewrite IH by done.
    destruct (Z.ltb_spec 0 (zlen (filter (λ x, pfd_revents x ≠ 0) pfds))) as [Hn|Hn]; [done|].
    assert (hits p pfds = []) as Hh by (apply hits_none, nil_length_inv; lia).
    unfold hits in *. by rewrite Hh.
Qed.

Lemma poll_inv_strip p (w w' : world) : strip <$> w' = strip <$> w → poll_inv p w → poll_inv p w'.
Proof.
  intros E Hi. constructor.
  - intros fd ptr Hr. destruct (pi_chan _ _ Hi _ _ Hr) as (c & i & pfd & Hc & Hx).
    destruct (strip_lookup _ _ _ _ E Hc) as ([] & Hc' & [=]). destruct c. cbn in *. subst.
    eexists _, i, pfd. split; [exact Hc'|exact Hx].
  - intros i pfd Hp. destruct (pi_pfd _ _ Hi _ _ Hp) as (ptr & c & Hr & Hc & Hx).
    destruct (strip_lookup _ _ _ _ E Hc) as (c' & Hc' & Es). exists ptr, c'. split_and!; [done..|].
    rewrite <- Hx. exact (f_equal index_ Es).
Qed.

(** An entry that is not ignored is its channel's. *)
Lemma pfd_owner p w pfd :
  poll_inv p w → pfd ∈ pollfds_ p → 0 ≤ pfd_fd pfd →
  ∃ ptr c, channels_ p !! pfd_fd pfd = Some ptr ∧ w !! ptr = Some c ∧ fd_ c = pfd_fd pfd ∧
    events_ c = pfd_events pfd.
Proof.
  intros Hi [i Hp]%list_elem_of_lookup H0. destruct (pi_pfd _ _ Hi _ _ Hp) as (ptr & c & Hr & Hc & Hx).
  assert (norm (pfd_fd pfd) = pfd_fd pfd) as N by (unfold norm; case_match; bool_prop; lia).
  rewrite N in Hr. exists ptr, c.
  destruct (pi_chan _ _ Hi _ _ Hr) as (d & j & x & Hd & Hf & _ & _ & Hj & Hjx & [_ He]). simplify_eq.
  assert (j = i) as -> by lia. simplify_eq. done.
Qed.

Lemma poll_watched_Some p fd e :
  poll_watched p fd = Some e ↔ 0 ≤ fd ∧ ∃ i pfd, list_find (λ pfd, pfd_fd pfd = fd) (pollfds_ p) = Some (i, pfd) ∧ pfd_events pfd = e.
Proof.
  unfold poll_watched. destruct (Z.ltb_spec fd 0); [split; [done|lia]|].
  destruct (list_find _ _) as [[i pfd]|]; cbn.
  - split; [intros [= <-]; eauto 6|by intros (_ & ? & ? & [= -> ->] & ->)].
  - split; [done|by intros (_ & ? & ? & ? & _)].
Qed.

Lemma poll_watched_elem p fd e :
  poll_watched p fd = Some e → ∃ pfd, pfd ∈ pollfds_ p ∧ pfd_fd pfd = fd ∧ pfd_events pfd = e ∧ 0 ≤ fd.
Proof.
  intros (H0 & i & pfd & (Hi & Hf & _)%list_find_Some & He)%poll_watched_Some.
  exists pfd. split_and!; [by eapply list_elem_of_lookup_2|done..].
Qed.

Lemma poll_inv_interest p w fd ptr c :
  poll_inv p w → channels_ p !! fd = Some ptr → w !! ptr = Some c → events_ c ≠ 0 →
  poll_watched p fd = Some (events_ c).
Proof.
  intros Hi Hr Hc He. destruct (pi_chan _ _ Hi _ _ Hr) as (c' & i & pfd & Hc' & Hf & H0 & _ & _ & Hp & Hen).
  simplify_eq. apply poll_watched_Some. split; [done|]. exists i, pfd. split; [|by destruct Hen].
  assert (pfd_fd pfd = fd_ c) as Hpf.
  { destruct Hen as [-> _]. unfold isNoneEvent. by rewrite (proj2 (Z.eqb_neq _ _)). }
  apply list_find_Some. split_and!; [done..|]. intros j x Hj Hlt Hx.
  assert (j = i); [|lia]. eapply pfd_unique; eauto. congruence.
Qed.

Lemma hits_elem p w r ptr ev :
  poll_inv p w → report_ok r p →
  (ptr, ev) ∈ hits p (kernel_poll r (pollfds_ p)) ↔ ∃ fd, (fd, ev) ∈ r ∧ channels_ p !! fd = Some ptr.
Proof.
  intros Hi (Hnd & _ & Hr). unfold hits, kernel_poll. rewrite list_elem_of_omap. split.
  - intros (x & (pfd & -> & Hpfd)%list_elem_of_fmap & Hx). cbn in Hx.
    destruct (Z.ltb_spec (pfd_fd pfd) 0); [done|].
    destruct (_ !! pfd_fd pfd) as [v|] eqn:Hv; cbn in Hx; [|done]. case_match; [|done].
    destruct (channels_ p !! pfd_fd pfd) eqn:Hch; simplify_eq/=. exists (pfd_fd pfd). split; [|done].
    by apply elem_of_list_to_map_2.
  - intros (fd & Hin & Hch). pose proof (proj1 (Forall_forall _ _) Hr _ Hin) as (Hev & H0 & [e Hw]).
    cbn in Hev, H0. change (poll_watched p fd = Some e) in Hw. destruct (poll_watched_elem _ _ _ Hw) as (pfd & Hpfd & <- & _ & _).
    eexists. split; [apply list_elem_of_fmap; by exists pfd|]. cbn.
    rewrite (proj2 (Z.ltb_ge (pfd_fd pfd) 0)) by lia. rewrite (elem_of_list_to_map_1 (M:=gmap Z) r (pfd_fd pfd) ev) by done. cbn.
    rewrite (proj2 (Z.ltb_lt _ _)) by lia. by rewrite Hch.
Qed.

Lemma kernel_deliverable p w r :
  poll_inv p w → report_ok r p → Forall (deliverable p w) (kernel_poll r (pollfds_ p)).
Proof.
  intros Hi (Hnd & _ & Hr). apply Forall_forall. intros x (pfd & -> & Hpfd)%list_elem_of_fmap.
  unfold deliverable. cbn. destruct (Z.ltb_spec (pfd_fd pfd) 0) as [Hlt|Hge]; [lia|].
  destruct (_ !! pfd_fd pfd) as [ev|] eqn:Hv; cbn; [|lia].
  apply elem_of_list_to_map_2 in Hv. pose proof (proj1 (Forall_forall _ _) Hr _ Hv) as (Hev & _ & _).
  cbn in Hev. split; [lia|]. intros _. destruct (pfd_owner _ _ _ Hi Hpfd Hge) as (ptr & c & ?).
  destruct_and!. eauto.
Qed.

Lemma hits_NoDup p w (pfds : list pollfd) :
  poll_inv p w → NoDup (filter (λ fd, 0 ≤ fd) (pfd_fd <$> pfds)) →
  Forall (λ x, 0 < pfd_revents x → 0 ≤ pfd_fd x) pfds → NoDup (hits p pfds).*1.
Proof.
  intros Hi. induction pfds as [|x pfds IH]; intros Hnd Hpos; [constructor|].
  apply Forall_cons in Hpos as [Hx Hpos]. rewrite fmap_cons, filter_cons in Hnd.
  assert (NoDup (hits p pfds).*1) as Hrest by (apply IH; [case_decide; [by inversion Hnd|done]|done]).
  cbn. destruct (Z.ltb_spec 0 (pfd_revents x)) as [Hr|_]; [|done].
  destruct (channels_ p !! pfd_fd x) as [ptr|] eqn:Hch; [|done]. cbn. constructor; [|done].
  rewrite decide_True in Hnd by by apply Hx. apply NoDup_cons in Hnd as [Hnot _].
  intros ([q ev] & E & (y & Hy & Hyx)%list_elem_of_omap)%list_elem_of_fmap. cbn in E. subst q.
  destruct (Z.ltb_spec 0 (pfd_revents y)) as [Hry|_]; [|done].
  destruct (channels_ p !! pfd_fd y) as [z|] eqn:Hcy; [|done]. simplify_eq/=.
  apply Hnot. rewrite (chan_inj _ _ _ _ _ Hi Hch Hcy).
  apply list_elem_of_filter. split; [|by apply list_elem_of_fmap_2].
  apply (proj1 (Forall_forall _ _) Hpos _ Hy Hry).
Qed.

Lemma pfds_NoDup p w : poll_inv p w → NoDup (pfd_fd <$> pollfds_ p).
Proof.
  intros Hi. apply NoDup_alt. intros i j fd Ha Hb.
  apply list_lookup_fmap_Some in Ha as (a & -> & Ha). apply list_lookup_fmap_Some in Hb as (b & E & Hb).
  eapply pfd_unique; eauto. by rewrite E.
Qed.

Lemma kernel_poll_inv r p w :
  poll_inv p w → poll_inv (mkPollPoller (channels_ p) (kernel_poll r (pollfds_ p))) w.
Proof.
  intros Hi. constructor; cbn; unfold kernel_poll.
  - intros fd ptr Hr. destruct (pi_chan _ _ Hi _ _ Hr) as (c & i & pfd & ? & ? & ? & ? & ? & Hp & Hen).
    eexists c, i, _. rewrite list_lookup_fmap, Hp. by split_and!.
  - intros i x Hx. apply list_lookup_fmap_Some in Hx as (pfd & -> & Hx). exact (pi_pfd _ _ Hi i pfd Hx).
Qed.

Lemma poll_poll_ok r p w :
  poll_inv p w → report_ok r p →
  let l := hits p (kernel_poll r (pollfds_ p)) in
  poll_poll (Some r) w p
  = Ok (mark_all l w, mkPollPoller (channels_ p) (kernel_poll r (pollfds_ p)), l.*1).
Proof.
  intros Hi Hr l. pose proof (poll_fill_ok (mkPollPoller (channels_ p) (kernel_poll r (pollfds_ p))) _ w
    (kernel_deliverable p w r Hi Hr)) as E.
  unfold poll_poll. cbn [channels_ pollfds_]. destruct (Z.ltb_spec 0 (zlen (filter (λ pfd, pfd_revents pfd ≠ 0) (kernel_poll r (pollfds_ p))))).
  - by rewrite E.
  - assert (l = []) as ->; [|done]. apply hits_none, nil_length_inv. lia.
Qed.

#[global] Instance PollPoller_Laws : PollerLaws PollPoller.
Proof.
  constructor; cbn -[poll_poll poll_updateChannel poll_removeChannel].
  - intros ptr w p c e Hi Hc H0 He [Hr|(Hr & Hx & Hne)]; cbn in Hr.
    + destruct (poll_update_old _ _ _ _ _ Hi Hc He Hr) as (p' & -> & Hi' & Hch). cbn.
      split_and!; [done|by rewrite Hch, insert_id|by eexists].
    + destruct (poll_update_new _ _ _ _ _ Hi Hc H0 He Hne Hr Hx) as (p' & -> & Hi' & Hch). cbn.
      split_and!; [done..|by eexists].
  - intros. by apply poll_remove_ok.
  - intros r w p Hi Hr. rewrite poll_poll_ok by done. cbn.
    pose proof (strip_mark (hits p (kernel_poll r (pollfds_ p))) w) as Hs.
    split_and!; [apply kernel_poll_inv; by eapply poll_inv_strip|done|by apply strip_owner|by apply strip_handler|].
    apply mark_delivers.
    + eapply hits_NoDup; [done| |].
      * apply NoDup_filter. unfold kernel_poll. rewrite <- list_fmap_compose. by eapply pfds_NoDup.
      * apply Forall_forall. intros x (pfd & -> & _)%list_elem_of_fmap. cbn. case_match; bool_prop; lia.
    + intros. by eapply hits_elem.
    + intros fd ptr Hch. destruct (pi_chan _ _ Hi _ _ Hch) as (c & ? & ? & ? & ? & _). eauto.
  - done.
  - intros p w fd ptr Hi Hch. destruct (pi_chan _ _ Hi _ _ Hch) as (c & ? & ? & ? & ? & _). eauto.
  - intros p w fd e Hi (pfd & Hin & <- & <- & H0)%poll_watched_elem.
    destruct (pfd_owner _ _ _ Hi Hin H0) as (ptr & c & ?). destruct_and!. by exists ptr, c.
  - intros. by eapply poll_inv_interest.
  - intros p w w' Hi E. constructor.
    + intros fd ptr Hr. destruct (pi_chan _ _ Hi _ _ Hr) as (c & i & pfd & Hc & Hx).
      destruct (core_lookup _ _ _ _ (E _ _ Hr) Hc) as ([] & Hc' & [=]). destruct c. cbn in *. subst.
      eexists _, i, pfd. split; [exact Hc'|exact Hx].
    + intros i pfd Hp. destruct (pi_pfd _ _ Hi _ _ Hp) as (ptr & c & Hr & Hc & Hx).
      destruct (core_lookup _ _ _ _ (E _ _ Hr) Hc) as (c' & Hc' & [= _ _ Ei]). exists ptr, c'. split_and!; [done..|congruence].
Qed.

End PollPoller.


(** ** epoll(4) *)

Module EPollPoller.
Import Channel Poller.

Definition kNew : Z := -1.
Definition kAdded : Z := 1.
Definition kDeleted : Z := 2.
Definition kInitEventListSize : Z := 16.

Inductive operation := EPOLL_CTL_ADD | EPOLL_CTL_DEL | EPOLL_CTL_MOD.

(** [interest] is the kernel's interest list of [epollfd_]: the mask and the
    pointer stored with each descriptor.  [events_size] is [events_.size()]. *)
Record EPollPoller := mkEPollPoller {
  channels_ : gmap Z Z;
  interest : gmap Z (Z * Z);
  events_size : Z;
}.

Definition new_EPollPoller : EPollPoller := mkEPollPoller ∅ ∅ kInitEventListSize.

(** epoll_ctl(2) on an open descriptor: adding one that is present and changing or
    deleting one that is absent fail. *)
Definition epoll_ctl (op : operation) (fd : Z) (event : Z * Z) (t : gmap Z (Z * Z)) : option (gmap Z (Z * Z)) :=
  match op, t !! fd with
  | EPOLL_CTL_ADD, None => Some (<[fd := event]> t)
  | EPOLL_CTL_MOD, Some _ => Some (<[fd := event]> t)
  | EPOLL_CTL_DEL, Some _ => Some (delete fd t)
  | _, _ => None
  end.

(** [EPollPoller::update]: a failure is fatal unless the operation deletes. *)
Definition update (op : operation) (ptr : Z) (c : Channel) (p : EPollPoller) : res EPollPoller :=
  match epoll_ctl op (fd_ c) (events_ c, ptr) (interest p) with
  | Some t => Ok (mkEPollPoller (channels_ p) t (events_size p))
  | None => match op with EPOLL_CTL_DEL => Ok p | _ => Err FatalLog end
  end.

Definition epoll_updateChannel (ptr : Z) (w : world) (p : EPollPoller) : res (world * EPollPoller) :=
  let! c := deref ptr w in
  let index := index_ c in
  if (index =? kNew) || (index =? kDeleted) then
    let! p :=
      (if index =? kNew then
         assert! bool_decide (channels_ p !! fd_ c = None) in
         Ok (mkEPollPoller (<[fd_ c := ptr]> (channels_ p)) (interest p) (events_size p))
       else
         assert! bool_decide (is_Some (channels_ p !! fd_ c)) in
         assert! bool_decide (channels_ p !! fd_ c = Some ptr) in
         Ok p) in
    let c := set_index kAdded c in
    let! p := update EPOLL_CTL_ADD ptr c p in
    Ok (<[ptr := c]> w, p)
  else
    assert! bool_decide (is_Some (channels_ p !! fd_ c)) in
    assert! bool_decide (channels_ p !! fd_ c = Some ptr) in
    assert! index =? kAdded in
    if isNoneEvent c then
      let! p := update EPOLL_CTL_DEL ptr c p in
      Ok (<[ptr := set_index kDeleted c]> w, p)
    else
      let! p := update EPOLL_CTL_MOD ptr c p in
      Ok (w, p).

Definition epoll_removeChannel (ptr : Z) (w : world) (p : EPollPoller) : res (world * EPollPoller) :=
  let! c := deref ptr w in
  assert! bool_decide (is_Some (channels_ p !! fd_ c)) in
  assert! bool_decide (channels_ p !! fd_ c = Some ptr) in
  assert! isNoneEvent c in
  let index := index_ c in
  assert! (index =? kAdded) || (index =? kDeleted) in
  let p := mkEPollPoller (delete (fd_ c) (channels_ p)) (interest p) (events_size p) in
  let! p := (if index =? kAdded then update EPOLL_CTL_DEL ptr c p else Ok p) in
  Ok (<[ptr := set_index kNew c]> w, p).

(** The loop of [fillActiveChannels] over the pairs of [data.ptr] and [events]. *)
Fixpoint epoll_fill (evs : list (Z * Z)) (w : world) (p : EPollPoller) : res (world * list Z) :=
  match evs with
  | [] => Ok (w, [])
  | (ptr, ev) :: evs =>
      let! c := deref ptr w in
      assert! bool_decide (is_Some (channels_ p !! fd_ c)) in
      assert! bool_decide (channels_ p !! fd_ c = Some ptr) in
      let! (w, active) := epoll_fill evs (<[ptr := set_revents ev c]> w) p in
      Ok (w, ptr :: active)
  end.

(** What epoll_wait(2) writes for the descriptors with events. *)
Definition epoll_wait (r : report) (p : EPollPoller) : list (Z * Z) :=
  omap (λ x, (λ i, (i.2, x.2)) <$> interest p !! x.1) r.

Definition epoll_poll (r : option report) (w : world) (p : EPollPoller)
    : res (world * EPollPoller * list Z) :=
  match r with
  | None => Ok (w, p, [])
  | Some r =>
      let evs := epoll_wait r p in
      let numEvents := zlen evs in
      if 0 <? numEvents then
        assert! numEvents <=? events_size p in
        let! (w, active) := epoll_fill evs w p in
        let size := if numEvents =? events_size p then events_size p * 2 else events_size p in
        Ok (w, mkEPollPoller (channels_ p) (interest p) size, active)
      else Ok (w, p, [])
  end.

Definition operationToString (op : operation) : bytes :=
  match op with EPOLL_CTL_ADD => str "ADD" | EPOLL_CTL_DEL => str "DEL" | EPOLL_CTL_MOD => str "MOD" end.

(** The index of a registered channel says whether the kernel has it. *)
Definition synced (p : EPollPoller) (ptr : Z) (c : Channel) : Prop :=
  (index_ c = kAdded ∧ interest p !! fd_ c = Some (events_ c, ptr)) ∨
  (index_ c = kDeleted ∧ events_ c = 0 ∧ interest p !! fd_ c = None).

Record epoll_inv (p : EPollPoller) (w : world) : Prop := {
  ei_size : 0 < events_size p;
  ei_chan : ∀ fd ptr, channels_ p !! fd = Some ptr → ∃ c, w !! ptr = Some c ∧ fd_ c = fd ∧ synced p ptr c;
  ei_kernel : ∀ fd, is_Some (interest p !! fd) → is_Some (channels_ p !! fd);
}.

#[global] Instance EPollPoller_Poller : Poller EPollPoller := {
  registered := channels_;
  watched := λ p fd, fst <$> interest p !! fd;
  updateChannel := epoll_updateChannel;
  removeChannel := epoll_removeChannel;
  poll := epoll_poll;
  room := λ r p, zlen r ≤ events_size p;
  poller_inv := epoll_inv;
}.

(** *** The laws *)

(** Changing the state of one descriptor. *)
Lemma epoll_inv_set p p' w ptr c c' :
  epoll_inv p w → w !! ptr = Some c → fd_ c' = fd_ c →
  0 < events_size p' → channels_ p' = <[fd_ c := ptr]> (channels_ p) →
  (∀ fd, fd ≠ fd_ c → interest p' !! fd = interest p !! fd) → synced p' ptr c' →
  epoll_inv p' (<[ptr := c']> w).
Proof.
  intros Hi Hc Hf Hs Hch Hk Hsy. constructor; [done|rewrite Hch..].
  - intros fd q [[<- <-]|[Hfd Hq]]%lookup_insert_Some.
    + exists c'. by rewrite lookup_insert_eq.
    + destruct (ei_chan _ _ Hi _ _ Hq) as (d & Hd & <- & Hsd). exists d.
      rewrite lookup_insert_ne by (intros ->; congruence). split_and!; [done..|].
      unfold synced in *. by rewrite Hk.
  - intros fd Hin. destruct (decide (fd = fd_ c)) as [->|Hfd]; [rewrite lookup_insert_eq; eauto|].
    rewrite Hk in Hin by done. rewrite lookup_insert_ne by done. by apply (ei_kernel _ _ Hi).
Qed.

(** Forgetting one descriptor. *)
Lemma epoll_inv_unset p p' w ptr c c' :
  epoll_inv p w → w !! ptr = Some c →
  0 < events_size p' → channels_ p' = delete (fd_ c) (channels_ p) →
  (∀ fd, fd ≠ fd_ c → interest p' !! fd = interest p !! fd) → interest p' !! fd_ c = None →
  epoll_inv p' (<[ptr := c']> w).
Proof.
  intros Hi Hc Hs Hch Hk Hn. constructor; [done|rewrite Hch..].
  - intros fd q [Hfd Hq]%lookup_delete_Some.
    destruct (ei_chan _ _ Hi _ _ Hq) as (d & Hd & <- & Hsd). exists d.
    rewrite lookup_insert_ne by (intros ->; congruence). split_and!; [done..|].
    unfold synced in *. by rewrite Hk.
  - intros fd Hin. destruct (decide (fd = fd_ c)) as [->|Hfd]; [rewrite Hn in Hin; by destruct Hin|].
    rewrite Hk in Hin by done. rewrite lookup_delete_ne by done. by apply (ei_kernel _ _ Hi).
Qed.

Lemma epoll_update_ok ptr w p c e :
  epoll_inv p w → w !! ptr = Some c → may_update p ptr c e →
  wp (epoll_updateChannel ptr (<[ptr := set_added true (set_events e c)]> w) p) (λ '(w', p'),
    epoll_inv p' w' ∧ channels_ p' = <[fd_ c := ptr]> (channels_ p) ∧
    ∃ c', w' = <[ptr := c']> w ∧ owner_view c' = (fd_ c, e, true) ∧
      revents_ c' = revents_ c ∧ handler_view c' = handler_view c).
Proof.
  intros Hi Hc Hm. set (c1 := set_added true (set_events e c)).
  unfold epoll_updateChannel, deref. rewrite lookup_insert_eq. cbn [res_bind].
  change (index_ c1) with (index_ c). change (fd_ c1) with (fd_ c).
  pose proof (ei_size _ _ Hi) as Hsz. destruct Hm as [Hr|(Hr & -> & Hne)]; cbn in Hr.
  - destruct (ei_chan _ _ Hi _ _ Hr) as (c' & Hc' & _ & Hsy). simplify_eq.
    destruct Hsy as [[Hx Hk]|(Hx & He & Hk)]; rewrite Hx; cbn [Z.eqb orb kNew kDeleted kAdded Pos.eqb];
      rewrite !bool_decide_true by (rewrite ?Hr; eauto).
    + unfold update. cbn [epoll_ctl fd_ c1 set_added set_events]. rewrite Hk. destruct (isNoneEvent c1) eqn:En; cbn.
      * rewrite insert_insert_eq, (insert_id (channels_ p)) by done. split_and!; [|done|by eexists].
        eapply epoll_inv_set; [done..|by rewrite (insert_id (channels_ p))| |].
        -- intros fd Hfd. cbn. by rewrite lookup_delete_ne.
        -- right. cbn. rewrite lookup_delete_eq. unfold isNoneEvent in En. by bool_prop.
      * rewrite (insert_id (channels_ p)) by done. split_and!; [|done|by eexists].
        eapply epoll_inv_set; [done..|by rewrite (insert_id (channels_ p))| |].
        -- intros fd Hfd. cbn. by rewrite lookup_insert_ne.
        -- left. cbn. rewrite lookup_insert_eq. done.
    + unfold update. cbn. rewrite Hk. cbn. rewrite insert_insert_eq, (insert_id (channels_ p)) by done.
      split_and!; [|done|by eexists]. eapply epoll_inv_set; [done..|by rewrite (insert_id (channels_ p))| |].
      * intros fd Hfd. cbn. by rewrite lookup_insert_ne.
      * left. cbn. by rewrite lookup_insert_eq.
  - cbn [Z.eqb orb kNew kDeleted kAdded Pos.eqb]. rewrite bool_decide_true by done. cbn [res_bind]. unfold update. cbn.
    assert (interest p !! fd_ c = None) as Hk.
    { destruct (interest p !! fd_ c) eqn:E; [|done].
      destruct (ei_kernel _ _ Hi (fd_ c) ltac:(eauto)); congruence. }
    rewrite Hk. cbn. rewrite insert_insert_eq. split_and!; [|done|by eexists].
    eapply epoll_inv_set; [done..| |].
    + intros fd Hfd. cbn. by rewrite lookup_insert_ne.
    + left. cbn. by rewrite lookup_insert_eq.
Qed.

Lemma view_same {B} (f : Channel → B) (w : world) ptr c c' : f c' = f c → f <$> <[ptr := c']> w = f <$> <[ptr := c]> w.
Proof. intros E. by rewrite !fmap_insert, E. Qed.

Lemma view_id {B} (f : Channel → B) (w : world) ptr c c' : w !! ptr = Some c → f c' = f c → f <$> <[ptr := c']> w = f <$> w.
Proof. intros Hc E. by rewrite (view_same f w ptr c c' E), insert_id. Qed.

Lemma epoll_remove_ok ptr w p c :
  epoll_inv p w → w !! ptr = Some c → events_ c = 0 → channels_ p !! fd_ c = Some ptr →
  wp (epoll_removeChannel ptr (<[ptr := set_added false c]> w) p) (λ '(w', p'),
    epoll_inv p' w' ∧ channels_ p' = delete (fd_ c) (channels_ p) ∧
    owner_view <$> w' = owner_view <$> <[ptr := set_added false c]> w ∧
    revents_ <$> w' = revents_ <$> w ∧ handler_view <$> w' = handler_view <$> w).
Proof.
  intros Hi Hc He Hr. set (c1 := set_added false c).
  unfold epoll_removeChannel, deref. rewrite lookup_insert_eq. cbn [res_bind].
  change (index_ c1) with (index_ c). change (fd_ c1) with (fd_ c).
  assert (isNoneEvent c1 = true) as -> by (unfold isNoneEvent; cbn; by rewrite He).
  rewrite !bool_decide_true by (rewrite ?Hr; eauto). pose proof (ei_size _ _ Hi) as Hsz.
  destruct (ei_chan _ _ Hi _ _ Hr) as (c' & Hc' & _ & Hsy). simplify_eq.
  destruct Hsy as [[Hx Hk]|(Hx & _ & Hk)]; rewrite Hx; cbn [Z.eqb orb kNew kDeleted kAdded Pos.eqb].
  - unfold update. cbn. rewrite Hk. cbn. rewrite insert_insert_eq.
    split_and!; [|done|by apply view_same|by apply (view_id _ _ _ c)..]. eapply epoll_inv_unset; [done..| |].
    + intros fd Hfd. cbn. by rewrite lookup_delete_ne.
    + cbn. by rewrite lookup_delete_eq.
  - cbn. rewrite insert_insert_eq. split_and!; [|done|by apply view_same|by apply (view_id _ _ _ c)..].
    by eapply epoll_inv_unset.
Qed.

Lemma epoll_inv_strip p (w w' : world) : strip <$> w' = strip <$> w → epoll_inv p w → epoll_inv p w'.
Proof.
  intros E Hi. constructor; [by apply (ei_size _ _ Hi)| |by apply (ei_kernel _ _ Hi)].
  intros fd ptr Hr. destruct (ei_chan _ _ Hi _ _ Hr) as (c & Hc & Hx).
  destruct (strip_lookup _ _ _ _ E Hc) as ([] & Hc' & [=]). destruct c. cbn in *. subst.
  eexists. split; [exact Hc'|exact Hx].
Qed.

Lemma epoll_fill_ok p evs w :
  Forall (λ x, ∃ c, w !! x.1 = Some c ∧ channels_ p !! fd_ c = Some x.1) evs →
  epoll_fill evs w p = Ok (mark_all evs w, evs.*1).
Proof.
  revert w. induction evs as [|[ptr ev] evs IH]; intros w Hall; [done|].
  apply Forall_cons in Hall as [(c & Hc & Hr) Hall]. cbn in Hc, Hr. cbn. unfold deref. rewrite Hc. cbn.
  rewrite !bool_decide_true by (rewrite ?Hr; eauto). rewrite IH.
  - by rewrite (insert_as_alter (set_revents ev)).
  - eapply Forall_impl; [exact Hall|]. intros [q e] (d & Hd & Hrd). cbn in Hd, Hrd |- *.
    rewrite (insert_as_alter (set_revents ev)) by done.
    destruct (strip_lookup w _ _ _ (strip_alter ev ptr w) Hd) as (d' & Hd' & Es).
    exists d'. split; [done|]. by rewrite <- (f_equal fd_ Es : fd_ d' = fd_ d) in Hrd.
Qed.

(** Whatever the kernel holds is a registered channel with its mask. *)
Lemma interest_owner p w fd e ptr :
  epoll_inv p w → interest p !! fd = Some (e, ptr) →
  channels_ p !! fd = Some ptr ∧ ∃ c, w !! ptr = Some c ∧ fd_ c = fd ∧ events_ c = e.
Proof.
  intros Hi Hk. destruct (ei_kernel _ _ Hi fd ltac:(eauto)) as [q Hq].
  destruct (ei_chan _ _ Hi _ _ Hq) as (c & Hc & <- & [[_ E]|(_ & _ & E)]); [|congruence].
  rewrite Hk in E. simplify_eq. eauto.
Qed.

Lemma epoll_wait_elem p w r ptr ev :
  epoll_inv p w → report_ok r p →
  (ptr, ev) ∈ epoll_wait r p ↔ ∃ fd, (fd, ev) ∈ r ∧ channels_ p !! fd = Some ptr.
Proof.
  intros Hi (_ & _ & Hr). unfold epoll_wait. rewrite list_elem_of_omap. split.
  - intros ([fd v] & Hin & Hx). cbn in Hx. destruct (interest p !! fd) as [[e q]|] eqn:Hk; simplify_eq/=.
    destruct (interest_owner _ _ _ _ _ Hi Hk) as [? _]. eauto.
  - intros (fd & Hin & Hch). exists (fd, ev). split; [done|]. cbn.
    destruct (proj1 (Forall_forall _ _) Hr _ Hin) as (_ & _ & [e Hw]). cbn in Hw.
    destruct (interest p !! fd) as [[e' q]|] eqn:Hk; [|done]. cbn.
    destruct (interest_owner _ _ _ _ _ Hi Hk) as [? _]. by simplify_eq.
Qed.

Lemma epoll_wait_NoDup p w r : epoll_inv p w → NoDup r.*1 → NoDup (epoll_wait r p).*1.
Proof.
  intros Hi. induction r as [|[fd ev] r IH]; intros Hnd; [constructor|]. apply NoDup_cons in Hnd as [Hf Hnd].
  cbn. destruct (interest p !! fd) as [[e ptr]|] eqn:Hk; [|by apply IH]. cbn. constructor; [|by apply IH].
  intros ([q v] & E & ([fd' v'] & Hin & Hx)%list_elem_of_omap)%list_elem_of_fmap. cbn in E, Hx. subst q.
  destruct (interest p !! fd') as [[e' q']|] eqn:Hk'; simplify_eq/=.
  destruct (interest_owner _ _ _ _ _ Hi Hk) as (_ & c & Hc & <- & _).
  destruct (interest_owner _ _ _ _ _ Hi Hk') as (_ & c' & Hc' & <- & _). simplify_eq.
  apply Hf. apply list_elem_of_fmap. eexists (_, _). eauto.
Qed.

Lemma length_epoll_wait r p : (length (epoll_wait r p) ≤ length r)%nat.
Proof. induction r as [|x r IH]; cbn; [lia|]. destruct (_ <$> _); cbn; unfold epoll_wait in IH; lia. Qed.

Lemma epoll_poll_ok p w r :
  epoll_inv p w → report_ok r p →
  ∃ size, 0 < size ∧ epoll_poll (Some r) w p
    = Ok (mark_all (epoll_wait r p) w, mkEPollPoller (channels_ p) (interest p) size, (epoll_wait r p).*1).
Proof.
  intros Hi Hr. pose proof (ei_size _ _ Hi) as Hsz. unfold epoll_poll. destruct (Z.ltb_spec 0 (zlen (epoll_wait r p))) as [Hl|Hl].
  - rewrite (proj2 (Z.leb_le _ _)).
    + rewrite epoll_fill_ok; [cbn|].
      * eexists. split; [|done]. case_match; lia.
      * apply Forall_forall. intros [ptr ev] (fd & _ & Hch)%(epoll_wait_elem p w); [|done..].
        destruct (ei_chan _ _ Hi _ _ Hch) as (c & Hc & <- & _). eauto.
    + destruct Hr as (_ & Hroom & _). cbn in Hroom. pose proof (length_epoll_wait r p). lia.
  - assert (epoll_wait r p = []) as -> by (apply nil_length_inv; lia). exists (events_size p). by destruct p.
Qed.

#[global] Instance EPollPoller_Laws : PollerLaws EPollPoller.
Proof.
  constructor; cbn -[epoll_poll epoll_updateChannel epoll_removeChannel].
  - intros. by apply epoll_update_ok.
  - intros. by apply epoll_remove_ok.
  - intros r w p Hi Hr. destruct (epoll_poll_ok p w r Hi Hr) as (size & Hsz & ->). cbn.
    pose proof (strip_mark (epoll_wait r p) w) as Hs.
    split_and!; [|done|by apply strip_owner|by apply strip_handler|].
    + destruct (epoll_inv_strip _ _ _ Hs Hi) as [_ Hc Hk]. by constructor.
    + apply mark_delivers.
      * by eapply epoll_wait_NoDup, Hr.
      * intros. by eapply epoll_wait_elem.
      * intros fd ptr Hch. destruct (ei_chan _ _ Hi _ _ Hch) as (c & ? & ? & _). eauto.
  - done.
  - intros p w fd ptr Hi Hch. destruct (ei_chan _ _ Hi _ _ Hch) as (c & ? & ? & _). eauto.
  - intros p w fd e Hi Hw. destruct (interest p !! fd) as [[e' ptr]|] eqn:Hk; simplify_eq/=.
    destruct (interest_owner _ _ _ _ _ Hi Hk) as (? & c & ? & ? & ?). by exists ptr, c.
  - intros p w fd ptr c Hi Hch Hc He. destruct (ei_chan _ _ Hi _ _ Hch) as (d & Hd & <- & Hsy). simplify_eq.
    destruct Hsy as [[_ ->]|(_ & ? & _)]; [done|lia].
  - intros p w w' Hi E. constructor; [by apply (ei_size _ _ Hi)| |by apply (ei_kernel _ _ Hi)].
    intros fd ptr Hr. destruct (ei_chan _ _ Hi _ _ Hr) as (c & Hc & Hx).
    destruct (core_lookup _ _ _ _ (E _ _ Hr) Hc) as ([] & Hc' & [=]). destruct c. cbn in *. subst.
    eexists. split; [exact Hc'|exact Hx].
Qed.

End EPollPoller.


(** ** Clients of the interface

    What a loop does with its poller, proved from the laws alone. *)

Module Multiplexer.
Import Channel Poller.

Inductive action := Update (x : change) (ptr : Z) | Remove (ptr : Z) | Poll (r : option report).

Definition run_action `{Poller P} (a : action) (w : world) (p : P) : res (world * P * list Z) :=
  match a with
  | Update x ptr => let! (w, p) := channel_update x ptr w p in Ok (w, p, [])
  | Remove ptr => let! (w, p) := channel_remove ptr w p in Ok (w, p, [])
  | Poll r => poll r w p
  end.

(** The discipline the owners keep. *)
Definition allowed `{Poller P} (a : action) (w : world) (p : P) : Prop :=
  match a with
  | Update x ptr => ∃ c, w !! ptr = Some c ∧ 0 ≤ fd_ c ∧ may_update p ptr c (new_mask x (events_ c))
  | Remove ptr => ∃ c, w !! ptr = Some c ∧ events_ c = 0 ∧ registered p !! fd_ c = Some ptr
  | Poll None => True
  | Poll (Some r) => report_ok r p
  end.

(** The specification: which channel listens on a descriptor, and for what. *)
Abbreviation interests := (gmap Z (Z * Z)).

Definition view `{Poller P} (p : P) (w : world) : interests :=
  omap (λ ptr, (λ c, (ptr, events_ c)) <$> w !! ptr) (registered p).

Definition spec_step (a : action) (w : world) (s : interests) : interests :=
  match a with
  | Update x ptr =>
      match w !! ptr with Some c => <[fd_ c := (ptr, new_mask x (events_ c))]> s | None => s end
  | Remove ptr => match w !! ptr with Some c => delete (fd_ c) s | None => s end
  | Poll _ => s
  end.

(** [ptr] is to be called for the events [ev]. *)
Definition spec_active (a : action) (s : interests) (ptr ev : Z) : Prop :=
  match a with
  | Poll (Some r) => ∃ fd e, (fd, ev) ∈ r ∧ s !! fd = Some (ptr, e)
  | _ => False
  end.

(** The poller's invariant, masks made of the three event bits, and
    [addedToLoop_] telling the truth. *)
Record tidy `{Poller P} (p : P) (w : world) : Prop := {
  ti_inv : poller_inv p w;
  ti_mask : ∀ ptr c, w !! ptr = Some c → 0 ≤ events_ c < 8;
  ti_added : ∀ ptr c, w !! ptr = Some c → addedToLoop_ c = bool_decide (registered p !! fd_ c = Some ptr);
}.

(** The kernel watches exactly what the channels ask for. *)
Definition watches_exactly `{Poller P} (p : P) (s : interests) : Prop :=
  ∀ fd e, e ≠ 0 → watched p fd = Some e ↔ ∃ ptr, s !! fd = Some (ptr, e).

Lemma new_mask_range x e : 0 ≤ e < 8 → 0 ≤ new_mask x e < 8.
Proof.
  intros He. assert (e ∈ seqZ 0 8) as Hin by (apply elem_of_seqZ; lia). revert Hin. clear He.
  apply (proj1 (Forall_forall (λ e, 0 ≤ new_mask x e < 8) (seqZ 0 8))).
  destruct x; (repeat constructor); vm_compute; congruence.
Qed.

Lemma owner_lookup (w w' : world) ptr c :
  owner_view <$> w' = owner_view <$> w → w' !! ptr = Some c → ∃ c0, w !! ptr = Some c0 ∧ owner_view c0 = owner_view c.
Proof.
  intros E Hc. assert ((owner_view <$> w) !! ptr = Some (owner_view c)) as L by (by rewrite <- E, lookup_fmap, Hc).
  rewrite lookup_fmap in L. apply fmap_Some in L as (c0 & ? & ?). eauto.
Qed.

Section client.
Context `{PollerLaws P}.
Implicit Types (p : P) (w : world).

Lemma view_lookup p w fd ptr e :
  poller_inv p w → view p w !! fd = Some (ptr, e) ↔
  registered p !! fd = Some ptr ∧ ∃ c, w !! ptr = Some c ∧ events_ c = e.
Proof.
  intros Hi. unfold view. rewrite lookup_omap. split.
  - intros (q & Hq & Hx)%bind_Some. destruct (w !! q) as [c|] eqn:Hc; simplify_eq/=. eauto.
  - intros (Hr & c & Hc & <-). rewrite Hr. cbn. by rewrite Hc.
Qed.

Lemma view_ext p w p' w' :
  owner_view <$> w' = owner_view <$> w → registered p' = registered p → view p' w' = view p w.
Proof.
  intros E Hr. unfold view. rewrite Hr. apply map_eq. intros fd. rewrite !lookup_omap.
  destruct (registered p !! fd) as [ptr|]; [|done]. cbn.
  assert ((owner_view <$> w') !! ptr = (owner_view <$> w) !! ptr) as L by by rewrite E.
  rewrite !lookup_fmap in L. destruct (w' !! ptr), (w !! ptr); cbn in *; try done.
  injection L. congruence.
Qed.

Lemma tidy_watches p w : tidy p w → watches_exactly p (view p w).
Proof.
  intros Ht fd e He. pose proof (ti_inv _ _ Ht) as Hi. split.
  - intros Hw. destruct (inv_watched _ _ _ _ Hi Hw) as (ptr & c & ? & ? & ? & ?).
    exists ptr. apply view_lookup; eauto.
  - intros (ptr & (Hr & c & Hc & <-)%view_lookup); [|done]. by eapply inv_interest.
Qed.

(** A registered channel is registered for its own descriptor only. *)
Lemma registered_own p w fd ptr c :
  poller_inv p w → registered p !! fd = Some ptr → w !! ptr = Some c → fd_ c = fd.
Proof. intros Hi Hr Hc. destruct (inv_registered _ _ _ _ Hi Hr) as (d & Hd & ?). by simplify_eq. Qed.

Lemma update_step p w x ptr c :
  tidy p w → w !! ptr = Some c → 0 ≤ fd_ c → may_update p ptr c (new_mask x (events_ c)) →
  wp (channel_update x ptr w p) (λ '(w', p'),
    tidy p' w' ∧ view p' w' = <[fd_ c := (ptr, new_mask x (events_ c))]> (view p w)).
Proof.
  intros [Hi Hm Ha] Hc Hfd0 Hu. pose proof (new_mask_range x _ (Hm _ _ Hc)) as He.
  unfold channel_update. rewrite Hc. eapply wp_mono; [apply update_law; auto; unfold mask_ok; lia|].
  intros [w' p'] (Hi' & Hr & c' & -> & [= Hf Hev Had] & _).
  assert (∀ fd q, q ≠ ptr → registered p' !! fd = Some q ↔ registered p !! fd = Some q) as Hoth.
  { intros fd q Hq. rewrite Hr, lookup_insert_Some. split; [intros [[_ ->]|[_ ?]]; congruence|].
    intros Hfd. right. split; [|done]. intros <-. destruct Hu as [?|[? _]]; congruence. }
  split; [split; [done|..]|].
  - intros q d [[<- <-]|[Hq Hd]]%lookup_insert_Some; [by rewrite Hev|by eapply Hm].
  - intros q d [[<- <-]|[Hq Hd]]%lookup_insert_Some.
    + rewrite Had, bool_decide_true; [done|]. by rewrite Hr, Hf, lookup_insert_eq.
    + rewrite (Ha _ _ Hd). apply bool_decide_ext. symmetry. by apply Hoth.
  - apply map_eq. intros fd. unfold view. rewrite lookup_omap, Hr. destruct (decide (fd = fd_ c)) as [->|Hfd].
    + rewrite !lookup_insert_eq. cbn. rewrite lookup_insert_eq. cbn. by rewrite Hev.
    + rewrite !lookup_insert_ne, lookup_omap by done. destruct (registered p !! fd) as [q|] eqn:Hq; [|done].
      cbn. rewrite lookup_insert_ne; [done|]. intros <-. apply Hfd. symmetry. by apply (registered_own p w fd ptr).
Qed.

Lemma remove_step p w ptr c :
  tidy p w → w !! ptr = Some c → events_ c = 0 → registered p !! fd_ c = Some ptr →
  wp (channel_remove ptr w p) (λ '(w', p'), tidy p' w' ∧ view p' w' = delete (fd_ c) (view p w)).
Proof.
  intros [Hi Hm Ha] Hc He Hr. unfold channel_remove. rewrite Hc. unfold isNoneEvent. rewrite He. cbn [Z.eqb kNoneEvent].
  eapply wp_mono; [by apply remove_law|]. intros [w' p'] (Hi' & Hr' & Hv & _).
  split; [split; [done|..]|].
  - intros q d (d0 & [[<- <-]|[Hq Hd0]]%lookup_insert_Some & [= _ E _])%(owner_lookup _ _ _ _ Hv);
      rewrite <- E; [cbn; lia|by eapply Hm].
  - intros q d (d0 & [[<- <-]|[Hq Hd0]]%lookup_insert_Some & [= Ef _ Ea])%(owner_lookup _ _ _ _ Hv);
      rewrite <- Ef, <- Ea, Hr'; cbn.
    + by rewrite bool_decide_false by by rewrite lookup_delete_eq.
    + rewrite (Ha _ _ Hd0). apply bool_decide_ext. rewrite lookup_delete_Some. split; [|by intros [_ ?]].
      intros Hd. split; [|done]. intros F. rewrite <- F in Hd. congruence.
  - apply map_eq. intros fd. unfold view. rewrite lookup_omap, Hr'. destruct (decide (fd = fd_ c)) as [->|Hfd].
    + by rewrite !lookup_delete_eq.
    + rewrite !lookup_delete_ne, lookup_omap by done. destruct (registered p !! fd) as [q|] eqn:Hq; [|done]. cbn.
      assert (q ≠ ptr) as Hqp by (intros ->; apply Hfd; symmetry; by apply (registered_own p w fd ptr)).
      assert ((owner_view <$> w') !! q = (owner_view <$> w) !! q) as L.
      { by rewrite Hv, !lookup_fmap, lookup_insert_ne. }
      rewrite !lookup_fmap in L. destruct (w' !! q), (w !! q); cbn in *; try done. injection L. congruence.
Qed.

Lemma poll_step p w r :
  tidy p w → report_ok r p →
  wp (poll (Some r) w p) (λ '(w', p', active), tidy p' w' ∧ view p' w' = view p w ∧
    (∀ ptr, ptr ∈ active ↔ ∃ ev, spec_active (Poll (Some r)) (view p w) ptr ev) ∧
    (∀ ptr ev, spec_active (Poll (Some r)) (view p w) ptr ev → ∃ c, w' !! ptr = Some c ∧ revents_ c = ev)).
Proof.
  intros [Hi Hm Ha] Hr. eapply wp_mono; [by apply poll_law|].
  intros [[w' p'] active] (Hi' & Hreg & Hv & _ & Hact & Hev & _).
  assert (∀ ptr ev, spec_active (Poll (Some r)) (view p w) ptr ev ↔
    ∃ fd, (fd, ev) ∈ r ∧ registered p !! fd = Some ptr) as Hs.
  { intros ptr ev. cbn. split.
    - intros (fd & e & Hin & (Hch & _)%view_lookup); [eauto|done].
    - intros (fd & Hin & Hch). destruct (inv_registered _ _ _ _ Hi Hch) as (c & Hc & _).
      exists fd, (events_ c). split; [done|]. apply view_lookup; eauto. }
  split_and!; [split; [done|..]|by apply view_ext|..].
  - intros q d (d0 & Hd0 & [= _ E _])%(owner_lookup _ _ _ _ Hv). rewrite <- E. by eapply Hm.
  - intros q d (d0 & Hd0 & [= Ef _ Ea])%(owner_lookup _ _ _ _ Hv). rewrite <- Ef, <- Ea, Hreg. by apply Ha.
  - intros ptr. rewrite Hact. setoid_rewrite Hs. split; intros (? & ? & ?); eauto.
  - intros ptr ev (fd & Hin & Hch)%Hs. destruct (Hev _ _ _ Hin Hch) as (c & Hc & _ & ?). eauto.
Qed.

(** C4. The multiplexer: for a poller that meets the laws, every update, removal and
    poll that respects the discipline succeeds, keeps the invariant, changes the
    registered channels exactly as the specification says, leaves the kernel watching
    each registered channel's mask and nothing else, and a poll makes active exactly
    the channels of the reported descriptors, each with its reported events. *)
Theorem multiplexer_refines p w a :
  tidy p w → allowed a w p →
  wp (run_action a w p) (λ '(w', p', active),
    tidy p' w' ∧ view p' w' = spec_step a w (view p w) ∧ watches_exactly p' (view p' w') ∧
    (∀ ptr, ptr ∈ active ↔ ∃ ev, spec_active a (view p w) ptr ev) ∧
    (∀ ptr ev, spec_active a (view p w) ptr ev → ∃ c, w' !! ptr = Some c ∧ revents_ c = ev)).
Proof.
  intros Ht. destruct a as [x ptr|ptr|[r|]]; cbn [allowed run_action spec_step].
  - intros (c & Hc & Hf & Hu). rewrite Hc. eapply wp_bind; [by apply update_step|].
    intros [w' p'] [Ht' Hv]. cbn. split_and!; [done..|by apply tidy_watches| |done].
    intros q. split; [by intros ?%elem_of_nil|by intros [? []]].
  - intros (c & Hc & He & Hr). rewrite Hc. eapply wp_bind; [by apply remove_step|].
    intros [w' p'] [Ht' Hv]. cbn. split_and!; [done..|by apply tidy_watches| |done].
    intros q. split; [by intros ?%elem_of_nil|by intros [? []]].
  - intros Hr. eapply wp_mono; [by apply poll_step|]. intros [[w' p'] active] (? & Hv & ? & ?).
    split_and!; [done..|by apply tidy_watches|done|done].
  - intros _. rewrite poll_failed_law. cbn. split_and!; [done..|by apply tidy_watches| |done].
    intros q. split; [by intros ?%elem_of_nil|by intros [? []]].
Qed.

End client.

(** Channels nobody has registered yet. *)
Definition fresh (w : world) : Prop :=
  ∀ ptr c, w !! ptr = Some c → events_ c = 0 ∧ addedToLoop_ c = false.

Lemma fresh_tidy `{Poller P} (p : P) w : poller_inv p w → registered p = ∅ → fresh w → tidy p w.
Proof.
  intros Hi Hr Hf. split; [done|..].
  - intros ptr c [-> _]%Hf. lia.
  - intros ptr c [_ ->]%Hf. by rewrite Hr, lookup_empty, bool_decide_false.
Qed.

Lemma fresh_epoll w : fresh w → tidy EPollPoller.new_EPollPoller w.
Proof. intros Hf. apply fresh_tidy; [|done..]. split; [done|done|cbn; by intros fd [? ?]]. Qed.

Lemma fresh_poll w : fresh w → tidy PollPoller.new_PollPoller w.
Proof. intros Hf. apply fresh_tidy; [|done..]. split; cbn; done. Qed.

Definition sample_world : world := {[ 1 := new_Channel 5; 2 := new_Channel 7 ]}.

Lemma sample_fresh : fresh sample_world.
Proof.
  intros ptr c Hc. unfold sample_world in Hc.
  apply lookup_insert_Some in Hc as [[_ <-]|[_ Hc]]; [done|].
  by apply lookup_singleton_Some in Hc as [_ <-].
Qed.

Lemma multiplexer_refines_witness :
  wp (run_action (Update enableReading 1) sample_world EPollPoller.new_EPollPoller) (λ '(w', p', active),
    watches_exactly p' {[ 5 := (1, 3) ]} ∧ active = []) ∧
  wp (run_action (Update enableReading 1) sample_world PollPoller.new_PollPoller) (λ '(w', p', active),
    watches_exactly p' {[ 5 := (1, 3) ]}).
Proof.
  split.
  - pose proof (multiplexer_refines EPollPoller.new_EPollPoller sample_world (Update enableReading 1)
      (fresh_epoll _ sample_fresh) ltac:(exists (new_Channel 5); vm_compute; intuition congruence)) as W.
    revert W. cbn. intros (_ & _ & Hw & _). split; [exact Hw|done].
  - pose proof (multiplexer_refines PollPoller.new_PollPoller sample_world (Update enableReading 1)
      (fresh_poll _ sample_fresh) ltac:(exists (new_Channel 5); vm_compute; intuition congruence)) as W.
    revert W. cbn. intros (_ & _ & Hw & _). exact Hw.
Defined.

(** [disableAll(); remove();] on a channel: what the destructors of [Acceptor] and
    [TimerQueue] do. *)
Definition retire `{Poller P} (ptr : Z) (w : world) (p : P) : res (world * P) :=
  let! (w, p) := channel_update disableAll ptr w p in
  channel_remove ptr w p.

(** Retiring a channel that was never enabled (an [Acceptor] destroyed before
    [listen()]) is fine with [EPollPoller] but with [PollPoller] fails the assertion
    of [removeChannel]: the entry of a new channel is added with its descriptor even
    when the mask is empty, while [removeChannel] expects an ignored entry. *)
Theorem idle_retire_differs ptr c w (p : PollPoller.PollPoller) (q : EPollPoller.EPollPoller) :
  w !! ptr = Some c → index_ c = -1 →
  registered p !! fd_ c = None →
  EPollPoller.epoll_inv q w → registered q !! fd_ c = None →
  retire ptr w p = Err AssertFailed ∧
  wp (retire ptr w q) (λ '(w', q'), EPollPoller.epoll_inv q' w' ∧ registered q' = registered q).
Proof.
  intros Hc Hx Hp Hi Hq. split.
  - unfold retire, channel_update. rewrite Hc. cbn [updateChannel PollPoller.PollPoller_Poller].
    unfold PollPoller.poll_updateChannel, deref. rewrite lookup_insert_eq. cbn. rewrite Hx. cbn in Hp |- *.
    rewrite bool_decide_true by done. cbn. unfold channel_remove. rewrite lookup_insert_eq. cbn.
    unfold PollPoller.poll_removeChannel, deref. rewrite lookup_insert_eq. cbn.
    rewrite lookup_insert_eq, !bool_decide_true by eauto. rewrite length_app. cbn [length].
    rewrite (proj2 (Z.leb_le _ _)), (proj2 (Z.ltb_lt _ _)) by lia. cbn.
    rewrite list_lookup_middle, last_snoc by lia. cbn.
    by rewrite (proj2 (Z.eqb_neq _ _)) by lia.
  - unfold retire. set (c' := set_index EPollPoller.kAdded (set_added true (set_events 0 c))).
    assert (channel_update disableAll ptr w q = Ok (<[ptr := c']> w, EPollPoller.mkEPollPoller
      (<[fd_ c := ptr]> (EPollPoller.channels_ q)) (<[fd_ c := (0, ptr)]> (EPollPoller.interest q)) (EPollPoller.events_size q))) as E.
    { unfold channel_update. rewrite Hc. cbn. unfold EPollPoller.epoll_updateChannel, deref.
      rewrite lookup_insert_eq. cbn. rewrite Hx. cbn. rewrite bool_decide_true by done. cbn.
      unfold EPollPoller.update. cbn. destruct (EPollPoller.interest q !! fd_ c) eqn:Ek.
      - destruct (EPollPoller.ei_kernel _ _ Hi (fd_ c) ltac:(eauto)) as [? F]. cbn in Hq. congruence.
      - cbn. by rewrite insert_insert_eq. }
    rewrite E. cbn [res_bind]. unfold channel_remove. rewrite lookup_insert_eq. cbn [isNoneEvent c' events_ set_index set_added set_events Z.eqb kNoneEvent].
    eapply wp_mono; [apply EPollPoller.epoll_remove_ok; [|by rewrite lookup_insert_eq|done|cbn; by rewrite lookup_insert_eq]|].
    + eapply (EPollPoller.epoll_inv_set q); [done|done|done|apply (EPollPoller.ei_size _ _ Hi)|done| |].
      * intros fd Hfd. cbn. by rewrite lookup_insert_ne.
      * left. cbn. by rewrite lookup_insert_eq.
    + intros [w' q'] (Hi' & Hr & _). split; [done|]. cbn in *. rewrite Hr. by rewrite delete_insert_id.
Qed.

Lemma idle_retire_differs_witness :
  retire 1 sample_world PollPoller.new_PollPoller = Err AssertFailed ∧
  ∃ w' q', retire 1 sample_world EPollPoller.new_EPollPoller = Ok (w', q').
Proof.
  destruct (idle_retire_differs 1 (new_Channel 5) sample_world PollPoller.new_PollPoller
    EPollPoller.new_EPollPoller) as [H1 H2]; [done..|apply (ti_inv _ _ (fresh_epoll _ sample_fresh))|done|].
  split; [exact H1|]. apply wp_elim in H2 as ([w' q'] & H2 & _). by exists w', q'.
Defined.

End Multiplexer.
