(* ===== verification/TcpConnection.v ===== *)
(** A TCP connection ([netLayer/tcp/TcpConnection.h], [TcpConnection.cpp]), with the
    parts of [TcpServer.cpp] and [Socket.cpp] that end its life.

    The state is the connection's fields plus what its environment holds of it: the
    socket, the functors queued in its loop, the timers, the calls of other threads
    that are under way, and the server's reference.  The loop is single threaded, so
    a handler runs to its end before the next event; what other threads do (checking
    [state_] and queueing) happens between handlers.  The program that uses the
    connection is a parameter [user]: for each callback, the calls it makes. *)

From S2P Require Import Prelude Buffer Poller.

Module TcpConnection.
Import Buffer Channel.

Inductive StateE := kDisconnected | kConnecting | kConnected | kDisconnecting.

#[global] Instance StateE_eq_dec : EqDecision StateE.
Proof. solve_decision. Defined.

(** write(2): how much the kernel is willing to take, or the error. *)
Inductive errno := EWOULDBLOCK | EPIPE | ECONNRESET | EOTHER.
Inductive write_result := Wrote (n : Z) | WFail (e : errno).

#[global] Instance errno_eq_dec : EqDecision errno.
Proof. solve_decision. Defined.

(** What is queued in the loop.  [FSend] holds a bare [this]; the others hold a
    [shared_ptr]. *)
Inductive functor :=
| FSend (d : bytes)
| FWriteComplete
| FHighWater (n : Z)
| FForceClose
| FDestroy.

#[global] Instance functor_eq_dec : EqDecision functor.
Proof. solve_decision. Defined.

(** The socket: answers of write(2) to come, bytes it took, whether the write side
    is shut, [Socket::setSolinger_], and how often the descriptor was closed. *)
Record Sock := mkSock {
  writes : list write_result;
  wire : bytes;
  fin : bool;
  setSolinger_ : bool;
  closes : Z;
}.

(** The surroundings: queued functors, delayed [forceClose] timers, sends of other
    threads that passed their check of [state_], the entry in
    [TcpServer::connections_], what each call of [connectionCallback_] saw, the bytes
    accepted for sending and the bytes read so far, and whether the object exists. *)
Record Env := mkEnv {
  pending : list functor;
  timers : Z;
  inflight : list bytes;
  in_map : bool;
  updown : list bool;
  accepted : bytes;
  received : bytes;
  alive : bool;
}.

Record Conn := mkConn {
  state_ : StateE;
  reading_ : bool;
  channel_ : Channel;
  inputBuffer_ : Buffer;
  outputBuffer_ : Buffer;
  highWaterMark_ : Z;
  hasWriteComplete : bool;
  hasHighWater : bool;
  closeFlag_ : bool;
  forceFlag_ : bool;
  dissByPeer_ : bool;
  sock : Sock;
  env : Env;
}.

Definition set_writes (v : list write_result) (x : Sock) : Sock :=
  mkSock v (wire x) (fin x) (setSolinger_ x) (closes x).
Definition set_wire (v : bytes) (x : Sock) : Sock :=
  mkSock (writes x) v (fin x) (setSolinger_ x) (closes x).
Definition set_fin (v : bool) (x : Sock) : Sock :=
  mkSock (writes x) (wire x) v (setSolinger_ x) (closes x).
Definition set_setSolinger (v : bool) (x : Sock) : Sock :=
  mkSock (writes x) (wire x) (fin x) v (closes x).
Definition set_closes (v : Z) (x : Sock) : Sock :=
  mkSock (writes x) (wire x) (fin x) (setSolinger_ x) v.

Definition set_pending (v : list functor) (x : Env) : Env :=
  mkEnv v (timers x) (inflight x) (in_map x) (updown x) (accepted x) (received x) (alive x).
Definition set_timers (v : Z) (x : Env) : Env :=
  mkEnv (pending x) v (inflight x) (in_map x) (updown x) (accepted x) (received x) (alive x).
Definition set_inflight (v : list bytes) (x : Env) : Env :=
  mkEnv (pending x) (timers x) v (in_map x) (updown x) (accepted x) (received x) (alive x).
Definition set_in_map (v : bool) (x : Env) : Env :=
  mkEnv (pending x) (timers x) (inflight x) v (updown x) (accepted x) (received x) (alive x).
Definition set_updown (v : list bool) (x : Env) : Env :=
  mkEnv (pending x) (timers x) (inflight x) (in_map x) v (accepted x) (received x) (alive x).
Definition set_accepted (v : bytes) (x : Env) : Env :=
  mkEnv (pending x) (timers x) (inflight x) (in_map x) (updown x) v (received x) (alive x).
Definition set_received (v : bytes) (x : Env) : Env :=
  mkEnv (pending x) (timers x) (inflight x) (in_map x) (updown x) (accepted x) v (alive x).
Definition set_alive (v : bool) (x : Env) : Env :=
  mkEnv (pending x) (timers x) (inflight x) (in_map x) (updown x) (accepted x) (received x) v.

Definition set_state (v : StateE) (x : Conn) : Conn :=
  mkConn v (reading_ x) (channel_ x) (inputBuffer_ x) (outputBuffer_ x) (highWaterMark_ x) (hasWriteComplete x) (hasHighWater x) (closeFlag_ x) (forceFlag_ x) (dissByPeer_ x) (sock x) (env x).
Definition set_reading (v : bool) (x : Conn) : Conn :=
  mkConn (state_ x) v (channel_ x) (inputBuffer_ x) (outputBuffer_ x) (highWaterMark_ x) (hasWriteComplete x) (hasHighWater x) (closeFlag_ x) (forceFlag_ x) (dissByPeer_ x) (sock x) (env x).
Definition set_channel (v : Channel) (x : Conn) : Conn :=
  mkConn (state_ x) (reading_ x) v (inputBuffer_ x) (outputBuffer_ x) (highWaterMark_ x) (hasWriteComplete x) (hasHighWater x) (closeFlag_ x) (forceFlag_ x) (dissByPeer_ x) (sock x) (env x).
Definition set_inputBuffer (v : Buffer) (x : Conn) : Conn :=
  mkConn (state_ x) (reading_ x) (channel_ x) v (outputBuffer_ x) (highWaterMark_ x) (hasWriteComplete x) (hasHighWater x) (closeFlag_ x) (forceFlag_ x) (dissByPeer_ x) (sock x) (env x).
Definition set_outputBuffer (v : Buffer) (x : Conn) : Conn :=
  mkConn (state_ x) (reading_ x) (channel_ x) (inputBuffer_ x) v (highWaterMark_ x) (hasWriteComplete x) (hasHighWater x) (closeFlag_ x) (forceFlag_ x) (dissByPeer_ x) (sock x) (env x).
Definition set_closeFlag (v : bool) (x : Conn) : Conn :=
  mkConn (state_ x) (reading_ x) (channel_ x) (inputBuffer_ x) (outputBuffer_ x) (highWaterMark_ x) (hasWriteComplete x) (hasHighWater x) v (forceFlag_ x) (dissByPeer_ x) (sock x) (env x).
Definition set_forceFlag (v : bool) (x : Conn) : Conn :=
  mkConn (state_ x) (reading_ x) (channel_ x) (inputBuffer_ x) (outputBuffer_ x) (highWaterMark_ x) (hasWriteComplete x) (hasHighWater x) (closeFlag_ x) v (dissByPeer_ x) (sock x) (env x).
Definition set_dissByPeer (v : bool) (x : Conn) : Conn :=
  mkConn (state_ x) (reading_ x) (channel_ x) (inputBuffer_ x) (outputBuffer_ x) (highWaterMark_ x) (hasWriteComplete x) (hasHighWater x) (closeFlag_ x) (forceFlag_ x) v (sock x) (env x).
Definition set_sock (v : Sock) (x : Conn) : Conn :=
  mkConn (state_ x) (reading_ x) (channel_ x) (inputBuffer_ x) (outputBuffer_ x) (highWaterMark_ x) (hasWriteComplete x) (hasHighWater x) (closeFlag_ x) (forceFlag_ x) (dissByPeer_ x) v (env x).
Definition set_env (v : Env) (x : Conn) : Conn :=
  mkConn (state_ x) (reading_ x) (channel_ x) (inputBuffer_ x) (outputBuffer_ x) (highWaterMark_ x) (hasWriteComplete x) (hasHighWater x) (closeFlag_ x) (forceFlag_ x) (dissByPeer_ x) (sock x) v.

Definition on_sock (f : Sock → Sock) (c : Conn) : Conn := set_sock (f (sock c)) c.
Definition on_env (f : Env → Env) (c : Conn) : Conn := set_env (f (env c)) c.

(** [loop_->queueInLoop]. *)
Definition queue (f : functor) : Conn → Conn :=
  on_env (λ e, set_pending (pending e ++ [f]) e).

(** A change of the channel's mask; the poller accepts it (see [Multiplexer]). *)
Definition chan (x : change) (c : Conn) : Conn :=
  set_channel (set_added true (set_events (new_mask x (events_ (channel_ c))) (channel_ c))) c.

(** The constructor, given the buffers. *)
Definition new_TcpConnection (sockfd : Z) (inb outb : Buffer) (script : list write_result)
    (writeComplete highWater : bool) (mark : Z) : Conn :=
  mkConn kConnecting true (new_Channel sockfd) inb outb mark writeComplete highWater false false false
    (mkSock script [] false false 0) (mkEnv [] 0 [] true [] [] [] true).

(** [sockets::write]: the kernel takes a prefix; nothing after the write side is shut. *)
Definition kernel_write (data : bytes) (c : Conn) : write_result * Conn :=
  if fin (sock c) then (WFail EPIPE, c)
  else match writes (sock c) with
  | [] => (WFail EWOULDBLOCK, c)
  | WFail e :: ws => (WFail e, on_sock (set_writes ws) c)
  | Wrote n :: ws =>
      let n := Z.max 0 (Z.min n (zlen data)) in
      (Wrote n, on_sock (λ s, set_wire (wire s ++ ztake n data) (set_writes ws s)) c)
  end.

(** Note the bytes accepted for sending; the model's record of them. *)
Definition accept (data : bytes) : Conn → Conn :=
  on_env (λ e, set_accepted (accepted e ++ data) e).

(** The second half of [sendInLoop]: what the kernel did not take is buffered. *)
Definition send_rest (rest : bytes) (remaining : Z) (c : Conn) : res Conn :=
  if 0 <? remaining then
    let oldLen := readableBytes (outputBuffer_ c) in
    let total := u64 (oldLen + remaining) in
    let c := if (highWaterMark_ c <=? total) && (oldLen <? highWaterMark_ c) && hasHighWater c
             then queue (FHighWater total) c else c in
    let! out := append rest remaining (outputBuffer_ c) in
    let c := set_outputBuffer out c in
    Ok (if isWriting (channel_ c) then c else chan enableWriting c)
  else Ok c.

Definition sendInLoop (data : bytes) (len : Z) (c : Conn) : res Conn :=
  if bool_decide (state_ c = kDisconnected) then Ok c
  else if zlen data <? len then Err OutOfRange
  else
    let data := ztake len data in
    let '(nwrote, remaining, faultError, c) :=
      (if negb (isWriting (channel_ c)) && (readableBytes (outputBuffer_ c) =? 0) then
         match kernel_write data c with
         | (Wrote nwrote, c) =>
             let remaining := u64 (len - nwrote) in
             (nwrote, remaining, false,
              if (remaining =? 0) && hasWriteComplete c then queue FWriteComplete c else c)
         | (WFail e, c) => (0, len, bool_decide (e = EPIPE) || bool_decide (e = ECONNRESET), c)
         end
       else (0, len, false, c)) in
    assert! remaining <=? len in
    if negb faultError then send_rest (zdrop nwrote data) remaining (accept data c) else Ok c.

(** [send(const StringPiece&)] in the loop's thread. *)
Definition send (message : StringPiece) (c : Conn) : res Conn :=
  if bool_decide (state_ c = kConnected)
  then sendInLoop (sp_data message) (u64 (sp_size message)) c else Ok c.

(** [send] of a buffer, in the thread of the loop. *)
Definition send_buffer (buf : Buffer) (c : Conn) : res (Buffer * Conn) :=
  if bool_decide (state_ c = kConnected) then
    let! c := sendInLoop (peek_bytes (readableBytes buf) buf) (readableBytes buf) c in
    Ok (retrieveAll buf, c)
  else Ok (buf, c).

Definition forceClose (c : Conn) : Conn :=
  if bool_decide (state_ c = kConnected) || bool_decide (state_ c = kDisconnecting)
  then queue FForceClose (set_state kDisconnecting c) else c.

Definition forceCloseWithDelay (c : Conn) : Conn :=
  if bool_decide (state_ c = kConnected) || bool_decide (state_ c = kDisconnecting)
  then on_env (λ e, set_timers (timers e + 1) e) (set_state kDisconnecting c) else c.

Definition startReadInLoop (c : Conn) : Conn :=
  if negb (reading_ c) || negb (isReading (channel_ c)) then set_reading true (chan enableReading c) else c.
Definition stopReadInLoop (c : Conn) : Conn :=
  if reading_ c || isReading (channel_ c) then set_reading false (chan disableReading c) else c.
Definition startWriteInLoop (c : Conn) : Conn :=
  if negb (isWriting (channel_ c)) then chan enableWriting c else c.
Definition stopWriteInLoop (c : Conn) : Conn :=
  if isWriting (channel_ c) then chan disableWriting c else c.

(** Closing is recursive through the user's callbacks: [close] is [handleClose]. *)
Definition shutdownInLoop (close : Conn → res Conn) (c : Conn) : res Conn :=
  if negb (isWriting (channel_ c)) then
    let c := on_sock (set_fin true) c in
    if dissByPeer_ c then close c else Ok c
  else Ok c.

Definition shutdown (close : Conn → res Conn) (c : Conn) : res Conn :=
  if bool_decide (state_ c = kConnected)
  then shutdownInLoop close (set_state kDisconnecting (set_closeFlag true c)) else Ok c.

(** What a callback may do with the connection.  [Consume n] takes up to [n] bytes
    of the input buffer. *)
Inductive act :=
| Send (d : bytes) | Shutdown | ForceClose | ForceCloseWithDelay
| StartRead | StopRead | StartWrite | StopWrite | Consume (n : Z).

(** No program sends a message of 2 GiB, or 2^62 bytes in all. *)
Definition sendable (d : bytes) (c : Conn) : bool :=
  (zlen d <? 2 ^ 31) && (zlen (accepted (env c)) + zlen d <=? 2 ^ 62).

Definition do_act (close : Conn → res Conn) (a : act) (c : Conn) : res Conn :=
  match a with
  | Send d => if sendable d c then send (piece d) c else Ok c
  | Shutdown => shutdown close c
  | ForceClose => Ok (forceClose c)
  | ForceCloseWithDelay => Ok (forceCloseWithDelay c)
  | StartRead => Ok (startReadInLoop c)
  | StopRead => Ok (stopReadInLoop c)
  | StartWrite => Ok (startWriteInLoop c)
  | StopWrite => Ok (stopWriteInLoop c)
  | Consume n =>
      let! b := retrieve (Z.max 0 (Z.min n (readableBytes (inputBuffer_ c)))) (inputBuffer_ c) in
      Ok (set_inputBuffer b c)
  end.

Fixpoint do_acts (close : Conn → res Conn) (l : list act) (c : Conn) : res Conn :=
  match l with
  | [] => Ok c
  | a :: l => let! c := do_act close a c in do_acts close l c
  end.

(** The callbacks the user sets. *)
Inductive notice := NConnection | NMessage | NWriteComplete | NHighWater (n : Z).

(** [closeCallback_]: [TcpServer::removeConnection], which forgets the connection
    and queues [connectDestroyed].  The server's own assertion cannot fail, since
    [operator[]] inserts what is missing; that the entry is there is demanded here and
    shown never to fail.  [TcpServer] models the detour through the loops. *)
Definition closeCallback (c : Conn) : res Conn :=
  assert! in_map (env c) in
  Ok (queue FDestroy (on_env (set_in_map false) c)).

Section handlers.
Context (user : notice → Conn → list act).

(** [connectionCallback_(shared_from_this())]. *)
Definition connectionCallback (close : Conn → res Conn) (c : Conn) : res Conn :=
  let c := on_env (λ e, set_updown (updown e ++ [bool_decide (state_ c = kConnected)]) e) c in
  do_acts close (user NConnection c) c.

Fixpoint handleClose (fuel : nat) (c : Conn) : res Conn :=
  match fuel with
  | O => Err OutOfFuel
  | S fuel =>
      assert! bool_decide (state_ c = kConnected) || bool_decide (state_ c = kDisconnecting) in
      if closeFlag_ c then
        let c := chan disableAll (set_state kDisconnected c) in
        let! c := connectionCallback (handleClose fuel) c in
        closeCallback c
      else shutdown (handleClose fuel) (set_dissByPeer true c)
  end.

(** Two nested calls are the deepest there are ([close_fuel] below). *)
Definition close : Conn → res Conn := handleClose 2.

Definition forceCloseInLoop (c : Conn) : res Conn :=
  if bool_decide (state_ c = kConnected) || bool_decide (state_ c = kDisconnecting) then
    close (on_sock (set_setSolinger true) (set_forceFlag true (set_closeFlag true c)))
  else Ok c.

Definition connectEstablished (c : Conn) : res Conn :=
  assert! bool_decide (state_ c = kConnecting) in
  let c := set_state kConnected c in
  let c := set_channel (tie (channel_ c)) c in
  connectionCallback close (chan enableReading c).

Definition connectDestroyed (c : Conn) : res Conn :=
  let! c :=
    (if bool_decide (state_ c = kConnected)
     then connectionCallback close (chan disableAll (set_state kDisconnected c)) else Ok c) in
  assert! isNoneEvent (channel_ c) in
  let c := set_channel (set_added false (channel_ c)) c in
  Ok (if forceFlag_ c then on_sock (λ s, set_closes (closes s + 1) s) c else c).

(** [handleError] reads [SO_ERROR] and logs it. *)
Definition handleError (c : Conn) : Conn := c.

Definition handleRead (r : readv_result) (c : Conn) : res Conn :=
  let! (n, e, b) := readFd (λ _, r) (inputBuffer_ c) in
  let c := set_inputBuffer b c in
  if 0 <? n then
    let c := on_env (λ e, set_received (received e ++ match r with inr d => d | inl _ => [] end) e) c in
    do_acts close (user NMessage c) c
  else if n =? 0 then close c
  else Ok (handleError c).

Definition handleWrite (c : Conn) : res Conn :=
  if isWriting (channel_ c) then
    match kernel_write (peek_bytes (readableBytes (outputBuffer_ c)) (outputBuffer_ c)) c with
    | (Wrote n, c) =>
        if 0 <? n then
          let! out := retrieve n (outputBuffer_ c) in
          let c := set_outputBuffer out c in
          if readableBytes out =? 0 then
            let c := chan disableWriting c in
            let c := if hasWriteComplete c then queue FWriteComplete c else c in
            if bool_decide (state_ c = kDisconnecting) then shutdownInLoop close c else Ok c
          else Ok c
        else Ok c
    | (WFail _, c) => Ok c
    end
  else Ok c.

(** The channel's callbacks, as the constructor sets them. *)
Definition run_callback (r : readv_result) (cb : callback) (c : Conn) : res Conn :=
  match cb with
  | CbClose => close c
  | CbError => Ok (handleError c)
  | CbRead => handleRead r c
  | CbWrite => handleWrite c
  end.

Fixpoint run_callbacks (r : readv_result) (l : list callback) (c : Conn) : res Conn :=
  match l with
  | [] => Ok c
  | cb :: l => let! c := run_callback r cb c in run_callbacks r l c
  end.

Definition all_callbacks : Callbacks := mkCallbacks true true true true.

(** [Channel::handleEvent] with the reported events; the tied object is alive. *)
Definition handleEvents (revents : Z) (r : readv_result) (c : Conn) : res Conn :=
  let ch := channel_ c in
  run_callbacks r (handleEvent true
    (mkChannel (fd_ ch) (events_ ch) revents (index_ ch) (logHup_ ch) (tied_ ch) (eventHandling_ ch)
       (addedToLoop_ ch) all_callbacks)) c.

Definition run_functor (f : functor) (c : Conn) : res Conn :=
  match f with
  | FSend d => sendInLoop d (zlen d) c
  | FWriteComplete => do_acts close (user NWriteComplete c) c
  | FHighWater n => do_acts close (user (NHighWater n) c) c
  | FForceClose => forceCloseInLoop c
  | FDestroy => connectDestroyed c
  end.

(** The destructors of the connection, its channel and its socket. *)
Definition destruct_ (c : Conn) : res Conn :=
  assert! bool_decide (state_ c = kDisconnected) in
  let! _ := destroy true (addedToLoop_ (channel_ c)) (channel_ c) in
  let c := if setSolinger_ (sock c) then c else on_sock (λ s, set_closes (closes s + 1) s) c in
  Ok (on_env (set_alive false) c).

(** What can happen next. *)
Inductive event :=
| Established                              (* the server runs [connectEstablished] *)
| Ready (revents : Z) (r : readv_result)   (* the poller reports the channel *)
| RunFunctor                               (* the loop runs its next functor *)
| TimerFires                               (* the timer of [forceCloseWithDelay] *)
| Call (a : act)                           (* a call in the loop's thread *)
| OtherChecks (d : bytes)                  (* another thread sends: it reads [state_] ... *)
| OtherQueues                              (* ... and queues the functor *)
| LastRelease.                             (* the last [shared_ptr] goes *)

Definition handle (e : event) (c : Conn) : res Conn :=
  if negb (alive (env c)) then Err UseAfterFree
  else match e with
  | Established => connectEstablished c
  | Ready revents r => handleEvents revents r c
  | RunFunctor =>
      match pending (env c) with
      | [] => Ok c
      | f :: fs => run_functor f (on_env (set_pending fs) c)
      end
  | TimerFires => Ok (forceClose (on_env (λ e, set_timers (timers e - 1) e) c))
  | Call a => do_act close a c
  | OtherChecks d =>
      Ok (if bool_decide (state_ c = kConnected)
          then on_env (λ e, set_inflight (inflight e ++ [d]) e) c else c)
  | OtherQueues =>
      match inflight (env c) with
      | [] => Ok c
      | d :: ds => Ok (queue (FSend d) (on_env (set_inflight ds) c))
      end
  | LastRelease => destruct_ c
  end.

End handlers.

(** ** Invariants *)

(** Masks and flags. *)
Record base (c : Conn) : Prop := {
  b_in : wf (inputBuffer_ c) ∧ used (inputBuffer_ c) ≤ kCheapPrepend + zlen (received (env c));
  b_received : zlen (received (env c)) ≤ 2 ^ 62;
  b_mask : 0 ≤ events_ (channel_ c) < 8;
  b_linger : setSolinger_ (sock c) = forceFlag_ c;
  b_handling : eventHandling_ (channel_ c) = false;
}.

(** The output stream: what the kernel took followed by what is buffered is what was
    accepted; the write side is shut only when nothing is buffered. *)
Record stream (c : Conn) : Prop := {
  s_out : wf (outputBuffer_ c) ∧ used (outputBuffer_ c) ≤ kCheapPrepend + zlen (accepted (env c));
  s_bytes : wire (sock c) ++ content (outputBuffer_ c) = accepted (env c);
  s_bound : zlen (accepted (env c)) ≤ 2 ^ 62;
  s_fin : fin (sock c) = true → content (outputBuffer_ c) = [];
  s_writing : state_ c ≠ kDisconnected → isWriting (channel_ c) = negb (bool_decide (content (outputBuffer_ c) = []));
}.

(** Where the connection is in its life: the callbacks made so far, the server's
    reference, the registration of the channel, the queued [connectDestroyed] and the
    number of times the descriptor was closed. *)
Definition phase (c : Conn) : Prop :=
  match state_ c with
  | kConnecting =>
      updown (env c) = [] ∧ in_map (env c) = true ∧ addedToLoop_ (channel_ c) = false ∧
      events_ (channel_ c) = 0 ∧ pending (env c) = [] ∧ inflight (env c) = [] ∧ closes (sock c) = 0
  | kConnected | kDisconnecting =>
      updown (env c) = [true] ∧ in_map (env c) = true ∧ addedToLoop_ (channel_ c) = true ∧
      (FDestroy ∉ pending (env c)) ∧ closes (sock c) = 0
  | kDisconnected =>
      updown (env c) = [true; false] ∧ in_map (env c) = false ∧ events_ (channel_ c) = 0 ∧
      if addedToLoop_ (channel_ c)
      then closes (sock c) = 0 ∧ ∃ l1 l2, pending (env c) = l1 ++ FDestroy :: l2 ∧ (FDestroy ∉ l1) ∧ (FDestroy ∉ l2)
      else (FDestroy ∉ pending (env c)) ∧ closes (sock c) = if forceFlag_ c then 1 else 0
  end.

Definition good (c : Conn) : Prop := base c ∧ stream c ∧ phase c ∧ alive (env c) = true.

Definition open (c : Conn) : Prop := state_ c = kConnected ∨ state_ c = kDisconnecting.

(** ** Lemmas *)

Lemma mask_writing x e :
  0 ≤ e < 8 →
  negb (Z.land (new_mask x e) kWriteEvent =? 0)
  = match x with
    | enableWriting => true
    | disableWriting | disableAll => false
    | _ => negb (Z.land e kWriteEvent =? 0)
    end.
Proof.
  intros He. assert (e ∈ seqZ 0 8) as Hin by (apply elem_of_seqZ; lia). clear He.
  revert e Hin. refine (proj1 (Forall_forall _ _) _). destruct x; repeat constructor.
Qed.

Lemma chan_writing x c :
  base c → isWriting (channel_ (chan x c))
  = match x with
    | enableWriting => true
    | disableWriting | disableAll => false
    | _ => isWriting (channel_ c)
    end.
Proof. intros Hb. exact (mask_writing x _ (b_mask _ Hb)). Qed.

Lemma base_chan x c : base c → base (chan x c).
Proof. intros []. constructor; try done. cbn. by apply Multiplexer.new_mask_range. Qed.

(** Functors other than [FDestroy] do not affect the invariants. *)
Lemma base_queue f c : base c → base (queue f c).
Proof. intros []. by constructor. Qed.

Lemma stream_queue f c : stream c → stream (queue f c).
Proof. intros []. by constructor. Qed.

Lemma notin_snoc (f g : functor) l : g ∉ l → f ≠ g → g ∉ l ++ [f].
Proof. intros Hl Hf [?|Hin]%elem_of_app; [done|]. apply list_elem_of_singleton in Hin. congruence. Qed.

Lemma phase_queue f c : f ≠ FDestroy → state_ c ≠ kConnecting → phase c → phase (queue f c).
Proof.
  intros Hf Hs. unfold phase. cbn. destruct (state_ c); [|done|..].
  - intros (? & ? & ? & H). split_and!; try done. destruct (addedToLoop_ _).
    + destruct H as (? & l1 & l2 & -> & ? & ?). split; [done|]. exists l1, (l2 ++ [f]).
      split_and!; [by rewrite <- app_assoc|done|by apply notin_snoc].
    + destruct H. split; [by apply notin_snoc|done].
  - intros (? & ? & ? & ? & ?). split_and!; try done. by apply notin_snoc.
  - intros (? & ? & ? & ? & ?). split_and!; try done. by apply notin_snoc.
Qed.

(** Changing the mask of an open connection. *)
Lemma phase_chan x c : open c → phase c → phase (chan x c).
Proof. intros [E|E]; unfold phase; cbn; rewrite E; intros (? & ? & ? & ? & ?); done. Qed.

(** Buffering the rest of a message. *)
Lemma send_rest_spec rest c :
  base c → open c → phase c → alive (env c) = true →
  wf (outputBuffer_ c) → used (outputBuffer_ c) + zlen rest ≤ kCheapPrepend + zlen (accepted (env c)) →
  zlen (accepted (env c)) ≤ 2 ^ 62 → fin (sock c) = false →
  wire (sock c) ++ content (outputBuffer_ c) ++ rest = accepted (env c) →
  isWriting (channel_ c) = negb (bool_decide (content (outputBuffer_ c) = [])) →
  wp (send_rest rest (zlen rest) c) (λ c', good c' ∧ state_ c' = state_ c ∧
    accepted (env c') = accepted (env c)).
Proof.
  intros Hb Ho Hp Hal Hwf Hu Hbd Hfin Hst Hwr. unfold send_rest.
  assert (state_ c ≠ kConnecting ∧ state_ c ≠ kDisconnected) as [Hs1 Hs2] by (destruct Ho; split; congruence).
  destruct (Z.ltb_spec 0 (zlen rest)) as [Hl|Hl].
  - match goal with |- context [if ?b then queue ?f c else c] => set (c1 := if b then queue f c else c) end.
    assert (base c1 ∧ phase c1 ∧ open c1 ∧ alive (env c1) = true ∧ state_ c1 = state_ c ∧ accepted (env c1) = accepted (env c) ∧
      sock c1 = sock c ∧ channel_ c1 = channel_ c ∧ outputBuffer_ c1 = outputBuffer_ c)
      as (Hb1 & Hp1 & Ho1 & Hal1 & Es & Ea & Ek & Ec & Eo).
    { subst c1. case_match; [|done]. split_and!; try done; [by apply base_queue|by apply phase_queue]. }
    clearbody c1. rewrite Eo. eapply wp_bind.
    { apply append_all_spec; [done|]. unfold fits, used, kCheapPrepend, max_size in *. lia. }
    intros out (Hwf' & Hc' & Hw'). cbn [wp].
    assert (content out ≠ []) as Hne.
    { rewrite Hc'. destruct rest; [cbn in Hl; lia|]. by destruct (content (outputBuffer_ c)). }
    assert (base (set_outputBuffer out c1)) as Hb2 by (by destruct Hb1; constructor).
    assert (∀ c2, sock c2 = sock c1 → accepted (env c2) = accepted (env c1) → outputBuffer_ c2 = out →
      isWriting (channel_ c2) = true → stream c2) as Hstr.
    { intros c2 E1 E2 E3 E4. constructor; rewrite ?E1, ?E2, ?E3, ?E4, ?Ea, ?Ek; [| |done|congruence|].
      - split; [done|]. unfold used in *. lia.
      - by rewrite Hc'.
      - intros _. by rewrite bool_decide_false. }
    case_match eqn:Ew; cbn in Ew.
    + split_and!; [|done|done]. split_and!; [done|by apply Hstr|done|done].
    + split_and!; [|done|done]. split_and!; [by apply base_chan| |by apply phase_chan|done].
      apply Hstr; try done. by rewrite chan_writing.
  - assert (rest = []) as -> by (destruct rest; [done|cbn in Hl; lia]). cbn. rewrite app_nil_r in Hst.
    split_and!; [|done|done]. split_and!; [done| |done|done]. constructor; try done; [|congruence].
    split; [done|]. cbn in Hu. lia.
Qed.

(** The outcomes of a write. *)
Lemma kernel_write_cases data c :
  match kernel_write data c with
  | (Wrote n, c') => 0 ≤ n ≤ zlen data ∧ fin (sock c) = false ∧
      ∃ ws, c' = on_sock (λ s, set_wire (wire s ++ ztake n data) (set_writes ws s)) c
  | (WFail e, c') => (fin (sock c) = true → e = EPIPE) ∧ (c' = c ∨ ∃ ws, c' = on_sock (set_writes ws) c)
  end.
Proof.
  unfold kernel_write. destruct (fin (sock c)) eqn:Hf; [auto|].
  destruct (writes (sock c)) as [|[n|e] ws]; [by split; [|left]| |by split; [|right; exists ws]].
  split_and!; [lia..|done|by exists ws].
Qed.

Lemma good_writes ws c : good c → good (on_sock (set_writes ws) c).
Proof. intros ([] & [] & ? & ?). split_and!; [by constructor..|done|done]. Qed.

Lemma good_open c : good c → open c → addedToLoop_ (channel_ c) = true ∧ state_ c ≠ kConnecting ∧ state_ c ≠ kDisconnected.
Proof. intros (_ & _ & Hp & _) [E|E]; unfold phase in Hp; rewrite E in *; destruct Hp as (? & ? & ? & ? & ?); done. Qed.

Lemma out_idle c :
  good c → open c →
  negb (isWriting (channel_ c)) && (readableBytes (outputBuffer_ c) =? 0) = bool_decide (content (outputBuffer_ c) = []).
Proof.
  intros Hg Ho. pose proof (good_open _ Hg Ho) as (_ & _ & Hs). destruct Hg as (_ & [[Hwf _] _ _ _ Hw] & _).
  rewrite Hw by done. rewrite readableBytes_content, negb_involutive by done.
  case_bool_decide as E; [by rewrite E|done].
Qed.

(** What [sendInLoop] has achieved. *)
Definition sent (data : bytes) (c c' : Conn) : Prop :=
  good c' ∧ state_ c' = state_ c ∧
  (accepted (env c') = accepted (env c) ++ data ∨ accepted (env c') = accepted (env c)).

(** After the kernel took [n] bytes, the rest is buffered. *)
Lemma send_tail data c c1 n :
  good c → open c → zlen (accepted (env c)) + zlen data ≤ 2 ^ 62 →
  state_ c1 = state_ c → base c1 → phase c1 → alive (env c1) = true →
  outputBuffer_ c1 = outputBuffer_ c → channel_ c1 = channel_ c → accepted (env c1) = accepted (env c) →
  0 ≤ n ≤ zlen data → fin (sock c1) = false → wire (sock c1) = wire (sock c) ++ ztake n data →
  (0 < n → content (outputBuffer_ c) = []) →
  wp (send_rest (zdrop n data) (zlen data - n) (accept data c1)) (sent data c).
Proof.
  intros Hg Ho Hbd Es Hb1 Hp1 Hal1 Eo Ech Ea Hn Hfin Hwire Hn0.
  pose proof (good_open _ Hg Ho) as (_ & _ & Hs2). destruct Hg as (_ & Hst & _).
  pose proof (s_out _ Hst) as [Hwf Hus]. pose proof (length_zdrop n data ltac:(lia)) as Hlz.
  rewrite <- Hlz. eapply wp_mono; [apply send_rest_spec|].
  - by destruct Hb1; constructor.
  - unfold open. cbn. by rewrite Es.
  - done.
  - done.
  - cbn. by rewrite Eo.
  - cbn. rewrite Eo, Ea, length_app. lia.
  - cbn. rewrite Ea, length_app. lia.
  - done.
  - cbn. rewrite Eo, Ea, Hwire, <- (s_bytes _ Hst). destruct (decide (n = 0)) as [->|Hne].
    + rewrite zdrop_0. change (ztake 0 data) with (@nil byte). by rewrite app_nil_r, app_assoc.
    + rewrite Hn0 by lia. by rewrite !app_nil_r, app_nil_l, <- app_assoc, ztake_zdrop.
  - cbn. rewrite Eo, Ech. by apply (s_writing _ Hst).
  - intros c' (? & Es' & Ea'). split_and!; [done|by rewrite Es'|left]. rewrite Ea'. cbn. by rewrite Ea.
Qed.

(** [sendInLoop] on an open connection accepts the whole message or, when the kernel
    says the peer is gone, none of it. *)
Lemma sendInLoop_spec data c :
  good c → open c → zlen (accepted (env c)) + zlen data ≤ 2 ^ 62 →
  wp (sendInLoop data (zlen data) c) (sent data c).
Proof.
  intros Hg Ho Hbd. pose proof (good_open _ Hg Ho) as (Had & Hs1 & Hs2). unfold sendInLoop.
  rewrite bool_decide_false by done. rewrite (proj2 (Z.ltb_ge _ _)), (ztake_all _ data) by lia.
  rewrite out_idle by done. pose proof Hg as (Hb & Hst & Hp & Hal).
  case_bool_decide as Hc.
  - pose proof (kernel_write_cases data c) as Hk. destruct (kernel_write data c) as [[n|e] c1].
    + destruct Hk as (Hn & Hfin & ws & ->). rewrite (u64_small (zlen data - n)) by lia.
      rewrite (proj2 (Z.leb_le _ _)) by lia. cbn [negb].
      match goal with |- context [if ?b then queue ?f ?x else ?x] => destruct b end;
        (apply send_tail; try done; [by destruct Hb; constructor|..]); first [by apply phase_queue|done].
    + destruct Hk as (Hfin & Hc1). rewrite Z.leb_refl.
      assert (good c1 ∧ state_ c1 = state_ c ∧ outputBuffer_ c1 = outputBuffer_ c ∧ channel_ c1 = channel_ c ∧
        env c1 = env c ∧ wire (sock c1) = wire (sock c) ∧ fin (sock c1) = fin (sock c))
        as (Hg1 & Es & Eo & Ech & Ee & Ew & Ef).
      { destruct Hc1 as [->|[ws ->]]; [done|]. split_and!; [by apply good_writes|done..]. }
      destruct (_ || _)%bool eqn:He; cbn [negb].
      * cbn. split_and!; [done|done|right; by rewrite Ee].
      * rewrite <- (Z.sub_0_r (zlen data)). destruct Hg1 as (Hb1 & _ & Hp1 & Hal1).
        apply send_tail; try done; [by rewrite Ee|lia| |by rewrite Ew; change (ztake 0 data) with (@nil byte); rewrite app_nil_r].
        rewrite Ef. destruct (fin (sock c)); [|done]. rewrite Hfin in He by done. done.
  - rewrite Z.leb_refl. cbn [negb]. rewrite <- (Z.sub_0_r (zlen data)).
    apply send_tail; try done; [lia| |by change (ztake 0 data) with (@nil byte); rewrite app_nil_r].
    destruct (fin (sock c)) eqn:Hf; [|done]. by apply (s_fin _ Hst) in Hf.
Qed.

(** *** Closing *)

(** Calls that do not switch reading or writing on or off. *)
Definition calm (a : act) : Prop :=
  match a with StartRead | StopRead | StartWrite | StopWrite => False | _ => True end.

Lemma consume_spec n b :
  wf b → wp (retrieve (Z.max 0 (Z.min n (readableBytes b))) b) (λ b', wf b' ∧ used b' ≤ used b).
Proof.
  intros Hb. pose proof (content_ge0 b Hb). rewrite readableBytes_content in * by done.
  eapply wp_mono; [apply retrieve_used; [done|lia]|]. intros b' (? & _ & ?). done.
Qed.

(** A disconnected connection ignores everything but reading its input. *)
Lemma quiet close l c :
  state_ c = kDisconnected → Forall calm l → wf (inputBuffer_ c) →
  wp (do_acts close l c) (λ c', ∃ b, c' = set_inputBuffer b c ∧ wf b ∧ used b ≤ used (inputBuffer_ c)).
Proof.
  revert c. induction l as [|a l IH]; intros c Hs Hl Hb.
  - cbn. exists (inputBuffer_ c). split_and!; [by destruct c|done|lia].
  - apply Forall_cons in Hl as [Ha Hl]. cbn [do_acts].
    assert (wp (do_act close a c) (λ c', ∃ b, c' = set_inputBuffer b c ∧ wf b ∧ used b ≤ used (inputBuffer_ c))) as H1.
    { assert (∃ b, c = set_inputBuffer b c ∧ wf b ∧ used b ≤ used (inputBuffer_ c)) as Hsame.
      { exists (inputBuffer_ c). split_and!; [by destruct c|done|lia]. }
      destruct a; try done; cbn [do_act]; unfold send, shutdown, forceClose, forceCloseWithDelay; rewrite ?Hs.
      - case_match; exact Hsame.
      - exact Hsame.
      - exact Hsame.
      - exact Hsame.
      - eapply wp_bind; [by apply consume_spec|]. intros b [? ?]. cbn. eauto. }
    eapply wp_bind; [exact H1|]. intros c1 (b & -> & Hwb & Hub).
    eapply wp_mono; [by apply IH|]. intros c2 (b' & -> & Hwb' & Hub'). exists b'. split_and!; [done|done|].
    cbn in Hub'. lia.
Qed.

Section closing.
Context (user : notice → Conn → list act) (Hcalm : ∀ n c, Forall calm (user n c)).

Lemma handleClose_last fuel c :
  good c → open c → closeFlag_ c = true →
  wp (handleClose user (S fuel) c) (λ c', good c' ∧ state_ c' = kDisconnected ∧
    outputBuffer_ c' = outputBuffer_ c ∧ sock c' = sock c).
Proof.
  intros Hg Ho Hcl. pose proof (good_open _ Hg Ho) as (Had & _ & _). cbn [handleClose]. rewrite Hcl.
  assert (bool_decide (state_ c = kConnected) || bool_decide (state_ c = kDisconnecting) = true) as ->.
  { destruct Ho as [-> | ->]; done. }
  destruct Hg as ([[Hwi Hui] ? ? ? ?] & [] & Hp & Hal).
  assert (updown (env c) = [true] ∧ in_map (env c) = true ∧ (FDestroy ∉ pending (env c)) ∧ closes (sock c) = 0) as (Eu & Em & Ed & Ex).
  { unfold phase in Hp. destruct Ho as [E|E]; rewrite E in Hp; by destruct Hp as (? & ? & ? & ? & ?). }
  unfold connectionCallback. set (c1 := on_env _ _).
  eapply wp_bind; [apply (quiet (handleClose user fuel) _ c1); [done|apply Hcalm|done]|].
  intros c2 (b & -> & Hwb & Hub). unfold closeCallback. change (in_map (env (set_inputBuffer b c1))) with (in_map (env c)).
  rewrite Em. cbn [wp]. split_and!; [|done..]. split_and!; [| | |done].
  - constructor; try done. split; [done|]. cbn in Hub |- *. lia.
  - by constructor.
  - unfold phase. cbn. rewrite Eu. split_and!; [done..|]. exists (pending (env c)), [].
    split_and!; [done..|apply not_elem_of_nil].
Qed.

Lemma shutdownInLoop_spec close c :
  good c → open c → state_ c = kDisconnecting →
  (∀ c', good c' → open c' → closeFlag_ c' = closeFlag_ c → wp (close c') good) →
  wp (shutdownInLoop close c) good.
Proof.
  intros Hg Ho Hs Hk. unfold shutdownInLoop. destruct (isWriting (channel_ c)) eqn:Hw; cbn [negb]; [done|].
  assert (good (on_sock (set_fin true) c)) as Hg'.
  { destruct Hg as ([] & [? ? ? ? Hwr] & ? & ?). split_and!; [by constructor| |done|done]. constructor; try done.
    intros _. cbn. rewrite Hwr in Hw by congruence. apply negb_false_iff in Hw. by bool_prop. }
  case_match; [by apply Hk|done].
Qed.

Lemma shutdown_spec close c :
  good c →
  (∀ c', good c' → open c' → closeFlag_ c' = true → wp (close c') good) →
  wp (shutdown close c) good.
Proof.
  intros Hg Hk. unfold shutdown. case_bool_decide as Hs; [|done].
  apply shutdownInLoop_spec; [|by right|done|done].
  destruct Hg as ([] & [? ? ? ? Hwr] & Hp & ?). split_and!; [| | |done].
  - by constructor.
  - constructor; try done. intros _. apply Hwr. congruence.
  - unfold phase in *. cbn. by rewrite Hs in Hp.
Qed.

(** Two levels are enough, whatever the fuel beyond them. *)
Lemma handleClose_spec fuel c :
  good c → open c → wp (handleClose user (S (S fuel)) c) good.
Proof.
  intros Hg Ho. destruct (closeFlag_ c) eqn:Hcl.
  { eapply wp_mono; [by apply handleClose_last|]. by intros ? []. }
  cbn [handleClose]. rewrite Hcl.
  assert (bool_decide (state_ c = kConnected) || bool_decide (state_ c = kDisconnecting) = true) as ->.
  { destruct Ho as [-> | ->]; done. }
  apply shutdown_spec.
  - destruct Hg as ([] & [] & ? & ?). split_and!; [by constructor..|done|done].
  - intros c' ? ? ?. eapply wp_mono; [apply (handleClose_last fuel); done|]. by intros ? [].
Qed.

Lemma forceClose_good c : good c → good (forceClose c).
Proof.
  intros Hg. unfold forceClose. destruct (_ || _)%bool eqn:E; [|done].
  assert (open c) as Ho by (unfold open; destruct (state_ c); (by left) || (by right) || done).
  pose proof (good_open _ Hg Ho) as (Had & ? & ?).
  destruct Hg as ([] & [? ? ? ? Hwr] & Hp & ?). split_and!; [| | |done].
  - by constructor.
  - constructor; try done. intros _. by apply Hwr.
  - apply (phase_queue FForceClose (set_state kDisconnecting c)); [done..|].
    unfold phase in *. cbn. by destruct Ho as [F|F]; rewrite F in Hp.
Qed.

Lemma forceCloseWithDelay_good c : good c → good (forceCloseWithDelay c).
Proof.
  intros Hg. unfold forceCloseWithDelay. destruct (_ || _)%bool eqn:E; [|done].
  assert (open c) as Ho by (unfold open; destruct (state_ c); (by left) || (by right) || done).
  pose proof (good_open _ Hg Ho) as (Had & ? & ?).
  destruct Hg as ([] & [? ? ? ? Hwr] & Hp & ?). split_and!; [| | |done].
  - by constructor.
  - constructor; try done. intros _. by apply Hwr.
  - unfold phase in *. cbn. by destruct Ho as [F|F]; rewrite F in Hp.
Qed.

Lemma send_good d c : good c → sendable d c = true → wp (send (piece d) c) good.
Proof.
  intros Hg Hsd. unfold sendable in Hsd. bool_prop. unfold send. case_bool_decide as Hs; [|done].
  cbn [sp_data sp_size piece]. rewrite i32_small, u64_small by lia.
  eapply wp_mono; [apply sendInLoop_spec; [done|by left|done]|]. by intros ? (? & _).
Qed.

Lemma do_act_good close a c :
  good c → calm a → (∀ c', good c' → open c' → closeFlag_ c' = true → wp (close c') good) →
  wp (do_act close a c) good.
Proof.
  intros Hg Ha Hk. destruct a; try done; cbn [do_act].
  - case_match; [by apply send_good|done].
  - by apply shutdown_spec.
  - by apply forceClose_good.
  - by apply forceCloseWithDelay_good.
  - destruct Hg as ([[? ?] ? ? ? ?] & [] & ? & ?). eapply wp_bind; [by apply consume_spec|].
    intros b [? ?]. cbn. split_and!; [|by constructor|done|done]. constructor; try done. split; [done|]. cbn. lia.
Qed.

Lemma do_acts_good close l c :
  good c → Forall calm l → (∀ c', good c' → open c' → closeFlag_ c' = true → wp (close c') good) →
  wp (do_acts close l c) good.
Proof.
  revert c. induction l as [|a l IH]; intros c Hg Hl Hk; [done|]. apply Forall_cons in Hl as [Ha Hl].
  cbn [do_acts]. eapply wp_bind; [by apply do_act_good|]. intros c' Hg'. by apply IH.
Qed.

(** A user callback. *)
Lemma callback_good n c c0 : good c → wp (do_acts (close user) (user n c0) c) good.
Proof. intros Hg. apply do_acts_good; [done|apply Hcalm|]. intros. by apply (handleClose_spec 0). Qed.

(** *** Handlers *)

Lemma watched_open c : good c → events_ (channel_ c) ≠ 0 → open c.
Proof.
  intros (_ & _ & Hp & _) He. unfold phase in Hp. destruct (state_ c) eqn:E; [..|by left|by right].
  - by destruct Hp as (_ & _ & ? & _).
  - by destruct Hp as (_ & _ & _ & ? & _).
Qed.

Lemma writing_open c : good c → isWriting (channel_ c) = true → open c.
Proof. intros Hg Hw. apply watched_open; [done|]. intros E. unfold isWriting in Hw. by rewrite E in Hw. Qed.

Lemma open_spec c : bool_decide (state_ c = kConnected) || bool_decide (state_ c = kDisconnecting) = true ↔ open c.
Proof. unfold open. rewrite orb_true_iff, !bool_decide_eq_true. done. Qed.

Lemma forceCloseInLoop_good c : good c → wp (forceCloseInLoop user c) good.
Proof.
  intros Hg. unfold forceCloseInLoop. case_match eqn:E; [|done]. apply open_spec in E as Ho.
  eapply wp_mono; [apply handleClose_last|by intros ? []]; [|done..].
  destruct Hg as ([] & [] & Hp & ?). split_and!; [by constructor..| |done].
  unfold phase in *. cbn. by destruct Ho as [F|F]; rewrite F in *.
Qed.

Lemma connectEstablished_good c : good c → state_ c = kConnecting → wp (connectEstablished user c) good.
Proof.
  intros Hg Hs. unfold connectEstablished, connectionCallback. rewrite bool_decide_true by done.
  apply callback_good. destruct Hg as ([] & [? ? ? ? Hwr] & Hp & ?). unfold phase in Hp. rewrite Hs in Hp.
  destruct Hp as (Hu & ? & ? & ? & Hpe & ? & ?). split_and!; [| | |done].
  - constructor; try done. by apply (Multiplexer.new_mask_range enableReading).
  - constructor; try done. intros _. etrans; [|apply Hwr; congruence].
    apply (mask_writing enableReading). done.
  - unfold phase. cbn. rewrite Hu, Hpe. split_and!; try done. apply not_elem_of_nil.
Qed.

(** [connectDestroyed] when it is queued: the connection is disconnected. *)
Lemma connectDestroyed_good c fs :
  good c → pending (env c) = FDestroy :: fs → wp (connectDestroyed user (on_env (set_pending fs) c)) good.
Proof.
  intros ([] & [] & Hp & ?) Hpe. unfold phase in Hp. rewrite Hpe in Hp. unfold connectDestroyed.
  destruct (state_ c) eqn:E; cbn [on_env state_ set_env]; rewrite ?E.
  2: { by destruct Hp as (_ & _ & _ & _ & [=] & _). }
  2,3: exfalso; destruct Hp as (_ & _ & _ & Hn & _); apply Hn, list_elem_of_here.
  destruct Hp as (Hu & Hm & He & Hx). rewrite bool_decide_false by done. cbn [res_bind].
  unfold isNoneEvent. cbn [channel_ on_env set_env]. rewrite He. cbn [Z.eqb kNoneEvent wp].
  destruct (addedToLoop_ (channel_ c)) eqn:Ea; [|by exfalso; destruct Hx as [Hn _]; apply Hn, list_elem_of_here].
  destruct Hx as (Hc0 & l1 & l2 & Hl & H1 & H2).
  assert (fs = l2 ∧ l1 = []) as [-> ->].
  { destruct l1 as [|f l1]; [by simplify_eq/=|]. exfalso. apply H1. simplify_eq/=. apply list_elem_of_here. }
  case_match eqn:Ef; cbn in Ef.
  all: split_and!; [by constructor..| |done].
  all: unfold phase; cbn; rewrite E, Ef; split_and!; try done; lia.
Qed.

Lemma handleRead_good r c :
  good c → open c →
  (∀ d, r = inr d → zlen d ≤ readFd_capacity (inputBuffer_ c) ∧ zlen (received (env c)) + zlen d ≤ 2 ^ 62) →
  wp (handleRead user r c) good.
Proof.
  intros Hg Ho Hr. unfold handleRead. pose proof Hg as ([[Hwf Hus] Hrc ? ? ?] & [] & Hp & Hal). destruct r as [e|d].
  - rewrite (readFd_error _ _ e) by done. cbn. split_and!; [by constructor..|done|done].
  - destruct (Hr d eq_refl) as [Hcap Hbd].
    eapply wp_bind; [apply (readFd_spec (λ _, inr d) _ d); [done|done|done|]|].
    { unfold fits, used, kCheapPrepend, max_size in *. lia. }
    intros [[n e] b] (-> & -> & Hwb & Hcb & Hwi). destruct (Z.ltb_spec 0 (zlen d)) as [Hl|Hl].
    + apply callback_good. split_and!; [|by constructor|done|done]. constructor; try done; cbn; rewrite length_app.
      * split; [done|]. unfold used in *. lia.
      * lia.
    + assert (d = []) as -> by (destruct d; [done|cbn in Hl; lia]). cbn [length Z.of_nat Z.eqb].
      apply (handleClose_spec 0); [|done]. split_and!; [|by constructor|done|done]. constructor; try done.
      split; [done|]. cbn in *. unfold used in *. lia.
Qed.

(** The output after a write of [n] bytes. *)
Lemma drained_good n out ws c :
  good c → open c → 0 < n ≤ zlen (content (outputBuffer_ c)) → fin (sock c) = false →
  wf out → content out = zdrop n (content (outputBuffer_ c)) → used out ≤ used (outputBuffer_ c) →
  let c1 := set_outputBuffer out
    (on_sock (λ s, set_wire (wire s ++ ztake n (content (outputBuffer_ c))) (set_writes ws s)) c) in
  (content out ≠ [] → good c1) ∧ (content out = [] → good (chan disableWriting c1)).
Proof.
  intros Hg Ho Hn Hf Hwf Hc Hu c1. pose proof (good_open _ Hg Ho) as (_ & _ & Hs).
  destruct Hg as (Hb & [[? ?] Hst ? ? Hwr] & Hp & Hal).
  assert (base c1) as Hb1 by (by destruct Hb; constructor).
  assert (wire (sock c1) ++ content out = accepted (env c)) as Hst1.
  { cbn. rewrite <- Hst, Hc, <- app_assoc. by rewrite ztake_zdrop. }
  assert (wf out ∧ used out ≤ kCheapPrepend + zlen (accepted (env c))) as Hout by (split; [done|lia]).
  split; intros Ho'; (split_and!; [..|done]).
  - done.
  - constructor; try done; [by intros F; cbn in F; congruence|]. intros _. cbn. rewrite (Hwr Hs).
    rewrite !bool_decide_false; [done..|]. intros E. rewrite E in Hn. cbn in Hn. lia.
  - done.
  - by apply base_chan.
  - constructor; try done. intros _. rewrite chan_writing by done. by rewrite bool_decide_true.
  - by apply phase_chan.
Qed.

Lemma handleWrite_good c : good c → wp (handleWrite user c) good.
Proof.
  intros Hg. unfold handleWrite. destruct (isWriting (channel_ c)) eqn:Hw; [|done].
  pose proof (writing_open _ Hg Hw) as Ho. pose proof (good_open _ Hg Ho) as (_ & Hs1 & Hs2).
  pose proof Hg as (_ & Hst & _). pose proof (s_out _ Hst) as [Hwf _].
  assert (peek_bytes (readableBytes (outputBuffer_ c)) (outputBuffer_ c) = content (outputBuffer_ c)) as ->.
  { pose proof (content_ge0 _ Hwf). rewrite peek_bytes_content by (done || lia).
    apply ztake_all. rewrite readableBytes_content by done. lia. }
  pose proof (kernel_write_cases (content (outputBuffer_ c)) c) as Hk.
  destruct (kernel_write _ c) as [[n|e] c1].
  - destruct Hk as (Hn & Hf & ws & ->). destruct (Z.ltb_spec 0 n) as [Hpos|Hz].
    + cbn [outputBuffer_ on_sock set_sock]. eapply wp_bind; [by apply retrieve_used|].
      intros out (Hwo & Hco & Huo). rewrite (readableBytes_content out) by done.
      destruct (drained_good n out ws c Hg Ho ltac:(lia) Hf Hwo Hco Huo) as [Hmore Hdone].
      destruct (Z.eqb_spec (zlen (content out)) 0) as [E|E].
      * assert (content out = []) as E' by (destruct (content out); [done|cbn in E; lia]). specialize (Hdone E').
        match goal with |- context [if ?b then queue ?f ?x else ?x] => set (c2 := if b then queue f x else x) end.
        assert (good c2 ∧ state_ c2 = state_ c) as [Hg2 Es].
        { subst c2. case_match; [|done]. split; [|done]. destruct Hdone as (? & ? & ? & ?).
          split_and!; [by apply base_queue|by apply stream_queue|by apply phase_queue|done]. }
        case_bool_decide as Hd; [|done]. apply shutdownInLoop_spec; [done|by right|done|].
        intros. by apply (handleClose_spec 0).
      * apply Hmore. intros F. by rewrite F in E.
    + assert (n = 0) as -> by lia. cbn. change (ztake 0 (content (outputBuffer_ c))) with (@nil byte).
      destruct Hg as ([] & [] & ? & ?). split_and!; [by constructor| |done|done].
      constructor; try done. cbn. by rewrite app_nil_r.
  - destruct Hk as (_ & [->|[ws ->]]); [done|by apply good_writes].
Qed.

(** The poller reports what the kernel can report of a TCP socket: a hang-up without
    input comes without urgent data, and [POLLRDHUP] is not asked for. *)
Definition report_ok (revents : Z) : Prop :=
  has_bit revents POLLRDHUP = false ∧
  (has_bit revents POLLHUP = true → has_bit revents POLLIN = false → has_bit revents POLLPRI = false).

Lemma has_bit_lor r a b : has_bit r (Z.lor a b) = has_bit r a || has_bit r b.
Proof.
  unfold has_bit. rewrite <- negb_andb. f_equal. rewrite Z.land_lor_distr_r.
  destruct (Z.eqb_spec (Z.lor (Z.land r a) (Z.land r b)) 0) as [E|E].
  - apply Z.lor_eq_0_iff in E as [-> ->]. done.
  - symmetry. apply andb_false_iff. rewrite !Z.eqb_neq.
    destruct (decide (Z.land r a = 0)) as [Ha|Ha]; [right|by left]. intros Hb. by rewrite Ha, Hb in E.
Qed.

Lemma handleEvents_good revents r c :
  good c → events_ (channel_ c) ≠ 0 → report_ok revents →
  (∀ d, r = inr d → zlen d ≤ readFd_capacity (inputBuffer_ c) ∧ zlen (received (env c)) + zlen d ≤ 2 ^ 62) →
  wp (handleEvents user revents r c) good.
Proof.
  intros Hg He [Hrd Hhup] Hr. pose proof (watched_open _ Hg He) as Ho. unfold handleEvents, handleEvent. cbn [tied_].
  set (l := if tied_ (channel_ c) then _ else _).
  assert (l = handleEventWithGuard (mkChannel 0 0 revents 0 true true true true all_callbacks)) as ->.
  { subst l. by case_match. }
  unfold handleEventWithGuard. cbn [revents_ callbacks_ all_callbacks readCallback_ writeCallback_ closeCallback_ errorCallback_].
  rewrite !andb_true_r, !has_bit_lor, Hrd, orb_false_r.
  assert (∀ b1 b2 : bool, ∀ c1, good c1 → wp (run_callbacks user r ((if b1 then [CbError] else []) ++ [] ++ (if b2 then [CbWrite] else [])) c1) good) as Hend.
  { intros b1 b2 c1 H1. destruct b1, b2; cbn; try done.
    all: eapply wp_bind; [by apply handleWrite_good|done]. }
  assert (∀ b2 : bool, ∀ c1, good c1 → wp (run_callbacks user r (if b2 then [CbWrite] else []) c1) good) as Hend'.
  { intros b2. apply (Hend false b2). }
  destruct (has_bit revents POLLHUP) eqn:E1, (has_bit revents POLLIN) eqn:E2; cbn [andb negb orb app].
  2: { rewrite Hhup by done. cbn. eapply wp_bind; [by apply (handleClose_spec 0)|]. intros c1. apply Hend. }
  all: destruct (_ || has_bit revents POLLNVAL)%bool; cbn [app run_callbacks run_callback res_bind handleError].
  all: try (eapply wp_bind; [by apply handleRead_good|]; intros c1; apply Hend').
  all: destruct (has_bit revents POLLPRI); cbn [app run_callbacks run_callback]; [|by apply Hend'].
  all: eapply wp_bind; [by apply handleRead_good|]; intros c1; apply Hend'.
Qed.

(** *** Runs *)

(** What the surroundings may do. *)
Definition event_ok (e : event) (c : Conn) : Prop :=
  match e with
  | Established => state_ c = kConnecting
  | Ready revents r =>
      events_ (channel_ c) ≠ 0 ∧ report_ok revents ∧
      (∀ d, r = inr d → zlen d ≤ readFd_capacity (inputBuffer_ c) ∧ zlen (received (env c)) + zlen d ≤ 2 ^ 62)
  | RunFunctor => ∀ d fs, pending (env c) = FSend d :: fs → zlen (accepted (env c)) + zlen d ≤ 2 ^ 62
  | TimerFires => 0 < timers (env c)
  | Call a => calm a
  | OtherChecks _ | OtherQueues => True
  | LastRelease => in_map (env c) = false ∧ pending (env c) = [] ∧ inflight (env c) = []
  end.

(** A connection the server has just made. *)
Definition created (c : Conn) : Prop :=
  ∃ fd inb outb script wc hw mark, c = new_TcpConnection fd inb outb script wc hw mark ∧
    wf inb ∧ wf outb ∧ content outb = [] ∧ used inb ≤ kCheapPrepend ∧ used outb ≤ kCheapPrepend.

Inductive reach : Conn → Prop :=
| reach_new c : created c → reach c
| reach_step c e c' :
    reach c → alive (env c) = true → event_ok e c → handle user e c = Ok c' → reach c'.

(** The object is gone: everything accepted before the write side was shut is on the
    wire, both notifications were made, the descriptor was closed once. *)
Definition dead (c : Conn) : Prop :=
  alive (env c) = false ∧ stream c ∧ updown (env c) = [true; false] ∧ closes (sock c) = 1 ∧
  state_ c = kDisconnected ∧ events_ (channel_ c) = 0.

Lemma created_good c : created c → good c.
Proof.
  intros (fd & inb & outb & script & wc & hw & mark & -> & ? & ? & Hc & ? & ?).
  split_and!; [| |done|done].
  - split; cbn; try done; lia.
  - constructor; cbn; rewrite ?Hc; try done; lia.
Qed.

Lemma pop_good c f fs :
  good c → pending (env c) = f :: fs → f ≠ FDestroy → good (on_env (set_pending fs) c) ∧ state_ c ≠ kConnecting.
Proof.
  intros ([] & [] & Hp & ?) Hpe Hf.
  assert (∀ l, FDestroy ∉ f :: l → FDestroy ∉ l) as Hn by (intros l Hn Hi; apply Hn; by right).
  unfold phase in Hp. rewrite Hpe in Hp. split.
  - split_and!; [by constructor..| |done]. unfold phase. cbn. destruct (state_ c).
    + destruct Hp as (? & ? & ? & Hx). split_and!; try done. destruct (addedToLoop_ _).
      * destruct Hx as (? & [|g l1] & l2 & [= -> ->] & Hn1 & Hn2); [done|]. split; [done|].
        exists l1, l2. split_and!; [done| |done]. intros Hi. apply Hn1. by right.
      * destruct Hx. split; [by apply Hn|done].
    + by destruct Hp as (_ & _ & _ & _ & [=] & _).
    + destruct Hp as (? & ? & ? & ? & ?). split_and!; try done. by apply Hn.
    + destruct Hp as (? & ? & ? & ? & ?). split_and!; try done. by apply Hn.
  - intros E. rewrite E in Hp. by destruct Hp as (_ & _ & _ & _ & [=] & _).
Qed.

Lemma run_functor_good c f fs :
  good c → pending (env c) = f :: fs →
  (∀ d, f = FSend d → zlen (accepted (env c)) + zlen d ≤ 2 ^ 62) →
  wp (run_functor user f (on_env (set_pending fs) c)) good.
Proof.
  intros Hg Hpe Hd. destruct (decide (f = FDestroy)) as [->|Hf]; [by apply connectDestroyed_good|].
  destruct (pop_good _ _ _ Hg Hpe Hf) as [Hg' Hs]. destruct f as [d| |n| |]; cbn [run_functor]; [|by apply callback_good..|by apply forceCloseInLoop_good|done].
  set (c' := on_env (set_pending fs) c) in *. destruct (decide (state_ c = kDisconnected)) as [E|E].
  - unfold sendInLoop. by rewrite bool_decide_true.
  - eapply wp_mono; [apply sendInLoop_spec; [done| |by apply Hd]|by intros ? (? & _)].
    unfold open. subst c'. cbn. destruct (state_ c); (by left) || (by right) || done.
Qed.

Lemma destruct_dead c :
  good c → in_map (env c) = false → pending (env c) = [] → wp (destruct_ c) dead.
Proof.
  intros (Hb & [] & Hp & Hal) Hm Hpe. unfold phase in Hp. rewrite Hm, Hpe in Hp. unfold destruct_.
  destruct (state_ c) eqn:E; [|by destruct Hp as (_ & [=] & _)..].
  destruct Hp as (Hu & _ & Hev & Hx). rewrite bool_decide_true by done.
  destruct (addedToLoop_ (channel_ c)) eqn:Ea; [by destruct Hx as (_ & [|??] & ? & [=] & _)|].
  unfold destroy. rewrite (b_handling _ Hb), Ea. cbn [negb res_bind wp].
  destruct Hx as [_ Hcl]. rewrite (b_linger _ Hb). destruct (forceFlag_ c) eqn:Ef.
  - split_and!; done.
  - split_and!; try done. cbn. rewrite Hcl. lia.
Qed.

Lemma handle_good e c :
  good c → event_ok e c →
  wp (handle user e c) (λ c', match e with LastRelease => dead c' | _ => good c' end).
Proof.
  intros Hg He. pose proof Hg as (Hb & Hs & Hp & Hal). unfold handle. rewrite Hal. cbn [negb].
  destruct e as [|revents r| | |a|d| |]; cbn [event_ok] in He.
  - by apply connectEstablished_good.
  - destruct He as (? & ? & ?). by apply handleEvents_good.
  - destruct (pending (env c)) as [|f fs] eqn:Hpe; [done|]. apply run_functor_good; [done..|].
    intros d ->. by eapply He.
  - apply forceClose_good. destruct Hb, Hs. split_and!; [by constructor..|done|done].
  - apply do_act_good; [done..|]. intros. by apply (handleClose_spec 0).
  - cbn. case_bool_decide as E; [|done]. destruct Hb, Hs. split_and!; [by constructor..| |done].
    unfold phase in *. cbn. by rewrite E in *.
  - destruct (inflight (env c)) as [|d ds] eqn:Hi; [done|]. cbn [wp].
    assert (state_ c ≠ kConnecting) as Hne.
    { intros E. unfold phase in Hp. rewrite E in Hp. destruct Hp as (_ & _ & _ & _ & _ & F & _). congruence. }
    assert (good (on_env (set_inflight ds) c)) as (? & ? & ? & ?).
    { destruct Hb, Hs. split_and!; [by constructor..| |done]. unfold phase in *. cbn. by destruct (state_ c). }
    split_and!; [by apply base_queue|by apply stream_queue|by apply phase_queue|done].
  - destruct He as (? & ? & _). by apply destruct_dead.
Qed.

Lemma reach_good c : reach c → good c ∨ dead c.
Proof.
  induction 1 as [c Hc|c e c' Hr IH Hal He Hh]; [left; by apply created_good|].
  destruct IH as [Hg|[F _]]; [|congruence]. pose proof (handle_good e c Hg He) as Hw.
  rewrite Hh in Hw. cbn in Hw. destruct e; auto.
Qed.

(** C2. Life of a connection. The poller, the loop's functors, timers, callbacks, calls in
    the loop's thread and sends of other threads come in any order, under these conditions
    ([event_ok], [calm]): callbacks and calls do not switch reading or writing on and off
    by hand; other threads only send; the last [shared_ptr] goes only after the server has
    removed the connection and when no functor and no send of another thread is pending
    ([queued_send_outlives_connection] shows that a queued send keeps nothing alive); and
    the server outlives its connections ([server_exit_aborts]). Then no assertion of the
    connection, its channel or its server fails, nothing freed is used and no event
    handler runs out of fuel; the user is told once that the connection is up and once
    that it is down, the down notification comes with the change to [kDisconnected], and
    when the object goes its descriptor has been closed exactly once. *)
Theorem connection_safe c :
  reach c →
  (alive (env c) = true → ∀ e, event_ok e c → ∃ c', handle user e c = Ok c') ∧
  updown (env c) = match state_ c with
    kConnecting => [] | kConnected | kDisconnecting => [true] | kDisconnected => [true; false] end ∧
  (alive (env c) = false → closes (sock c) = 1) ∧
  (events_ (channel_ c) ≠ 0 → open c).
Proof.
  intros [Hg|(Hal & Hst & Hu & Hx & Hs & He)]%reach_good.
  - pose proof Hg as (_ & _ & Hp & Hal). split_and!.
    + intros _ e He. pose proof (handle_good e c Hg He) as Hw. apply wp_elim in Hw as (c' & ? & _). eauto.
    + unfold phase in Hp. destruct (state_ c); by destruct Hp as (? & _).
    + congruence.
    + by apply watched_open.
  - split_and!; [congruence|by rewrite Hs|done|done].
Qed.

(** C1. The byte stream, under the conditions of [connection_safe]; in particular nobody
    switches writing off by hand ([stop_write_strands_output] shows that [stopWrite]
    breaks this). At every moment the bytes the kernel took followed by those in the
    output buffer are the accepted messages in order, and the write side is shut only
    after everything accepted is with the kernel. *)
Theorem connection_stream c :
  reach c →
  wire (sock c) ++ content (outputBuffer_ c) = accepted (env c) ∧
  (fin (sock c) = true → wire (sock c) = accepted (env c)).
Proof.
  intros Hr. assert (stream c) as [_ Hb _ Hf _] by (destruct (reach_good c Hr) as [(_ & ? & _)|(_ & ? & _)]; done).
  split; [done|]. intros Hfin. by rewrite <- Hb, Hf, app_nil_r.
Qed.

(** *** Draining after [shutdown] *)

Fixpoint writable_events (k : nat) (c : Conn) : res Conn :=
  match k with
  | O => Ok c
  | S k => let! c := handleWrite user c in writable_events k c
  end.

(** One writable event when the kernel takes [n > 0] bytes. *)
Lemma handleWrite_takes n ws c :
  good c → state_ c = kDisconnecting → dissByPeer_ c = false → content (outputBuffer_ c) ≠ [] →
  writes (sock c) = Wrote n :: ws → 0 < n →
  wp (handleWrite user c) (λ c', good c' ∧ state_ c' = kDisconnecting ∧ dissByPeer_ c' = false ∧
    writes (sock c') = ws ∧ accepted (env c') = accepted (env c) ∧
    content (outputBuffer_ c') = zdrop (Z.min n (zlen (content (outputBuffer_ c)))) (content (outputBuffer_ c)) ∧
    (content (outputBuffer_ c') = [] → fin (sock c') = true)).
Proof.
  intros Hg Hs Hd Hne Hws Hn. assert (open c) as Ho by by right. pose proof Hg as (_ & Hst & _).
  pose proof (s_out _ Hst) as [Hwf _]. unfold handleWrite. rewrite (s_writing _ Hst), bool_decide_false by congruence. cbn [negb].
  pose proof (content_ge0 _ Hwf) as Hge. assert (0 < zlen (content (outputBuffer_ c))) as Hpos.
  { destruct (content (outputBuffer_ c)); [done|cbn; lia]. }
  rewrite peek_bytes_content, ztake_all by (done || rewrite readableBytes_content by done; lia).
  assert (fin (sock c) = false) as Hf by (destruct (fin (sock c)) eqn:E; [by apply (s_fin _ Hst) in E|done]).
  unfold kernel_write. rewrite Hf, Hws. rewrite Z.max_r by lia. set (m := Z.min n _).
  rewrite (proj2 (Z.ltb_lt 0 m)) by lia. cbn [outputBuffer_ on_sock set_sock].
  eapply wp_bind; [apply (retrieve_used m); [done|lia]|]. intros out (Hwo & Hco & Huo).
  destruct (drained_good m out ws c Hg Ho ltac:(lia) Hf Hwo Hco Huo) as [Hmore Hdone].
  rewrite (readableBytes_content out) by done. destruct (Z.eqb_spec (zlen (content out)) 0) as [E|E].
  - assert (content out = []) as E' by (destruct (content out); [done|cbn in E; lia]). specialize (Hdone E').
    match goal with |- context [if ?b then queue ?f ?x else ?x] => set (c2 := if b then queue f x else x); set (c1 := x) in Hdone |- * end.
    assert (good c2 ∧ channel_ c2 = channel_ c1 ∧ state_ c2 = kDisconnecting ∧ dissByPeer_ c2 = false ∧ sock c2 = sock c1 ∧
      outputBuffer_ c2 = out ∧ accepted (env c2) = accepted (env c)) as (Hg2 & Ech & Es & Ed & Ek & Eo & Ea).
    { subst c2. case_match; [|done]. split_and!; [|done..]. destruct Hdone as (? & ? & ? & ?).
      split_and!; [by apply base_queue|by apply stream_queue|apply phase_queue; [done|by cbn; rewrite Hs|done]|done]. }
    rewrite bool_decide_true by done.
    assert (isWriting (channel_ c2) = false) as Hw2.
    { destruct Hg2 as (_ & [_ _ _ _ Hwr] & _). rewrite Hwr, Eo, bool_decide_true by congruence. done. }
    unfold shutdownInLoop. rewrite Hw2. cbn [negb dissByPeer_ on_sock set_sock]. rewrite Ed. cbn [wp].
    split_and!; [|done|done|cbn; by rewrite Ek|done|cbn; by rewrite Eo|done].
    destruct Hg2 as ([] & [] & ? & ?). split_and!; [by constructor| |done|done]. constructor; try done. cbn. by rewrite Eo.
  - cbn [wp]. split_and!; [|done..|intros F; cbn in F; by rewrite F in E].
    apply Hmore. intros F. by rewrite F in E.
Qed.

(** The kernel keeps taking bytes. *)
Definition takes_some (w : write_result) : Prop := match w with Wrote n => 0 < n | WFail _ => False end.

Lemma drain m c :
  good c → state_ c = kDisconnecting → dissByPeer_ c = false → content (outputBuffer_ c) ≠ [] →
  Forall takes_some (writes (sock c)) → (length (content (outputBuffer_ c)) ≤ m)%nat →
  (length (content (outputBuffer_ c)) ≤ length (writes (sock c)))%nat →
  ∃ k, (k ≤ length (content (outputBuffer_ c)))%nat ∧
    wp (writable_events k c) (λ c', good c' ∧ fin (sock c') = true ∧ accepted (env c') = accepted (env c)).
Proof.
  revert c. induction m as [|m IH]; intros c Hg Hs Hd Hne Hws Hm Hl.
  { destruct (content (outputBuffer_ c)); [done|cbn in Hm; lia]. }
  destruct (writes (sock c)) as [|[n|e] ws] eqn:Ew; [destruct (content (outputBuffer_ c)); [done|cbn in Hl; lia]| |by apply Forall_cons in Hws as [[] _]].
  apply Forall_cons in Hws as [Hn Hws]. cbn in Hn.
  pose proof (handleWrite_takes n ws c Hg Hs Hd Hne Ew Hn) as Hw.
  apply wp_elim in Hw as (c1 & Hh & Hg1 & Hs1 & Hd1 & Ew1 & Ea1 & Ec1 & Hf1).
  assert (0 < zlen (content (outputBuffer_ c))) as Hpos by (destruct (content (outputBuffer_ c)); [done|cbn; lia]).
  assert (length (content (outputBuffer_ c1)) < length (content (outputBuffer_ c)))%nat as Hlt.
  { rewrite Ec1. unfold zdrop. rewrite length_drop. lia. }
  destruct (decide (content (outputBuffer_ c1) = [])) as [E|E].
  - exists 1%nat. split; [lia|]. cbn. rewrite Hh. cbn. auto.
  - destruct (IH c1) as (k & Hk & Hrun); [done..|by rewrite Ew1|lia|rewrite Ew1; cbn in Hl; lia|].
    exists (S k). split; [lia|]. cbn [writable_events]. rewrite Hh. cbn [res_bind].
    eapply wp_mono; [exact Hrun|]. intros c2 (? & ? & ?). split_and!; [done..|congruence].
Qed.

(** C22. Draining, for a connection whose history meets the conditions of
    [connection_safe] (nobody has called [stopWrite], which would strand the output:
    [stop_write_strands_output]) and whose peer has not ended its side ([dissByPeer_];
    [second_eof_drops_output] is the contrary). After [shutdown] with output still
    buffered, as long as the kernel takes something at each writable event, finitely many
    of them (at most one per buffered byte) put everything accepted on the wire and then
    shut the write side. *)
Theorem shutdown_drains c :
  reach c → alive (env c) = true →
  state_ c = kDisconnecting → dissByPeer_ c = false → content (outputBuffer_ c) ≠ [] →
  Forall takes_some (writes (sock c)) →
  (length (content (outputBuffer_ c)) ≤ length (writes (sock c)))%nat →
  ∃ k, (k ≤ length (content (outputBuffer_ c)))%nat ∧
    wp (writable_events k c) (λ c', fin (sock c') = true ∧ wire (sock c') = accepted (env c)).
Proof.
  intros Hr Hal Hs Hd Hne Hws Hl. destruct (reach_good c Hr) as [Hg|[F _]]; [|congruence].
  destruct (drain _ c Hg Hs Hd Hne Hws (le_n _) Hl) as (k & Hk & Hrun). exists k. split; [done|].
  eapply wp_mono; [exact Hrun|]. intros c' ((_ & [_ Hb _ Hf _] & _) & Hfin & Ha). split; [done|].
  by rewrite <- Ha, <- Hb, Hf, app_nil_r.
Qed.

(** *** Behaviour at the edges *)

Lemma eof_closes c :
  good c → ∃ b, handleRead user (inr []) c = close user (set_inputBuffer b c) ∧ good (set_inputBuffer b c).
Proof.
  intros ([[Hwf Hus] ? ? ? ?] & [] & ? & ?). unfold handleRead.
  assert (wp (readFd (λ _, inr []) (inputBuffer_ c)) (λ '(n, e, b'), n = 0 ∧ e = None ∧ wf b' ∧
    content b' = content (inputBuffer_ c) ++ [] ∧ writerIndex_ b' ≤ writerIndex_ (inputBuffer_ c) + 0)) as Hrd.
  { apply (readFd_spec _ _ []); [done|done| |].
    - unfold readFd_capacity. pose proof (writableBytes_wf _ Hwf). unfold wf in Hwf. cbn. unfold sizeof_extrabuf. case_match; lia.
    - unfold fits, used, kCheapPrepend, max_size in *. cbn. lia. }
  apply wp_elim in Hrd as ([[n e] b] & -> & -> & -> & Hwb & _ & Hwi). exists b. cbn. split; [done|].
  split_and!; [|by constructor|done|done]. constructor; try done. split; [done|]. cbn in *. unfold used in *. lia.
Qed.

(** End of file from the peer while output is buffered: the first one starts a
    graceful shutdown that waits for the output, but reading stays enabled, the poller
    reports the end of file again, and the second one closes the connection at once:
    the buffered bytes are never written. *)
Theorem second_eof_drops_output c :
  reach c → state_ c = kConnected → closeFlag_ c = false → content (outputBuffer_ c) ≠ [] →
  wp (let! c := handleRead user (inr []) c in handleRead user (inr []) c) (λ c',
    state_ c' = kDisconnected ∧ isWriting (channel_ c') = false ∧
    content (outputBuffer_ c') = content (outputBuffer_ c) ∧ wire (sock c') = wire (sock c) ∧
    wire (sock c') ≠ accepted (env c)).
Proof.
  intros Hr Hs Hcl Hne. destruct (reach_good c Hr) as [Hg|(_ & _ & _ & _ & F & _)]; [|congruence].
  assert (open c) as Ho by by left. pose proof Hg as (_ & Hst & _).
  destruct (eof_closes c Hg) as (b & -> & Hg1). unfold close at 1. cbn [handleClose]. cbn [state_ set_inputBuffer closeFlag_].
  rewrite Hs, Hcl. cbn [orb bool_decide]. unfold shutdown. cbn [state_ set_dissByPeer set_inputBuffer]. rewrite Hs, !bool_decide_true by done.
  cbn [orb]. unfold shutdownInLoop. cbn [channel_ set_state set_closeFlag set_dissByPeer set_inputBuffer].
  rewrite (s_writing _ Hst), bool_decide_false by congruence. cbn [negb res_bind].
  set (c1 := set_state _ _). assert (good c1) as Hgc.
  { destruct Hg1 as ([] & [? ? ? ? Hwr] & Hp & ?). split_and!; [by constructor| | |done].
    - constructor; try done. intros _. apply Hwr. cbn. congruence.
    - unfold phase in *. cbn in *. by rewrite Hs in Hp. }
  destruct (eof_closes c1 Hgc) as (b' & -> & Hg2).
  eapply wp_mono; [apply (handleClose_last 1); [done|by right|done]|].
  intros c' (Hg' & Hs' & Eo & Ek). split_and!; [done| |by rewrite Eo|by rewrite Ek|].
  - destruct Hg' as (_ & _ & Hp & _). unfold phase in Hp. rewrite Hs' in Hp. destruct Hp as (_ & _ & He & _).
    unfold isWriting. by rewrite He.
  - rewrite Ek. cbn. rewrite <- (s_bytes _ Hst). intros E. apply Hne.
    apply (app_inv_head (wire (sock c))). by rewrite app_nil_r.
Qed.

(** [stopWrite] does not look at the output buffer: called while bytes are buffered
    (as [StaticServer::writeComplete] does, which runs as a queued functor, so that a
    later [send] may have buffered output in between), followed by [shutdown], it shuts
    the write side before those bytes are written. *)
Theorem stop_write_strands_output c :
  reach c → state_ c = kConnected → dissByPeer_ c = false → content (outputBuffer_ c) ≠ [] →
  wp (do_acts (close user) [StopWrite; Shutdown] c) (λ c',
    fin (sock c') = true ∧ content (outputBuffer_ c') ≠ [] ∧ wire (sock c') ≠ accepted (env c')).
Proof.
  intros Hr Hs Hd Hne. destruct (reach_good c Hr) as [Hg|(_ & _ & _ & _ & F & _)]; [|congruence].
  destruct Hg as (Hb & Hst & _). cbn [do_acts do_act res_bind]. unfold stopWriteInLoop.
  rewrite (s_writing _ Hst), bool_decide_false by congruence. cbn [negb].
  unfold shutdown. cbn [state_ chan set_channel]. rewrite bool_decide_true by done.
  unfold shutdownInLoop. set (c1 := set_state _ _).
  assert (isWriting (channel_ c1) = false) as -> by exact (chan_writing disableWriting c Hb).
  cbn [negb dissByPeer_ on_sock set_sock c1 set_state set_closeFlag chan set_channel]. rewrite Hd. cbn.
  split_and!; [done..|]. rewrite <- (s_bytes _ Hst). intros E. apply Hne.
  apply (app_inv_head (wire (sock c))). by rewrite app_nil_r.
Qed.

(** The server's destructor runs [connectDestroyed] on every connection; for one that
    was shut down but is not closed yet (its channel still reads), it skips
    [disableAll] and the assertion of [Channel::remove] fails. *)
Theorem server_exit_aborts c :
  reach c → state_ c = kConnected → dissByPeer_ c = false → events_ (channel_ c) ≠ 0 →
  (let! c := shutdown (close user) c in connectDestroyed user c) = Err AssertFailed.
Proof.
  intros Hr Hs Hd He. destruct (reach_good c Hr) as [Hg|(_ & _ & _ & _ & F & _)]; [|congruence].
  unfold shutdown. rewrite bool_decide_true by done. unfold shutdownInLoop.
  assert (∀ c', state_ c' = kDisconnecting → events_ (channel_ c') ≠ 0 → connectDestroyed user c' = Err AssertFailed) as Hk.
  { intros c' Hs' He'. unfold connectDestroyed. rewrite bool_decide_false by congruence. cbn.
    unfold isNoneEvent. by rewrite (proj2 (Z.eqb_neq _ _)). }
  case_match; [|by apply Hk]. cbn [dissByPeer_ on_sock set_sock set_state set_closeFlag]. rewrite Hd. by apply Hk.
Qed.

End closing.

(** *** Witnesses *)

Definition empty_buffer : Buffer := mkBuffer (replicate 32 Byte.x00) 8 8.

Definition sample (script : list write_result) : Conn :=
  new_TcpConnection 9 empty_buffer empty_buffer script true false (64 * 1024 * 1024).

Lemma empty_buffer_wf : wf empty_buffer.
Proof. by vm_compute. Qed.

Lemma sample_created script : created (sample script).
Proof.
  exists 9, empty_buffer, empty_buffer, script, true, false, (64 * 1024 * 1024).
  split_and!; [done|apply empty_buffer_wf..|done|done|done].
Qed.

(** An echo server. *)
Definition echo (n : notice) (c : Conn) : list act :=
  match n with
  | NMessage => [Send (content (inputBuffer_ c)); Consume (readableBytes (inputBuffer_ c))]
  | _ => []
  end.

Lemma echo_calm n c : Forall calm (echo n c).
Proof. destruct n; repeat constructor. Qed.

Fixpoint run (user : notice → Conn → list act) (es : list event) (c : Conn) : res Conn :=
  match es with
  | [] => Ok c
  | e :: es => let! c := handle user e c in run user es c
  end.

(** Every event is allowed when it happens. *)
Fixpoint allowed_run (user : notice → Conn → list act) (es : list event) (c : Conn) : Prop :=
  match es with
  | [] => True
  | e :: es => alive (env c) = true ∧ event_ok e c ∧
      match handle user e c with Ok c' => allowed_run user es c' | Err _ => True end
  end.

Lemma run_reach user es c c' :
  reach user c → allowed_run user es c → run user es c = Ok c' → reach user c'.
Proof.
  revert c. induction es as [|e es IH]; intros c Hr Ha Hrun; [by simplify_eq/=|]. cbn in Ha, Hrun.
  destruct Ha as (Hal & He & Ha). destruct (handle user e c) as [c1|] eqn:Hh; [|done].
  eapply IH; [|exact Ha|exact Hrun]. by eapply reach_step.
Qed.

(** "hello" was sent and the kernel took two bytes of it. *)
Definition script : list write_result := [Wrote 2; Wrote 1; Wrote 1; Wrote 5].
Definition to_buffered : list event := [Established; Call (Send (str "hello"))].
Definition after (es : list event) : Conn :=
  match run echo es (sample script) with Ok c => c | Err _ => sample script end.

Lemma buffered_reach : reach echo (after to_buffered).
Proof.
  eapply (run_reach echo to_buffered (sample script)); [constructor; apply sample_created|by vm_compute..].
Qed.

Lemma closing_reach : reach echo (after (to_buffered ++ [Call Shutdown])).
Proof.
  eapply (run_reach echo (to_buffered ++ [Call Shutdown]) (sample script)); [constructor; apply sample_created|by vm_compute..].
Qed.

Lemma connection_safe_witness : ∃ c', handle echo (Ready POLLIN (inr (str "ping"))) (after to_buffered) = Ok c'.
Proof.
  apply (connection_safe echo echo_calm (after to_buffered) buffered_reach); [done|].
  cbn [event_ok]. split_and!; [by vm_compute|by vm_compute|]. intros d [= <-]. by vm_compute.
Defined.

Lemma connection_stream_witness :
  wire (sock (after to_buffered)) ++ content (outputBuffer_ (after to_buffered)) = str "hello" ∧
  wire (sock (after to_buffered)) = str "he".
Proof.
  split; [|by vm_compute].
  exact (proj1 (connection_stream echo echo_calm (after to_buffered) buffered_reach)).
Defined.

Lemma shutdown_drains_witness :
  ∃ k, (k ≤ 3)%nat ∧ wp (writable_events echo k (after (to_buffered ++ [Call Shutdown]))) (λ c',
    fin (sock c') = true ∧ wire (sock c') = str "hello").
Proof.
  apply (shutdown_drains echo echo_calm _ closing_reach); [done|done|done|by vm_compute| |vm_compute; lia].
  vm_compute. repeat constructor.
Defined.

Lemma second_eof_drops_output_witness :
  wp (let! c := handleRead echo (inr []) (after to_buffered) in handleRead echo (inr []) c) (λ c',
    state_ c' = kDisconnected ∧ content (outputBuffer_ c') = str "llo").
Proof.
  pose proof (second_eof_drops_output echo echo_calm (after to_buffered) buffered_reach) as W.
  eapply wp_mono; [apply W; by vm_compute|]. intros c' (? & _ & E & _). split; [done|]. rewrite E. by vm_compute.
Defined.

Lemma stop_write_strands_output_witness :
  wp (do_acts (close echo) [StopWrite; Shutdown] (after to_buffered)) (λ c',
    fin (sock c') = true ∧ content (outputBuffer_ c') ≠ []).
Proof.
  eapply wp_mono; [apply (stop_write_strands_output echo echo_calm (after to_buffered) buffered_reach); by vm_compute|].
  intros c' (? & ? & _). done.
Defined.

Lemma server_exit_aborts_witness :
  (let! c := shutdown (close echo) (after to_buffered) in connectDestroyed echo c) = Err AssertFailed.
Proof. apply (server_exit_aborts echo echo_calm (after to_buffered) buffered_reach); by vm_compute. Defined.

(** Another thread has checked the state and queues its functor after the connection's
    [connectDestroyed]; nothing but the bare [this] of the functor is left. *)
Definition late_send : list event :=
  [Established; OtherChecks (str "x"); Call ForceClose; RunFunctor; OtherQueues; RunFunctor].

(** A send from another thread is queued with a bare [this] (the FIXME of [send]):
    when it is queued behind [connectDestroyed] and no [shared_ptr] is left, the object
    is destroyed and the functor uses freed memory. *)
Theorem queued_send_outlives_connection :
  ∃ c, run echo late_send (sample script) = Ok c ∧
    in_map (env c) = false ∧ inflight (env c) = [] ∧ pending (env c) = [FSend (str "x")] ∧
    run echo [LastRelease; RunFunctor] c = Err UseAfterFree.
Proof. exists (after late_send). split_and!; by vm_compute. Qed.

End TcpConnection.
