(* ===== verification/HttpServe.v ===== *)
(** The HTTP server on a TCP connection ([netLayer/http/HttpServer.cpp] over
    [netLayer/tcp/TcpConnection.cpp]): the callbacks of [HttpServer], with the context that
    it keeps in the connection, put into the handlers of the connection.

    [Http] models what the callbacks compute, [TcpConnection] what a connection does with
    bytes; here is what a client sees. *)

From S2P Require Import Prelude Buffer Poller TcpConnection Http.

Module HttpServe.
Import Buffer TcpConnection.

(** A connection with [context_], the [boost::any] of it. *)
Record HttpConn := mkHttpConn { conn : Conn; context_ : option Http.HttpContext }.

(** No other callbacks are set. *)
Definition no_user (n : notice) (c : Conn) : list act := [].

Section server.
Context (httpCallback_ : Http.HttpRequest → Http.HttpResponse → Http.HttpResponse).

Definition onConnection (h : HttpConn) : HttpConn :=
  if bool_decide (state_ (conn h) = kConnected)
  then mkHttpConn (conn h) (Some Http.new_HttpContext) else h.

(** [conn->send] and [conn->shutdown] as [onMessage] and [onRequest] call them. *)
Definition perform (e : Http.effect) (c : Conn) : res Conn :=
  match e with
  | Http.ESend data =>
      if bool_decide (state_ c = kConnected) then sendInLoop data (zlen data) c else Ok c
  | Http.EShutdown => shutdown (close no_user) c
  end.

Fixpoint performs (es : list Http.effect) (c : Conn) : res Conn :=
  match es with
  | [] => Ok c
  | e :: es => let! c := perform e c in performs es c
  end.

(** Without a context the [any_cast] gives a null pointer. *)
Definition onMessage (receiveTime : Z) (h : HttpConn) : res HttpConn :=
  match context_ h with
  | None => Err UseAfterFree
  | Some context =>
      let! (es, context, buf) :=
        Http.onMessage httpCallback_ context (inputBuffer_ (conn h)) receiveTime in
      let! c := performs es (set_inputBuffer buf (conn h)) in
      Ok (mkHttpConn c (Some context))
  end.

Definition connectEstablished (h : HttpConn) : res HttpConn :=
  let! c := TcpConnection.connectEstablished no_user (conn h) in
  Ok (onConnection (mkHttpConn c (context_ h))).

(** [TcpConnection::handleRead] with the message callback of the server. *)
Definition handleRead (r : readv_result) (receiveTime : Z) (h : HttpConn) : res HttpConn :=
  let! (n, e, b) := readFd (λ _, r) (inputBuffer_ (conn h)) in
  let c := set_inputBuffer b (conn h) in
  if 0 <? n then
    let c := on_env (λ e, set_received (received e ++ match r with inr d => d | inl _ => [] end) e) c in
    onMessage receiveTime (mkHttpConn c (context_ h))
  else if n =? 0 then let! c := close no_user c in Ok (mkHttpConn c (context_ h))
  else Ok (mkHttpConn (handleError c) (context_ h)).

Definition handleWrite (h : HttpConn) : res HttpConn :=
  let! c := TcpConnection.handleWrite no_user (conn h) in Ok (mkHttpConn c (context_ h)).

(** ** The dialogue with a client *)

Definition response_of : Http.HttpRequest → Http.HttpResponse := Http.response_of httpCallback_.

(** What a client gets that sends these requests: the responses up to the first that closes. *)
Fixpoint answers (rs : list Http.HttpRequest) : bytes :=
  match rs with
  | [] => []
  | r :: rs =>
      Http.serialize (response_of r) ++
      (if Http.closeConnection_ (response_of r) then [] else answers rs)
  end.

Definition finished (rs : list Http.HttpRequest) : bool :=
  existsb (λ r, Http.closeConnection_ (response_of r)) rs.

(** The kernel does not report that the peer is gone. *)
Definition willing (w : write_result) : Prop := match w with Wrote _ => True | WFail e => e ≠ EPIPE ∧ e ≠ ECONNRESET end.

(** A read of [d] is possible: the size is one that [readv] was asked for, and the traffic
    stays below 2^62 bytes. *)
Definition arrives (d : bytes) (c : Conn) : Prop :=
  d ≠ [] ∧ zlen d ≤ readFd_capacity (inputBuffer_ c) ∧ zlen (received (env c)) + zlen d ≤ 2 ^ 62 ∧
  zlen (accepted (env c)) + 2 ^ 31 ≤ 2 ^ 62.

(** [talk ws w k h]: the client has sent the requests [ws], and [w] but for [k]; it begins
    its next request when it likes, and a read does not reach over the end of a request.
    Reads and writable events come in any order, and the kernel takes what it likes of the
    output. *)
Inductive talk : list Http.wire_request → Http.wire_request → bytes → HttpConn → Prop :=
| talk_up c w h :
    created c → Forall willing (writes (sock c)) → content (inputBuffer_ c) = [] → Http.request_ok w →
    connectEstablished (mkHttpConn c None) = Ok h → talk [] w (Http.wire_text w) h
| talk_choose ws w w' h :
    talk ws w (Http.wire_text w) h → Http.request_ok w' → talk ws w' (Http.wire_text w') h
| talk_part ws w d k h t h' :
    talk ws w (d ++ k) h → arrives d (conn h) → k ≠ [] → handleRead (inr d) t h = Ok h' → talk ws w k h'
| talk_end ws w d h t h' :
    talk ws w d h → arrives d (conn h) → handleRead (inr d) t h = Ok h' →
    talk (ws ++ [w]) w (Http.wire_text w) h'
| talk_write ws w k h h' : talk ws w k h → handleWrite h = Ok h' → talk ws w k h'.

End server.

(** ** Lemmas *)

(** A connection that is up, or half closed by the server, with a peer that reads. *)
Record fine (c : Conn) : Prop := {
  f_good : good c;
  f_open : open c;
  f_peer : dissByPeer_ c = false;
  f_fin : state_ c = kConnected → fin (sock c) = false;
  f_writes : Forall willing (writes (sock c));
}.

(** What sending and writing leave alone. *)
Definition frame (c c' : Conn) : Prop :=
  inputBuffer_ c' = inputBuffer_ c ∧ dissByPeer_ c' = dissByPeer_ c ∧
  (Forall willing (writes (sock c)) → Forall willing (writes (sock c'))).

Lemma frame_refl c : frame c c.
Proof. done. Qed.

Lemma frame_trans c1 c2 c3 : frame c1 c2 → frame c2 c3 → frame c1 c3.
Proof. intros (A1 & A2 & A3) (B1 & B2 & B3). split_and!; [congruence..|auto]. Qed.

Lemma kernel_write_frame data c :
  Forall willing (writes (sock c)) →
  let '(r, c') := kernel_write data c in
  frame c c' ∧ fin (sock c') = fin (sock c) ∧ state_ c' = state_ c ∧ accepted (env c') = accepted (env c) ∧
  match r with Wrote _ => True | WFail e => fin (sock c) = false → e ≠ EPIPE ∧ e ≠ ECONNRESET end.
Proof.
  intros Hw. unfold kernel_write. destruct (fin (sock c)) eqn:Hf; [done|].
  destruct (writes (sock c)) as [|[n|e] ws] eqn:E; [done|..]; apply Forall_cons in Hw as [Hh Hw];
    split_and!; done.
Qed.

Lemma send_rest_frame rest n c c' :
  send_rest rest n c = Ok c' → frame c c' ∧ fin (sock c') = fin (sock c) ∧ accepted (env c') = accepted (env c).
Proof.
  unfold send_rest. destruct (0 <? n); [|by intros [= <-]].
  match goal with |- context [if ?b then queue ?f c else c] => set (c1 := if b then queue f c else c) end.
  assert (frame c c1 ∧ fin (sock c1) = fin (sock c) ∧ accepted (env c1) = accepted (env c)) as H by (subst c1; by case_match).
  clearbody c1. destruct (append _ _ _) as [out|]; [|done]. cbn. intros [= <-]. by case_match.
Qed.

(** A message on a connection that is up is accepted, whole. *)
Lemma send_accepts data c :
  fine c → state_ c = kConnected → zlen (accepted (env c)) + zlen data ≤ 2 ^ 62 →
  wp (sendInLoop data (zlen data) c) (λ c', fine c' ∧ frame c c' ∧ state_ c' = kConnected ∧
    accepted (env c') = accepted (env c) ++ data).
Proof.
  intros [Hg Ho Hd Hf Hw] Hs Hb. pose proof (sendInLoop_spec data c Hg Ho Hb) as (c' & E & Hg' & Hs' & _)%wp_elim.
  rewrite E. cbn [wp]. rewrite Hs in Hs'.
  assert (frame c c' ∧ fin (sock c') = false ∧ accepted (env c') = accepted (env c) ++ data) as (F & Hfin & Ha).
  { revert E. unfold sendInLoop. rewrite bool_decide_false by congruence. rewrite (proj2 (Z.ltb_ge _ _)), (ztake_all _ data) by lia.
    pose proof (kernel_write_frame data c Hw) as Hk. specialize (Hf Hs).
    assert (∀ rest n c1, frame c c1 → fin (sock c1) = false → accepted (env c1) = accepted (env c) →
      send_rest rest n (accept data c1) = Ok c' → frame c c' ∧ fin (sock c') = false ∧ accepted (env c') = accepted (env c) ++ data) as Hrest.
    { intros rest n c1 F1 F2 F3 (G1 & G2 & G3)%send_rest_frame. split_and!; [by eapply frame_trans|by rewrite G2|].
      rewrite G3. cbn. by rewrite F3. }
    destruct (_ && _)%bool.
    - destruct (kernel_write data c) as [[n|e] c1]; destruct Hk as (F1 & F2 & _ & F4 & F5).
      + destruct (_ <=? _); [|done]. cbn [negb]. apply Hrest; case_match; try done; cbn; congruence.
      + destruct (F5 Hf) as [N1 N2]. rewrite !bool_decide_false by done. destruct (_ <=? _); [|done]. cbn [negb orb].
        apply Hrest; [done|congruence|done].
    - destruct (_ <=? _); [|done]. cbn [negb]. by apply Hrest. }
  destruct F as (F1 & F2 & F3). split_and!; try done. constructor; try done; [by left|congruence|by apply F3].
Qed.

Lemma no_user_calm n c : Forall calm (no_user n c).
Proof. constructor. Qed.

(** Closing the write side. *)
Lemma shutdown_fine c :
  fine c → state_ c = kConnected →
  wp (shutdown (close no_user) c) (λ c', fine c' ∧ frame c c' ∧ state_ c' = kDisconnecting ∧
    accepted (env c') = accepted (env c)).
Proof.
  intros [Hg Ho Hd Hf Hw] Hs. pose proof (shutdown_spec (close no_user) c Hg) as H.
  destruct (wp_elim _ _ (H ltac:(intros; by apply (handleClose_spec no_user no_user_calm 0)))) as (c' & E & Hg').
  rewrite E. cbn [wp]. revert E. unfold shutdown, shutdownInLoop. rewrite bool_decide_true by done. cbn [channel_ set_state set_closeFlag].
  assert (∀ x, good x → frame c x → state_ x = kDisconnecting → accepted (env x) = accepted (env c) →
    fine x ∧ frame c x ∧ state_ x = kDisconnecting ∧ accepted (env x) = accepted (env c)) as Hx.
  { intros x G1 G2 G3 G4. pose proof G2 as (F1 & F2 & F3). split_and!; try done.
    constructor; try done; [by right|congruence|congruence|by apply F3]. }
  destruct (negb _).
  - cbn. rewrite Hd. intros [= <-]. by apply Hx.
  - intros [= <-]. by apply Hx.
Qed.

(** A writable event. *)
Lemma handleWrite_fine c :
  fine c → wp (TcpConnection.handleWrite no_user c) (λ c', fine c' ∧ inputBuffer_ c' = inputBuffer_ c ∧
    state_ c' = state_ c ∧ accepted (env c') = accepted (env c)).
Proof.
  intros [Hg Ho Hd Hf Hw]. destruct (wp_elim _ _ (handleWrite_good no_user no_user_calm c Hg)) as (c' & E & Hg').
  rewrite E. cbn [wp].
  assert (frame c c' ∧ state_ c' = state_ c ∧ accepted (env c') = accepted (env c) ∧ (state_ c = kConnected → fin (sock c') = fin (sock c)))
    as ((F1 & F2 & F3) & G1 & G2 & G3).
  { revert E. unfold TcpConnection.handleWrite. destruct (Channel.isWriting _); [|by intros [= <-]].
    set (data := peek_bytes _ _). pose proof (kernel_write_frame data c Hw) as Hk.
    destruct (kernel_write data c) as [[n|e] c1]; destruct Hk as (F1 & F2 & F3 & F4 & _); [|by intros [= <-]].
    destruct (0 <? n); [|by intros [= <-]]. destruct (retrieve n _) as [out|]; [|done]. cbn [res_bind].
    destruct (readableBytes out =? 0); [|by intros [= <-]].
    match goal with |- context [if ?b then queue ?f ?x else ?x] => set (c2 := if b then queue f x else x) end.
    assert (frame c c2 ∧ state_ c2 = state_ c ∧ accepted (env c2) = accepted (env c) ∧ fin (sock c2) = fin (sock c) ∧
      dissByPeer_ c2 = false) as (F1' & F2' & F3' & F4' & F5').
    { subst c2. destruct F1 as (? & ? & ?). case_match; cbn; split_and!; try done; congruence. }
    clearbody c2. case_bool_decide as Hs; [|by intros [= <-]]. unfold shutdownInLoop.
    destruct (negb _); [|intros [= <-]; done]. cbn. rewrite F5'. intros [= <-]. split_and!; [done..|]. congruence. }
  split_and!; try done. constructor; try done; [unfold open; by rewrite G1|congruence| |by apply F3].
  intros Hs. rewrite G1 in Hs. rewrite G3 by done. by apply Hf.
Qed.

Lemma fine_buffer b c :
  fine c → wf b → used b ≤ kCheapPrepend + zlen (received (env c)) → fine (set_inputBuffer b c).
Proof. intros [([] & [] & ? & ?) ? ? ? ?] Hb Hu. by constructor. Qed.

Lemma fine_received rcv c :
  fine c → zlen (received (env c)) ≤ zlen rcv ≤ 2 ^ 62 → fine (on_env (set_received rcv) c).
Proof.
  intros [([[? ?] ? ? ? ?] & [] & ? & ?) ? ? ? ?] Hr. constructor; try done. split_and!; [|by constructor|done..].
  constructor; try done; cbn; [split; [done|]|]; lia.
Qed.

Section stream.
Context (cb : Http.HttpRequest → Http.HttpResponse → Http.HttpResponse).
Context (Hcb : ∀ req, Http.resp_ok (response_of cb req)).

Lemma answers_snoc rs r :
  answers cb (rs ++ [r]) = answers cb rs ++ (if finished cb rs then [] else Http.serialize (response_of cb r)).
Proof.
  induction rs as [|x rs IH]; cbn [app answers finished existsb].
  - by destruct (Http.closeConnection_ _); rewrite !app_nil_r.
  - destruct (Http.closeConnection_ _); cbn [orb]; [by rewrite !app_nil_r|]. rewrite IH. by rewrite app_assoc.
Qed.

Lemma finished_snoc rs r :
  finished cb (rs ++ [r]) = finished cb rs || Http.closeConnection_ (response_of cb r).
Proof. unfold finished. rewrite existsb_app. cbn. by rewrite orb_false_r. Qed.

(** What has been accepted for the client, and whether more will be. *)
Definition answered (rs : list Http.HttpRequest) (c : Conn) : Prop :=
  accepted (env c) = answers cb rs ∧ state_ c = if finished cb rs then kDisconnecting else kConnected.

Lemma performs_answer rs r c :
  fine c → answered rs c → zlen (accepted (env c)) + 2 ^ 31 ≤ 2 ^ 62 →
  wp (performs (Http.answer cb r) c) (λ c', fine c' ∧ answered (rs ++ [r]) c' ∧ inputBuffer_ c' = inputBuffer_ c).
Proof.
  intros Hf [Ha Hs] Hb. unfold answered. rewrite answers_snoc, finished_snoc. unfold Http.answer.
  change (Http.response_of cb r) with (response_of cb r).
  destruct (Hcb r) as [_ Hlen]. cbn [performs perform]. destruct (finished cb rs) eqn:Ef.
  - rewrite bool_decide_false by congruence. cbn [res_bind orb]. rewrite app_nil_r.
    destruct (Http.closeConnection_ _); cbn [performs perform res_bind]; [|done].
    unfold shutdown. rewrite bool_decide_false by congruence. done.
  - rewrite bool_decide_true by done. cbn [orb]. eapply wp_bind; [apply send_accepts; [done..|lia]|].
    intros c1 (Hf1 & (Hi1 & _) & Hs1 & Ha1). rewrite <- Ha, <- Ha1.
    destruct (Http.closeConnection_ _); cbn [performs perform].
    + eapply wp_bind; [by apply shutdown_fine|]. intros c2 (? & (? & _) & ? & ?). cbn. split_and!; [done..|congruence].
    + done.
Qed.

(** The dialogue, seen from the connection. *)
Definition state_of (ws : list Http.wire_request) (w : Http.wire_request) (k : bytes) (h : HttpConn) : Prop :=
  fine (conn h) ∧ Http.request_ok w ∧
  ∃ ctx rs, context_ h = Some ctx ∧ Http.progress (λ _, True) w k ctx (content (inputBuffer_ (conn h))) ∧
    Forall2 (λ w r, ∃ t, r = Http.request_value w t) ws rs ∧ answered rs (conn h).

Lemma progress_start T w : Http.progress T w (Http.wire_text w) Http.new_HttpContext [].
Proof. split; [done|by left]. Qed.

(** Nothing of the request has arrived. *)
Lemma progress_whole T w c q : Http.progress T w (Http.wire_text w) c q → c = Http.new_HttpContext ∧ q = [].
Proof.
  intros (_ & [[-> E]|(t & hs1 & hs2 & _ & Eh & _ & E)]).
  - split; [done|]. apply (f_equal length) in E. rewrite length_app in E. destruct q; [done|cbn in E; lia].
  - apply (f_equal length) in E. unfold Http.wire_text in E. rewrite Eh, Http.wire_cons, map_app, <- app_assoc in E.
    unfold Http.wire in E. rewrite !length_app, (map_app _ (map _ hs1)), concat_app, length_app in E. cbn in E. lia.
Qed.

Lemma established_state c w h :
  created c → Forall willing (writes (sock c)) → content (inputBuffer_ c) = [] → Http.request_ok w →
  connectEstablished (mkHttpConn c None) = Ok h → state_of [] w (Http.wire_text w) h.
Proof.
  intros Hc Hw Hi Hr. pose proof (created_good c Hc) as Hg. destruct Hc as (fd & inb & outb & script & wc & hw & mark & -> & _).
  set (c := new_TcpConnection _ _ _ _ _ _ _) in *. intros H. unfold connectEstablished in H.
  destruct (wp_elim _ _ (connectEstablished_good no_user no_user_calm c Hg eq_refl)) as (c1 & E & Hg1). cbn [conn] in H.
  rewrite E in H. cbn [res_bind] in H. injection H as <-. unfold TcpConnection.connectEstablished, connectionCallback in E.
  cbn in E. injection E as <-. split_and!; [|done|].
  - constructor; try done. by left.
  - exists Http.new_HttpContext, []. change (content (inputBuffer_ _)) with (content inb). change (content inb = []) in Hi. rewrite Hi.
    split_and!; [done|apply progress_start|constructor|done].
Qed.

(** A read of the next part. *)
Lemma handleRead_state ws w d k t h :
  state_of ws w (d ++ k) h → arrives d (conn h) →
  wp (handleRead cb (inr d) t h) (λ h',
    (k = [] → state_of (ws ++ [w]) w (Http.wire_text w) h') ∧ (k ≠ [] → state_of ws w k h')).
Proof.
  intros (Hf & Hr & ctx & rs & Hctx & Hp & Hrs & Ha) (Hd & Hcap & Hrc & Hac). unfold handleRead.
  pose proof (f_good _ Hf) as ([[Hwf Hus] ? _ _ _] & _ & _ & _).
  eapply wp_bind; [apply (readFd_spec (λ _, inr d) _ d); [done..|unfold fits, used, kCheapPrepend, max_size in *; lia]|].
  intros [[n e] b] (-> & -> & Hwb & Hcb' & Hwi). assert (0 < zlen d) as Hl by (destruct d; [done|cbn; lia]).
  rewrite (proj2 (Z.ltb_lt _ _)) by done. set (c1 := on_env _ _). unfold onMessage. cbn [context_ conn]. rewrite Hctx.
  assert (fine c1) as Hf1.
  { apply (fine_buffer b (on_env _ (conn h))); [|done|cbn; rewrite length_app; unfold used in *; lia].
    apply (fine_received (received (env (conn h)) ++ d)); [done|]. rewrite length_app. lia. }
  eapply wp_bind; [apply (Http.read_step cb (λ _, True) w d k ctx (content (inputBuffer_ (conn h))) (inputBuffer_ c1) t); try done; intros; apply Hcb|].
  intros [[es ctx'] b'] (Hb' & Hub & Hcase). assert (fine (set_inputBuffer b' c1)) as Hf2.
  { apply fine_buffer; [done..|]. pose proof (f_good _ Hf1) as ([[_ ?] _ _ _ _] & _). lia. }
  destruct Hcase as [(-> & -> & Hcb2 & t' & _ & ->)|(Hk & -> & Hp')].
  - eapply wp_bind; [by apply (performs_answer rs (Http.request_value w t'))|].
    intros c2 (Hf3 & Ha3 & Hi3). cbn [wp]. split; [intros _|done]. split_and!; [done..|]. cbn [context_ conn].
    exists Http.new_HttpContext, (rs ++ [Http.request_value w t']). rewrite Hi3. cbn [inputBuffer_ set_inputBuffer]. rewrite Hcb2.
    split_and!; [done|apply progress_start| |done]. apply Forall2_app; [done|]. repeat constructor. by exists t'.
  - cbn [performs res_bind wp]. split; [done|intros _]. split_and!; [done..|]. by exists ctx', rs.
Qed.

Lemma handleWrite_state ws w k h : state_of ws w k h → wp (handleWrite h) (state_of ws w k).
Proof.
  intros (Hf & Hr & ctx & rs & Hctx & Hp & Hrs & Ha & Hs). unfold handleWrite.
  eapply wp_bind; [by apply handleWrite_fine|]. intros c (Hf' & Hi' & Hs' & Ha'). split_and!; [done..|]. cbn [context_ conn].
  exists ctx, rs. rewrite Hi'. split_and!; try done; split; congruence.
Qed.

Lemma talk_state ws w k h : talk cb ws w k h → state_of ws w k h.
Proof.
  induction 1 as [c w h ? ? ? ? ?|ws w w' h _ IH Hw|ws w d k h t h' _ IH Hrd Hk H|ws w d h t h' _ IH Hrd H|ws w k h h' _ IH H].
  - by eapply established_state.
  - destruct IH as (? & _ & ctx & rs & ? & Hp & ? & ?). split_and!; [done..|]. exists ctx, rs.
    apply progress_whole in Hp as [-> ->]. split_and!; try done. apply progress_start.
  - pose proof (handleRead_state ws w d k t h IH Hrd) as Hw. rewrite H in Hw. by apply Hw.
  - pose proof (handleRead_state ws w d [] t h) as Hw. rewrite app_nil_r, H in Hw. by apply Hw.
  - pose proof (handleWrite_state ws w k h IH) as Hw. by rewrite H in Hw.
Qed.


End stream.

(** ** A dialogue *)

Definition pages (req : Http.HttpRequest) (resp : Http.HttpResponse) : Http.HttpResponse :=
  Http.setBody (str "hi") (Http.setStatusMessage (str "OK") (Http.setStatusCode Http.k200Ok resp)).

Lemma pages_ok req : Http.resp_ok (response_of pages req).
Proof.
  unfold response_of, Http.response_of, Http.resp_ok. destruct (Http.wants_close req); (split; [done|by vm_compute]).
Qed.

Definition keep_alive : Http.wire_request := Http.mkWireRequest Http.kGet (str "/a") [] Http.kHttp11 [].
Definition closing : Http.wire_request :=
  Http.mkWireRequest Http.kGet (str "/b") [] Http.kHttp11 [Http.mkWireHeader (str "Connection") (str " ") (str "close") []].

Lemma keep_alive_ok : Http.request_ok keep_alive.
Proof. unfold Http.request_ok. split_and!; try done; try Http.not_in. by left. Qed.

Lemma closing_ok : Http.request_ok closing.
Proof.
  unfold Http.request_ok, Http.header_ok. split_and!; try done; try Http.not_in; [by left|].
  repeat constructor; Http.not_in.
Qed.

(** The kernel takes ten bytes of the first response, then nothing for a while. *)
Definition fresh : Conn :=
  new_TcpConnection 9 empty_buffer empty_buffer [Wrote 10; WFail EWOULDBLOCK; Wrote 60; Wrote 1] false false (64 * 1024 * 1024).

Definition got (m : res HttpConn) : HttpConn := match m with Ok h => h | Err _ => mkHttpConn fresh None end.

Definition first_part : bytes := ztake 11 (Http.wire_text keep_alive).
Definition first_rest : bytes := zdrop 11 (Http.wire_text keep_alive).

Definition dialogue0 : HttpConn := got (connectEstablished (mkHttpConn fresh None)).
Definition dialogue1 : HttpConn := got (handleRead pages (inr first_part) 1 dialogue0).
Definition dialogue2 : HttpConn := got (handleRead pages (inr first_rest) 2 dialogue1).
Definition dialogue3 : HttpConn := got (handleWrite dialogue2).
Definition dialogue4 : HttpConn := got (handleRead pages (inr (Http.wire_text closing)) 3 dialogue3).
Definition dialogue5 : HttpConn := got (handleWrite dialogue4).

Lemma dialogue_talk : talk pages [keep_alive; closing] closing (Http.wire_text closing) dialogue5.
Proof.
  assert (talk pages [] keep_alive (first_part ++ first_rest) dialogue0) as H0.
  { replace (first_part ++ first_rest) with (Http.wire_text keep_alive) by (vm_compute; reflexivity).
    eapply (talk_up pages fresh); [|by repeat constructor|vm_compute; reflexivity|apply keep_alive_ok|vm_compute; reflexivity].
    exists 9, empty_buffer, empty_buffer, [Wrote 10; WFail EWOULDBLOCK; Wrote 60; Wrote 1], false, false, (64 * 1024 * 1024).
    split_and!; [done|apply empty_buffer_wf..|done|done|done]. }
  assert (talk pages [] keep_alive first_rest dialogue1) as H1.
  { eapply (talk_part pages _ _ _ _ _ 1); [exact H0| |by vm_compute|vm_compute; reflexivity].
    split_and!; vm_compute; discriminate. }
  assert (talk pages [keep_alive] keep_alive (Http.wire_text keep_alive) dialogue2) as H2.
  { eapply (talk_end pages [] _ _ _ 2); [exact H1| |vm_compute; reflexivity]. split_and!; vm_compute; discriminate. }
  assert (talk pages [keep_alive] closing (Http.wire_text closing) dialogue3) as H3.
  { eapply talk_choose; [|apply closing_ok]. apply (talk_write pages _ _ _ dialogue2); [exact H2|vm_compute; reflexivity]. }
  apply (talk_write pages _ _ _ dialogue4); [|vm_compute; reflexivity].
  eapply (talk_end pages [keep_alive] _ _ _ 3 dialogue4); [exact H3| |vm_compute; reflexivity].
  split_and!; vm_compute; discriminate.
Qed.


End HttpServe.
