(* ===== verification/EventLoop.v ===== *)
(** The event loop and its wake-up protocol ([netLayer/event/eventloop/EventLoop.h],
    [EventLoop.cpp]).

    One thread runs [loop()]; other threads call [queueInLoop] and [quit].  A state
    holds the members of the loop, the counter of its eventfd and where the loop's
    thread is; the calls of other threads are split where they can be interleaved,
    between the change under the mutex and the write that wakes the loop.  What the
    handlers and functors do to the loop is a parameter. *)

From S2P Require Import Prelude.

Module EventLoop.

Definition kPollTimeMs : Z := 10000.

(** Channels and functors are named by numbers; channel [0] is the wake-up channel. *)
Definition wakeupChannel : Z := 0.

(** What a handler or a functor does to its loop, in the loop's thread. *)
Inductive effect :=
| EQueue (f : Z)      (* queueInLoop(f) *)
| ERemove (ch : Z)    (* channel->remove() *)
| EQuit.              (* quit() *)

(** Where the loop's thread is. *)
Inductive place :=
| Idle                           (* before loop() *)
| Test                           (* at the condition of the while *)
| Polling                        (* in poller_->poll *)
| Handling (rest : list Z)       (* in the for over activeChannels_ *)
| Swapping                       (* at the swap of doPendingFunctors *)
| Calling (rest : list Z)        (* in the for over functors *)
| Done.                          (* loop() has returned *)

Record Loop := mkLoop {
  looping_ : bool;
  quit_ : bool;
  eventHandling_ : bool;
  callingPendingFunctors_ : bool;
  iteration_ : Z;
  activeChannels_ : list Z;
  currentActiveChannel_ : option Z;
  pendingFunctors_ : list Z;
  eventfd : Z;                   (* the counter of wakeupFd_ *)
  at_ : place;
  wakers : Z;                    (* other threads about to write to wakeupFd_ *)
  pushed : list Z;               (* every functor ever queued *)
  called : list Z;               (* every queued functor that ran *)
}.

Definition new_EventLoop : Loop :=
  mkLoop false false false false 0 [] None [] 0 Idle 0 [] [].

Definition set_pending (v : list Z) (s : Loop) : Loop :=
  mkLoop (looping_ s) (quit_ s) (eventHandling_ s) (callingPendingFunctors_ s) (iteration_ s) (activeChannels_ s)
    (currentActiveChannel_ s) v (eventfd s) (at_ s) (wakers s) (pushed s) (called s).
Definition set_eventfd (v : Z) (s : Loop) : Loop :=
  mkLoop (looping_ s) (quit_ s) (eventHandling_ s) (callingPendingFunctors_ s) (iteration_ s) (activeChannels_ s)
    (currentActiveChannel_ s) (pendingFunctors_ s) v (at_ s) (wakers s) (pushed s) (called s).
Definition set_at (v : place) (s : Loop) : Loop :=
  mkLoop (looping_ s) (quit_ s) (eventHandling_ s) (callingPendingFunctors_ s) (iteration_ s) (activeChannels_ s)
    (currentActiveChannel_ s) (pendingFunctors_ s) (eventfd s) v (wakers s) (pushed s) (called s).
Definition set_wakers (v : Z) (s : Loop) : Loop :=
  mkLoop (looping_ s) (quit_ s) (eventHandling_ s) (callingPendingFunctors_ s) (iteration_ s) (activeChannels_ s)
    (currentActiveChannel_ s) (pendingFunctors_ s) (eventfd s) (at_ s) v (pushed s) (called s).
Definition set_quit (v : bool) (s : Loop) : Loop :=
  mkLoop (looping_ s) v (eventHandling_ s) (callingPendingFunctors_ s) (iteration_ s) (activeChannels_ s)
    (currentActiveChannel_ s) (pendingFunctors_ s) (eventfd s) (at_ s) (wakers s) (pushed s) (called s).
Definition set_looping (v : bool) (s : Loop) : Loop :=
  mkLoop v (quit_ s) (eventHandling_ s) (callingPendingFunctors_ s) (iteration_ s) (activeChannels_ s)
    (currentActiveChannel_ s) (pendingFunctors_ s) (eventfd s) (at_ s) (wakers s) (pushed s) (called s).
Definition set_calling (v : bool) (s : Loop) : Loop :=
  mkLoop (looping_ s) (quit_ s) (eventHandling_ s) v (iteration_ s) (activeChannels_ s)
    (currentActiveChannel_ s) (pendingFunctors_ s) (eventfd s) (at_ s) (wakers s) (pushed s) (called s).
Definition set_events (active : list Z) (cur : option Z) (handling : bool) (s : Loop) : Loop :=
  mkLoop (looping_ s) (quit_ s) handling (callingPendingFunctors_ s) (iteration_ s) active
    cur (pendingFunctors_ s) (eventfd s) (at_ s) (wakers s) (pushed s) (called s).
Definition set_iteration (v : Z) (s : Loop) : Loop :=
  mkLoop (looping_ s) (quit_ s) (eventHandling_ s) (callingPendingFunctors_ s) v (activeChannels_ s)
    (currentActiveChannel_ s) (pendingFunctors_ s) (eventfd s) (at_ s) (wakers s) (pushed s) (called s).
Definition set_pushed (v : list Z) (s : Loop) : Loop :=
  mkLoop (looping_ s) (quit_ s) (eventHandling_ s) (callingPendingFunctors_ s) (iteration_ s) (activeChannels_ s)
    (currentActiveChannel_ s) (pendingFunctors_ s) (eventfd s) (at_ s) (wakers s) v (called s).
Definition set_called (v : list Z) (s : Loop) : Loop :=
  mkLoop (looping_ s) (quit_ s) (eventHandling_ s) (callingPendingFunctors_ s) (iteration_ s) (activeChannels_ s)
    (currentActiveChannel_ s) (pendingFunctors_ s) (eventfd s) (at_ s) (wakers s) (pushed s) v.

(** [wakeup]: write(2) of 1 to an eventfd adds it to the counter, and fails when the
    counter is at its maximum. *)
Definition wakeup (s : Loop) : Loop :=
  if eventfd s <? 2 ^ 64 - 2 then set_eventfd (eventfd s + 1) s else s.

(** [EventLoop::handleRead]: read(2) of an eventfd resets the counter. *)
Definition handleRead (s : Loop) : Loop := set_eventfd 0 s.

(** The part of [queueInLoop] under the mutex. *)
Definition push (f : Z) (s : Loop) : Loop :=
  set_pushed (pushed s ++ [f]) (set_pending (pendingFunctors_ s ++ [f]) s).

(** [queueInLoop] in the loop's thread. *)
Definition queueInLoop (f : Z) (s : Loop) : Loop :=
  let s := push f s in
  if callingPendingFunctors_ s then wakeup s else s.

(** [removeChannel]: while events are handled, only the current channel or one that
    is not active may go. *)
Definition removeChannel (ch : Z) (s : Loop) : res Loop :=
  if eventHandling_ s then
    assert! bool_decide (currentActiveChannel_ s = Some ch) || bool_decide (ch ∉ activeChannels_ s) in
    Ok s
  else Ok s.

Section effects.
(** What a functor does when it is called, and what a channel's handler does. *)
Context (functor_effects : Z → list effect) (handler_effects : Z → list effect).

Fixpoint run_effects (es : list effect) (s : Loop) : res Loop :=
  match es with
  | [] => Ok s
  | e :: es =>
      let! s :=
        match e with
        | EQueue f => Ok (queueInLoop f s)
        | ERemove ch => removeChannel ch s
        | EQuit => Ok (set_quit true s)
        end in
      run_effects es s
  end.

(** [runInLoop] in the loop's thread calls the functor at once. *)
Definition runInLoop (f : Z) (s : Loop) : res Loop := run_effects (functor_effects f) s.

(** [Channel::handleEvent] of an active channel. *)
Definition handle_channel (ch : Z) (s : Loop) : res Loop :=
  let s := set_events (activeChannels_ s) (Some ch) true s in
  if ch =? wakeupChannel then Ok (handleRead s) else run_effects (handler_effects ch) s.

(** [doPendingFunctors]: the swap under the mutex, the calls one by one, the end. *)
Definition doPendingFunctors (s : Loop) : res Loop :=
  match at_ s with
  | Swapping => Ok (set_at (Calling (pendingFunctors_ s)) (set_pending [] s))
  | Calling (f :: rest) => runInLoop f (set_at (Calling rest) (set_called (called s ++ [f]) s))
  | Calling [] => Ok (set_at Test (set_calling false s))
  | _ => Ok s
  end.

(** A step of the loop's thread; [report] is what the poller reports when it returns.
    The wake-up channel is reported exactly when its counter is positive. *)
Definition loop_step (report : list Z) (s : Loop) : res Loop :=
  match at_ s with
  | Idle =>
      assert! negb (looping_ s) in
      Ok (set_at Test (set_quit false (set_looping true s)))
  | Test => if quit_ s then Ok (set_at Done (set_looping false s)) else Ok (set_at Polling (set_events [] (currentActiveChannel_ s) (eventHandling_ s) s))
  | Polling =>
      let active := if 0 <? eventfd s then wakeupChannel :: report else report in
      Ok (set_at (Handling active) (set_events active (currentActiveChannel_ s) true (set_iteration (iteration_ s + 1) s)))
  | Handling (ch :: rest) =>
      handle_channel ch (set_at (Handling rest) s)
  | Handling [] => Ok (set_at Swapping (set_calling true (set_events (activeChannels_ s) None false s)))
  | Swapping | Calling _ => doPendingFunctors s
  | Done => Ok s
  end.

(** A step of the system. *)
Inductive event :=
| LoopStep (report : list Z)     (* the loop's thread goes on *)
| OwnQueue (f : Z)               (* queueInLoop in the loop's thread before loop() *)
| OtherQueue (f : Z)             (* another thread in queueInLoop, under the mutex *)
| OtherQuit                      (* another thread in quit() *)
| OtherWake.                     (* one of them writes to wakeupFd_ *)

Definition step (e : event) (s : Loop) : res Loop :=
  match e with
  | LoopStep report => loop_step report s
  | OwnQueue f => Ok (queueInLoop f s)
  | OtherQueue f => Ok (set_wakers (wakers s + 1) (push f s))
  | OtherQuit => Ok (set_wakers (wakers s + 1) (set_quit true s))
  | OtherWake => Ok (set_wakers (wakers s - 1) (wakeup s))
  end.

(** The poller does not return before there is something to report or the timeout;
    handlers remove only their own channel or inactive ones. *)
Definition well_behaved (es : list effect) (allowed : Z → Prop) : Prop :=
  Forall (λ e, match e with ERemove ch => allowed ch | _ => True end) es.

Definition event_ok (e : event) (s : Loop) : Prop :=
  match e with
  | LoopStep report =>
      match at_ s with
      | Polling => wakeupChannel ∉ report
      | Handling (ch :: _) => well_behaved (handler_effects ch) (λ c, c = ch ∨ c ∉ activeChannels_ s)
      | _ => True
      end
  | OwnQueue _ => at_ s = Idle
  | OtherWake => 0 < wakers s
  | _ => True
  end.

(** Reachable states; [own] says whether the loop's own thread may queue functors
    before it calls [loop()]. *)
Inductive reach (own : bool) : Loop → Prop :=
| reach_new : reach own new_EventLoop
| reach_step s e s' :
    reach own s → event_ok e s → (own = true ∨ ∀ f, e ≠ OwnQueue f) → step e s = Ok s' → reach own s'.

(** The loop sleeps in the poller and nobody is about to wake it. *)
Definition asleep (s : Loop) : Prop := at_ s = Polling ∧ eventfd s = 0 ∧ wakers s = 0.

(** The functors taken from the queue and not called yet. *)
Definition taken (s : Loop) : list Z := match at_ s with Calling rest => rest | _ => [] end.

(** Somebody has woken the loop or is about to. *)
Definition roused (s : Loop) : Prop := 0 < eventfd s ∨ 0 < wakers s.

(** Before the next swap of the queue the loop may sleep. *)
Definition may_sleep (s : Loop) : Prop :=
  match at_ s with Handling _ | Swapping | Done => False | _ => True end.

Record inv (s : Loop) : Prop := {
  i_fd : 0 ≤ eventfd s;
  i_wakers : 0 ≤ wakers s;
  i_order : called s ++ taken s ++ pendingFunctors_ s = pushed s;
  i_calling : callingPendingFunctors_ s = match at_ s with Swapping | Calling _ => true | _ => false end;
  i_handling : eventHandling_ s = match at_ s with Handling _ => true | _ => false end;
  i_looping : looping_ s = match at_ s with Idle | Done => false | _ => true end;
  i_quit : at_ s = Polling → quit_ s = true → roused s;
}.

(** No functor waits without a wake-up on its way. *)
Definition woken (s : Loop) : Prop := may_sleep s → pendingFunctors_ s ≠ [] → roused s.

(** ** Lemmas *)

Lemma wakeup_pos s : 0 ≤ eventfd s → 0 < eventfd (wakeup s).
Proof. unfold wakeup. intros. case_match; bool_prop; cbn; lia. Qed.

Lemma wakeup_same s :
  at_ (wakeup s) = at_ s ∧ called (wakeup s) = called s ∧ pushed (wakeup s) = pushed s ∧
  pendingFunctors_ (wakeup s) = pendingFunctors_ s ∧ callingPendingFunctors_ (wakeup s) = callingPendingFunctors_ s ∧
  eventHandling_ (wakeup s) = eventHandling_ s ∧ looping_ (wakeup s) = looping_ s ∧ wakers (wakeup s) = wakers s ∧
  quit_ (wakeup s) = quit_ s ∧ activeChannels_ (wakeup s) = activeChannels_ s ∧ currentActiveChannel_ (wakeup s) = currentActiveChannel_ s.
Proof. unfold wakeup. by case_match. Qed.

Lemma inv_push f s : inv s → inv (push f s).
Proof. intros []. constructor; try done. cbn. unfold taken in *. cbn. by rewrite <- i_order0, <- !app_assoc. Qed.

Lemma inv_wakeup s : inv s → inv (wakeup s).
Proof.
  intros [H1 H2 H3 H4 H5 H6 H7]. pose proof (wakeup_pos s H1) as Hp.
  destruct (wakeup_same s) as (E1 & E2 & E3 & E4 & E5 & E6 & E7 & E8 & E9 & _).
  constructor; unfold taken, roused in *; rewrite ?E1, ?E2, ?E3, ?E4, ?E5, ?E6, ?E7, ?E8, ?E9; try done; [lia|].
  intros. by left.
Qed.

(** Queueing in the loop's thread: a wake-up goes with it unless the swap is still to
    come in this round. *)
Lemma queue_keeps f s :
  inv s → woken s → (callingPendingFunctors_ s = true ∨ ¬ may_sleep s) →
  inv (queueInLoop f s) ∧ woken (queueInLoop f s).
Proof.
  intros Hi Hw Hc. pose proof (inv_push f s Hi) as Hp. unfold queueInLoop.
  change (callingPendingFunctors_ (push f s)) with (callingPendingFunctors_ s). case_match.
  - split; [by apply inv_wakeup|]. intros _ _. left. apply wakeup_pos, (i_fd _ Hp).
  - split; [done|]. destruct Hc as [|Hc]; [congruence|]. intros Hm. by destruct Hc.
Qed.

(** What effects leave alone. *)
Definition same_place (s s' : Loop) : Prop :=
  at_ s' = at_ s ∧ callingPendingFunctors_ s' = callingPendingFunctors_ s ∧ eventHandling_ s' = eventHandling_ s ∧
  activeChannels_ s' = activeChannels_ s ∧ currentActiveChannel_ s' = currentActiveChannel_ s.

Lemma queue_same f s : same_place s (queueInLoop f s).
Proof.
  unfold queueInLoop, same_place. destruct (wakeup_same (push f s)) as (E1 & _ & _ & _ & E5 & E6 & _ & _ & _ & E10 & E11).
  case_match; [|done]. by rewrite E1, E5, E6, E10, E11.
Qed.

Lemma effect_ok e s :
  inv s → woken s → (callingPendingFunctors_ s = true ∨ ¬ may_sleep s) → at_ s ≠ Polling →
  (eventHandling_ s = true → match e with ERemove c => Some c = currentActiveChannel_ s ∨ c ∉ activeChannels_ s | _ => True end) →
  wp (match e with
      | EQueue f => Ok (queueInLoop f s) | ERemove ch => removeChannel ch s | EQuit => Ok (set_quit true s) end)
     (λ s', inv s' ∧ woken s' ∧ same_place s s').
Proof.
  intros Hi Hw Hc Hat Hb. destruct e as [f|ch|]; cbn.
  - destruct (queue_keeps f s Hi Hw Hc). split_and!; [done..|]. apply queue_same.
  - unfold removeChannel. destruct (eventHandling_ s) eqn:E; [|done].
    assert (bool_decide (currentActiveChannel_ s = Some ch) || bool_decide (ch ∉ activeChannels_ s) = true) as ->; [|done].
    apply orb_true_iff. rewrite !bool_decide_eq_true. destruct (Hb eq_refl) as [->|?]; auto.
  - split_and!; [|done|done]. destruct Hi. constructor; try done.
Qed.

Lemma run_effects_ok es s :
  inv s → woken s → (callingPendingFunctors_ s = true ∨ ¬ may_sleep s) → at_ s ≠ Polling →
  (eventHandling_ s = true → well_behaved es (λ c, Some c = currentActiveChannel_ s ∨ c ∉ activeChannels_ s)) →
  wp (run_effects es s) (λ s', inv s' ∧ woken s').
Proof.
  revert s. induction es as [|e es IH]; intros s Hi Hw Hc Hat Hb; [done|]. cbn [run_effects].
  eapply wp_bind; [apply effect_ok; [done..|]|].
  - intros Hh. specialize (Hb Hh). apply Forall_cons in Hb as [Hb _]. by destruct e.
  - intros s' (Hi' & Hw' & E1 & E2 & E3 & E4 & E5). apply IH; [done..| | |].
    + rewrite E2. unfold may_sleep. by rewrite E1.
    + by rewrite E1.
    + rewrite E3, E4, E5. intros Hh. specialize (Hb Hh). by apply Forall_cons in Hb as [_ Hb].
Qed.

Lemma loop_step_ok report s :
  inv s → woken s → event_ok (LoopStep report) s → wp (loop_step report s) (λ s', inv s' ∧ woken s').
Proof.
  intros Hi Hw He. pose proof Hi as [H1 H2 H3 H4 H5 H6 H7]. unfold loop_step, doPendingFunctors, taken in *. cbn in He.
  destruct (at_ s) as [| | |[|ch rest]| |[|f rest]|] eqn:Ea.
  - rewrite H6. cbn. split; [by constructor|]. intros _. apply Hw. unfold may_sleep. by rewrite Ea.
  - destruct (quit_ s) eqn:Eq; cbn.
    + split; [by constructor|]. by intros [].
    + split; [constructor; try done; cbn; congruence|]. intros _. apply Hw. unfold may_sleep. by rewrite Ea.
  - cbn. split; [by constructor|]. by intros [].
  - cbn. split; [by constructor|]. by intros [].
  - unfold handle_channel. set (s1 := set_events _ _ _ _).
    assert (inv s1) as Hi1 by by constructor.
    assert (woken s1) as Hw1 by by intros [].
    destruct (ch =? wakeupChannel).
    + cbn. split; [|by intros []]. destruct Hi1. by constructor.
    + apply run_effects_ok; [done|done|by right; intros []|done|]. intros _. cbn.
      eapply Forall_impl; [exact He|]. intros []; try done. intros [->|?]; [by left|by right].
  - cbn. split; [constructor; try done; cbn; by rewrite app_nil_r|]. by intros _ ?.
  - cbn. split; [by constructor|]. intros _. apply Hw. unfold may_sleep. by rewrite Ea.
  - unfold runInLoop. apply run_effects_ok; [|..].
    + constructor; try done. unfold taken. cbn. rewrite <- H3. by rewrite <- app_assoc.
    + intros _. apply Hw. unfold may_sleep. by rewrite Ea.
    + left. cbn. by rewrite H4.
    + done.
    + cbn. rewrite H5. done.
  - by split.
Qed.

Lemma loop_step_all_ok e s :
  inv s → woken s → event_ok e s → (∀ f, e ≠ OwnQueue f) → wp (step e s) (λ s', inv s' ∧ woken s').
Proof.
  intros Hi Hw He Hno. pose proof Hi as [H1 H2 H3 H4 H5 H6 H7]. destruct e as [report|f|f| |]; cbn [step].
  - by apply loop_step_ok.
  - by destruct (Hno f).
  - destruct (inv_push f s Hi). split; [constructor; try done; cbn; [lia|]|].
    + intros. right. cbn. lia.
    + intros _ _. right. cbn. lia.
  - split; [constructor; try done; cbn; [lia|]|].
    + intros. right. cbn. lia.
    + intros _ _. right. cbn. lia.
  - cbn in He. assert (0 < eventfd (wakeup s)) as Hp by by apply wakeup_pos.
    destruct (inv_wakeup s Hi). split; [constructor; try done; cbn|].
    + lia.
    + intros. by left.
    + intros _ _. by left.
Qed.

Lemma loop_reach_inv s : reach false s → inv s ∧ woken s.
Proof.
  induction 1 as [|s e s' Hr [Hi Hw] He Hno Hs]; [split; [by constructor|by intros _ []]|].
  destruct Hno as [|Hno]; [done|]. pose proof (loop_step_all_ok e s Hi Hw He Hno) as Hok. by rewrite Hs in Hok.
Qed.

(** C7. The wake-up protocol, for a loop into which its own thread queues nothing before
    it calls [loop()] (such a functor comes without a wake-up, and a quit before [loop()]
    is forgotten: [early_requests_wait]). Whatever other threads queue, in whatever
    interleaving, the loop never faults, the queued functors are called exactly once in
    the order in which they were queued, and the loop sleeps in the poller only when no
    functor waits and nobody has asked it to quit since it started. *)
Theorem loop_never_sleeps_on_work s :
  reach false s →
  called s ++ taken s ++ pendingFunctors_ s = pushed s ∧
  (asleep s → pendingFunctors_ s = [] ∧ quit_ s = false) ∧
  (∀ e, event_ok e s → (∀ f, e ≠ OwnQueue f) → ∃ s', step e s = Ok s').
Proof.
  intros [Hi Hw]%loop_reach_inv. split_and!.
  - apply (i_order _ Hi).
  - intros (Ha & Hf & Hk). assert (¬ roused s) as Hn by (intros [|]; lia). split.
    + destruct (pendingFunctors_ s) eqn:E; [done|]. destruct Hn. apply Hw; [unfold may_sleep; by rewrite Ha|by rewrite E].
    + destruct (quit_ s) eqn:E; [|done]. destruct Hn. by apply (i_quit _ Hi).
  - intros e He Hno. pose proof (loop_step_all_ok e s Hi Hw He Hno) as Hok. apply wp_elim in Hok as (s' & ? & _). eauto.
Qed.

Fixpoint run (es : list event) (s : Loop) : res Loop :=
  match es with
  | [] => Ok s
  | e :: es => let! s := step e s in run es s
  end.

(** Requests made before [loop()] are lost or late: a functor that the loop's own
    thread queues before it calls [loop()] comes with no wake-up, so the loop goes to
    sleep with the functor in its queue; and [loop()] resets [quit_], so a [quit()]
    before it is forgotten and the loop goes back to sleep. *)
Theorem early_requests_wait f :
  wp (run [OwnQueue f; LoopStep []; LoopStep []] new_EventLoop) (λ s, asleep s ∧ pendingFunctors_ s = [f]) ∧
  wp (run (OtherQuit :: OtherWake :: replicate 8 (LoopStep [])) new_EventLoop) (λ s, asleep s ∧ iteration_ s = 1).
Proof. split; by vm_compute. Qed.

(** Every event of the run is allowed when it happens. *)
Fixpoint allowed_run (es : list event) (s : Loop) : Prop :=
  match es with
  | [] => True
  | e :: es => event_ok e s ∧ (match e with OwnQueue _ => False | _ => True end) ∧
      match step e s with Ok s' => allowed_run es s' | Err _ => True end
  end.

Lemma loop_run_reach es s s' : reach false s → allowed_run es s → run es s = Ok s' → reach false s'.
Proof.
  revert s. induction es as [|e es IH]; intros s Hr Ha Hrun; [by simplify_eq/=|]. cbn in Ha, Hrun.
  destruct Ha as (He & Hno & Ha). destruct (step e s) as [s1|] eqn:Hs; [|done].
  eapply IH; [|exact Ha|exact Hrun]. eapply reach_step; [done|done| |done]. right. by intros f ->.
Qed.

End effects.

(** Functor 1 queues functor 2. *)
Definition sample_functor (f : Z) : list effect := if f =? 1 then [EQueue 2] else [].
Definition sample_handler (ch : Z) : list effect := [].

Definition sample_events : list event :=
  [LoopStep []; LoopStep []; OtherQueue 1; OtherWake; LoopStep []; LoopStep []; LoopStep []; LoopStep []; LoopStep []].

Definition sample_loop : Loop :=
  match run sample_functor sample_handler sample_events new_EventLoop with Ok s => s | Err _ => new_EventLoop end.

Lemma sample_loop_reach : reach sample_functor sample_handler false sample_loop.
Proof.
  eapply (loop_run_reach _ _ sample_events new_EventLoop); [constructor| |by vm_compute].
  vm_compute. split_and!; try done; intros F; inversion F.
Qed.

Lemma loop_never_sleeps_on_work_witness :
  called sample_loop = [1] ∧ pendingFunctors_ sample_loop = [2] ∧ ¬ asleep sample_loop ∧
  called sample_loop ++ taken sample_loop ++ pendingFunctors_ sample_loop = [1; 2].
Proof.
  split_and!; [by vm_compute..|by intros (F & _)|].
  apply (loop_never_sleeps_on_work sample_functor sample_handler sample_loop sample_loop_reach).
Defined.

End EventLoop.
