(* ===== verification/Reactor.v ===== *)
(** The rounds of an event loop ([EventLoop::loop], [updateChannel], [removeChannel] of
    [netLayer/event/eventloop/EventLoop.cpp], and [Channel.cpp]): the poller reports active
    channels, the loop goes through them with bare pointers, and the callbacks it calls
    change, remove, make and delete channels.

    The poller is any implementation of the interface of [Poller].  A step is one statement
    of the loop or one call of the program, which runs in a callback or in a functor. *)

From S2P Require Import Prelude Poller.

Module Reactor.
Import Channel Poller.

(** The calls of the program: [Channel::update] after a change of the mask,
    [Channel::remove], [new Channel] with its callbacks set, [delete]. *)
Inductive action :=
| Update (x : change) (ptr : Z)
| Remove (ptr : Z)
| New (ptr : Z) (c : Channel)
| Delete (ptr : Z).

Inductive event :=
| PollReturns (r : option report)
| NextChannel (alive : bool)     (* is the tied object of the channel alive? *)
| NextCallback
| HandlerReturns
| RoundEnds
| Act (a : action).

Section reactor.
Context `{Poller P}.

(** [reported] is what the kernel reported for the round, [next_] what the range-for has still to visit, [picked] what it has visited; [todo]
    the callbacks still to be called by a running [handleEventWithGuard]; [calls] the
    callbacks called in this round. *)
Record Loop := mkLoop {
  world_ : world;
  poller_ : P;
  activeChannels_ : list Z;
  next_ : list Z;
  currentActiveChannel_ : option Z;
  eventHandling : bool;
  todo : option (list callback);
  reported : report;
  picked : list Z;
  calls : list (Z * callback);
}.

Definition new_Loop (p : P) (w : world) : Loop := mkLoop w p [] [] None false None [] [] [].

Definition set_poller (w : world) (p : P) (s : Loop) : Loop :=
  mkLoop w p (activeChannels_ s) (next_ s) (currentActiveChannel_ s) (eventHandling s) (todo s) (reported s) (picked s) (calls s).

Definition loop_updateChannel (x : change) (ptr : Z) (s : Loop) : res Loop :=
  let! (w, p) := channel_update x ptr (world_ s) (poller_ s) in Ok (set_poller w p s).

(** [Channel::remove], with the assertion of [EventLoop::removeChannel]. *)
Definition removable (ptr : Z) (s : Loop) : bool :=
  negb (eventHandling s) || bool_decide (currentActiveChannel_ s = Some ptr) || negb (bool_decide (ptr ∈ activeChannels_ s)).

Definition loop_removeChannel (ptr : Z) (s : Loop) : res Loop :=
  let! c := deref ptr (world_ s) in
  assert! isNoneEvent c in
  assert! removable ptr s in
  let! (w, p) := channel_remove ptr (world_ s) (poller_ s) in
  Ok (set_poller w p s).

Definition delete_channel (ptr : Z) (s : Loop) : res Loop :=
  let! c := deref ptr (world_ s) in
  let! _ := destroy true (hasChannel ptr (world_ s) (poller_ s)) c in
  Ok (set_poller (delete ptr (world_ s)) (poller_ s) s).

Definition act (a : action) (s : Loop) : res Loop :=
  match a with
  | Update x ptr => loop_updateChannel x ptr s
  | Remove ptr => loop_removeChannel ptr s
  | New ptr c => Ok (set_poller (<[ptr := c]> (world_ s)) (poller_ s) s)
  | Delete ptr => delete_channel ptr s
  end.

Definition step (e : event) (s : Loop) : res Loop :=
  match e with
  | PollReturns r =>
      let! (w, p, active) := poll r (world_ s) (poller_ s) in
      Ok (mkLoop w p active active (currentActiveChannel_ s) true None (default [] r) [] [])
  | NextChannel alive =>
      match next_ s with
      | [] => Ok s
      | ptr :: l =>
          let! c := deref ptr (world_ s) in
          let guarded := negb (tied_ c) || alive in
          Ok (mkLoop (if guarded then <[ptr := set_handling true c]> (world_ s) else world_ s) (poller_ s)
                (activeChannels_ s) l (Some ptr) (eventHandling s)
                (if guarded then Some (handleEventWithGuard c) else None) (reported s) (picked s ++ [ptr]) (calls s))
      end
  | NextCallback =>
      match todo s, currentActiveChannel_ s with
      | Some (cb :: l), Some ptr =>
          Ok (mkLoop (world_ s) (poller_ s) (activeChannels_ s) (next_ s) (Some ptr) (eventHandling s) (Some l)
                (reported s) (picked s) (calls s ++ [(ptr, cb)]))
      | _, _ => Ok s
      end
  | HandlerReturns =>
      match todo s, currentActiveChannel_ s with
      | Some [], Some ptr =>
          let! c := deref ptr (world_ s) in
          Ok (mkLoop (<[ptr := set_handling false c]> (world_ s)) (poller_ s) (activeChannels_ s) (next_ s)
                (Some ptr) (eventHandling s) None (reported s) (picked s) (calls s))
      | _, _ => Ok s
      end
  | RoundEnds =>
      match next_ s, todo s with
      | [], None =>
          Ok (mkLoop (world_ s) (poller_ s) (activeChannels_ s) [] None false None (reported s) (picked s) (calls s))
      | _, _ => Ok s
      end
  | Act a => act a s
  end.

(** What the program promises: it uses pointers to channels that exist, a channel is updated
    as the interface asks, only what is registered is removed, and a new object has an
    address of its own and a descriptor. *)
Definition act_ok (a : action) (s : Loop) : Prop :=
  match a with
  | Update x ptr => ∃ c, world_ s !! ptr = Some c ∧ 0 ≤ fd_ c ∧ may_update (poller_ s) ptr c (new_mask x (events_ c))
  | Remove ptr => ∃ c, world_ s !! ptr = Some c ∧ registered (poller_ s) !! fd_ c = Some ptr
  | New ptr c => world_ s !! ptr = None ∧ ∃ fd tied cbs, 0 ≤ fd ∧ c = mkChannel fd 0 0 (-1) true tied false false cbs
  | Delete ptr => is_Some (world_ s !! ptr)
  end.

(** Program code runs in a callback, or between the rounds. *)
Definition enabled (e : event) (s : Loop) : Prop :=
  match e with
  | PollReturns r => eventHandling s = false ∧ match r with Some r => report_ok r (poller_ s) | None => True end
  | NextChannel _ => eventHandling s = true ∧ todo s = None
  | NextCallback | HandlerReturns | RoundEnds => eventHandling s = true
  | Act a => (eventHandling s = true → todo s ≠ None) ∧ act_ok a s
  end.

End reactor.
Arguments Loop P : clear implicits.

(** ** Invariant *)

Section safety.
Context `{PollerLaws P}.

(** The loop as its constructor leaves it, over a poller with its channels. *)
Inductive reach : Loop P → Prop :=
| reach_new p w :
    Multiplexer.tidy p w → (∀ ptr c, w !! ptr = Some c → eventHandling_ c = false) → reach (new_Loop p w)
| reach_step s e s' : reach s → enabled e s → step e s = Ok s' → reach s'.

(** A channel that the loop is going to visit: registered, with the reported events. *)
Definition waiting (s : Loop P) (ptr : Z) : Prop :=
  ∃ c, world_ s !! ptr = Some c ∧ registered (poller_ s) !! fd_ c = Some ptr ∧ (fd_ c, revents_ c) ∈ reported s.

Record inv (s : Loop P) : Prop := {
  i_tidy : Multiplexer.tidy (poller_ s) (world_ s);
  i_nodup : NoDup (activeChannels_ s);
  i_split : eventHandling s = true → picked s ++ next_ s = activeChannels_ s;
  i_next : eventHandling s = true → Forall (waiting s) (next_ s);
  i_todo : todo s ≠ None → eventHandling s = true ∧ ∃ ptr c,
    currentActiveChannel_ s = Some ptr ∧ ptr ∈ picked s ∧ world_ s !! ptr = Some c ∧ eventHandling_ c = true;
  i_handling : ∀ ptr c, world_ s !! ptr = Some c → eventHandling_ c = true →
    currentActiveChannel_ s = Some ptr ∧ todo s ≠ None;
}.

(** *** What happens to one channel *)

Lemma tidy_change p (w : world) ptr c c' :
  Multiplexer.tidy p w → w !! ptr = Some c → core c' = core c → addedToLoop_ c' = addedToLoop_ c →
  Multiplexer.tidy p (<[ptr := c']> w).
Proof.
  intros [Hi Hm Ha] Hc Hcore Hadd. injection Hcore as Ef Ee Ex. constructor.
  - eapply inv_local; [done|]. intros fd q Hq. destruct (decide (ptr = q)) as [<-|Hne]; [|by rewrite lookup_insert_ne].
    rewrite lookup_insert_eq, Hc. unfold core. cbn. by rewrite Ef, Ee, Ex.
  - intros q d [[<- <-]|[Hne Hd]]%lookup_insert_Some; [rewrite Ee; by eapply Hm|by eapply Hm].
  - intros q d [[<- <-]|[Hne Hd]]%lookup_insert_Some; [rewrite Hadd, Ef; by apply Ha|by apply Ha].
Qed.

Lemma tidy_new p (w : world) ptr c :
  Multiplexer.tidy p w → w !! ptr = None → events_ c = 0 → addedToLoop_ c = false →
  Multiplexer.tidy p (<[ptr := c]> w).
Proof.
  intros [Hi Hm Ha] Hn He Had.
  assert (∀ fd, registered p !! fd ≠ Some ptr) as Hr.
  { intros fd F. destruct (inv_registered _ _ _ _ Hi F) as (d & ? & _). congruence. }
  constructor.
  - eapply inv_local; [done|]. intros fd q Hq. rewrite lookup_insert_ne; [done|]. intros <-. by apply (Hr fd).
  - intros q d [[<- <-]|[Hne Hd]]%lookup_insert_Some; [lia|by eapply Hm].
  - intros q d [[<- <-]|[Hne Hd]]%lookup_insert_Some; [|by apply Ha]. rewrite Had, bool_decide_false; [done|apply Hr].
Qed.

Lemma tidy_delete p (w : world) ptr c :
  Multiplexer.tidy p w → w !! ptr = Some c → addedToLoop_ c = false → Multiplexer.tidy p (delete ptr w).
Proof.
  intros [Hi Hm Ha] Hc Had.
  assert (∀ fd, registered p !! fd ≠ Some ptr) as Hr.
  { intros fd F. destruct (inv_registered _ _ _ _ Hi F) as (d & ? & <-). simplify_eq. pose proof (Ha _ _ Hc) as E.
    rewrite Had, bool_decide_true in E by done. done. }
  constructor.
  - eapply inv_local; [done|]. intros fd q Hq. rewrite lookup_delete_ne; [done|]. intros <-. by apply (Hr fd).
  - intros q d [_ Hd]%lookup_delete_Some. by eapply Hm.
  - intros q d [_ Hd]%lookup_delete_Some. by apply Ha.
Qed.

(** What an update does. *)
Lemma update_channel_ok p (w : world) x ptr c :
  Multiplexer.tidy p w → w !! ptr = Some c → 0 ≤ fd_ c → may_update p ptr c (new_mask x (events_ c)) →
  ∃ c' p', channel_update x ptr w p = Ok (<[ptr := c']> w, p') ∧ Multiplexer.tidy p' (<[ptr := c']> w) ∧
    registered p' = <[fd_ c := ptr]> (registered p) ∧ fd_ c' = fd_ c ∧ revents_ c' = revents_ c ∧
    handler_view c' = handler_view c.
Proof.
  intros Ht Hc Hfd Hu.
  destruct (wp_elim _ _ (Multiplexer.update_step p w x ptr c Ht Hc Hfd Hu)) as ([w' p'] & E & Ht' & _).
  pose proof (Multiplexer.new_mask_range x _ (Multiplexer.ti_mask _ _ Ht _ _ Hc)) as Hm.
  assert (mask_ok (new_mask x (events_ c))) as Hmo by (unfold mask_ok; lia).
  pose proof (update_law ptr w p c _ (Multiplexer.ti_inv _ _ Ht) Hc Hfd Hmo Hu) as Hl.
  assert (updateChannel ptr (<[ptr := set_added true (set_events (new_mask x (events_ c)) c)]> w) p = Ok (w', p')) as E'.
  { unfold channel_update in E. by rewrite Hc in E. }
  rewrite E' in Hl. destruct Hl as (_ & Hr & c' & -> & [= Ef _ _] & Erev & Ehv). exists c', p'. by rewrite E.
Qed.

(** What a removal does. *)
Lemma remove_channel_ok p (w : world) ptr c :
  Multiplexer.tidy p w → w !! ptr = Some c → events_ c = 0 → registered p !! fd_ c = Some ptr →
  ∃ w' p', channel_remove ptr w p = Ok (w', p') ∧ Multiplexer.tidy p' w' ∧
    registered p' = delete (fd_ c) (registered p) ∧ (∀ q, is_Some (w' !! q) → is_Some (w !! q)) ∧
    ∀ q d, w !! q = Some d → ∃ d', w' !! q = Some d' ∧ fd_ d' = fd_ d ∧ revents_ d' = revents_ d ∧ handler_view d' = handler_view d.
Proof.
  intros Ht Hc He Hr.
  destruct (wp_elim _ _ (Multiplexer.remove_step p w ptr c Ht Hc He Hr)) as ([w' p'] & E & Ht' & _).
  pose proof (remove_law ptr w p c (Multiplexer.ti_inv _ _ Ht) Hc He Hr) as Hl.
  assert (removeChannel ptr (<[ptr := set_added false c]> w) p = Ok (w', p')) as E'.
  { unfold channel_remove in E. rewrite Hc in E. unfold isNoneEvent in E. by rewrite He in E. }
  rewrite E' in Hl. destruct Hl as (_ & Hreg & Hov & Hrv & Hhv). exists w', p'. split_and!; [done..| |].
  { intros q Hq. apply (fmap_is_Some revents_). rewrite <- lookup_fmap, <- Hrv, lookup_fmap. by apply fmap_is_Some. }
  intros q d Hd. assert (is_Some (w' !! q)) as [d' Hd'].
  { assert ((revents_ <$> w') !! q = Some (revents_ d)) as L by (by rewrite Hrv, lookup_fmap, Hd).
    rewrite lookup_fmap in L. apply fmap_Some in L as (? & ? & _). eauto. }
  assert (∀ {B} (f : Channel → B), f <$> w' = f <$> w → f d' = f d) as Hf.
  { intros B f Ef. assert ((f <$> w') !! q = (f <$> w) !! q) as L by by rewrite Ef.
    rewrite !lookup_fmap, Hd, Hd' in L. by injection L. }
  exists d'. split_and!; [done| |by apply (Hf _ revents_)|by apply (Hf _ handler_view)].
  assert ((owner_view <$> w') !! q = (owner_view <$> <[ptr := set_added false c]> w) !! q) as L by by rewrite Hov.
  rewrite !lookup_fmap, Hd' in L. destruct (decide (ptr = q)) as [<-|Hne].
  - rewrite lookup_insert_eq in L. injection L as L _ _. rewrite L. cbn. congruence.
  - rewrite lookup_insert_ne, Hd in L by done. by injection L.
Qed.

(** *** Calls of the program *)

(** The assertions that a call fails. *)
Definition misuse (a : action) (s : Loop P) : bool :=
  match a with
  | Remove ptr => match world_ s !! ptr with Some c => negb (isNoneEvent c && removable ptr s) | None => false end
  | Delete ptr => match world_ s !! ptr with Some c => eventHandling_ c || addedToLoop_ c | None => false end
  | _ => false
  end.

Lemma inv_set_poller s (w : world) p :
  inv s → Multiplexer.tidy p w →
  (∀ q d, eventHandling s = true → q ∈ next_ s → world_ s !! q = Some d → registered (poller_ s) !! fd_ d = Some q →
     ∃ d', w !! q = Some d' ∧ fd_ d' = fd_ d ∧ revents_ d' = revents_ d ∧ registered p !! fd_ d = Some q) →
  (∀ q d', w !! q = Some d' → eventHandling_ d' = true → ∃ d, world_ s !! q = Some d ∧ eventHandling_ d = true) →
  (∀ q d, world_ s !! q = Some d → eventHandling_ d = true → ∃ d', w !! q = Some d' ∧ eventHandling_ d' = true) →
  inv (set_poller w p s).
Proof.
  intros [I1 I2 I3 I4 I5 I6] Ht Hn Hb Hf. constructor; try done.
  - intros E. specialize (I4 E). rewrite Forall_forall in I4 |- *. intros q Hq. destruct (I4 q Hq) as (d & Hd & Hr & Hrep).
    destruct (Hn q d E Hq Hd Hr) as (d' & ? & Ef & Er & ?). exists d'. cbn. rewrite Ef, Er. done.
  - intros E. destruct (I5 E) as (? & q & d & ? & ? & Hd & He). destruct (Hf q d Hd He) as (d' & ? & ?). split; [done|]. by exists q, d'.
  - intros q d' Hd' He. destruct (Hb q d' Hd' He) as (d & Hd & Hed). by apply (I6 q d).
Qed.

Lemma handling_same c c' : handler_view c' = handler_view c → eventHandling_ c' = eventHandling_ c.
Proof. by intros [=]. Qed.

(** Replacing one channel by one with the same flags. *)
Lemma inv_replace s ptr c c' p :
  inv s → world_ s !! ptr = Some c → Multiplexer.tidy p (<[ptr := c']> (world_ s)) →
  (∀ fd q, registered (poller_ s) !! fd = Some q → registered p !! fd = Some q) →
  fd_ c' = fd_ c → revents_ c' = revents_ c → handler_view c' = handler_view c →
  inv (set_poller (<[ptr := c']> (world_ s)) p s).
Proof.
  intros Hi Hc Ht Hr Ef Er Eh%handling_same. apply inv_set_poller; [done..| | |].
  - intros q d _ _ Hd Hrq. destruct (decide (ptr = q)) as [<-|Hne].
    + simplify_eq. exists c'. rewrite lookup_insert_eq. auto.
    + exists d. rewrite lookup_insert_ne by done. auto.
  - intros q d [[<- <-]|[Hne Hd]]%lookup_insert_Some He; [|eauto]. exists c. split; [done|congruence].
  - intros q d Hd He. destruct (decide (ptr = q)) as [<-|Hne].
    + simplify_eq. exists c'. rewrite lookup_insert_eq. split; [done|congruence].
    + exists d. by rewrite lookup_insert_ne.
Qed.

Lemma removable_next s ptr : inv s → (eventHandling s = true → todo s ≠ None) → removable ptr s = true → eventHandling s = true → ptr ∉ next_ s.
Proof.
  intros Hi Ht Hr E Hin. pose proof (i_split _ Hi E) as Hs. pose proof (i_nodup _ Hi) as Hnd. rewrite <- Hs in Hnd.
  apply NoDup_app in Hnd as (_ & Hdis & _). unfold removable in Hr. rewrite E in Hr. cbn [negb orb] in Hr.
  destruct (i_todo _ Hi (Ht E)) as (_ & q & c & Hcur & Hp & _). rewrite Hcur in Hr. case_bool_decide as Eq.
  - injection Eq as ->. by apply (Hdis ptr).
  - cbn in Hr. bool_prop. apply Hr. rewrite <- Hs. apply elem_of_app. by right.
Qed.

Lemma act_step a s :
  inv s → (eventHandling s = true → todo s ≠ None) → act_ok a s →
  if misuse a s then act a s = Err AssertFailed else ∃ s', act a s = Ok s' ∧ inv s'.
Proof.
  intros Hi Hrun. pose proof (i_tidy _ Hi) as Ht. destruct a as [x ptr|ptr|ptr c|ptr]; cbn [act act_ok misuse].
  - intros (c & Hc & Hfd & Hu). destruct (update_channel_ok _ _ x ptr c Ht Hc Hfd Hu) as (c' & p' & E & Ht' & Hr & Ef & Er & Eh).
    unfold loop_updateChannel. rewrite E. eexists. split; [done|]. eapply inv_replace; try done.
    intros fd q Hq. rewrite Hr. destruct (decide (fd = fd_ c)) as [->|Hne]; [|by rewrite lookup_insert_ne].
    rewrite lookup_insert_eq. destruct Hu as [?|[? _]]; congruence.
  - intros (c & Hc & Hr). rewrite Hc. unfold loop_removeChannel, deref. rewrite Hc. cbn [res_bind].
    destruct (isNoneEvent c) eqn:En; cbn [andb negb]; [|done]. destruct (removable ptr s) eqn:Erm; cbn [negb]; [|done].
    assert (events_ c = 0) as He by (unfold isNoneEvent, kNoneEvent in En; bool_prop; done).
    destruct (remove_channel_ok _ _ ptr c Ht Hc He Hr) as (w' & p' & E & Ht' & Hreg & Hdom & Hw). rewrite E. eexists. split; [done|].
    apply inv_set_poller; [done..| | |].
    + intros q d Eh Hq Hd Hrq. destruct (Hw q d Hd) as (d' & ? & ? & ? & _). exists d'. split_and!; [done..|].
      rewrite Hreg, lookup_delete_ne; [done|]. intros F. rewrite F, Hrq in Hr. injection Hr as ->.
      by apply (removable_next s ptr).
    + intros q d' Hd' Ehd. destruct (Hdom q ltac:(eauto)) as [d Hd].
      destruct (Hw q d Hd) as (d2 & Hd2 & _ & _ & Eh%handling_same). simplify_eq. exists d. split; [done|congruence].
    + intros q d Hd Ehd. destruct (Hw q d Hd) as (d' & ? & _ & _ & Eh%handling_same). exists d'. split; [done|congruence].
  - intros (Hn & fd & tied & cbs & Hfd & ->). eexists. split; [done|]. apply inv_set_poller; [done|by apply tidy_new| | |].
    + intros q d _ _ Hd Hr. exists d. rewrite lookup_insert_ne; [done|]. intros <-. congruence.
    + intros q d [[<- <-]|[Hne Hd]]%lookup_insert_Some He; [done|eauto].
    + intros q d Hd He. exists d. rewrite lookup_insert_ne; [done|]. intros <-. congruence.
  - intros [c Hc]. rewrite Hc. unfold delete_channel, deref, destroy, hasChannel. rewrite Hc. cbn [res_bind].
    destruct (eventHandling_ c) eqn:Eh; cbn [orb negb]; [done|]. destruct (addedToLoop_ c) eqn:Ea; cbn [negb]; [done|].
    pose proof (Multiplexer.ti_added _ _ Ht _ _ Hc) as Hadd. rewrite Ea in Hadd. rewrite <- Hadd. cbn [negb res_bind].
    eexists. split; [done|]. symmetry in Hadd. apply bool_decide_eq_false in Hadd.
    apply inv_set_poller; [done|by eapply tidy_delete| | |].
    + intros q d _ _ Hd Hr. exists d. rewrite lookup_delete_ne; [done|]. intros <-. congruence.
    + intros q d [_ Hd]%lookup_delete_Some He. eauto.
    + intros q d Hd He. exists d. rewrite lookup_delete_ne; [done|]. intros <-. congruence.
Qed.

(** *** Steps of the loop *)

Lemma picked_next s : inv s → eventHandling s = true → ∀ q, q ∈ picked s → q ∉ next_ s.
Proof.
  intros Hi E q Hq Hn. pose proof (i_nodup _ Hi) as Hnd. rewrite <- (i_split _ Hi E) in Hnd.
  apply NoDup_app in Hnd as (_ & Hdis & _). by apply (Hdis q).
Qed.

Lemma poll_inv_step s r :
  inv s → enabled (PollReturns r) s → wp (step (PollReturns r) s) inv.
Proof.
  intros [I1 I2 I3 I4 I5 I6] [Hh Hr]. cbn [step].
  assert (∀ ptr c, world_ s !! ptr = Some c → eventHandling_ c = false) as Hquiet.
  { intros ptr c Hc. destruct (eventHandling_ c) eqn:E; [|done]. destruct (I6 _ _ Hc E) as [_ Ht].
    destruct (I5 Ht) as [F _]. congruence. }
  destruct r as [r|].
  - destruct (wp_elim _ _ (Multiplexer.poll_step _ _ r I1 Hr)) as ([[w p] active] & E & Ht & _).
    pose proof (poll_law r _ _ (Multiplexer.ti_inv _ _ I1) Hr) as Hl. rewrite E in Hl |- *.
    destruct Hl as (_ & Hreg & Hov & Hhv & Hact & Hev & Hnd). cbn [res_bind wp].
    assert (∀ ptr c, w !! ptr = Some c → eventHandling_ c = false) as Hq2.
    { intros ptr c Hc. assert ((handler_view <$> w) !! ptr = (handler_view <$> world_ s) !! ptr) as L by by rewrite Hhv.
      rewrite !lookup_fmap, Hc in L. destruct (world_ s !! ptr) as [d|] eqn:Hd; [|done]. injection L as _ L _.
      rewrite L. by eapply Hquiet. }
    constructor; cbn; try done.
    + intros _. apply Forall_forall. intros ptr (fd & ev & Hin & Hch)%Hact.
      destruct (Hev _ _ _ Hin Hch) as (c & Hc & <- & <-). exists c. cbn. by rewrite Hreg.
    + intros ptr c Hc F. rewrite (Hq2 _ _ Hc) in F. done.
  - rewrite poll_failed_law. cbn [res_bind wp]. constructor; cbn; try done; [constructor|].
    intros ptr c Hc F. rewrite (Hquiet _ _ Hc) in F. done.
Qed.

(** Marking the current channel, or unmarking it. *)
Lemma waiting_mark s s' b ptr c q :
  world_ s' = <[ptr := set_handling b c]> (world_ s) → poller_ s' = poller_ s → reported s' = reported s →
  world_ s !! ptr = Some c → waiting s q → waiting s' q.
Proof.
  intros Ew Ep Er Hc (d & Hd & Hr & Hrep). unfold waiting. rewrite Ew, Ep, Er.
  destruct (decide (ptr = q)) as [<-|Hne]; [|exists d; by rewrite lookup_insert_ne].
  assert (d = c) as -> by congruence. exists (set_handling b c). by rewrite lookup_insert_eq.
Qed.

Lemma next_step s alive :
  inv s → enabled (NextChannel alive) s → wp (step (NextChannel alive) s) inv.
Proof.
  intros Hi [Eh Et]. pose proof Hi as [I1 I2 I3 I4 I5 I6]. cbn [step]. specialize (I3 Eh). specialize (I4 Eh).
  destruct (next_ s) as [|ptr l] eqn:En; [done|]. apply Forall_cons in I4 as [(c & Hc & Hr & Hrep) I4].
  assert (∀ q d, world_ s !! q = Some d → eventHandling_ d = false) as Hquiet.
  { intros q d Hd. destruct (eventHandling_ d) eqn:E; [|done]. by destruct (I6 _ _ Hd E). }
  unfold deref. rewrite Hc. cbn [res_bind wp]. destruct (negb (tied_ c) || alive)%bool.
  - constructor; cbn; try done.
    + by apply (tidy_change _ _ ptr c).
    + intros _. by rewrite <- app_assoc.
    + intros _. eapply Forall_impl; [exact I4|]. intros q Hq. by eapply (waiting_mark s _ true ptr c).
    + intros _. split; [done|]. exists ptr, (set_handling true c). rewrite lookup_insert_eq.
      split_and!; [done| |done|done]. apply elem_of_app. right. by apply list_elem_of_singleton.
    + intros q d [[<- <-]|[Hne Hd]]%lookup_insert_Some F; [done|]. rewrite (Hquiet _ _ Hd) in F. done.
  - constructor; cbn; try done.
    + intros _. by rewrite <- app_assoc.
    + intros q d Hd F. rewrite (Hquiet _ _ Hd) in F. done.
Qed.

Lemma return_step s : inv s → wp (step HandlerReturns s) inv.
Proof.
  intros Hi. pose proof Hi as [I1 I2 I3 I4 I5 I6]. cbn [step].
  destruct (todo s) as [[|cb l]|] eqn:Et; [|done..]. destruct (I5 ltac:(done)) as (Eh & ptr & c & Hcur & Hp & Hc & Hec).
  rewrite Hcur. unfold deref. rewrite Hc. cbn [res_bind wp]. constructor; cbn; try done.
  - by apply (tidy_change _ _ ptr c).
  - intros E. eapply Forall_impl; [by apply I4|]. intros q Hq. by eapply (waiting_mark s _ false ptr c).
  - intros q d [[<- <-]|[Hne Hd]]%lookup_insert_Some F; [done|]. destruct (I6 _ _ Hd F) as [Hcq _]. congruence.
Qed.

Lemma callback_step s : inv s → wp (step NextCallback s) inv.
Proof.
  intros Hi. pose proof Hi as [I1 I2 I3 I4 I5 I6]. cbn [step].
  destruct (todo s) as [[|cb l]|] eqn:Et; [done| |done]. destruct (I5 ltac:(done)) as (Eh & ptr & c & Hcur & Hp & Hc & Hec).
  rewrite Hcur. cbn [wp]. constructor; cbn; try done.
  - intros _. split; [done|]. by exists ptr, c.
  - intros q d Hd F. destruct (I6 _ _ Hd F) as [Hcq _]. split; [congruence|done].
Qed.

Lemma end_step s : inv s → wp (step RoundEnds s) inv.
Proof.
  intros Hi. pose proof Hi as [I1 I2 I3 I4 I5 I6]. cbn [step].
  destruct (next_ s) eqn:En; [|done]. destruct (todo s) eqn:Et; [done|]. cbn [wp]. constructor; cbn; try done.
  intros q d Hd F. by destruct (I6 _ _ Hd F).
Qed.

Lemma loop_step e s :
  inv s → enabled e s → (∀ a, e ≠ Act a) → wp (step e s) inv.
Proof.
  intros Hi He Ha. destruct e as [r|alive| | | |a].
  - by apply poll_inv_step.
  - by apply next_step.
  - by apply callback_step.
  - by apply return_step.
  - by apply end_step.
  - by destruct (Ha a).
Qed.

Lemma reactor_reach_inv s : reach s → inv s.
Proof.
  induction 1 as [p w Ht Hq|s e s' _ IH He E].
  - constructor; cbn; try done; [constructor|]. intros ptr c Hc F. rewrite (Hq _ _ Hc) in F. done.
  - destruct e as [r|alive| | | |a]; try (eapply wp_inv; [|exact E]; by apply loop_step).
    destruct He as [Hrun Hok]. pose proof (act_step a s IH Hrun Hok) as H'. change (act a s = Ok s') in E.
    rewrite E in H'. destruct (misuse a s); [done|]. destruct H' as (s2 & [= <-] & Hi2). done.
Qed.

(** *** The theorem *)

Definition failing (e : event) (s : Loop P) : bool := match e with Act a => misuse a s | _ => false end.


End safety.

(** ** A round *)

Section runs.
Context `{PollerLaws P}.

Fixpoint run (es : list event) (s : Loop P) : res (Loop P) :=
  match es with
  | [] => Ok s
  | e :: es => let! s' := step e s in run es s'
  end.

(** Every event is one that can come. *)
Fixpoint may_run (es : list event) (s : Loop P) : Prop :=
  match es with
  | [] => True
  | e :: es => enabled e s ∧ match step e s with Ok s' => may_run es s' | Err _ => False end
  end.

Lemma reach_run es s s' : reach s → may_run es s → run es s = Ok s' → reach s'.
Proof.
  revert s. induction es as [|e es IH]; intros s Hs; cbn; [by intros _ [= <-]|].
  intros [He Hm]. destruct (step e s) as [s1|] eqn:E; [|done]. cbn. apply IH; [|done]. by eapply reach_step.
Qed.

End runs.

(** Both descriptors are ready; the callback of the first channel runs. *)
Definition sample_round : list event :=
  [Act (Update enableReading 1); Act (Update enableReading 2); PollReturns (Some [(5, 1); (7, 1)]);
   NextChannel true; Act (Update disableAll 2)].

Definition sample_start : Loop EPollPoller.EPollPoller := new_Loop EPollPoller.new_EPollPoller Multiplexer.sample_world.

Lemma sample_runs : may_run sample_round sample_start.
Proof.
  split; [split; [done|]; exists (new_Channel 5); vm_compute; intuition congruence|].
  split; [split; [done|]; exists (new_Channel 7); vm_compute; intuition congruence|].
  split; [split; [done|]|].
  { split_and!; [apply (bool_decide_unpack _); by vm_compute|by vm_compute|].
    repeat constructor; try done; eexists; vm_compute; reflexivity. }
  split; [done|].
  split; [split; [done|]|done].
  eexists. split; [vm_compute; reflexivity|]. vm_compute. intuition congruence.
Qed.

Lemma sample_reach : reach sample_start.
Proof.
  apply reach_new; [apply (Multiplexer.fresh_epoll _ Multiplexer.sample_fresh)|].
  intros ptr c Hc. unfold Multiplexer.sample_world in Hc.
  by apply lookup_insert_Some in Hc as [[_ <-]|[_ [_ <-]%lookup_singleton_Some]].
Qed.


End Reactor.
