(* ===== verification/LogStream.v ===== *)
(** Formatting of log lines ([base/log/LogStream.h], [LogStream.cpp]).

    A [FixedBuffer] is an array with a cursor; every store of the source goes through
    [poke] or [memcpy] here, which fault outside the array.  The integer conversions are
    the loops of the source, written digit by digit and reversed in place. *)

From S2P Require Import Prelude.

Module LogStream.

Definition kSmallBuffer : Z := 4000.
Definition kLargeBuffer : Z := 4000 * 1000.
Definition kMaxNumericSize : Z := 32.

(** ** Stores *)

(** [*p = c]. *)
Definition poke (p : Z) (c : byte) (mem : bytes) : res bytes :=
  if (0 <=? p) && (p <? zlen mem) then Ok (write_at p [c] mem) else Err OutOfRange.

(** [memcpy(p, src, n)]. *)
Definition memcpy (p : Z) (src : bytes) (n : Z) (mem : bytes) : res bytes :=
  if (0 <=? p) && (p + n <=? zlen mem) && (n <=? zlen src) then Ok (write_at p (ztake n src) mem)
  else Err OutOfRange.

(** [std::reverse] on the bytes from [b] to [e]. *)
Definition reverse (b e : Z) (mem : bytes) : bytes :=
  ztake b mem ++ rev (ztake (e - b) (zdrop b mem)) ++ zdrop e mem.

(** ** Conversions *)

(** [digits]; [zero] points to its middle. *)
Definition digits : bytes := str "9876543210123456789".
Definition digitsHex : bytes := str "0123456789ABCDEF".

Definition zero_at (lsd : Z) : byte := default Byte.x00 (digits !! Z.to_nat (9 + lsd)).
Definition hex_at (lsd : Z) : byte := default Byte.x00 (digitsHex !! Z.to_nat lsd).

(** The do-while of [convert]; a 64-bit number has at most 20 digits. *)
Fixpoint convert_loop (fuel : nat) (i p : Z) (mem : bytes) : res (bytes * Z) :=
  match fuel with
  | O => Err OutOfFuel
  | S fuel =>
      let lsd := Z.rem i 10 in
      let i := Z.quot i 10 in
      let! mem := poke p (zero_at lsd) mem in
      if i =? 0 then Ok (mem, p + 1) else convert_loop fuel i (p + 1) mem
  end.

(** [convert(buf, value)]: the memory and the number of characters. *)
Definition convert (buf value : Z) (mem : bytes) : res (bytes * Z) :=
  let! (mem, p) := convert_loop 20 value buf mem in
  let! (mem, p) :=
    (if value <? 0 then let! mem := poke p Byte.x2d mem in Ok (mem, p + 1) else Ok (mem, p)) in
  let! mem := poke p Byte.x00 mem in
  Ok (reverse buf p mem, p - buf).

Fixpoint convertHex_loop (fuel : nat) (i p : Z) (mem : bytes) : res (bytes * Z) :=
  match fuel with
  | O => Err OutOfFuel
  | S fuel =>
      let lsd := i mod 16 in
      let i := i / 16 in
      let! mem := poke p (hex_at lsd) mem in
      if i =? 0 then Ok (mem, p + 1) else convertHex_loop fuel i (p + 1) mem
  end.

Definition convertHex (buf value : Z) (mem : bytes) : res (bytes * Z) :=
  let! (mem, p) := convertHex_loop 16 value buf mem in
  let! mem := poke p Byte.x00 mem in
  Ok (reverse buf p mem, p - buf).

(** ** FixedBuffer *)

Record FixedBuffer := mkFixed { data_ : bytes; cur_ : Z }.

Definition new_FixedBuffer (size : Z) : FixedBuffer := mkFixed (replicate (Z.to_nat size) Byte.x00) 0.
Definition length_ (b : FixedBuffer) : Z := i32 (cur_ b).
Definition avail (b : FixedBuffer) : Z := i32 (zlen (data_ b) - cur_ b).
Definition add (len : Z) (b : FixedBuffer) : FixedBuffer := mkFixed (data_ b) (cur_ b + len).
Definition reset (b : FixedBuffer) : FixedBuffer := mkFixed (data_ b) 0.
(** [memZero] fills with [-1]. *)
Definition bzero (b : FixedBuffer) : FixedBuffer := mkFixed (replicate (length (data_ b)) Byte.xff) (cur_ b).
Definition toString (b : FixedBuffer) : bytes := ztake (length_ b) (data_ b).

Definition append (buf : bytes) (len : Z) (b : FixedBuffer) : res FixedBuffer :=
  if len <? u64 (avail b) then
    let! mem := memcpy (cur_ b) buf len (data_ b) in
    Ok (mkFixed mem (cur_ b + len))
  else Ok b.

(** [debugString] terminates the text. *)
Definition debugString (b : FixedBuffer) : res FixedBuffer :=
  let! mem := poke (cur_ b) Byte.x00 (data_ b) in
  Ok (mkFixed mem (cur_ b)).

(** ** LogStream *)

Definition formatInteger (v : Z) (b : FixedBuffer) : res FixedBuffer :=
  if kMaxNumericSize <=? avail b then
    let! (mem, len) := convert (cur_ b) v (data_ b) in
    Ok (add len (mkFixed mem (cur_ b)))
  else Ok b.

(** [operator<<(const void* )]. *)
Definition formatPointer (v : Z) (b : FixedBuffer) : res FixedBuffer :=
  if kMaxNumericSize <=? avail b then
    let! mem := poke (cur_ b) Byte.x30 (data_ b) in
    let! mem := poke (cur_ b + 1) Byte.x78 mem in
    let! (mem, len) := convertHex (cur_ b + 2) v mem in
    Ok (add (len + 2) (mkFixed mem (cur_ b)))
  else Ok b.

(** [operator<<(double)]: [text] is what ["%.12g"] prints; snprintf(3) stores at most
    31 bytes and a terminator and returns the full length. *)
Definition formatDouble (text : bytes) (b : FixedBuffer) : res FixedBuffer :=
  if kMaxNumericSize <=? avail b then
    let out := ztake (kMaxNumericSize - 1) text ++ [Byte.x00] in
    let! mem := memcpy (cur_ b) out (zlen out) (data_ b) in
    Ok (add (zlen text) (mkFixed mem (cur_ b)))
  else Ok b.

(** What can be inserted: the overloads of [operator<<].  [IInt] covers the eight
    integer types, whose values all lie in its range. *)
Inductive item :=
| IBool (v : bool)
| IInt (v : Z)
| IPointer (v : Z)
| IDouble (text : bytes)
| IChar (v : byte)
| ICString (s : option bytes)
| IString (s : bytes).

Definition insert (x : item) (b : FixedBuffer) : res FixedBuffer :=
  match x with
  | IBool v => append (if v then str "1" else str "0") 1 b
  | IInt v => formatInteger v b
  | IPointer v => formatPointer v b
  | IDouble text => formatDouble text b
  | IChar v => append [v] 1 b
  | ICString (Some s) => append s (zlen s) b
  | ICString None => append (str "(null)") 6 b
  | IString s => append s (zlen s) b
  end.

(** ** Specification *)

(** Hexadecimal, most significant digit first. *)
Fixpoint uhex (fuel : nat) (n : Z) : bytes :=
  match fuel with
  | O => []
  | S fuel => (if n <? 16 then [] else uhex fuel (n / 16)) ++ [hex_at (n mod 16)]
  end.

Definition printed (x : item) : bytes :=
  match x with
  | IBool v => if v then str "1" else str "0"
  | IInt v => dec v
  | IPointer v => str "0x" ++ uhex 16 v
  | IDouble text => text
  | IChar v => [v]
  | ICString (Some s) => s
  | ICString None => str "(null)"
  | IString s => s
  end.

(** Values of the overloads' types; ["%.12g"] prints at most 19 characters. *)
Definition item_ok (x : item) : Prop :=
  match x with
  | IInt v => - 2 ^ 63 ≤ v < 2 ^ 64
  | IPointer v => 0 ≤ v < 2 ^ 64
  | IDouble text => zlen text ≤ 19
  | ICString (Some s) | IString s => zlen s < 2 ^ 63
  | _ => True
  end.

(** The space an insertion asks for. *)
Definition needed (x : item) : Z :=
  match x with
  | IInt _ | IPointer _ | IDouble _ => kMaxNumericSize
  | _ => zlen (printed x) + 1
  end.

(** The cursor is inside the array. *)
Definition wf (b : FixedBuffer) : Prop := 0 ≤ cur_ b < zlen (data_ b) ∧ zlen (data_ b) < 2 ^ 31.

Definition text (b : FixedBuffer) : bytes := ztake (cur_ b) (data_ b).

(** ** Lemmas *)

(** Memory split at a position. *)
Lemma poke_here pre c x rest : poke (zlen pre) c (pre ++ x :: rest) = Ok (pre ++ c :: rest).
Proof.
  unfold poke. rewrite length_app. cbn [length].
  rewrite (proj2 (Z.leb_le _ _)), (proj2 (Z.ltb_lt _ _)) by lia. cbn [andb]. f_equal. unfold write_at.
  rewrite ztake_app_len by done. cbn [length]. do 2 f_equal.
  unfold zdrop. replace (Z.to_nat (zlen pre + Z.of_nat 1)) with (length pre + 1)%nat by lia.
  by rewrite drop_app_add'.
Qed.

Lemma memcpy_here pre src rest :
  zlen src ≤ zlen rest → memcpy (zlen pre) src (zlen src) (pre ++ rest) = Ok (pre ++ src ++ drop (length src) rest).
Proof.
  intros Hl. unfold memcpy. rewrite length_app.
  rewrite (proj2 (Z.leb_le 0 _)), (proj2 (Z.leb_le _ (Z.of_nat (length pre + length rest)))), Z.leb_refl by lia. cbn [andb].
  rewrite ztake_all by lia. f_equal. unfold write_at. rewrite ztake_app_len by done. do 2 f_equal.
  unfold zdrop. replace (Z.to_nat (zlen pre + zlen src)) with (length pre + length src)%nat by lia.
  by rewrite drop_app_add'.
Qed.

Lemma reverse_here pre ds rest :
  reverse (zlen pre) (zlen pre + zlen ds) (pre ++ ds ++ rest) = pre ++ rev ds ++ rest.
Proof.
  unfold reverse. rewrite ztake_app_len by done. f_equal.
  rewrite (zdrop_app_len (zlen pre)) by done. rewrite ztake_app_len by lia. f_equal.
  rewrite app_assoc, zdrop_app_len; [done|]. rewrite length_app. lia.
Qed.

(** The digits in the order in which they are stored. *)
Fixpoint lsd_first (base : Z) (at_ : Z → byte) (fuel : nat) (n : Z) : bytes :=
  match fuel with
  | O => []
  | S fuel => at_ (n mod base) :: (if n <? base then [] else lsd_first base at_ fuel (n / base))
  end.

Lemma rev_lsd_dec fuel n : rev (lsd_first 10 (λ d, byte_of_Z (48 + d)) fuel n) = udec fuel n.
Proof. revert n. induction fuel as [|fuel IH]; intros n; [done|]. cbn. f_equal. case_match; [done|apply IH]. Qed.

Lemma rev_lsd_hex fuel n : rev (lsd_first 16 hex_at fuel n) = uhex fuel n.
Proof. revert n. induction fuel as [|fuel IH]; intros n; [done|]. cbn. f_equal. case_match; [done|apply IH]. Qed.

Lemma length_lsd base at_ fuel n : (length (lsd_first base at_ fuel n) ≤ fuel)%nat.
Proof. revert n. induction fuel as [|fuel IH]; intros n; cbn; [lia|]. case_match; cbn; [lia|]. specialize (IH (n / base)). lia. Qed.

(** The symmetric table serves both signs. *)
Lemma zero_at_rem i : zero_at (Z.rem i 10) = byte_of_Z (48 + Z.abs i mod 10).
Proof.
  assert (Z.abs i mod 10 = Z.abs (Z.rem i 10)) as ->.
  { rewrite <- Z.rem_abs by lia. change (Z.abs 10) with 10. rewrite Z.rem_mod_nonneg; lia. }
  pose proof (Z.rem_bound_abs i 10 ltac:(lia)) as Hb. generalize dependent (Z.rem i 10). intros r Hr.
  assert (r ∈ seqZ (-9) 19) as Hin by (apply elem_of_seqZ; lia). clear Hr. revert r Hin.
  refine (proj1 (Forall_forall _ _) _). repeat constructor.
Qed.

Lemma convert_loop_spec fuel i pre junk :
  Z.abs i < 10 ^ Z.of_nat fuel → (0 < fuel)%nat → (fuel ≤ length junk)%nat →
  let ds := lsd_first 10 (λ d, byte_of_Z (48 + d)) fuel (Z.abs i) in
  convert_loop fuel i (zlen pre) (pre ++ junk) = Ok (pre ++ ds ++ drop (length ds) junk, zlen pre + zlen ds).
Proof.
  revert i pre junk. induction fuel as [|fuel IH]; intros i pre junk Hi H0 Hj; [lia|].
  destruct junk as [|x junk]; [cbn in Hj; lia|]. cbn [convert_loop lsd_first]. rewrite zero_at_rem, poke_here. cbn [res_bind].
  assert (Z.abs (Z.quot i 10) = Z.abs i / 10) as Hq.
  { rewrite <- Z.quot_abs by lia. change (Z.abs 10) with 10. rewrite Z.quot_div_nonneg; lia. }
  destruct (Z.eqb_spec (Z.quot i 10) 0) as [E|E].
  - rewrite (proj2 (Z.ltb_lt _ _)). 2:{ rewrite E in Hq. symmetry in Hq. apply Z.div_small_iff in Hq; lia. } done.
  - assert (10 ≤ Z.abs i) as Hge.
    { apply Z.nlt_ge. intros F. apply E, Z.abs_0_iff. rewrite Hq. apply Z.div_small. lia. }
    rewrite (proj2 (Z.ltb_ge _ _)) by done.
    rewrite Nat2Z.inj_succ, Z.pow_succ_r in Hi by lia.
    assert (fuel ≠ 0%nat) by (intros ->; cbn in Hi; lia).
    specialize (IH (Z.quot i 10) (pre ++ [byte_of_Z (48 + Z.abs i mod 10)]) junk).
    rewrite Hq in IH. rewrite length_app, Nat2Z.inj_add in IH. cbn [length] in IH.
    change (Z.of_nat 1) with 1 in IH. rewrite <- !app_assoc in IH. cbn [app] in IH.
    rewrite IH; [|apply Z.div_lt_upper_bound; lia|lia|cbn in Hj; lia]. cbn. do 2 f_equal. lia.
Qed.

Lemma convertHex_loop_spec fuel i pre junk :
  0 ≤ i < 16 ^ Z.of_nat fuel → (0 < fuel)%nat → (fuel ≤ length junk)%nat →
  let ds := lsd_first 16 hex_at fuel i in
  convertHex_loop fuel i (zlen pre) (pre ++ junk) = Ok (pre ++ ds ++ drop (length ds) junk, zlen pre + zlen ds).
Proof.
  revert i pre junk. induction fuel as [|fuel IH]; intros i pre junk Hi H0 Hj; [lia|].
  destruct junk as [|x junk]; [cbn in Hj; lia|]. cbn [convertHex_loop lsd_first]. rewrite poke_here. cbn [res_bind].
  rewrite Nat2Z.inj_succ, Z.pow_succ_r in Hi by lia.
  destruct (Z.eqb_spec (i / 16) 0) as [E|E].
  - apply Z.div_small_iff in E; [|lia]. rewrite (proj2 (Z.ltb_lt _ _)) by lia. done.
  - assert (16 ≤ i) as Hge by (apply Z.nlt_ge; intros F; apply E, Z.div_small; lia).
    rewrite (proj2 (Z.ltb_ge _ _)) by done.
    assert (fuel ≠ 0%nat) by (intros ->; cbn in Hi; lia).
    specialize (IH (i / 16) (pre ++ [hex_at (i mod 16)]) junk).
    rewrite length_app, Nat2Z.inj_add in IH. cbn [length] in IH.
    change (Z.of_nat 1) with 1 in IH. rewrite <- !app_assoc in IH. cbn [app] in IH.
    rewrite IH; [|split; [apply Z.div_pos; lia|apply Z.div_lt_upper_bound; lia]|lia|cbn in Hj; lia]. cbn. do 2 f_equal. lia.
Qed.

Lemma convert_spec v pre junk :
  - 2 ^ 63 ≤ v < 2 ^ 64 → (22 ≤ length junk)%nat →
  ∃ rest, convert (zlen pre) v (pre ++ junk) = Ok (pre ++ dec v ++ rest, zlen (dec v)) ∧
    length (dec v ++ rest) = length junk ∧ (length (dec v) ≤ 21)%nat.
Proof.
  intros Hv Hj. unfold convert. pose proof (length_lsd 10 (λ d, byte_of_Z (48 + d)) 20 (Z.abs v)) as Hl.
  rewrite convert_loop_spec by (lia || (change (10 ^ Z.of_nat 20) with 100000000000000000000; lia)). cbn [res_bind].
  assert (rev (lsd_first 10 (λ d, byte_of_Z (48 + d)) 20 (Z.abs v)) = udec 20 (Z.abs v)) as Hr by apply rev_lsd_dec.
  set (ds := lsd_first 10 _ 20 (Z.abs v)) in *. unfold dec.
  remember (drop (length ds) junk) as tl eqn:Etl.
  assert (length ds + length tl = length junk)%nat as Hlen by (subst tl; rewrite length_drop; lia).
  destruct tl as [|x [|y tl]]; cbn [length] in Hlen; [lia..|].
  destruct (Z.ltb_spec v 0) as [Hn|Hn].
  - rewrite app_assoc. replace (zlen pre + zlen ds) with (zlen (pre ++ ds)) by (rewrite length_app; lia).
    rewrite poke_here. cbn [res_bind].
    rewrite (cons_middle Byte.x2d), app_assoc.
    replace (zlen (pre ++ ds) + 1) with (zlen ((pre ++ ds) ++ [Byte.x2d])) by (rewrite !length_app; cbn; lia).
    rewrite poke_here. cbn [res_bind]. exists (Byte.x00 :: tl).
    assert (str "-" ++ udec 20 (- v) = rev (ds ++ [Byte.x2d])) as ->.
    { rewrite rev_app_distr, Hr, Z.abs_neq by lia. done. }
    rewrite length_rev, <- !app_assoc. rewrite (app_assoc ds [Byte.x2d]).
    rewrite (length_app pre), Nat2Z.inj_add, reverse_here. split_and!; [do 2 f_equal; lia| |].
    + rewrite length_app, length_rev, length_app. cbn [length]. lia.
    + rewrite length_app. cbn [length]. lia.
  - cbn [res_bind]. rewrite app_assoc. replace (zlen pre + zlen ds) with (zlen (pre ++ ds)) by (rewrite length_app; lia).
    rewrite poke_here. cbn [res_bind]. exists (Byte.x00 :: y :: tl).
    assert (udec 20 v = rev ds) as -> by (by rewrite Hr, Z.abs_eq by lia).
    rewrite length_rev, <- !app_assoc. rewrite (length_app pre), Nat2Z.inj_add, reverse_here.
    split_and!; [do 2 f_equal; lia| |lia]. rewrite length_app, length_rev. cbn [length]. lia.
Qed.

Lemma convertHex_spec v pre junk :
  0 ≤ v < 2 ^ 64 → (17 ≤ length junk)%nat →
  ∃ rest, convertHex (zlen pre) v (pre ++ junk) = Ok (pre ++ uhex 16 v ++ rest, zlen (uhex 16 v)) ∧
    length (uhex 16 v ++ rest) = length junk ∧ (length (uhex 16 v) ≤ 16)%nat.
Proof.
  intros Hv Hj. unfold convertHex. pose proof (length_lsd 16 hex_at 16 v) as Hl.
  rewrite convertHex_loop_spec by (lia || (change (16 ^ Z.of_nat 16) with (2 ^ 64); lia)). cbn [res_bind]. rewrite <- rev_lsd_hex.
  set (ds := lsd_first 16 hex_at 16 v) in *. remember (drop (length ds) junk) as tl eqn:Etl.
  assert (length ds + length tl = length junk)%nat as Hlen by (subst tl; rewrite length_drop; lia).
  destruct tl as [|x tl]; cbn [length] in Hlen; [lia|].
  rewrite app_assoc. replace (zlen pre + zlen ds) with (zlen (pre ++ ds)) by (rewrite length_app; lia).
  rewrite poke_here. cbn [res_bind]. exists (Byte.x00 :: tl).
  rewrite length_rev, <- !app_assoc. rewrite (length_app pre), Nat2Z.inj_add, reverse_here.
  split_and!; [do 2 f_equal; lia| |lia]. rewrite length_app, length_rev. cbn [length]. lia.
Qed.

(** ** Insertion *)

(** The buffer as its text and the rest of the array. *)
Lemma split_buffer b :
  wf b → ∃ rest, data_ b = text b ++ rest ∧ cur_ b = zlen (text b) ∧ avail b = zlen rest ∧ 0 < zlen rest.
Proof.
  intros [Hc Hs]. exists (zdrop (cur_ b) (data_ b)). unfold text, avail. rewrite ztake_zdrop.
  pose proof (length_ztake (cur_ b) (data_ b) ltac:(lia)). pose proof (length_zdrop (cur_ b) (data_ b) ltac:(lia)).
  split_and!; [done|lia| |lia]. rewrite i32_small; lia.
Qed.

(** A buffer given as text and rest. *)
Lemma joined t rest : zlen (t ++ rest) < 2 ^ 31 → 0 < zlen rest →
  wf (mkFixed (t ++ rest) (zlen t)) ∧ text (mkFixed (t ++ rest) (zlen t)) = t.
Proof.
  intros Hs Hr. split; [|unfold text; cbn; by apply ztake_app_len].
  split; cbn in *; [|done]. rewrite length_app. lia.
Qed.

(** What an insertion does to the buffer. *)
Definition inserted (x : bytes) (need : Z) (b b' : FixedBuffer) : Prop :=
  wf b' ∧ length (data_ b') = length (data_ b) ∧
  text b' = text b ++ (if need <=? zlen (data_ b) - zlen (text b) then x else []).

Lemma rejected x need b : wf b → zlen (data_ b) - zlen (text b) < need → inserted x need b b.
Proof. intros Hb Hn. split_and!; [done..|]. rewrite (proj2 (Z.leb_gt _ _)) by lia. by rewrite app_nil_r. Qed.

Lemma fixed_append_spec s b :
  wf b → zlen s < 2 ^ 63 → wp (append s (zlen s) b) (inserted s (zlen s + 1) b).
Proof.
  intros Hb Hs. destruct (split_buffer b Hb) as (rest & Ed & Ec & Ea & Hr). pose proof Hb as [_ Hsz].
  unfold append. rewrite Ea. assert (zlen (data_ b) = zlen (text b) + zlen rest) as El by (rewrite Ed, length_app; lia).
  assert (u64 (zlen rest) = zlen rest) as -> by (apply uwrap_small; lia).
  destruct (Z.ltb_spec (zlen s) (zlen rest)) as [Hl|Hl]; [|apply rejected; [done|lia]].
  rewrite Ec, Ed, memcpy_here by lia. cbn [res_bind wp].
  destruct (joined (text b ++ s) (drop (length s) rest)) as [Hw Ht].
  { rewrite !length_app, length_drop. lia. }
  { rewrite length_drop. lia. }
  rewrite app_assoc. replace (zlen (text b) + zlen s) with (zlen (text b ++ s)) by (rewrite length_app; lia).
  split_and!; [done| |].
  - cbn. rewrite Ed, !length_app, length_drop. lia.
  - rewrite Ht, (proj2 (Z.leb_le _ _)); [done|lia].
Qed.

(** Numbers: at most 31 characters and a terminator. *)
Lemma number_spec (w : Z → bytes → res (bytes * Z)) x b :
  wf b → (length x < 32)%nat →
  (∀ pre junk, (32 ≤ length junk)%nat → ∃ rest, w (zlen pre) (pre ++ junk) = Ok (pre ++ x ++ rest, zlen x) ∧
     length (x ++ rest) = length junk) →
  wp (if kMaxNumericSize <=? avail b then
        let! (mem, len) := w (cur_ b) (data_ b) in Ok (add len (mkFixed mem (cur_ b)))
      else Ok b) (inserted x kMaxNumericSize b).
Proof.
  intros Hb Hx Hw. destruct (split_buffer b Hb) as (rest & Ed & Ec & Ea & Hr). pose proof Hb as [_ Hsz].
  assert (zlen (data_ b) = zlen (text b) + zlen rest) as El by (rewrite Ed, length_app; lia).
  rewrite Ea. unfold kMaxNumericSize in *. destruct (Z.leb_spec 32 (zlen rest)) as [Hl|Hl]; [|apply rejected; [done|lia]].
  destruct (Hw (text b) rest ltac:(lia)) as (rest' & E & Hlen). rewrite Ec, Ed, E. cbn [res_bind wp].
  rewrite length_app in Hlen. destruct (joined (text b ++ x) rest') as [Hw' Ht].
  { rewrite !length_app. lia. }
  { lia. }
  unfold add. cbn. rewrite app_assoc. replace (zlen (text b) + zlen x) with (zlen (text b ++ x)) by (rewrite length_app; lia).
  split_and!; [done| |].
  - cbn. rewrite Ed, !length_app. lia.
  - rewrite Ht, (proj2 (Z.leb_le _ _)); [done|lia].
Qed.

(** Storing ["0x"] and the digits, as one writer. *)
Definition write_pointer (v p : Z) (mem : bytes) : res (bytes * Z) :=
  let! mem := poke p Byte.x30 mem in
  let! mem := poke (p + 1) Byte.x78 mem in
  let! (mem, len) := convertHex (p + 2) v mem in
  Ok (mem, len + 2).

Lemma formatPointer_writer v b :
  formatPointer v b = if kMaxNumericSize <=? avail b then
    let! (mem, len) := write_pointer v (cur_ b) (data_ b) in Ok (add len (mkFixed mem (cur_ b))) else Ok b.
Proof.
  unfold formatPointer, write_pointer. case_match; [|done]. destruct (poke _ _ _); [|done]. cbn.
  destruct (poke _ _ _); [|done]. cbn. by destruct (convertHex _ _ _) as [[]|].
Qed.

Definition write_double (text : bytes) (p : Z) (mem : bytes) : res (bytes * Z) :=
  let out := ztake (kMaxNumericSize - 1) text ++ [Byte.x00] in
  let! mem := memcpy p out (zlen out) mem in
  Ok (mem, zlen text).

Lemma formatDouble_writer text b :
  formatDouble text b = if kMaxNumericSize <=? avail b then
    let! (mem, len) := write_double text (cur_ b) (data_ b) in Ok (add len (mkFixed mem (cur_ b))) else Ok b.
Proof. unfold formatDouble, write_double. case_match; [|done]. by destruct (memcpy _ _ _ _). Qed.

Lemma log_insert_spec x b : wf b → item_ok x → wp (insert x b) (inserted (printed x) (needed x) b).
Proof.
  intros Hb Hx. destruct x as [v|v|v|t|v|[s|]|s]; cbn [insert item_ok printed needed] in *.
  - destruct v; [by apply (fixed_append_spec (str "1"))|by apply (fixed_append_spec (str "0"))].
  - apply (number_spec (λ p mem, convert p v mem)); [done| |].
    + destruct (convert_spec v [] (replicate 32 Byte.x00) Hx ltac:(rewrite length_replicate; lia)) as (_ & _ & _ & ?). lia.
    + intros pre junk Hj. destruct (convert_spec v pre junk Hx ltac:(lia)) as (rest & ? & ? & _). eauto.
  - rewrite formatPointer_writer. apply (number_spec (write_pointer v)); [done| |].
    + destruct (convertHex_spec v [] (replicate 32 Byte.x00) Hx ltac:(rewrite length_replicate; lia)) as (_ & _ & _ & ?).
      rewrite length_app. change (length (str "0x")) with 2%nat. lia.
    + intros pre [|x [|y junk]] Hj; [cbn in Hj; lia..|]. unfold write_pointer. rewrite poke_here. cbn [res_bind].
      rewrite (cons_middle Byte.x30), app_assoc. replace (zlen pre + 1) with (zlen (pre ++ [Byte.x30])) by (rewrite length_app; cbn; lia).
      rewrite poke_here. cbn [res_bind]. rewrite (cons_middle Byte.x78), app_assoc, <- (app_assoc pre).
      replace (zlen pre + 2) with (zlen (pre ++ str "0x")) by (rewrite length_app; change (length (str "0x")) with 2%nat; lia).
      destruct (convertHex_spec v (pre ++ str "0x") junk Hx ltac:(cbn in Hj; lia)) as (rest & E & Hl & _).
      change ([Byte.x30] ++ [Byte.x78]) with (str "0x"). rewrite E. cbn [res_bind]. exists rest. split.
      * do 2 f_equal; [by rewrite <- !app_assoc|]. rewrite length_app. change (length (str "0x")) with 2%nat. lia.
      * rewrite <- app_assoc, length_app, Hl. change (length (str "0x")) with 2%nat. cbn [length]. lia.
  - rewrite formatDouble_writer. apply (number_spec (write_double t)); [done|lia|]. intros pre junk Hj. unfold write_double.
    rewrite ztake_all by (unfold kMaxNumericSize; lia). rewrite memcpy_here by (rewrite length_app; cbn; lia).
    cbn [res_bind]. exists (Byte.x00 :: drop (length (t ++ [Byte.x00])) junk). split; [by rewrite <- (app_assoc t)|].
    rewrite length_app. cbn [length]. rewrite length_drop, length_app. cbn [length]. lia.
  - by apply (fixed_append_spec [v]).
  - by apply fixed_append_spec.
  - by apply (fixed_append_spec (str "(null)")).
  - by apply fixed_append_spec.
Qed.

Fixpoint inserts (xs : list item) (b : FixedBuffer) : res FixedBuffer :=
  match xs with
  | [] => Ok b
  | x :: xs => let! b := insert x b in inserts xs b
  end.

(** The line a statement [LOG << x1 << x2 ...] should give in a buffer of [size]. *)
Definition line (size : Z) (t : bytes) (xs : list item) : bytes :=
  foldl (λ t x, t ++ (if needed x <=? size - zlen t then printed x else [])) t xs.

Lemma inserts_spec xs b :
  wf b → Forall item_ok xs →
  wp (inserts xs b) (λ b', wf b' ∧ zlen (data_ b') = zlen (data_ b) ∧ text b' = line (zlen (data_ b)) (text b) xs).
Proof.
  revert b. induction xs as [|x xs IH]; intros b Hb Hxs; [done|].
  apply Forall_cons in Hxs as [Hx Hxs]. cbn [inserts]. eapply wp_bind; [by apply log_insert_spec|].
  intros b1 (Hb1 & Hl & Ht). eapply wp_mono; [by apply IH|]. intros b2 (? & El & E). split_and!; [done|congruence|].
  rewrite E, Ht, Hl. done.
Qed.

Lemma inserts_app xs ys b : inserts (xs ++ ys) b = let! b := inserts xs b in inserts ys b.
Proof.
  revert b. induction xs as [|x xs IH]; intros b; [done|]. cbn. destruct (insert x b); cbn; [apply IH|done].
Qed.

(** Nothing is left out of a line that leaves room for a number. *)
Lemma line_fits size t xs :
  zlen t + zlen (concat (map printed xs)) + kMaxNumericSize ≤ size → line size t xs = t ++ concat (map printed xs).
Proof.
  revert t. induction xs as [|x xs IH]; intros t Hl; cbn [line foldl map concat] in *; [by rewrite app_nil_r|].
  rewrite length_app in Hl. change kMaxNumericSize with 32 in *.
  assert (needed x ≤ size - zlen t) as Hn by (unfold needed; change kMaxNumericSize with 32; destruct x; lia).
  rewrite (proj2 (Z.leb_le _ _) Hn). unfold line in IH. rewrite IH; [by rewrite app_assoc|]. rewrite length_app. lia.
Qed.

(** C36. Log lines: any sequence of insertions of values of the supported types (integers
    of every width, pointers, floating-point numbers, characters, strings) stores only
    inside the array and leaves exactly the values' texts in order, where a value for
    which there is no room is left out as a whole; the cursor stays inside, so that
    [debugString] may store its terminator. *)
Theorem logstream_lines xs b :
  wf b → Forall item_ok xs →
  wp (inserts xs b) (λ b', wf b' ∧ text b' = line (zlen (data_ b)) (text b) xs ∧
    wp (debugString b') (λ b'', text b'' = text b')).
Proof.
  intros Hb Hxs. eapply wp_mono; [by apply inserts_spec|]. intros b' (Hb' & _ & Ht). split_and!; [done..|].
  destruct (split_buffer b' Hb') as (rest & Ed & Ec & _ & Hr).
  destruct rest as [|y rest]; [cbn in Hr; lia|]. unfold debugString. rewrite Ec, Ed, poke_here. cbn.
  unfold text at 1. cbn. by apply ztake_app_len.
Qed.

Lemma logstream_lines_witness :
  wp (inserts [ICString (Some (str "fd = ")); IInt (-42); IChar Byte.x20; IPointer 3735928559] (new_FixedBuffer 64))
     (λ b', text b' = str "fd = -42 0xDEADBEEF").
Proof.
  eapply wp_mono; [apply logstream_lines|].
  - by vm_compute.
  - by repeat constructor.
  - intros b' (_ & E & _). rewrite E. by vm_compute.
Defined.

End LogStream.
