(* ===== verification/LogFile.v ===== *)
(** Log files ([base/log/FileUtil.h], [FileUtil.cpp], [LogFIle.h], [LogFile.cpp]).

    An [AppendFile] is a stdio stream opened for appending; what [fwrite_unlocked]
    accepts and what [read], [fstat] and [time] answer are arguments.  A [LogFile] keeps
    one open file and starts a new one when the written size exceeds [rollSize_]; the
    closed files are kept in [closed], oldest first, to state what the log holds. *)

From S2P Require Import Prelude Date.
From Stdlib Require Import Sorted.
Import Date.

(** ** Writing *)

Module FileUtil.

Record AppendFile := mkAppendFile {
  filename : bytes;
  content : bytes;          (* the bytes the stream has accepted *)
  synced : nat;             (* how many of them a flush has handed to the kernel *)
  writtenBytes_ : Z;
}.

(** The constructor; [opened] is whether fopen(3) succeeds. *)
Definition new_AppendFile (opened : bool) (name : bytes) : res AppendFile :=
  assert! opened in Ok (mkAppendFile name [] 0 0).

(** [write]: fwrite(3) accepts [x] of the bytes, never more than it was given. *)
Definition AppendFile_write (x : Z) (logline : bytes) (f : AppendFile) : Z * AppendFile :=
  let x := Z.max 0 (Z.min x (zlen logline)) in
  (x, mkAppendFile (filename f) (content f ++ ztake x logline) (synced f) (writtenBytes_ f)).

(** The loop of [append]: [answers] are the results of the further writes; beyond the
    list a write is complete. *)
Fixpoint append_loop (fuel : nat) (answers : list Z) (logline : bytes) (f : AppendFile) : res AppendFile :=
  match logline with
  | [] => Ok f
  | _ =>
      match fuel with
      | O => Err OutOfFuel
      | S fuel =>
          let '(x, f) := AppendFile_write (default (zlen logline) (head answers)) logline f in
          if x =? 0 then Ok f else append_loop fuel (tail answers) (zdrop x logline) f
      end
  end.

Definition AppendFile_append (answers : list Z) (logline : bytes) (f : AppendFile) : res AppendFile :=
  let '(n, f) := AppendFile_write (default (zlen logline) (head answers)) logline f in
  let! f := append_loop (length logline) (tail answers) (zdrop n logline) f in
  Ok (mkAppendFile (filename f) (content f) (synced f) (writtenBytes_ f + zlen logline)).

(** fflush(3), and fclose(3) in the destructor. *)
Definition AppendFile_flush (f : AppendFile) : AppendFile :=
  mkAppendFile (filename f) (content f) (length (content f)) (writtenBytes_ f).

(** ** Reading *)

Definition kBufferSize : Z := 64 * 1024.
Definition EISDIR : Z := 21.

(** What read(2) answers: some bytes of the rest of the file (at least one while there
    are any), or an error. *)
Inductive read_result :=
| Got (n : Z)
| ReadError (errno : Z).

Record stat := mkStat { st_regular : bool; st_dir : bool; st_size : Z; st_mtime : Z; st_ctime : Z }.

(** An open file: [None] when open(2) failed with [err_]. *)
Record ReadSmallFile := mkReadSmallFile { fd_ : option bytes; err_ : Z }.

Definition new_ReadSmallFile (opened : bytes + Z) : ReadSmallFile :=
  match opened with
  | inl f => mkReadSmallFile (Some f) 0
  | inr e => mkReadSmallFile None e
  end.

(** read(2) at the position where [rest] begins. *)
Definition sys_read (r : read_result) (toRead : Z) (rest : bytes) : bytes + Z :=
  match r with
  | Got n => inl (ztake (Z.min toRead (Z.max 1 n)) rest)
  | ReadError e => inr e
  end.

Fixpoint read_loop (fuel : nat) (answers : list read_result) (maxSize : Z) (rest acc : bytes) (err : Z) : res (Z * bytes) :=
  match fuel with
  | O => Err OutOfFuel
  | S fuel =>
      if zlen acc <? u64 maxSize then
        let toRead := Z.min (u64 (u64 maxSize - zlen acc)) kBufferSize in
        match sys_read (default (Got toRead) (head answers)) toRead rest with
        | inl [] => Ok (err, acc)
        | inl got => read_loop fuel (tail answers) maxSize (zdrop (zlen got) rest) (acc ++ got) err
        | inr e => Ok (e, acc)
        end
      else Ok (err, acc)
  end.

(** The outputs through the pointers; [want_size] is whether [fileSize] is given. *)
Record sizes := mkSizes { fileSize : option Z; modifyTime : option Z; createTime : option Z }.

Definition readToString (want_size : bool) (st : stat + Z) (answers : list read_result) (maxSize : Z)
    (old : bytes) (f : ReadSmallFile) : res (Z * bytes * sizes) :=
  match fd_ f with
  | None => Ok (err_ f, old, mkSizes None None None)
  | Some file =>
      let '(err, out) :=
        if want_size then
          match st with
          | inl s =>
              (if st_regular s then err_ f else if st_dir s then EISDIR else err_ f,
               mkSizes (if st_regular s then Some (st_size s) else None) (Some (st_mtime s)) (Some (st_ctime s)))
          | inr e => (e, mkSizes None None None)
          end
        else (err_ f, mkSizes None None None) in
      let! (err, content) := read_loop (S (length file)) answers maxSize file [] err in
      Ok (err, content, out)
  end.

(** [readToBuffer]: one pread(2) of at most [kBufferSize - 1] bytes, terminated. *)
Definition readToBuffer (r : read_result) (f : ReadSmallFile) : Z * option (Z * bytes) :=
  match fd_ f with
  | None => (err_ f, None)
  | Some file =>
      match sys_read r (kBufferSize - 1) file with
      | inl got => (err_ f, Some (zlen got, got ++ [Byte.x00]))
      | inr e => (e, None)
      end
  end.

(** ** Lemmas *)

(** A disk that takes at least one byte of every write. *)
Definition disk_ok (answers : list Z) : Prop := Forall (λ x, 0 < x) answers.

Lemma disk_ok_head answers n : disk_ok answers → 0 < n → 0 < default n (head answers).
Proof. intros [|x l Hx Hl]; cbn; lia. Qed.

Lemma disk_ok_tail answers : disk_ok answers → disk_ok (tail answers).
Proof. by intros [|x l Hx Hl]; [constructor|]. Qed.

Definition grown (logline : bytes) (f f' : AppendFile) : Prop :=
  content f' = content f ++ logline ∧ filename f' = filename f ∧ synced f' = synced f ∧
  writtenBytes_ f' = writtenBytes_ f.

Lemma append_loop_spec fuel answers logline f :
  disk_ok answers → (length logline ≤ fuel)%nat → wp (append_loop fuel answers logline f) (grown logline f).
Proof.
  revert answers logline f. induction fuel as [|fuel IH]; intros answers [|c l] f Ha Hl; cbn [append_loop wp];
    [by repeat split; rewrite ?app_nil_r|cbn in Hl; lia|by repeat split; rewrite ?app_nil_r|].
  pose proof (disk_ok_head answers (zlen (c :: l)) Ha ltac:(cbn; lia)) as Hx.
  set (x := default _ _) in *. unfold AppendFile_write. set (y := Z.max 0 _).
  assert (0 < y ≤ zlen (c :: l)) as Hy by (unfold y; cbn [length]; lia).
  rewrite (proj2 (Z.eqb_neq _ _)) by lia.
  eapply wp_mono; [apply IH; [by apply disk_ok_tail|]|].
  { pose proof (length_zdrop y (c :: l) ltac:(lia)). cbn [length] in *. lia. }
  intros f' (E & ? & ? & ?). cbn in *. split_and!; [|done..]. by rewrite E, <- app_assoc, ztake_zdrop.
Qed.

(** A line is written whole, in however many pieces the stream takes it. *)
Lemma file_append_spec answers logline f :
  disk_ok answers →
  wp (AppendFile_append answers logline f) (λ f',
    content f' = content f ++ logline ∧ filename f' = filename f ∧ synced f' = synced f ∧
    writtenBytes_ f' = writtenBytes_ f + zlen logline).
Proof.
  intros Ha. unfold AppendFile_append, AppendFile_write. set (x := Z.max 0 _).
  assert (0 ≤ x ≤ zlen logline) as Hx by (unfold x; lia).
  eapply wp_bind; [apply append_loop_spec; [by apply disk_ok_tail|]|].
  { pose proof (length_zdrop x logline ltac:(lia)). lia. }
  intros f' (E & En & Es & Ew). cbn in *. split_and!; [|done..|by rewrite Ew]. by rewrite E, <- app_assoc, ztake_zdrop.
Qed.

(** Reading: the loop ends, and without an error it holds the first [maxSize] bytes. *)
Definition no_error (answers : list read_result) : Prop := Forall (λ r, ∃ n, r = Got n) answers.

Lemma read_loop_spec fuel answers maxSize rest acc err :
  no_error answers → (length rest < fuel)%nat → zlen acc + zlen rest < 2 ^ 63 → 0 ≤ maxSize < 2 ^ 31 →
  zlen acc ≤ maxSize →
  read_loop fuel answers maxSize rest acc err = Ok (err, acc ++ ztake (maxSize - zlen acc) rest).
Proof.
  revert answers rest acc. induction fuel as [|fuel IH]; intros answers rest acc Ha Hf Hb Hm Hacc; [lia|].
  cbn [read_loop]. assert (u64 maxSize = maxSize) as -> by (apply uwrap_small; lia).
  destruct (Z.ltb_spec (zlen acc) maxSize) as [Hlt|Hge].
  2:{ replace (maxSize - zlen acc) with 0 by lia. cbn. by rewrite app_nil_r. }
  assert (u64 (maxSize - zlen acc) = maxSize - zlen acc) as -> by (apply uwrap_small; lia).
  set (toRead := Z.min _ _). assert (0 < toRead ≤ maxSize - zlen acc) as Ht by (unfold toRead, kBufferSize; lia).
  assert (∃ n, default (Got toRead) (head answers) = Got n) as [n ->]
    by (destruct Ha as [|? ? [m ->] ?]; cbn; eauto).
  cbn [sys_read]. set (k := Z.min toRead _). assert (0 < k ≤ toRead) as Hk by lia.
  destruct (ztake k rest) as [|c got] eqn:E.
  - destruct rest as [|r rest]; [by unfold ztake; rewrite take_nil, app_nil_r|].
    apply (f_equal length) in E. unfold ztake in E. rewrite length_take in E. cbn in E. lia.
  - rewrite <- E. pose proof (take_drop (Z.to_nat k) rest) as Hr.
    assert (zlen (ztake k rest) = Z.min k (zlen rest)) as Hlen by (unfold ztake; rewrite length_take; lia).
    assert (1 ≤ zlen rest) as Hne by (destruct rest; [by unfold ztake in E; rewrite take_nil in E|cbn; lia]).
    rewrite IH.
    + rewrite <- app_assoc, length_app, Nat2Z.inj_add, Z.sub_add_distr. do 3 f_equal. apply ztake_split. lia.
    + destruct Ha; [constructor|done].
    + unfold zdrop. rewrite length_drop. lia.
    + unfold zdrop. rewrite length_app, length_drop. lia.
    + done.
    + rewrite length_app. lia.
Qed.

(** With errors and short reads: some prefix of the file, and never more than [maxSize]. *)
Lemma read_loop_prefix fuel answers maxSize rest acc err :
  (length rest < fuel)%nat → zlen acc + zlen rest < 2 ^ 63 → 0 ≤ maxSize < 2 ^ 31 → zlen acc ≤ maxSize →
  wp (read_loop fuel answers maxSize rest acc err) (λ r, ∃ k, r.2 = acc ++ take k rest ∧ zlen r.2 ≤ maxSize).
Proof.
  revert answers rest acc. induction fuel as [|fuel IH]; intros answers rest acc Hf Hb Hm Hacc; [lia|].
  cbn [read_loop]. assert (u64 maxSize = maxSize) as -> by (apply uwrap_small; lia).
  assert (∃ k, acc = acc ++ take k rest ∧ zlen acc ≤ maxSize) as Hstop by (exists 0%nat; by rewrite app_nil_r).
  destruct (Z.ltb_spec (zlen acc) maxSize) as [Hlt|Hge]; [|done].
  assert (u64 (maxSize - zlen acc) = maxSize - zlen acc) as -> by (apply uwrap_small; lia).
  set (toRead := Z.min _ _). assert (0 < toRead ≤ maxSize - zlen acc) as Ht by (unfold toRead, kBufferSize; lia).
  destruct (default _ _) as [n|e]; cbn [sys_read]; [|done].
  set (k := Z.min toRead _). assert (0 < k ≤ toRead) as Hk by lia.
  destruct (ztake k rest) as [|c got] eqn:E; [done|]. rewrite <- E.
  assert (ztake k rest ≠ []) as Hne by (by rewrite E). clear E.
  assert (zlen (ztake k rest) = Z.min k (zlen rest)) as Hlen by (unfold ztake; rewrite length_take; lia).
  assert (1 ≤ zlen rest) as Hr by (destruct rest; [by unfold ztake in Hne; rewrite take_nil in Hne|cbn; lia]).
  eapply wp_mono; [apply IH; unfold zdrop; rewrite ?length_app, ?length_drop; lia|].
  intros r (j & E & Hle). exists (length (ztake k rest) + j)%nat. split; [|done].
  rewrite E, <- app_assoc. f_equal. unfold zdrop. rewrite Nat2Z.id.
  assert (ztake k rest = take (length (ztake k rest)) rest) as E2.
  { unfold ztake. rewrite length_take. destruct (Nat.le_ge_cases (Z.to_nat k) (length rest)); [by rewrite Nat.min_l|].
    by rewrite Nat.min_r, !take_ge by lia. }
  rewrite E2 at 1. apply take_take_drop.
Qed.

(** Reading a small file: the loop ends for every way read(2) cuts the file, and gives
    a prefix of at most [maxSize] bytes, the whole prefix when no read fails; a file that
    cannot be opened gives the errno and leaves the string alone, and a directory gives
    [EISDIR]. *)
Theorem readToString_reads want st answers maxSize old opened :
  0 ≤ maxSize < 2 ^ 31 → (∀ f, opened = inl f → zlen f < 2 ^ 62) →
  wp (readToString want st answers maxSize old (new_ReadSmallFile opened)) (λ r, let '(err, s, out) := r in
    match opened with
    | inr e => err = e ∧ s = old ∧ out = mkSizes None None None
    | inl f =>
        s `prefix_of` f ∧ zlen s ≤ maxSize ∧
        (no_error answers → s = ztake maxSize f ∧ (want = false → err = 0) ∧
         (∀ i, st = inl i → want = true → st_regular i = true →
            err = 0 ∧ fileSize out = Some (st_size i) ∧ modifyTime out = Some (st_mtime i) ∧
            createTime out = Some (st_ctime i)) ∧
         (∀ i, st = inl i → want = true → st_regular i = false → st_dir i = true → err = EISDIR))
    end).
Proof.
  intros Hm Hf. destruct opened as [f|e]; [|done]. specialize (Hf f eq_refl). cbn [new_ReadSmallFile readToString fd_ err_].
  destruct (if want then _ else _) as [err out] eqn:Eo.
  pose proof (read_loop_prefix (S (length f)) answers maxSize f [] err ltac:(lia) ltac:(cbn; lia) Hm ltac:(cbn; lia)) as Hp.
  destruct (read_loop _ _ _ _ _ _) as [[err' s]|] eqn:El; [|done]. cbn [wp res_bind snd] in *. destruct Hp as (k & -> & Hl).
  split_and!; [apply prefix_take|done|]. intros Hn.
  rewrite read_loop_spec in El by (done || cbn; lia). injection El as <- E. cbn in E. rewrite Z.sub_0_r in E. split_and!; [done|..].
  - intros ->. by simplify_eq.
  - intros i -> -> Hr. rewrite Hr in Eo. by simplify_eq.
  - intros i -> -> Hr Hd. rewrite Hr, Hd in Eo. by simplify_eq.
Qed.

Lemma readToString_reads_witness :
  readToString true (inl (mkStat true false 11 5 6)) [Got 4; Got 1; Got 9] 8 [] (new_ReadSmallFile (inl (str "hello world"))) =
    Ok (0, str "hello wo", mkSizes (Some 11) (Some 5) (Some 6)) ∧
  wp (readToString true (inl (mkStat true false 11 5 6)) [Got 4; Got 1; Got 9] 8 [] (new_ReadSmallFile (inl (str "hello world"))))
    (λ r, r.1.2 `prefix_of` str "hello world").
Proof.
  split; [by vm_compute|].
  eapply wp_mono; [apply readToString_reads; [lia|by intros f [= <-]]|]. by intros [[err s] out] [? _].
Defined.

End FileUtil.

(** ** The rolling log file *)

Module LogFile.
Import FileUtil.

Definition kRollPerSeconds_ : Z := 60 * 60 * 24.

(** A timer given to [loop_]: [runAfter(delay, setTimer)] or [runEvery(interval, rollFile)]. *)
Inductive timer :=
| SetTimerAfter (delay : Z)
| RollEvery (interval : Z).

Record LogFile := mkLogFile {
  basename_ : bytes;
  rollSize_ : Z;
  rollTime_ : Z;
  timeZone_ : Z;
  startOfPeriod_ : Z;
  lastRoll_ : Z;
  lastFlush_ : Z;
  file_ : option AppendFile;
  closed : list AppendFile;      (* the files closed so far, oldest first *)
  timers : list timer;           (* what loop_ was given *)
}.

Definition set_file (v : option AppendFile) (l : LogFile) : LogFile :=
  mkLogFile (basename_ l) (rollSize_ l) (rollTime_ l) (timeZone_ l) (startOfPeriod_ l) (lastRoll_ l) (lastFlush_ l)
    v (closed l) (timers l).
Definition add_timer (t : timer) (l : LogFile) : LogFile :=
  mkLogFile (basename_ l) (rollSize_ l) (rollTime_ l) (timeZone_ l) (startOfPeriod_ l) (lastRoll_ l) (lastFlush_ l)
    (file_ l) (closed l) (timers l ++ [t]).
Definition setRollTime (v : Z) (l : LogFile) : LogFile :=
  mkLogFile (basename_ l) (rollSize_ l) v (timeZone_ l) (startOfPeriod_ l) (lastRoll_ l) (lastFlush_ l)
    (file_ l) (closed l) (timers l).
Definition setTimeZone (v : Z) (l : LogFile) : LogFile :=
  mkLogFile (basename_ l) (rollSize_ l) (rollTime_ l) v (startOfPeriod_ l) (lastRoll_ l) (lastFlush_ l)
    (file_ l) (closed l) (timers l).

(** One append: the answers of the disk, the second it happens in, the line. *)
Abbreviation entry := (list Z * Z * bytes)%type.

Section Host.
(** localtime_r(3), the host's name and the process's id. *)
Context (localtime_r : Z → tm) (hostname : bytes) (pid : Z).

(** [getLogFileName] with the time it read. *)
Definition getLogFileName (basename : bytes) (now : Z) : bytes :=
  let t := localtime_r now in
  basename ++ str "." ++ dec (tm_year t + 1900) ++ zpad 2 (tm_mon t + 1) ++ zpad 2 (tm_mday t) ++ str "-" ++
  zpad 2 (tm_hour t) ++ zpad 2 (tm_min t) ++ zpad 2 (tm_sec t) ++ str "." ++ hostname ++ str "." ++ dec pid ++ str ".log".

(** [rollFile()] when time(2) answers [now]; [opened] is whether fopen(3) succeeds.  The
    old file is closed after the new one is open. *)
Definition rollFile (opened : bool) (now : Z) (l : LogFile) : res (bool * LogFile) :=
  let start := Z.quot now kRollPerSeconds_ * kRollPerSeconds_ in
  if lastRoll_ l <? now then
    let! f := new_AppendFile opened (getLogFileName (basename_ l) now) in
    Ok (true, mkLogFile (basename_ l) (rollSize_ l) (rollTime_ l) (timeZone_ l) start now now (Some f)
                (closed l ++ option_list (AppendFile_flush <$> file_ l)) (timers l))
  else Ok (false, l).

(** The seconds until the first roll at [rollTime], at time [now]. *)
Definition first_roll (rollTime now : Z) : Z :=
  let dif := rollTime - Z.rem now kRollPerSeconds_ in
  if dif <? 0 then dif + kRollPerSeconds_ else dif.

(** The constructor; the clock is read in [rollFile] and again. *)
Definition new_LogFile (opened : bool) (now1 now2 : Z) (basename : bytes) (rollSize rollTime : Z) : res LogFile :=
  let l := mkLogFile basename rollSize rollTime 0 0 0 0 None [] [] in
  let! (_, l) := rollFile opened now1 l in
  Ok (add_timer (SetTimerAfter (first_roll rollTime now2)) l).

Definition setTimer (opened : bool) (now : Z) (l : LogFile) : res LogFile :=
  let! (_, l) := rollFile opened now l in
  Ok (add_timer (RollEvery kRollPerSeconds_) l).

(** [append_unlocked], and [append] under the mutex if there is one. *)
Definition append (answers : list Z) (opened : bool) (now : Z) (logline : bytes) (l : LogFile) : res LogFile :=
  match file_ l with
  | None => Err UseAfterFree
  | Some f =>
      let! f := AppendFile_append answers logline f in
      let l := set_file (Some f) l in
      if rollSize_ l <? writtenBytes_ f then let! (_, l) := rollFile opened now l in Ok l else Ok l
  end.

Definition flush (l : LogFile) : res LogFile :=
  match file_ l with
  | None => Err UseAfterFree
  | Some f => Ok (set_file (Some (AppendFile_flush f)) l)
  end.

(** ** Specification *)

Definition files (l : LogFile) : list AppendFile := closed l ++ option_list (file_ l).

(** Everything the log holds, and what a crash of the process would leave of it. *)
Definition log_text (l : LogFile) : bytes := concat (map content (files l)).
Definition kept_text (l : LogFile) : bytes := concat (map (λ f, take (synced f) (content f)) (files l)).

Definition file_ok (f : AppendFile) : Prop :=
  writtenBytes_ f = zlen (content f) ∧ (synced f ≤ length (content f))%nat.

Record inv (l : LogFile) : Prop := {
  i_open : is_Some (file_ l);
  i_files : Forall file_ok (files l);
  i_closed : Forall (λ f, synced f = length (content f)) (closed l);
  i_big : Forall (λ f, rollSize_ l < zlen (content f)) (closed l);
}.

Lemma Forall_files (P : AppendFile → Prop) l f :
  file_ l = Some f → Forall P (files l) ↔ Forall P (closed l) ∧ P f.
Proof. intros E. unfold files. rewrite E. cbn. by rewrite Forall_app, Forall_singleton. Qed.

Lemma log_text_open l f : file_ l = Some f → log_text l = concat (map content (closed l)) ++ content f.
Proof. intros E. unfold log_text, files. rewrite E. cbn. rewrite map_app, concat_app. cbn. by rewrite app_nil_r. Qed.

Lemma kept_text_open l f :
  file_ l = Some f → Forall (λ f, synced f = length (content f)) (closed l) →
  kept_text l = concat (map content (closed l)) ++ take (synced f) (content f).
Proof.
  intros E Hc. unfold kept_text, files. rewrite E. cbn. rewrite map_app, concat_app. cbn. rewrite app_nil_r. do 2 f_equal.
  apply map_ext_Forall. eapply Forall_impl; [exact Hc|]. intros g ->. by rewrite take_ge.
Qed.

Lemma log_text_nil l : log_text l = [] → kept_text l = [].
Proof.
  unfold log_text, kept_text. induction (files l) as [|f fs IH]; cbn; [done|]. intros [-> H]%app_eq_nil.
  by rewrite take_nil, IH.
Qed.

(** Rolling keeps the text; only a file larger than [rollSize_] is closed. *)
Lemma rollFile_spec now l f :
  file_ l = Some f → inv l → rollSize_ l < zlen (content f) →
  wp (rollFile true now l) (λ r, let l' := r.2 in
    inv l' ∧ log_text l' = log_text l ∧ rollSize_ l' = rollSize_ l ∧ lastRoll_ l' = Z.max (lastRoll_ l) now ∧
    r.1 = (lastRoll_ l <? now) ∧ (lastRoll_ l < now → content <$> file_ l' = Some [])).
Proof.
  intros E Hi Hbig. pose proof Hi as [Ho Hf Hc Hb]. unfold rollFile, new_AppendFile. destruct (Z.ltb_spec (lastRoll_ l) now) as [Hn|Hn]; cbn.
  - rewrite E. cbn. apply (Forall_files _ _ _ E) in Hf as [Hf1 [Hf2 Hf3]]. split_and!; try done; [|..|lia].
    + constructor; cbn; [done|..].
      * unfold files. cbn. rewrite !Forall_app, !Forall_singleton. split_and!; [done|by split|by split].
      * by rewrite Forall_app, Forall_singleton.
      * by rewrite Forall_app, Forall_singleton.
    + rewrite (log_text_open l f E). unfold log_text, files. cbn. rewrite !map_app, !concat_app. cbn. by rewrite !app_nil_r.
  - split_and!; try done; lia.
Qed.

(** An append adds the line to the log, whole and in one file. *)
Lemma logfile_append_spec answers now logline l :
  inv l → disk_ok answers →
  wp (append answers true now logline l) (λ l',
    inv l' ∧ log_text l' = log_text l ++ logline ∧ rollSize_ l' = rollSize_ l).
Proof.
  intros Hi Ha. pose proof Hi as [[f E] Hf Hc Hb]. pose proof (proj1 (Forall_files _ _ _ E) Hf) as [Hf1 [Hf2 Hf3]].
  unfold append. rewrite E. eapply wp_bind; [by apply file_append_spec|]. intros f' (Ec & En & Es & Ew).
  assert (inv (set_file (Some f') l)) as Hi'.
  { constructor; cbn; [done| |done..]. apply (proj2 (Forall_files file_ok (set_file (Some f') l) f' eq_refl)).
    cbn. split; [done|]. split.
    - rewrite Ew, Ec, length_app, Hf2. lia.
    - rewrite Es, Ec, length_app. lia. }
  assert (log_text (set_file (Some f') l) = log_text l ++ logline) as Ht.
  { rewrite (log_text_open l f E), (log_text_open _ f') by done. cbn. by rewrite Ec, app_assoc. }
  cbn [rollSize_ set_file]. destruct (Z.ltb_spec (rollSize_ l) (writtenBytes_ f')) as [Hr|Hr]; [|done].
  eapply wp_bind; [apply (rollFile_spec now _ f'); [done|done|]|].
  { cbn. rewrite Ec, length_app. lia. }
  intros [b l'] (Hi2 & Ht2 & Hr2 & _). cbn in *. split_and!; [done|by rewrite Ht2|done].
Qed.

(** ** Sequences of appends *)

Fixpoint appends (xs : list entry) (l : LogFile) : res LogFile :=
  match xs with
  | [] => Ok l
  | (answers, now, logline) :: xs => let! l := append answers true now logline l in appends xs l
  end.

(** The appended lines, each with the second it was appended in. *)
Definition stamped (xs : list entry) : list (Z * bytes) := map (λ x, (x.1.2, x.2)) xs.
Definition text_of (ls : list (Z * bytes)) : bytes := concat (map snd ls).

(** A file opened at [t] that holds [ls] is due for a change: it is too large, and its
    last line was appended in a later second than the one the file was opened in. *)
Definition due (rollSize t : Z) (ls : list (Z * bytes)) : Prop :=
  rollSize < zlen (text_of ls) ∧ from_option (λ e, t < e.1) False (last ls).

(** The lines after which a file is not closed. *)
Definition stays (rollSize t : Z) (ls : list (Z * bytes)) : Prop := ∀ p, p `prefix_of` ls → ¬ due rollSize t p.

(** The files of a log, the first opened at [t]: a file is closed exactly at the first
    line that makes it due, and the next one is opened in the second of that line. *)
Fixpoint rolled (rollSize t : Z) (fs : list (Z * list (Z * bytes))) : Prop :=
  match fs with
  | [] => False
  | [(t', ls)] => t' = t ∧ stays rollSize t ls
  | (t', ls) :: rest => t' = t ∧ ∃ q now x, ls = q ++ [(now, x)] ∧ stays rollSize t q ∧ due rollSize t ls ∧ rolled rollSize now rest
  end.

Lemma stays_nil rollSize t : stays rollSize t [].
Proof. intros p ->%prefix_nil_inv [_ H]. done. Qed.

Lemma stays_snoc rollSize t ls e : stays rollSize t ls → ¬ due rollSize t (ls ++ [e]) → stays rollSize t (ls ++ [e]).
Proof.
  intros Hs Hd p [q Hq]. destruct q as [|x q _] using rev_ind.
  - rewrite app_nil_r in Hq. by subst.
  - rewrite app_assoc in Hq. apply app_inj_tail in Hq as [-> _]. apply Hs. by apply prefix_app_r.
Qed.

Lemma text_of_snoc ls now x : text_of (ls ++ [(now, x)]) = text_of ls ++ x.
Proof. unfold text_of. rewrite map_app, concat_app. cbn. by rewrite app_nil_r. Qed.

(** The open file holds [ls] and was opened, with its name, at the last roll. *)
Record opens (l : LogFile) (ls : list (Z * bytes)) : Prop := {
  p_content : content <$> file_ l = Some (text_of ls);
  p_name : filename <$> file_ l = Some (getLogFileName (basename_ l) (lastRoll_ l));
  p_stays : stays (rollSize_ l) (lastRoll_ l) ls;
}.

(** One append: the open file grows by the line, and is closed exactly when it is due. *)
Lemma append_opens answers now logline l ls :
  inv l → disk_ok answers → opens l ls →
  wp (append answers true now logline l) (λ l', basename_ l' = basename_ l ∧ rollSize_ l' = rollSize_ l ∧
    let ls' := ls ++ [(now, logline)] in
    (opens l' ls' ∧ lastRoll_ l' = lastRoll_ l ∧ closed l' = closed l ∨
     due (rollSize_ l) (lastRoll_ l) ls' ∧ opens l' [] ∧ lastRoll_ l' = now ∧ ∃ f, closed l' = closed l ++ [f] ∧
       content f = text_of ls' ∧ filename f = getLogFileName (basename_ l) (lastRoll_ l))).
Proof.
  intros [[f E] Hf _ _] Ha [Hc Hn Hs]. apply (Forall_files _ _ _ E) in Hf as [_ [Hw _]]. unfold append. rewrite E in *.
  injection Hc as Hc. injection Hn as Hn.
  eapply wp_bind; [by apply file_append_spec|]. intros f' (Ec & En & _ & Ew). cbn [rollSize_ set_file].
  assert (content f' = text_of (ls ++ [(now, logline)])) as Ec' by by rewrite Ec, Hc, text_of_snoc.
  assert (zlen (content f') = writtenBytes_ f') as El by (rewrite Ew, Hw, Ec, length_app; lia).
  assert (due (rollSize_ l) (lastRoll_ l) (ls ++ [(now, logline)]) ↔ rollSize_ l < writtenBytes_ f' ∧ lastRoll_ l < now) as Hdue.
  { unfold due. rewrite last_snoc, <- Ec', El. done. }
  assert (¬ due (rollSize_ l) (lastRoll_ l) (ls ++ [(now, logline)]) → opens (set_file (Some f') l) (ls ++ [(now, logline)])) as Hstay.
  { intros H. constructor; cbn; [by rewrite Ec'|by rewrite En, Hn|by apply stays_snoc]. }
  destruct (Z.ltb_spec (rollSize_ l) (writtenBytes_ f')) as [Hr|Hr].
  - unfold rollFile. cbn [lastRoll_ set_file]. destruct (Z.ltb_spec (lastRoll_ l) now) as [Hl|Hl]; cbn.
    + split_and!; [done..|]. right. split_and!; [by apply Hdue| |done|].
      * constructor; [done|done|apply stays_nil].
      * exists (AppendFile_flush f'). cbn. by rewrite En.
    + split_and!; [done..|]. left. split_and!; [|done..]. apply Hstay. rewrite Hdue. lia.
  - cbn. split_and!; [done..|]. left. split_and!; [|done..]. apply Hstay. rewrite Hdue. lia.
Qed.

(** What the files show of their lines, and how they are called. *)
Definition contents_of (fs : list (Z * list (Z * bytes))) : list bytes := map (λ f, text_of f.2) fs.
Definition names_of (basename : bytes) (fs : list (Z * list (Z * bytes))) : list bytes := map (λ f, getLogFileName basename f.1) fs.

Lemma appends_rolled xs l ls :
  inv l → Forall (λ x, disk_ok x.1.1) xs → opens l ls →
  wp (appends xs l) (λ l', inv l' ∧ ∃ fs, rolled (rollSize_ l) (lastRoll_ l) fs ∧
    concat (map snd fs) = ls ++ stamped xs ∧
    map content (files l') = map content (closed l) ++ contents_of fs ∧
    map filename (files l') = map filename (closed l) ++ names_of (basename_ l) fs).
Proof.
  revert l ls. induction xs as [|[[answers now] logline] xs IH]; intros l ls Hi Hd Ho; cbn [appends].
  - cbn. split; [done|]. exists [(lastRoll_ l, ls)]. destruct Ho as [Hc Hn Hs]. destruct Hi as [[f E] _ _ _].
    rewrite E in *. injection Hc as Hc. injection Hn as Hn. unfold files. rewrite E, !map_app. cbn. by rewrite Hc, Hn.
  - apply Forall_cons in Hd as [Hd1 Hd2]. cbn in Hd1.
    eapply wp_bind; [apply wp_conj; [by apply logfile_append_spec|by apply append_opens]|].
    intros l' [(Hi' & _) (Hb & Hr & Hcase)]. cbv zeta in Hcase.
    destruct Hcase as [(Ho' & El & Ec)|(Hdue & Ho' & El & f & Ec & Hf & Hn)]; (eapply wp_mono; [by apply IH|]);
      intros l2 (Hi2 & fs & Hro & Hp & Hco & Hna); rewrite ?Hb, ?Hr, ?El, ?Ec in *; (split; [done|]).
    + exists fs. split_and!; [done| |done|done]. by rewrite Hp, <- app_assoc.
    + exists ((lastRoll_ l, ls ++ [(now, logline)]) :: fs). split_and!.
      * destruct fs as [|g fs]; [done|]. split; [done|]. exists ls, now, logline. split_and!; [done|apply Ho|done|done].
      * cbn. by rewrite Hp, <- app_assoc.
      * rewrite Hco, map_app, <- app_assoc. cbn. by rewrite Hf.
      * rewrite Hna, map_app, <- app_assoc. cbn. by rewrite Hn.
Qed.

Lemma new_LogFile_spec now1 now2 basename rollSize rollTime :
  0 < now1 → 0 ≤ rollSize →
  wp (new_LogFile true now1 now2 basename rollSize rollTime) (λ l,
    inv l ∧ rollSize_ l = rollSize ∧ lastRoll_ l = now1 ∧ log_text l = [] ∧ basename_ l = basename ∧ closed l = [] ∧
    opens l []).
Proof.
  intros Hn Hr. unfold new_LogFile, rollFile. cbn. rewrite (proj2 (Z.ltb_lt _ _)) by done. cbn. split_and!; try done.
  - constructor; cbn; [done| |constructor..]. unfold files. cbn. by repeat constructor.
  - constructor; [done|done|apply stays_nil].
Qed.

Lemma flush_names l : inv l → wp (flush l) (λ l', map filename (files l') = map filename (files l)).
Proof. intros [[f E] _ _ _]. unfold flush, files. rewrite E. cbn. by rewrite !map_app. Qed.

Lemma flush_spec l : inv l → wp (flush l) (λ l',
  inv l' ∧ closed l' = closed l ∧ content <$> file_ l' = content <$> file_ l ∧ rollSize_ l' = rollSize_ l ∧
  log_text l' = log_text l ∧ kept_text l' = log_text l').
Proof.
  intros [[f E] Hf Hc Hb]. apply (Forall_files _ _ _ E) in Hf as [Hf1 [Hf2 Hf3]]. unfold flush. rewrite E.
  cbn [wp]. split_and!; [|done..| |].
  - constructor; cbn; [done| |done..]. apply (proj2 (Forall_files file_ok (set_file (Some (AppendFile_flush f)) l) _ eq_refl)). done.
  - by rewrite (log_text_open l f E), (log_text_open _ (AppendFile_flush f)).
  - rewrite (log_text_open _ (AppendFile_flush f)), (kept_text_open _ (AppendFile_flush f)) by done. cbn. by rewrite firstn_all.
Qed.

(** C31. The log on disk, when every fopen(3) succeeds and the disk takes what it is given
    (in whatever pieces): after a flush the files hold exactly the appended lines, in
    order and no line split between two files.  A file is closed exactly at the first line
    that makes it larger than [rollSize] and was appended in a later second than the one
    the file was opened in; the next file is opened, and named, in the second of that
    line, so there is never more than one file for a second.  In particular lines that
    come in the same second go on into a file that is too large already. *)
Theorem logfile_holds_lines xs now1 now2 basename rollSize rollTime :
  0 < now1 → 0 ≤ rollSize → Forall (λ x, disk_ok x.1.1) xs →
  wp (let! l := new_LogFile true now1 now2 basename rollSize rollTime in let! l := appends xs l in flush l) (λ l,
    ∃ fs, rolled rollSize now1 fs ∧ concat (map snd fs) = stamped xs ∧
      map content (files l) = contents_of fs ∧ map filename (files l) = names_of basename fs ∧
      kept_text l = text_of (stamped xs)).
Proof.
  intros Hn Hr Hd. eapply wp_bind; [by apply new_LogFile_spec|]. intros l (Hi & El & En & _ & Eb & Ec & Ho).
  eapply wp_bind; [by apply appends_rolled|].
  intros l' (Hi' & fs & Hro & Hp & Hco & Hna). rewrite El, En, Eb, Ec in *. cbn [map app] in *.
  eapply wp_mono; [apply wp_conj; [by apply flush_spec|by apply flush_names]|].
  intros l2 [(_ & Ec2 & Eo2 & _ & Et & Ek) Hna2]. exists fs.
  assert (map content (files l2) = map content (files l')) as Hco2.
  { unfold files. rewrite !map_app, Ec2. destruct (file_ l2), (file_ l'); cbn in Eo2; simplify_eq; cbn; congruence. }
  split_and!; [done|done|by rewrite Hco2|by rewrite Hna2|].
  rewrite Ek, Et. unfold log_text. rewrite Hco, <- Hp. unfold contents_of, text_of. clear. induction fs as [|f fs IH]; [done|].
  cbn. by rewrite map_app, concat_app, IH.
Qed.

(** The seconds of the files increase, so a log has no two files of one name as long as
    the names of different seconds differ. *)
Lemma rolled_increasing rollSize t fs : rolled rollSize t fs → StronglySorted Z.lt (map fst fs) ∧ head (map fst fs) = Some t.
Proof.
  revert t. induction fs as [|[t' ls] fs IH]; intros t H; [done|]. destruct fs as [|g fs].
  - destruct H as [-> _]. split; [by repeat constructor|done].
  - destruct H as (-> & q & now & x & -> & _ & [_ Hlt] & H). destruct (IH now H) as [Hs Hh]. split; [|done].
    rewrite last_snoc in Hlt. cbn in Hlt. cbn [map fst] in *. constructor; [done|]. cbn in Hh. injection Hh as Hh.
    constructor; [lia|]. apply StronglySorted_inv in Hs as [_ Hall]. eapply Forall_impl; [exact Hall|]. intros y Hy. cbn in Hy. lia.
Qed.

End Host.

(** The timer of the first roll: for a time of day it fires at that time of day. *)
Lemma first_roll_on_time rollTime now :
  0 ≤ rollTime < kRollPerSeconds_ → 0 ≤ now →
  0 ≤ first_roll rollTime now < kRollPerSeconds_ ∧ (now + first_roll rollTime now) mod kRollPerSeconds_ = rollTime.
Proof.
  unfold first_roll. change kRollPerSeconds_ with 86400. intros Hr Hn. rewrite Z.rem_mod_nonneg by lia.
  pose proof (Z.mod_pos_bound now 86400 ltac:(lia)). pose proof (Z.div_mod now 86400 ltac:(lia)).
  destruct (Z.ltb_spec (rollTime - now mod 86400) 0); (split; [lia|]); symmetry; [apply (Z.mod_unique _ _ (now / 86400 + 1))|apply (Z.mod_unique _ _ (now / 86400))]; lia.
Qed.

(** [AsyncLogging] passes the time of day less the time zone, which can be negative: at
    nine in the evening UTC, for midnight at UTC+8, the delay is negative. *)
Example first_roll_negative : first_roll (0 - 8 * 3600) (21 * 3600) = - 18000.
Proof. by vm_compute. Qed.

Definition demo_tm (s : Z) : tm := mkTm (s mod 60) 0 0 1 0 120 3 0 0 0 [].
(** The second file is too large when [yz] arrives, but it was opened in that second. *)
Definition demo_entries : list entry :=
  [([2; 1], 11, str "one two "); ([], 11, str "xyz"); ([3], 13, str "three four")].

Lemma logfile_holds_lines_witness :
  Forall (λ x, disk_ok x.1.1) demo_entries ∧
  wp (let! l := new_LogFile demo_tm (str "host") 7 true 10 10 (str "log") 4 0 in
      let! l := appends demo_tm (str "host") 7 demo_entries l in flush l)
     (λ l, kept_text l = str "one two xyzthree four" ∧ map content (files l) = [str "one two "; str "xyzthree four"; []]).
Proof.
  assert (Forall (λ x, disk_ok x.1.1) demo_entries) as Hd by repeat constructor.
  split; [done|]. pose proof (logfile_holds_lines demo_tm (str "host") 7 demo_entries 10 10 (str "log") 4 0 ltac:(lia) ltac:(lia) Hd) as H.
  eapply wp_mono; [apply (wp_conj _ _ (λ l, map content (files l) = [str "one two "; str "xyzthree four"; []]) H); by vm_compute|].
  intros l [(fs & _ & _ & _ & _ & E) Ec]. split; [exact E|exact Ec].
Defined.

End LogFile.
