(* ===== verification/Units.v ===== *)
(** Numbers with unit letters ([formatSI] and [formatIEC] of [base/log/LogStream.cpp]), on
    the doubles of [Doubles]. *)

From S2P Require Import Prelude Date Doubles.

Module Units.

Import Doubles.

(** Texts are shorter than [buf], at most twenty characters and a sign. *)
Definition formatSI (s : Z) : bytes :=
  let n := of_int s in
  if s <? 1000 then dec s
  else if s <? 9995 then fixed 2 (div n (literal 1000 1)) ++ str "k"
  else if s <? 99950 then fixed 1 (div n (literal 1000 1)) ++ str "k"
  else if s <? 999500 then fixed 0 (div n (literal 1000 1)) ++ str "k"
  else if s <? 9995000 then fixed 2 (div n (literal 1000000 1)) ++ str "M"
  else if s <? 99950000 then fixed 1 (div n (literal 1000000 1)) ++ str "M"
  else if s <? 999500000 then fixed 0 (div n (literal 1000000 1)) ++ str "M"
  else if s <? 9995000000 then fixed 2 (div n (literal 1000000000 1)) ++ str "G"
  else if s <? 99950000000 then fixed 1 (div n (literal 1000000000 1)) ++ str "G"
  else if s <? 999500000000 then fixed 0 (div n (literal 1000000000 1)) ++ str "G"
  else if s <? 9995000000000 then fixed 2 (div n (literal 1000000000000 1)) ++ str "T"
  else if s <? 99950000000000 then fixed 1 (div n (literal 1000000000000 1)) ++ str "T"
  else if s <? 999500000000000 then fixed 0 (div n (literal 1000000000000 1)) ++ str "T"
  else if s <? 9995000000000000 then fixed 2 (div n (literal 1000000000000000 1)) ++ str "P"
  else if s <? 99950000000000000 then fixed 1 (div n (literal 1000000000000000 1)) ++ str "P"
  else if s <? 999500000000000000 then fixed 0 (div n (literal 1000000000000000 1)) ++ str "P"
  else fixed 2 (div n (literal 1000000000000000000 1)) ++ str "E".

Definition Ki : Z := literal 1024 1.
Definition Mi : Z := mul Ki (literal 1024 1).
Definition Gi : Z := mul Mi (literal 1024 1).
Definition Ti : Z := mul Gi (literal 1024 1).
Definition Pi : Z := mul Ti (literal 1024 1).
Definition Ei : Z := mul Pi (literal 1024 1).

Definition formatIEC (s : Z) : bytes :=
  let n := of_int s in
  if n <? Ki then dec s
  else if n <? mul Ki (literal 9995 1000) then fixed 2 (div n Ki) ++ str "Ki"
  else if n <? mul Ki (literal 9995 100) then fixed 1 (div n Ki) ++ str "Ki"
  else if n <? mul Ki (literal 10235 10) then fixed 0 (div n Ki) ++ str "Ki"
  else if n <? mul Mi (literal 9995 1000) then fixed 2 (div n Mi) ++ str "Mi"
  else if n <? mul Mi (literal 9995 100) then fixed 1 (div n Mi) ++ str "Mi"
  else if n <? mul Mi (literal 10235 10) then fixed 0 (div n Mi) ++ str "Mi"
  else if n <? mul Gi (literal 9995 1000) then fixed 2 (div n Gi) ++ str "Gi"
  else if n <? mul Gi (literal 9995 100) then fixed 1 (div n Gi) ++ str "Gi"
  else if n <? mul Gi (literal 10235 10) then fixed 0 (div n Gi) ++ str "Gi"
  else if n <? mul Ti (literal 9995 1000) then fixed 2 (div n Ti) ++ str "Ti"
  else if n <? mul Ti (literal 9995 100) then fixed 1 (div n Ti) ++ str "Ti"
  else if n <? mul Ti (literal 10235 10) then fixed 0 (div n Ti) ++ str "Ti"
  else if n <? mul Pi (literal 9995 1000) then fixed 2 (div n Pi) ++ str "Pi"
  else if n <? mul Pi (literal 9995 100) then fixed 1 (div n Pi) ++ str "Pi"
  else if n <? mul Pi (literal 10235 10) then fixed 0 (div n Pi) ++ str "Pi"
  else if n <? mul Ei (literal 9995 1000) then fixed 2 (div n Ei) ++ str "Ei"
  else fixed 1 (div n Ei) ++ str "Ei".

(** What a text with [k] decimals shows. *)
Definition text_of (k : nat) (n : Z) : bytes :=
  match k with O => udec 20 n | _ => udec 20 (n / 10 ^ Z.of_nat k) ++ str "." ++ Date.zpad k (n mod 10 ^ Z.of_nat k) end.

Lemma fixed_text k x : fixed k x = text_of k (scaled (Z.of_nat k) x).
Proof. by destruct k. Qed.

(** [s] is shown as [n] units of [d / 10^k], three digits, rounded correctly up to the
    rounding of the doubles on the way. *)
Record shown (s : Z) (k : nat) (d n : Z) : Prop := {
  w_near : 2 ^ 53 * (2 * Z.abs (n * d - s * 10 ^ Z.of_nat k) - d) ≤ 6 * (s * 10 ^ Z.of_nat k);
  w_digits : 100 ≤ n;
}.

Lemma near_quotient s k d :
  1 ≤ s → 0 < d ≤ 2 ^ 70 →
  2 ^ 53 * (2 * Z.abs (scaled (Z.of_nat k) (div (of_int s) (d * unit)) * d - s * 10 ^ Z.of_nat k) - d) ≤ 6 * (s * 10 ^ Z.of_nat k).
Proof.
  intros Hs Hd. pose proof unit_pos. assert (0 < 10 ^ Z.of_nat k) as Hk by (apply Z.pow_pos_nonneg; lia).
  pose proof (of_int_error s Hs) as E1. assert (unit ≤ of_int s) as Hu by (transitivity (of_int 1); [by vm_compute|apply of_int_mono; lia]).
  pose proof (div_error (of_int s) d (conj Hd Hu)) as E2. pose proof (scaled_error (Z.of_nat k) (div (of_int s) (d * unit))) as E3.
  set (n := scaled _ _) in *. set (v := div _ _) in *. set (x := of_int s) in *. set (w := 10 ^ Z.of_nat k) in *.
  assert (x ≤ 2 * (s * unit)) as Hx by lia.
  assert (unit * (n * d - s * w) = d * (unit * n - v * w) + w * (d * v - x) + w * (x - s * unit)) as E by ring.
  assert (unit * Z.abs (n * d - s * w) ≤ d * Z.abs (unit * n - v * w) + w * Z.abs (d * v - x) + w * Z.abs (x - s * unit)) as T.
  { assert (∀ a b, 0 ≤ a → a * Z.abs b = Z.abs (a * b)) as M by (intros; rewrite Z.abs_mul, (Z.abs_eq a); done).
    rewrite !M, E by lia. lia. }
  apply (Z.mul_le_mono_pos_l _ _ unit); [done|].
  assert (2 * (d * Z.abs (unit * n - v * w)) ≤ d * unit) by nia.
  assert (2 ^ 53 * (w * Z.abs (d * v - x)) ≤ w * (2 * (s * unit))) by nia.
  assert (2 ^ 53 * (w * Z.abs (x - s * unit)) ≤ w * (s * unit)) by nia.
  nia.
Qed.


#[local] Opaque Doubles.unit.

Lemma unit_le_of_int s : 1 ≤ s → Doubles.unit ≤ of_int s.
Proof. intros Hs. transitivity (of_int 1); [by vm_compute|apply of_int_mono; lia]. Qed.

Lemma quotient_mono k x y d :
  0 < d ≤ 2 ^ 70 → Doubles.unit ≤ x → x ≤ y →
  scaled (Z.of_nat k) (div x (d * Doubles.unit)) ≤ scaled (Z.of_nat k) (div y (d * Doubles.unit)).
Proof. intros Hd Hx Hy. apply scaled_mono; [lia|]. by apply div_mono. Qed.

(** The texts have three digits, or four if they show 1000 and more. *)
Lemma text_length k n :
  (k ≤ 2)%nat → 100 ≤ n ≤ 1023 →
  length (text_of k n) = ((if decide (n ≤ 999)%Z then 3 else 4) + (if decide (k = 0%nat) then 0 else 1))%nat.
Proof.
  intros Hk Hn.
  assert (forallb (λ k, forallb (λ m, bool_decide (length (text_of k (100 + Z.of_nat m)) =
    ((if decide (100 + Z.of_nat m ≤ 999)%Z then 3 else 4) + (if decide (k = 0%nat) then 0 else 1))%nat)) (seq 0 924)) (seq 0 3) = true)
    as H by (by vm_compute).
  rewrite forallb_forall in H. specialize (H k ltac:(apply in_seq; lia)). rewrite forallb_forall in H.
  specialize (H (Z.to_nat (n - 100)) ltac:(apply in_seq; lia)). apply bool_decide_eq_true in H.
  rewrite Z2Nat.id in H by lia. by replace (100 + (n - 100)) with n in H by ring.
Qed.

Record si_unit := mkUnit { u_letter : bytes; u_size : Z }.

Definition si_units : list si_unit :=
  [mkUnit (str "k") (10 ^ 3); mkUnit (str "M") (10 ^ 6); mkUnit (str "G") (10 ^ 9); mkUnit (str "T") (10 ^ 12);
   mkUnit (str "P") (10 ^ 15); mkUnit (str "E") (10 ^ 18)].

Definition iec_units : list si_unit :=
  [mkUnit (str "Ki") (2 ^ 10); mkUnit (str "Mi") (2 ^ 20); mkUnit (str "Gi") (2 ^ 30); mkUnit (str "Ti") (2 ^ 40);
   mkUnit (str "Pi") (2 ^ 50); mkUnit (str "Ei") (2 ^ 60)].

(** The text shows [s] in one of the units, with at most [most] in three digits. *)
Definition shows (units : list si_unit) (most : Z) (s : Z) (t : bytes) : Prop :=
  ∃ k u n, (k ≤ 2)%nat ∧ u ∈ units ∧ t = text_of k n ++ u_letter u ∧ shown s k (u_size u) n ∧ n ≤ most ∧ (k ≠ 0%nat → n ≤ 999).

(** The rows a number can be shown in, from the finest: the decimals and the unit.  A row
    fits when the number, correctly rounded, has three digits in it. *)
Definition si_rows : list (nat * si_unit) := flat_map (λ u, [(2%nat, u); (1%nat, u); (0%nat, u)]) si_units.
Definition row_fits (s : Z) (r : nat * si_unit) : bool := 2 * s * 10 ^ Z.of_nat r.1 <? 1999 * u_size r.2.
Definition si_row_of (s : Z) : option (nat * si_unit) := find (row_fits s) si_rows.

(** The text shows [s] in three digits in the finest row that it fits. *)
Definition si_shows (s : Z) (t : bytes) : Prop :=
  ∃ k u n, si_row_of s = Some (k, u) ∧ t = text_of k n ++ u_letter u ∧ shown s k (u_size u) n ∧ n ≤ 999.

(** A row of [formatSI]. *)
Lemma si_row k u c low high s :
  (k ≤ 2)%nat → u ∈ si_units → literal c 1 = u_size u * Doubles.unit → 0 < u_size u ≤ 2 ^ 70 → 1 ≤ low ≤ s → s ≤ high →
  100 <=? scaled (Z.of_nat k) (div (of_int low) (u_size u * Doubles.unit)) = true →
  scaled (Z.of_nat k) (div (of_int high) (u_size u * Doubles.unit)) <=? 999 = true →
  si_row_of s = Some (k, u) →
  si_shows s (fixed k (div (of_int s) (literal c 1)) ++ u_letter u).
Proof.
  intros Hk Hu Hc Hd Hlow Hhigh Hlo Hhi Hr. apply Z.leb_le in Hlo, Hhi. rewrite Hc, fixed_text.
  set (n := scaled (Z.of_nat k) (div (of_int s) (u_size u * Doubles.unit))).
  assert (100 ≤ n ≤ 999) as Hn.
  { split.
    - etransitivity; [exact Hlo|]. apply quotient_mono; [done|apply unit_le_of_int; lia|apply of_int_mono; lia].
    - etransitivity; [|exact Hhi]. apply quotient_mono; [done|apply unit_le_of_int; lia|apply of_int_mono; lia]. }
  exists k, u, n. split_and!; [done|done| |lia]. split; [apply near_quotient; lia|lia].
Qed.

Lemma si_row_in s k u : si_row_of s = Some (k, u) → (k ≤ 2)%nat ∧ length (u_letter u) = 1%nat.
Proof.
  intros H. apply find_some in H as [H _]. unfold si_rows, si_units in H. cbn in H.
  repeat (destruct H as [[= <- <-]|H]; [split; [lia|done]|]). done.
Qed.

Ltac find_row :=
  unfold si_row_of, si_rows, si_units, row_fits; cbn [flat_map app find fst snd u_size];
  repeat match goal with |- context [?a <? ?b] => destruct (Z.ltb_spec a b); [first [reflexivity | lia]|first [lia | idtac]] end.

Ltac si_row k u c low high :=
  apply (si_row k u c low high); [lia|repeat constructor|by vm_compute|cbn; lia|lia|lia|by vm_compute|by vm_compute|find_row].

(** The end of the P row: the conversion to double and the division round up. *)
Lemma end_of_P s : 999499999999999936 ≤ s < 999500000000000000 → formatSI s = str "1000P".
Proof.
  intros Hs. unfold formatSI.
  repeat match goal with |- context [s <? ?b] => destruct (Z.ltb_spec s b); first [lia | idtac] end.
  assert (literal 1000000000000000 1 = 10 ^ 15 * Doubles.unit) as -> by by vm_compute. rewrite fixed_text.
  assert (scaled (Z.of_nat 0) (div (of_int 999499999999999936) (10 ^ 15 * Doubles.unit)) = 1000) as E1 by by vm_compute.
  assert (scaled (Z.of_nat 0) (div (of_int 999499999999999999) (10 ^ 15 * Doubles.unit)) = 1000) as E2 by by vm_compute.
  pose proof (quotient_mono 0 (of_int 999499999999999936) (of_int s) (10 ^ 15) ltac:(lia) ltac:(by apply unit_le_of_int)
    ltac:(apply of_int_mono; lia)) as HA.
  pose proof (quotient_mono 0 (of_int s) (of_int 999499999999999999) (10 ^ 15) ltac:(lia) ltac:(apply unit_le_of_int; lia)
    ltac:(apply of_int_mono; lia)) as HB.
  rewrite E1 in HA. rewrite E2 in HB. clear E1 E2. set (n := scaled _ _) in *. assert (n = 1000) as -> by lia.
  by vm_compute.
Qed.

Lemma formatSI_rows s :
  1000 ≤ s < 2 ^ 63 → ¬ (99949999999999992 ≤ s < 99950000000000000) → ¬ (999499999999999936 ≤ s < 999500000000000000) →
  si_shows s (formatSI s).
Proof.
  intros Hs Hw Hw2. unfold formatSI. destruct (Z.ltb_spec s 1000); [lia|].
  destruct (Z.ltb_spec s 9995); [si_row 2%nat (mkUnit (str "k") (10 ^ 3)) 1000 1000 9994|].
  destruct (Z.ltb_spec s 99950); [si_row 1%nat (mkUnit (str "k") (10 ^ 3)) 1000 9995 99949|].
  destruct (Z.ltb_spec s 999500); [si_row 0%nat (mkUnit (str "k") (10 ^ 3)) 1000 99950 999499|].
  destruct (Z.ltb_spec s 9995000); [si_row 2%nat (mkUnit (str "M") (10 ^ 6)) 1000000 999500 9994999|].
  destruct (Z.ltb_spec s 99950000); [si_row 1%nat (mkUnit (str "M") (10 ^ 6)) 1000000 9995000 99949999|].
  destruct (Z.ltb_spec s 999500000); [si_row 0%nat (mkUnit (str "M") (10 ^ 6)) 1000000 99950000 999499999|].
  destruct (Z.ltb_spec s 9995000000); [si_row 2%nat (mkUnit (str "G") (10 ^ 9)) 1000000000 999500000 9994999999|].
  destruct (Z.ltb_spec s 99950000000); [si_row 1%nat (mkUnit (str "G") (10 ^ 9)) 1000000000 9995000000 99949999999|].
  destruct (Z.ltb_spec s 999500000000); [si_row 0%nat (mkUnit (str "G") (10 ^ 9)) 1000000000 99950000000 999499999999|].
  destruct (Z.ltb_spec s 9995000000000); [si_row 2%nat (mkUnit (str "T") (10 ^ 12)) 1000000000000 999500000000 9994999999999|].
  destruct (Z.ltb_spec s 99950000000000); [si_row 1%nat (mkUnit (str "T") (10 ^ 12)) 1000000000000 9995000000000 99949999999999|].
  destruct (Z.ltb_spec s 999500000000000); [si_row 0%nat (mkUnit (str "T") (10 ^ 12)) 1000000000000 99950000000000 999499999999999|].
  destruct (Z.ltb_spec s 9995000000000000); [si_row 2%nat (mkUnit (str "P") (10 ^ 15)) 1000000000000000 999500000000000 9994999999999999|].
  destruct (Z.ltb_spec s 99950000000000000); [si_row 1%nat (mkUnit (str "P") (10 ^ 15)) 1000000000000000 9995000000000000 99949999999999991|].
  destruct (Z.ltb_spec s 999500000000000000); [si_row 0%nat (mkUnit (str "P") (10 ^ 15)) 1000000000000000 99950000000000000 999499999999999935|].
  si_row 2%nat (mkUnit (str "E") (10 ^ 18)) 1000000000000000000 999500000000000000 (2 ^ 63 - 1).
Qed.

(** C35. [formatSI] of a non-negative number: below 1000 the number itself; from 1000 on
    three digits and a unit letter, in the finest row (of two, one or no decimals of k, M,
    G, T, P, E) in which the rounded number has three digits, and correctly rounded there
    up to the rounding of the two doubles on the way; so at most five characters.  There
    are two ranges of exceptions, where the conversion to double and the division round
    into the next row: eight numbers are shown as [100.0P] and sixty-four as [1000P]. *)
Theorem formatSI_shows s :
  0 ≤ s < 2 ^ 63 →
  if decide (99949999999999992 ≤ s < 99950000000000000) then formatSI s = str "100.0P"
  else if decide (999499999999999936 ≤ s < 999500000000000000) then formatSI s = str "1000P"
  else (length (formatSI s) ≤ 5)%nat ∧ (s < 1000 → formatSI s = dec s) ∧ (1000 ≤ s → si_shows s (formatSI s)).
Proof.
  intros Hs. case_decide as Hw.
  { assert (s = 99949999999999992 ∨ s = 99949999999999993 ∨ s = 99949999999999994 ∨ s = 99949999999999995 ∨
      s = 99949999999999996 ∨ s = 99949999999999997 ∨ s = 99949999999999998 ∨ s = 99949999999999999) as Hc by lia.
    clear Hs Hw. by repeat (destruct Hc as [->|Hc]; [by vm_compute|]); subst. }
  case_decide as Hw2; [by apply end_of_P|].
  assert (1000 ≤ s → si_shows s (formatSI s)) as H by (intros; apply formatSI_rows; [lia|done|done]).
  split_and!; [| |done].
  - destruct (Z.lt_ge_cases s 1000) as [Hl|Hl].
    + unfold formatSI. destruct (Z.ltb_spec s 1000); [|lia]. unfold dec. destruct (Z.ltb_spec s 0); [lia|].
      pose proof (length_udec 20 s 3 ltac:(lia) ltac:(lia)). lia.
    + destruct (H Hl) as (k & u & n & Hr & -> & [_ Hlo] & Hhi). apply si_row_in in Hr as [Hk Hu].
      rewrite length_app, text_length, Hu by lia. repeat case_decide; lia.
  - intros Hl. unfold formatSI. by destruct (Z.ltb_spec s 1000); [|lia].
Qed.

(** A row of [formatIEC]; [j]: the last binade of the row starts at 2^j. *)
Lemma iec_row k u D most low high j s :
  (k ≤ 2)%nat → u ∈ iec_units → D = u_size u * Doubles.unit → 0 < u_size u ≤ 2 ^ 70 → 1 ≤ s → 0 ≤ j →
  low ≤ of_int s → of_int s < high → (Doubles.unit <=? low) = true →
  high mod 2 ^ (148 + j) =? 0 = true → (Doubles.unit <=? high - 2 ^ (148 + j)) = true →
  100 <=? scaled (Z.of_nat k) (div low D) = true →
  Z.max (scaled (Z.of_nat k) (div (2 ^ j * Doubles.unit) D)) (scaled (Z.of_nat k) (div (high - 2 ^ (148 + j)) D))
    <=? (if decide (k = 0%nat) then most else 999) = true → 999 ≤ most →
  shows iec_units most s (fixed k (div (of_int s) D) ++ u_letter u).
Proof.
  intros Hk Hu -> Hd Hs Hj Hlow Hhigh Hul Hgrid Hlast Hlo Hhi Hm. apply Z.leb_le in Hul, Hlo, Hhi, Hlast. apply Z.eqb_eq in Hgrid.
  rewrite fixed_text. set (n := scaled (Z.of_nat k) (div (of_int s) (u_size u * Doubles.unit))).
  assert (Doubles.unit ≤ of_int s) as Hun by lia. pose proof unit_pos.
  assert (100 ≤ n ≤ if decide (k = 0%nat) then most else 999) as Hn.
  { split; [etransitivity; [exact Hlo|]; by apply quotient_mono|].
    etransitivity; [|exact Hhi]. destruct (Z.le_gt_cases (2 ^ j * Doubles.unit) (of_int s)) as [Hb|Hb].
    - etransitivity; [|apply Z.le_max_r]. apply quotient_mono; [done..|].
      destruct (of_int_grid s j Hs Hj Hb) as [a Ha]. assert (0 < 2 ^ (148 + j)) as Hp by (apply Z.pow_pos_nonneg; lia).
      apply Z.mod_divide in Hgrid as [b Hb']; [|lia].
      assert (a < b) by (apply (Z.mul_lt_mono_pos_r (2 ^ (148 + j))); [done|lia]). rewrite Ha, Hb'. nia.
    - etransitivity; [|apply Z.le_max_l]. apply quotient_mono; [done..|lia]. }
  exists k, u, n. split_and!; try done.
  - split; [apply near_quotient; lia|lia].
  - case_decide; lia.
  - intros Hk0. rewrite decide_False in Hn by done. lia.
Qed.

Ltac iec_row k u D low high j :=
  apply (iec_row k u D 1023 low high j);
    [lia|repeat constructor|by vm_compute|cbn; lia|lia|lia|done|done|by vm_compute|by vm_compute|by vm_compute|by vm_compute|by vm_compute|lia].

(** [formatIEC] shows every non-negative number in at most six characters: below 1024
    itself, else three digits, or up to 1023 without decimals, and a unit, correctly
    rounded. *)
Theorem formatIEC_shows s :
  0 ≤ s < 2 ^ 63 →
  (length (formatIEC s) ≤ 6)%nat ∧ (s < 1024 → formatIEC s = dec s) ∧ (1024 ≤ s → shows iec_units 1023 s (formatIEC s)).
Proof.
  intros Hs. assert (s < 1024 → of_int s < Ki) as Hsmall.
  { intros Hl. destruct (Z.eq_dec s 0) as [->|]; [by vm_compute|].
    apply (Z.le_lt_trans _ (of_int 1023)); [apply of_int_mono; lia|by vm_compute]. }
  assert (1024 ≤ s → Ki ≤ of_int s) as Hbig by (intros Hl; apply (of_int_mono 1024 s); lia).
  assert (1024 ≤ s → shows iec_units 1023 s (formatIEC s)) as H.
  { intros Hl. specialize (Hbig Hl). unfold formatIEC. destruct (Z.ltb_spec (of_int s) Ki); [lia|].
    destruct (Z.ltb_spec (of_int s) (mul Ki (literal 9995 1000))); [iec_row 2%nat (mkUnit (str "Ki") (2 ^ 10)) Ki Ki (mul Ki (literal 9995 1000)) 13|].
    destruct (Z.ltb_spec (of_int s) (mul Ki (literal 9995 100))); [iec_row 1%nat (mkUnit (str "Ki") (2 ^ 10)) Ki (mul Ki (literal 9995 1000)) (mul Ki (literal 9995 100)) 16|].
    destruct (Z.ltb_spec (of_int s) (mul Ki (literal 10235 10))); [iec_row 0%nat (mkUnit (str "Ki") (2 ^ 10)) Ki (mul Ki (literal 9995 100)) (mul Ki (literal 10235 10)) 19|].
    destruct (Z.ltb_spec (of_int s) (mul Mi (literal 9995 1000))); [iec_row 2%nat (mkUnit (str "Mi") (2 ^ 20)) Mi (mul Ki (literal 10235 10)) (mul Mi (literal 9995 1000)) 23|].
    destruct (Z.ltb_spec (of_int s) (mul Mi (literal 9995 100))); [iec_row 1%nat (mkUnit (str "Mi") (2 ^ 20)) Mi (mul Mi (literal 9995 1000)) (mul Mi (literal 9995 100)) 26|].
    destruct (Z.ltb_spec (of_int s) (mul Mi (literal 10235 10))); [iec_row 0%nat (mkUnit (str "Mi") (2 ^ 20)) Mi (mul Mi (literal 9995 100)) (mul Mi (literal 10235 10)) 29|].
    destruct (Z.ltb_spec (of_int s) (mul Gi (literal 9995 1000))); [iec_row 2%nat (mkUnit (str "Gi") (2 ^ 30)) Gi (mul Mi (literal 10235 10)) (mul Gi (literal 9995 1000)) 33|].
    destruct (Z.ltb_spec (of_int s) (mul Gi (literal 9995 100))); [iec_row 1%nat (mkUnit (str "Gi") (2 ^ 30)) Gi (mul Gi (literal 9995 1000)) (mul Gi (literal 9995 100)) 36|].
    destruct (Z.ltb_spec (of_int s) (mul Gi (literal 10235 10))); [iec_row 0%nat (mkUnit (str "Gi") (2 ^ 30)) Gi (mul Gi (literal 9995 100)) (mul Gi (literal 10235 10)) 39|].
    destruct (Z.ltb_spec (of_int s) (mul Ti (literal 9995 1000))); [iec_row 2%nat (mkUnit (str "Ti") (2 ^ 40)) Ti (mul Gi (literal 10235 10)) (mul Ti (literal 9995 1000)) 43|].
    destruct (Z.ltb_spec (of_int s) (mul Ti (literal 9995 100))); [iec_row 1%nat (mkUnit (str "Ti") (2 ^ 40)) Ti (mul Ti (literal 9995 1000)) (mul Ti (literal 9995 100)) 46|].
    destruct (Z.ltb_spec (of_int s) (mul Ti (literal 10235 10))); [iec_row 0%nat (mkUnit (str "Ti") (2 ^ 40)) Ti (mul Ti (literal 9995 100)) (mul Ti (literal 10235 10)) 49|].
    destruct (Z.ltb_spec (of_int s) (mul Pi (literal 9995 1000))); [iec_row 2%nat (mkUnit (str "Pi") (2 ^ 50)) Pi (mul Ti (literal 10235 10)) (mul Pi (literal 9995 1000)) 53|].
    destruct (Z.ltb_spec (of_int s) (mul Pi (literal 9995 100))); [iec_row 1%nat (mkUnit (str "Pi") (2 ^ 50)) Pi (mul Pi (literal 9995 1000)) (mul Pi (literal 9995 100)) 56|].
    destruct (Z.ltb_spec (of_int s) (mul Pi (literal 10235 10))); [iec_row 0%nat (mkUnit (str "Pi") (2 ^ 50)) Pi (mul Pi (literal 9995 100)) (mul Pi (literal 10235 10)) 59|].
    destruct (Z.ltb_spec (of_int s) (mul Ei (literal 9995 1000))); [iec_row 2%nat (mkUnit (str "Ei") (2 ^ 60)) Ei (mul Pi (literal 10235 10)) (mul Ei (literal 9995 1000)) 63|].
    exfalso. assert (of_int s ≤ of_int (2 ^ 63)) as Hmax by (apply of_int_mono; lia).
    assert (of_int (2 ^ 63) < mul Ei (literal 9995 1000)) by (by vm_compute). lia. }
  split_and!; [| |done].
  - destruct (Z.lt_ge_cases s 1024) as [Hl|Hl].
    + unfold formatIEC. destruct (Z.ltb_spec (of_int s) Ki); [|specialize (Hsmall Hl); lia]. unfold dec. destruct (Z.ltb_spec s 0); [lia|].
      pose proof (length_udec 20 s 4 ltac:(lia) ltac:(lia)). lia.
    + destruct (H Hl) as (k & u & n & Hk & Hu & -> & [_ Hlo] & Hhi & Hthree). rewrite length_app, text_length by lia.
      assert (length (u_letter u) = 2%nat) as -> by (unfold iec_units in Hu; repeat (apply elem_of_cons in Hu as [->|Hu]; [done|]); by apply elem_of_nil in Hu).
      repeat case_decide; lia.
  - intros Hl. unfold formatIEC. specialize (Hsmall Hl). by destruct (Z.ltb_spec (of_int s) Ki); [|lia].
Qed.

(** A witness for each. *)
Lemma formatSI_shows_witness :
  formatSI 99949999999999995 = str "100.0P" ∧ formatSI 999499999999999999 = str "1000P" ∧
  si_shows 999499 (formatSI 999499) ∧ si_row_of 999499 = Some (0%nat, mkUnit (str "k") (10 ^ 3)).
Proof.
  split_and!; [exact (formatSI_shows 99949999999999995 ltac:(lia))|exact (formatSI_shows 999499999999999999 ltac:(lia))| |by vm_compute].
  destruct (formatSI_shows 999499 ltac:(lia)) as (_ & _ & H). apply H. lia.
Defined.

Lemma formatIEC_shows_witness : (length (formatIEC 1048051) ≤ 6)%nat.
Proof. destruct (formatIEC_shows 1048051 ltac:(lia)) as [H _]. exact H. Defined.

(** The table above [formatSI] says [999P] for the end of its row: up to here it is true. *)
Lemma last_of_row : formatSI 999499999999999935 = str "999P".
Proof. by vm_compute. Qed.

(** Negative numbers are not abbreviated. *)
Lemma negative_plain s : s < 0 → formatSI s = dec s.
Proof. intros Hs. unfold formatSI. by destruct (Z.ltb_spec s 1000); [|lia]. Qed.

Lemma si_examples :
  map formatSI [999; 1000; 9994; 9995; 99949; 123456789; 2 ^ 63 - 1] =
  map str ["999"; "1.00k"; "9.99k"; "10.0k"; "99.9k"; "123M"; "9.22E"]%string.
Proof. by vm_compute. Qed.

Lemma iec_examples :
  map formatIEC [1023; 1024; 10234; 10235; 102348; 102349; 1048063; 1048064; 2 ^ 63 - 1] =
  map str ["1023"; "1.00Ki"; "9.99Ki"; "10.0Ki"; "99.9Ki"; "100Ki"; "1023Ki"; "1.00Mi"; "8.00Ei"]%string.
Proof. by vm_compute. Qed.

End Units.
