(* ===== verification/Logging.v ===== *)
(** The logger's front end ([base/log/Logging.h], [Logging.cpp], [base/thread/CurrentThread.h]):
    a statement [LOG_X << a << b] builds a [Logger] whose stream gets the time, the thread,
    the level and then [a] and [b]; its destructor adds the source position and hands the
    line to the output function.

    The time's text is cached per thread for the length of a second. *)

From S2P Require Import Prelude Date Timestamp TimeZone LogStream.

Module Logging.
Import Date LogStream.

Inductive LogLevel := TRACE | DEBUG | INFO | WARN | ERROR | FATAL.

#[global] Instance LogLevel_eq_dec : EqDecision LogLevel.
Proof. solve_decision. Defined.

Definition level_num (l : LogLevel) : Z :=
  match l with TRACE => 0 | DEBUG => 1 | INFO => 2 | WARN => 3 | ERROR => 4 | FATAL => 5 end.

Definition LogLevelName (l : LogLevel) : bytes :=
  match l with
  | TRACE => str "[TRACE] "
  | DEBUG => str "[DEBUG] "
  | INFO => str "[INFO]  "
  | WARN => str "[WARN]  "
  | ERROR => str "[ERROR] "
  | FATAL => str "[FATAL] "
  end.

(** Which of the two variables the environment has. *)
Definition initLogLevel (log_trace log_debug : bool) : LogLevel :=
  if log_trace then TRACE else if log_debug then DEBUG else INFO.

(** strrchr(3): the offset of the last [c]. *)
Fixpoint strrchr (c : byte) (l : bytes) : option nat :=
  match l with
  | [] => None
  | x :: l => match strrchr c l with Some i => Some (S i) | None => if Byte.eqb x c then Some O else None end
  end.

(** The two constructors compute the same part of [__FILE__]. *)
Definition SourceFile (filename : bytes) : bytes :=
  match strrchr Byte.x2f filename with Some slash => drop (S slash) filename | None => filename end.

(** ** State *)

(** The globals, and the thread-locals of a thread. *)
Record Globals := mkGlobals { g_logLevel : LogLevel; timeZone_ : Z; g_logTimeZone : TimeZone.TimeZone }.

Record ThreadLocals := mkThreadLocals {
  t_time : bytes;
  t_lastSecond : Z;
  t_cacheTid : Z;
  t_tidString : bytes;
  t_tidStringLength : Z;
}.

Definition new_ThreadLocals : ThreadLocals := mkThreadLocals [] 0 0 [] 6.

Definition setLogLevel (l : LogLevel) (g : Globals) : Globals := mkGlobals l (timeZone_ g) (g_logTimeZone g).
Definition setTimeZone (tz : Z) (g : Globals) : Globals := mkGlobals (g_logLevel g) tz (g_logTimeZone g).
Definition setLogTimeZone (tz : TimeZone.TimeZone) (g : Globals) : Globals := mkGlobals (g_logLevel g) (timeZone_ g) tz.

(** [class T]: a string with the length it is expected to have. *)
Definition T (s : bytes) (len : Z) : res item := assert! zlen (TimeZone.c_string s) =? len in Ok (IString s).

Section Log.
Context (gmtime_r : Z → tm) (strerror_r : Z → bytes) (gettid : Z).
Context (g : Globals).

(** [CurrentThread::tid()] with [cacheTid()]. *)
Definition tid (th : ThreadLocals) : ThreadLocals :=
  if t_cacheTid th =? 0 then
    let text := pad_left Byte.x20 5 (dec gettid) in
    mkThreadLocals (t_time th) (t_lastSecond th) gettid (ztake 31 text) (zlen text)
  else th.

Definition broken_down (seconds : Z) : res tm :=
  if TimeZone.tz_valid (g_logTimeZone g) then TimeZone.toLocalTime gmtime_r (g_logTimeZone g) seconds
  else Ok (gmtime_r seconds).

Definition time_text (t : tm) : bytes :=
  ztake 63 (pad_left Byte.x20 4 (dec (tm_year t +i 1900)) ++ zpad 2 (tm_mon t +i 1) ++ zpad 2 (tm_mday t) ++ str " " ++
            zpad 2 (tm_hour t +i timeZone_ g) ++ str ":" ++ zpad 2 (tm_min t) ++ str ":" ++ zpad 2 (tm_sec t)).

Definition formatTime (time : Z) (th : ThreadLocals) : res (ThreadLocals * list item) :=
  let seconds := i64 (Z.quot time Timestamp.kMicroSecondsPerSecond) in
  let microseconds := i32 (Z.rem time Timestamp.kMicroSecondsPerSecond) in
  let! th :=
    (if seconds =? t_lastSecond th then Ok th
     else
       let! tm_time := broken_down seconds in
       let text := time_text tm_time in
       assert! zlen text =? 17 in
       Ok (mkThreadLocals text seconds (t_cacheTid th) (t_tidString th) (t_tidStringLength th))) in
  let us := str "." ++ zpad 6 microseconds ++ (if TimeZone.tz_valid (g_logTimeZone g) then str " " else str "Z ") in
  let len := if TimeZone.tz_valid (g_logTimeZone g) then 8 else 9 in
  assert! zlen us =? len in
  let! text := T (t_time th) 17 in
  let! us := T us len in
  Ok (th, [text; us]).

(** [Impl::Impl]: what the stream gets first. *)
Definition Impl (level : LogLevel) (savedErrno time : Z) (th : ThreadLocals) : res (ThreadLocals * list item) :=
  let! (th, front) := formatTime time th in
  let th := tid th in
  let! tid_ := T (t_tidString th) (t_tidStringLength th) in
  let! name := T (LogLevelName level) 8 in
  let errno := if savedErrno =? 0 then [] else
    [ICString (Some (strerror_r savedErrno)); ICString (Some (str " (errno=")); IInt savedErrno; ICString (Some (str ") "))] in
  Ok (th, front ++ [tid_; name] ++ errno).

(** The constructors of [Logger]: level, errno and function name. *)
Inductive ctor :=
| WithoutLevel
| WithFunc (level : LogLevel) (func : bytes)
| WithLevel (level : LogLevel)
| WithErrno (toAbort : bool).

Definition ctor_level (c : ctor) : LogLevel :=
  match c with
  | WithoutLevel => INFO
  | WithFunc level _ | WithLevel level => level
  | WithErrno toAbort => if toAbort then FATAL else ERROR
  end.

Definition new_Logger (c : ctor) (errno time : Z) (th : ThreadLocals) : res (ThreadLocals * list item) :=
  let savedErrno := match c with WithErrno _ => errno | _ => 0 end in
  let! (th, items) := Impl (ctor_level c) savedErrno time th in
  Ok (th, items ++ match c with WithFunc _ func => [ICString (Some func); IChar Byte.x20] | _ => [] end).

Definition finish (basename : bytes) (line : Z) : list item :=
  [ICString (Some (str " - ")); IString basename; IChar Byte.x3a; IInt line; IChar Byte.x0a].

(** What the destructor does. *)
Inductive out :=
| Output (msg : bytes)
| Flush
| Abort.

#[global] Instance out_eq_dec : EqDecision out.
Proof. solve_decision. Defined.

(** One statement: the constructor it uses, errno, the time, [__FILE__], [__LINE__] and what
    is inserted. *)
Record Statement := mkStatement {
  s_ctor : ctor;
  s_errno : Z;
  s_time : Z;
  s_file : bytes;
  s_line : Z;
  s_items : list item;
}.

(** The macros [LOG_TRACE], [LOG_DEBUG] and [LOG_INFO] look at the level, the others do not. *)
Definition enabled (c : ctor) : bool :=
  match c with
  | WithFunc level _ => level_num (g_logLevel g) <=? level_num level
  | WithoutLevel => level_num (g_logLevel g) <=? level_num INFO
  | _ => true
  end.

Definition log (s : Statement) (th : ThreadLocals) : res (ThreadLocals * list out) :=
  if enabled (s_ctor s) then
    let! (th, front) := new_Logger (s_ctor s) (s_errno s) (s_time s) th in
    let! buf := inserts (front ++ s_items s ++ finish (SourceFile (s_file s)) (s_line s)) (new_FixedBuffer kSmallBuffer) in
    let msg := LogStream.toString buf in
    Ok (th, Output msg :: (if bool_decide (ctor_level (s_ctor s) = FATAL) then [Flush; Abort] else []))
  else Ok (th, []).

(** The statements of a thread; the program ends with an [Abort]. *)
Fixpoint logs (ss : list Statement) (th : ThreadLocals) : res (ThreadLocals * list out) :=
  match ss with
  | [] => Ok (th, [])
  | s :: ss =>
      let! (th, o) := log s th in
      if bool_decide (Abort ∈ o) then Ok (th, o)
      else
        let! (th, o') := logs ss th in
        Ok (th, o ++ o')
  end.
End Log.
(** ** Texts without a terminator *)

Definition plain (s : bytes) : Prop := Byte.x00 ∉ s.

(** A literal. *)
Ltac plain_str := unfold plain; apply (bool_decide_unpack _); vm_compute; exact I.

Lemma c_string_plain s : plain s → TimeZone.c_string s = s.
Proof.
  induction s as [|b s IH]; intros H; cbn; [done|]. unfold plain in *. rewrite not_elem_of_cons in H. destruct H as [Hb Hs].
  destruct (Byte.eqb b Byte.x00) eqn:E; [apply Byte.byte_dec_bl in E; congruence|]. by rewrite IH.
Qed.

Lemma T_plain s len : plain s → zlen s = len → T s len = Ok (IString s).
Proof. intros Hp Hl. unfold T. rewrite c_string_plain by done. by rewrite (proj2 (Z.eqb_eq _ _)). Qed.

Lemma plain_app s1 s2 : plain (s1 ++ s2) ↔ plain s1 ∧ plain s2.
Proof. unfold plain. rewrite elem_of_app. tauto. Qed.

Lemma plain_udec fuel n : 0 ≤ n → plain (udec fuel n).
Proof.
  revert n. induction fuel as [|fuel IH]; intros n Hn; [apply not_elem_of_nil|]. cbn [udec]. apply plain_app. split.
  - destruct (n <? 10); [apply not_elem_of_nil|]. apply IH. apply Z.div_pos; lia.
  - unfold plain. rewrite list_elem_of_singleton. intros E. apply (f_equal ub) in E. rewrite ub_byte_of_Z in E.
    pose proof (Z.mod_pos_bound n 10 ltac:(lia)). rewrite Z.mod_small in E by lia. change (ub Byte.x00) with 0 in E. lia.
Qed.

Lemma plain_pad c w s : c ≠ Byte.x00 → plain s → plain (pad_left c w s).
Proof.
  intros Hc Hs. apply plain_app. split; [|done]. intros Hin. apply elem_of_replicate in Hin as [E _]. congruence.
Qed.

Lemma plain_dec z : plain (dec z).
Proof.
  unfold dec. destruct (Z.ltb_spec z 0); [|by apply plain_udec]. apply plain_app. split; [|apply plain_udec; lia].
  plain_str.
Qed.

Lemma plain_zpad w z : plain (zpad w z).
Proof.
  unfold zpad. destruct (Z.ltb_spec z 0); [apply plain_app; split|]; try (apply plain_pad; [done|]; apply plain_udec; lia).
  plain_str.
Qed.

Lemma length_pad c w s : (length s ≤ w)%nat → length (pad_left c w s) = w.
Proof. intros Hl. unfold pad_left. rewrite length_app, length_replicate. lia. Qed.

Lemma length_zpad w z : (1 < w)%nat → - 10 ^ (Z.of_nat w - 1) < z < 10 ^ Z.of_nat w → length (zpad w z) = w.
Proof.
  intros Hw Hz. unfold zpad. destruct (Z.ltb_spec z 0).
  - rewrite length_app, length_pad; [cbn; lia|]. apply length_udec; [|lia]. rewrite Nat2Z.inj_sub by lia. cbn. lia.
  - apply length_pad. apply length_udec; lia.
Qed.

Lemma length_year y : - 1000 < y < 10000 → length (pad_left Byte.x20 4 (dec y)) = 4%nat.
Proof.
  intros Hy. apply length_pad. unfold dec. destruct (Z.ltb_spec y 0).
  - rewrite length_app. pose proof (length_udec 20 (- y) 3 ltac:(lia) ltac:(lia)). cbn [length]. change (length (str "-")) with 1%nat. lia.
  - apply (length_udec 20 y 4); lia.
Qed.

Section Properties.
Context (gmtime_r : Z → tm) (strerror_r : Z → bytes) (gettid : Z) (g : Globals).

(** A time whose fields have the widths of the format. *)
Definition shown (t : tm) : Prop :=
  - 1000 < tm_year t + 1900 < 10000 ∧ 0 ≤ tm_mon t < 12 ∧ 0 ≤ tm_mday t < 32 ∧
  - 10 < tm_hour t + timeZone_ g < 100 ∧ 0 ≤ tm_min t < 60 ∧ 0 ≤ tm_sec t < 62.

Lemma time_text_ok t : shown t → zlen (time_text g t) = 17 ∧ plain (time_text g t).
Proof.
  intros (Hy & Hmo & Hd & Hh & Hmi & Hs). unfold time_text. rewrite !i32_small by lia.
  assert (length (pad_left Byte.x20 4 (dec (tm_year t + 1900)) ++ zpad 2 (tm_mon t + 1) ++ zpad 2 (tm_mday t) ++ str " " ++
            zpad 2 (tm_hour t + timeZone_ g) ++ str ":" ++ zpad 2 (tm_min t) ++ str ":" ++ zpad 2 (tm_sec t)) = 17%nat) as Hl.
  { rewrite !length_app, length_year, !length_zpad by lia. done. }
  rewrite ztake_all by lia. split; [lia|]. rewrite !plain_app.
  split_and!; try apply plain_zpad; [by apply plain_pad; [|apply plain_dec]|..]; plain_str.
Qed.

(** The thread's caches are what a new computation would give. *)
Record thread_ok (th : ThreadLocals) : Prop := {
  c_time : t_lastSecond th ≠ 0 →
    ∃ t, broken_down gmtime_r g (t_lastSecond th) = Ok t ∧ shown t ∧ t_time th = time_text g t;
  c_tid : t_cacheTid th = 0 ∨
    (t_tidString th = pad_left Byte.x20 5 (dec gettid) ∧ t_tidStringLength th = zlen (t_tidString th));
}.

Lemma new_thread_ok : thread_ok new_ThreadLocals.
Proof. constructor; [done|by left]. Qed.

(** ** The line *)

Definition seconds_of (s : Statement) : Z := s_time s / 1000000.

Definition errno_text (s : Statement) : bytes :=
  match s_ctor s with
  | WithErrno _ => if s_errno s =? 0 then [] else strerror_r (s_errno s) ++ str " (errno=" ++ dec (s_errno s) ++ str ") "
  | _ => []
  end.

Definition func_text (s : Statement) : bytes :=
  match s_ctor s with WithFunc _ func => func ++ str " " | _ => [] end.

Definition line_text (t : tm) (s : Statement) : bytes :=
  time_text g t ++ (str "." ++ zpad 6 (s_time s mod 1000000) ++ (if TimeZone.tz_valid (g_logTimeZone g) then str " " else str "Z ")) ++
  pad_left Byte.x20 5 (dec gettid) ++ LogLevelName (ctor_level (s_ctor s)) ++ errno_text s ++ func_text s ++
  concat (map printed (s_items s)) ++
  str " - " ++ SourceFile (s_file s) ++ str ":" ++ dec (s_line s) ++ [Byte.x0a].

(** What a statement should give. *)
Definition expected_line (s : Statement) : list out :=
  if enabled g (s_ctor s) then
    match broken_down gmtime_r g (seconds_of s) with
    | Ok t => Output (line_text t s) :: (if bool_decide (ctor_level (s_ctor s) = FATAL) then [Flush; Abort] else [])
    | Err _ => []
    end
  else [].

(** A statement made in the years of the format whose line leaves room for a number. *)
Definition statement_ok (s : Statement) : Prop :=
  1000000 ≤ s_time s < 2 ^ 63 ∧ Forall item_ok (s_items s) ∧ - 2 ^ 31 ≤ s_errno s < 2 ^ 31 ∧ - 2 ^ 31 ≤ s_line s < 2 ^ 31 ∧
  ∃ t, broken_down gmtime_r g (seconds_of s) = Ok t ∧ shown t ∧ zlen (line_text t s) + kMaxNumericSize ≤ kSmallBuffer.

Lemma formatTime_ok s t th :
  thread_ok th → 1000000 ≤ s_time s < 2 ^ 63 → broken_down gmtime_r g (seconds_of s) = Ok t → shown t →
  wp (formatTime gmtime_r g (s_time s) th) (λ '(th', items),
    thread_ok th' ∧ concat (map printed items) = time_text g t ++ str "." ++ zpad 6 (s_time s mod 1000000) ++
      (if TimeZone.tz_valid (g_logTimeZone g) then str " " else str "Z ") ∧ Forall item_ok items).
Proof.
  intros Hth Ht Hb Hs. unfold formatTime. change Timestamp.kMicroSecondsPerSecond with 1000000.
  rewrite Z.quot_div_nonneg, Z.rem_mod_nonneg by lia. fold (seconds_of s).
  assert (1 ≤ seconds_of s < 2 ^ 63) as Hsec.
  { unfold seconds_of. split; [apply Z.div_le_lower_bound; lia|]. apply Z.div_lt_upper_bound; lia. }
  pose proof (Z.mod_pos_bound (s_time s) 1000000 ltac:(lia)) as Hus.
  rewrite i32_small by lia. assert (i64 (seconds_of s) = seconds_of s) as -> by (apply swrap_small; lia).
  destruct (time_text_ok t Hs) as [Hl Hp].
  assert (wp (if seconds_of s =? t_lastSecond th then Ok th else
       let! tm_time := broken_down gmtime_r g (seconds_of s) in
       let text := time_text g tm_time in
       assert! zlen text =? 17 in
       Ok (mkThreadLocals text (seconds_of s) (t_cacheTid th) (t_tidString th) (t_tidStringLength th)))
     (λ th', thread_ok th' ∧ t_time th' = time_text g t)) as Hcache.
  { destruct (Z.eqb_spec (seconds_of s) (t_lastSecond th)) as [E|E].
    - cbn. split; [done|]. destruct (c_time _ Hth ltac:(lia)) as (t' & Hb' & _ & ->). rewrite <- E, Hb in Hb'. by simplify_eq.
    - rewrite Hb. cbn [res_bind]. rewrite Hl. cbn. split; [|done]. constructor; cbn; [|apply Hth]. intros _. by exists t. }
  eapply wp_bind; [exact Hcache|]. intros th' [Hth' Et]. cbn beta. set (us := str "." ++ _).
  assert (zlen us = (if TimeZone.tz_valid (g_logTimeZone g) then 8 else 9) ∧ plain us) as [Hul Hup].
  { unfold us. rewrite !length_app, length_zpad by lia. split; [by destruct (TimeZone.tz_valid _)|].
    rewrite !plain_app. split_and!; [plain_str|apply plain_zpad|].
    destruct (TimeZone.tz_valid _); plain_str. }
  rewrite Hul, Z.eqb_refl, Et, !T_plain by done. cbn [res_bind wp]. split_and!; [done| |].
  - cbn. by rewrite app_nil_r.
  - apply Forall_cons. split; [cbn [item_ok]; lia|]. apply Forall_cons. split; [|done]. cbn [item_ok]. rewrite Hul. by destruct (TimeZone.tz_valid _).
Qed.

Lemma tid_ok th :
  0 < gettid < 2 ^ 31 → thread_ok th →
  let th' := tid gettid th in
  thread_ok th' ∧ zlen (pad_left Byte.x20 5 (dec gettid)) ≤ 31 ∧
  T (t_tidString th') (t_tidStringLength th') = Ok (IString (pad_left Byte.x20 5 (dec gettid))).
Proof.
  intros Hg Hth th'. set (text := pad_left Byte.x20 5 (dec gettid)).
  assert (plain text) as Hp by (apply plain_pad; [done|apply plain_dec]).
  assert (zlen text ≤ 31) as Hl.
  { unfold text, pad_left. rewrite length_app, length_replicate. unfold dec. rewrite (proj2 (Z.ltb_ge _ _)) by lia.
    pose proof (length_udec 20 gettid 10 ltac:(lia) ltac:(lia)). lia. }
  unfold th', tid. fold text. destruct (Z.eqb_spec (t_cacheTid th) 0) as [E|E].
  - cbn. rewrite ztake_all by lia. split; [|split; [done|by apply T_plain]]. constructor; cbn; [apply Hth|]. right. done.
  - destruct (c_tid _ Hth) as [?|[-> ->]]; [done|]. fold text. split; [done|]. split; [done|]. by apply T_plain.
Qed.

Lemma concat_printed_app xs ys : concat (map printed (xs ++ ys)) = concat (map printed xs) ++ concat (map printed ys).
Proof. by rewrite map_app, concat_app. Qed.

Hypothesis tid_range : 0 < gettid < 2 ^ 31.
(** strerror(3)'s texts. *)
Hypothesis errno_texts : ∀ e, zlen (strerror_r e) < 512.

(** What the stream holds before the message. *)
Lemma new_Logger_ok s t th :
  thread_ok th → statement_ok s → broken_down gmtime_r g (seconds_of s) = Ok t → shown t →
  wp (new_Logger gmtime_r strerror_r gettid g (s_ctor s) (s_errno s) (s_time s) th) (λ '(th', items),
    thread_ok th' ∧ Forall item_ok items ∧ concat (map printed items) =
      time_text g t ++ (str "." ++ zpad 6 (s_time s mod 1000000) ++ (if TimeZone.tz_valid (g_logTimeZone g) then str " " else str "Z ")) ++
      pad_left Byte.x20 5 (dec gettid) ++ LogLevelName (ctor_level (s_ctor s)) ++ errno_text s ++ func_text s).
Proof.
  intros Hth Hst Hb Hs. pose proof Hst as (Ht & _ & He & _ & t' & Hb' & _ & Hl). rewrite Hb in Hb'. injection Hb' as <-.
  assert (zlen (func_text s) < 4000) as Hf.
  { unfold line_text in Hl. rewrite !length_app in Hl. change (kMaxNumericSize) with 32 in Hl. change kSmallBuffer with 4000 in Hl. lia. }
  unfold new_Logger, Impl. rewrite bind_assoc. eapply wp_bind; [by apply (formatTime_ok s t)|]. intros [th1 front] (Hth1 & Efront & Hfront).
  destruct (tid_ok th1 tid_range Hth1) as (Hth2 & Htid & ->). cbn [res_bind].
  assert (T (LogLevelName (ctor_level (s_ctor s))) 8 = Ok (IString (LogLevelName (ctor_level (s_ctor s))))) as ->
    by (apply T_plain; [destruct (ctor_level (s_ctor s)); plain_str|by destruct (ctor_level (s_ctor s))]).
  cbn [res_bind wp]. split; [done|]. split.
  - rewrite !Forall_app. split_and!; [done| | |].
    + apply Forall_cons. split; [cbn [item_ok]; lia|]. apply Forall_cons. split; [|done].
      by destruct (ctor_level (s_ctor s)).
    + destruct (s_ctor s); [done..|]. destruct (_ =? 0); [done|]. repeat (apply Forall_cons; split); cbn [item_ok]; try done; [|lia].
      specialize (errno_texts (s_errno s)). lia.
    + unfold func_text in Hf. destruct (s_ctor s); try done. rewrite length_app in Hf. repeat (apply Forall_cons; split); cbn [item_ok]; try done. lia.
  - rewrite !concat_printed_app, Efront. unfold errno_text, func_text.
    destruct (s_ctor s); cbn [map concat printed]; rewrite ?Z.eqb_refl; try destruct (s_errno s =? 0);
      cbn [map concat printed]; rewrite ?app_nil_r, <- ?app_assoc; done.
Qed.

Lemma log_ok s th :
  thread_ok th → statement_ok s →
  wp (log gmtime_r strerror_r gettid g s th) (λ '(th', o), thread_ok th' ∧ o = expected_line s).
Proof.
  intros Hth Hst. pose proof Hst as (Ht & Hi & He & Hline & t & Hb & Hs & Hl). unfold log, expected_line.
  destruct (enabled g (s_ctor s)); [|done]. rewrite Hb.
  eapply wp_bind; [by apply (new_Logger_ok s t)|]. intros [th' front] (Hth' & Hfront & Ef). cbn beta iota.
  assert (concat (map printed (front ++ s_items s ++ finish (SourceFile (s_file s)) (s_line s))) = line_text t s) as Eline.
  { rewrite !concat_printed_app, Ef. unfold line_text, finish. cbn [map concat printed]. by rewrite <- !app_assoc. }
  assert (zlen (SourceFile (s_file s)) < 4000) as Hfile.
  { unfold line_text in Hl. rewrite !length_app in Hl. change (kMaxNumericSize) with 32 in Hl. change kSmallBuffer with 4000 in Hl. lia. }
  assert (wf (new_FixedBuffer kSmallBuffer)) as Hw by by vm_compute.
  eapply wp_bind.
  - apply inserts_spec; [done|]. rewrite !Forall_app. split_and!; [done|done|].
    unfold finish. repeat (apply Forall_cons; split); cbn [item_ok]; try done; lia.
  - intros buf (Hbuf & _ & Etext). cbn [wp]. split; [done|]. f_equal. f_equal.
    change (zlen (data_ (new_FixedBuffer kSmallBuffer))) with kSmallBuffer in Etext. change (text (new_FixedBuffer kSmallBuffer)) with (@nil byte) in Etext.
    rewrite line_fits in Etext by (rewrite Eline; cbn [length]; lia). rewrite Eline in Etext. cbn [app] in Etext. rewrite <- Etext.
    unfold LogStream.toString, text, length_. destruct Hbuf. by rewrite i32_small by lia.
Qed.

(** What a thread's statements should give. *)
Fixpoint all_expected (ss : list Statement) : list out :=
  match ss with
  | [] => []
  | s :: ss => if bool_decide (Abort ∈ expected_line s) then expected_line s else expected_line s ++ all_expected ss
  end.

End Properties.

(** ** Concrete statements *)

Definition demo_gmtime (_ : Z) : tm := mkTm 5 30 20 28 11 119 6 361 0 0 (str "GMT").
Definition demo_globals (tz : Z) : Globals := mkGlobals INFO tz None.
Definition demo_info : Statement := mkStatement WithoutLevel 0 1577565005000123 (str "/src/a.cpp") 7 [ICString (Some (str "fd = ")); IInt (-42)].
Definition demo_debug : Statement := mkStatement (WithFunc DEBUG (str "f")) 0 1577565005000124 (str "/src/a.cpp") 8 [].
Definition demo_fatal : Statement := mkStatement (WithErrno true) 9 1577565005000125 (str "b.cpp") 9 [ICString (Some (str "gone"))].


(** ** Edges *)

(** The hour is shifted by [timeZone_] but the date is not, and the text still ends in Z: at
    20:30 UTC in a zone 8 hours east, already the next day, the line says 28:30. *)
Lemma hour_past_midnight : time_text (demo_globals 8) (demo_gmtime 0) = str "20191228 28:30:05".
Proof. by vm_compute. Qed.

(** A message that fills the buffer takes the place of the source position and of the line
    end, which are left out. *)
Lemma long_message_loses_line_end :
  match logs demo_gmtime (λ _, []) 4242 (demo_globals 0)
          [mkStatement WithoutLevel 0 1577565005000123 (str "a.cpp") 7 [IString (replicate 3960 Byte.x61)]] new_ThreadLocals with
  | Ok (_, [Output msg]) => last msg = Some Byte.x61
  | _ => False
  end.
Proof. by vm_compute. Qed.

(** A time before 1970 has negative microseconds, which the format gives seven characters. *)
Lemma negative_time_aborts th :
  t_lastSecond th = 0 → formatTime demo_gmtime (demo_globals 0) (-500000) th = Err AssertFailed.
Proof. intros E. unfold formatTime. rewrite E. by vm_compute. Qed.

End Logging.
