(* ===== verification/AsyncLogging.v ===== *)
(** The asynchronous log back end ([base/log/AyncLogging.h], [AyncLogging.cpp]).

    Any number of threads call [append]; one back-end thread swaps the full buffers out
    under the mutex and writes them to a [LogFile].  A section under the mutex, and the
    back end's work between two of them (which touches nothing shared), is one step.
    The buffers are [FixedBuffer<SIZE>] for any [SIZE]; the source uses [kLargeBuffer]. *)

From S2P Require Import Prelude Date Timestamp TimeZone LogStream LogFile.

Module AsyncLogging.

Abbreviation Buffer := LogStream.FixedBuffer.
(** [unique_ptr<Buffer>]; [None] is null, also after a move. *)
Abbreviation BufferPtr := (option Buffer).

(** Where the back-end thread is. *)
Inductive backend_place :=
| Starting      (* before latch_.countDown() *)
| Testing       (* at while (running_) *)
| Locking       (* past the test, before the mutex *)
| Waiting       (* in cond_.waitForSeconds *)
| Writing       (* between the swap and the end of the loop's body *)
| Finished.

Record AsyncLogging := mkAsync {
  running_ : bool;
  latch_ : Z;
  currentBuffer_ : BufferPtr;
  nextBuffer_ : BufferPtr;
  buffers_ : list BufferPtr;
  rollTime_ : Z;
  at_ : backend_place;
  newBuffer1 : BufferPtr;              (* locals of threadFunc *)
  newBuffer2 : BufferPtr;
  buffersToWrite : list BufferPtr;
  output : option LogFile.LogFile;
  appended : list bytes;               (* every line ever given to append() *)
  batches : list (Z * list bytes);     (* every batch of buffers written, with its time *)
}.

Definition set_front (cur next : BufferPtr) (bufs : list BufferPtr) (s : AsyncLogging) : AsyncLogging :=
  mkAsync (running_ s) (latch_ s) cur next bufs (rollTime_ s) (at_ s) (newBuffer1 s) (newBuffer2 s) (buffersToWrite s)
    (output s) (appended s) (batches s).
Definition set_back (pl : backend_place) (n1 n2 : BufferPtr) (bufs : list BufferPtr) (s : AsyncLogging) : AsyncLogging :=
  mkAsync (running_ s) (latch_ s) (currentBuffer_ s) (nextBuffer_ s) (buffers_ s) (rollTime_ s) pl n1 n2 bufs
    (output s) (appended s) (batches s).
Definition set_output (v : option LogFile.LogFile) (s : AsyncLogging) : AsyncLogging :=
  mkAsync (running_ s) (latch_ s) (currentBuffer_ s) (nextBuffer_ s) (buffers_ s) (rollTime_ s) (at_ s) (newBuffer1 s)
    (newBuffer2 s) (buffersToWrite s) v (appended s) (batches s).
Definition set_running (v : bool) (s : AsyncLogging) : AsyncLogging :=
  mkAsync v (latch_ s) (currentBuffer_ s) (nextBuffer_ s) (buffers_ s) (rollTime_ s) (at_ s) (newBuffer1 s)
    (newBuffer2 s) (buffersToWrite s) (output s) (appended s) (batches s).
Definition set_start (latch rollTime : Z) (s : AsyncLogging) : AsyncLogging :=
  mkAsync (running_ s) latch (currentBuffer_ s) (nextBuffer_ s) (buffers_ s) rollTime (at_ s) (newBuffer1 s)
    (newBuffer2 s) (buffersToWrite s) (output s) (appended s) (batches s).
Definition set_books (app : list bytes) (bs : list (Z * list bytes)) (s : AsyncLogging) : AsyncLogging :=
  mkAsync (running_ s) (latch_ s) (currentBuffer_ s) (nextBuffer_ s) (buffers_ s) (rollTime_ s) (at_ s) (newBuffer1 s)
    (newBuffer2 s) (buffersToWrite s) (output s) app bs.
Definition set_at (pl : backend_place) (s : AsyncLogging) : AsyncLogging :=
  set_back pl (newBuffer1 s) (newBuffer2 s) (buffersToWrite s) s.

(** The text in a buffer. *)
Definition ptr_text (p : BufferPtr) : bytes := from_option LogStream.text [] p.

Section Logging.
Context (localtime_r gmtime_r : Z → Date.tm) (hostname : bytes) (pid : Z).
Context (SIZE : Z) (basename_ : bytes) (rollSize_ timeZone_ : Z).

Definition new_LogBuffer : Buffer := LogStream.new_FixedBuffer SIZE.

(** The constructor and [start()], which sets [running_] before the thread runs. *)
Definition new_AsyncLogging (rollTime : Z) : AsyncLogging :=
  mkAsync true 1 (Some (LogStream.bzero new_LogBuffer)) (Some (LogStream.bzero new_LogBuffer)) [] rollTime Starting
    None None [] None [] [].

Definition append (logline : bytes) (s : AsyncLogging) : res AsyncLogging :=
  let len := zlen logline in
  let s := set_books (appended s ++ [logline]) (batches s) s in
  match currentBuffer_ s with
  | None => Err UseAfterFree
  | Some b =>
      if len <? LogStream.avail b then
        let! b := LogStream.append logline len b in
        Ok (set_front (Some b) (nextBuffer_ s) (buffers_ s) s)
      else
        let bufs := buffers_ s ++ [Some b] in
        let '(cur, next) :=
          match nextBuffer_ s with
          | Some n => (n, None)
          | None => (new_LogBuffer, None)
          end in
        let! cur := LogStream.append logline len cur in
        Ok (set_front (Some cur) next bufs s)
  end.

(** [threadFunc] up to the loop. *)
Definition thread_start (opened : bool) (now1 now2 : Z) (s : AsyncLogging) : res AsyncLogging :=
  assert! running_ s in
  let s := set_start (latch_ s - 1) (rollTime_ s -i (timeZone_ *i 3600)) s in
  let! out := LogFile.new_LogFile localtime_r hostname pid opened now1 now2 basename_ rollSize_ (rollTime_ s) in
  let s := set_output (Some out) s in
  Ok (set_back Testing (Some (LogStream.bzero new_LogBuffer)) (Some (LogStream.bzero new_LogBuffer)) [] s).

Definition flush_output (s : AsyncLogging) : res AsyncLogging :=
  match output s with
  | None => Err UseAfterFree
  | Some out => let! out := LogFile.flush out in Ok (set_output (Some out) s)
  end.

(** [while (running_)], with the flush after the loop. *)
Definition thread_test (s : AsyncLogging) : res AsyncLogging :=
  if running_ s then Ok (set_at Locking s)
  else let! s := flush_output s in Ok (set_at Finished s).

Definition is_reset (p : BufferPtr) : bool :=
  match p with Some b => LogStream.length_ b =? 0 | None => false end.

(** The rest of the critical section, after the wait. *)
Definition swap_buffers (s : AsyncLogging) : res AsyncLogging :=
  let bufs := buffers_ s ++ [currentBuffer_ s] in
  let toWrite := bufs in
  let left := buffersToWrite s in
  let '(next, n2) :=
    match nextBuffer_ s with
    | None => (newBuffer2 s, None)
    | Some n => (Some n, newBuffer2 s)
    end in
  let s := set_front (newBuffer1 s) next left s in
  Ok (set_back Writing None n2 toWrite s).

Definition thread_lock (s : AsyncLogging) : res AsyncLogging :=
  assert! is_reset (newBuffer1 s) in
  assert! is_reset (newBuffer2 s) in
  assert! bool_decide (buffersToWrite s = []) in
  match buffers_ s with
  | [] => Ok (set_at Waiting s)
  | _ => swap_buffers s
  end.

(** What the disk and the clock answer to each append to the log file. *)
Abbreviation io := (nat → list Z * Z).

Definition file_append (w : io) (i : nat) (text : bytes) (out : LogFile.LogFile) : res LogFile.LogFile :=
  LogFile.append localtime_r hostname pid (w i).1 true (w i).2 text out.

Fixpoint write_all (w : io) (i : nat) (bufs : list BufferPtr) (out : LogFile.LogFile) : res LogFile.LogFile :=
  match bufs with
  | [] => Ok out
  | None :: _ => Err UseAfterFree
  | Some b :: bufs => let! out := file_append w i (LogStream.toString b) out in write_all w (S i) bufs out
  end.

(** The text of a cut batch of [n] buffers, in [buf[256]]. *)
Definition notice (now : Z) (n : nat) : bytes :=
  TimeZone.c_string (ztake 255 (str "Dropped log messages at " ++ Timestamp.toFormattedString gmtime_r true now ++
    str ", " ++ dec (Z.of_nat n - 2) ++ str " larger buffers" ++ [Byte.x0a])).

(** [newBuffer = move(back()); pop_back(); newBuffer->reset()], if it is null. *)
Definition refill (p : BufferPtr) (bufs : list BufferPtr) : res (BufferPtr * list BufferPtr) :=
  match p with
  | Some b => Ok (Some b, bufs)
  | None =>
      match last bufs with
      | None => Err AssertFailed
      | Some None => Err UseAfterFree
      | Some (Some b) => Ok (Some (LogStream.reset b), removelast bufs)
      end
  end.

(** The rest of the loop's body. *)
Definition thread_write (now : Z) (w : io) (s : AsyncLogging) : res AsyncLogging :=
  let bufs := buffersToWrite s in
  assert! negb (bool_decide (bufs = [])) in
  match output s with
  | None => Err UseAfterFree
  | Some out =>
      let big := bool_decide (25 < length bufs)%nat in
      let! (out, bufs) :=
        (if big then
           let! out := file_append w 0 (notice now (length bufs)) out in
           Ok (out, take 2 bufs)
         else Ok (out, bufs)) in
      let! out := write_all w 1 bufs out in
      let bufs := if bool_decide (2 < length bufs)%nat then take 2 bufs else bufs in
      let! (n1, bufs) := refill (newBuffer1 s) bufs in
      let! (n2, bufs) := refill (newBuffer2 s) bufs in
      let s := set_output (Some out) (set_books (appended s) (batches s ++ [(now, map ptr_text (buffersToWrite s))]) s) in
      let! s := flush_output s in
      Ok (set_back Testing n1 n2 [] s)
  end.

Definition stop (s : AsyncLogging) : AsyncLogging := set_running false s.

(** ** Steps *)

Inductive event :=
| Append (logline : bytes)
| Stop
| Start (now1 now2 : Z)
| Test
| Lock
| Wake                      (* notified, timed out or woken spuriously *)
| Write (now : Z) (w : io).

Definition step (e : event) (s : AsyncLogging) : res AsyncLogging :=
  match e with
  | Append l => append l s
  | Stop => Ok (stop s)
  | Start now1 now2 => thread_start true now1 now2 s
  | Test => thread_test s
  | Lock => thread_lock s
  | Wake => swap_buffers s
  | Write now w => thread_write now w s
  end.

(** The back-end thread does what its place says; [stop()] comes after [start()] has
    returned, which waits for the latch; the disk takes what it is given. *)
Definition event_ok (e : event) (s : AsyncLogging) : Prop :=
  match e with
  | Append l => zlen l < 2 ^ 31
  | Stop => latch_ s = 0
  | Start now1 _ => at_ s = Starting ∧ 0 < now1
  | Test => at_ s = Testing
  | Lock => at_ s = Locking
  | Wake => at_ s = Waiting
  | Write _ w => at_ s = Writing ∧ ∀ i, FileUtil.disk_ok (w i).1
  end.

Inductive reach (rollTime : Z) : AsyncLogging → Prop :=
| reach_new : reach rollTime (new_AsyncLogging rollTime)
| reach_step s e s' : reach rollTime s → event_ok e s → step e s = Ok s' → reach rollTime s'.

(** ** Specification *)

(** A line of [SIZE] bytes or more fits in no buffer; [FixedBuffer::append] leaves it out. *)
Definition fits (l : bytes) : Prop := zlen l < SIZE.
Definition wanted (ls : list bytes) : bytes := concat (filter fits ls).

Definition texts (bufs : list BufferPtr) : bytes := concat (map ptr_text bufs).

#[local] Arguments texts : simpl never.
#[local] Arguments ptr_text !p /.
#[local] Arguments wanted : simpl never.

(** What is still in memory, oldest first. *)
Definition pending (s : AsyncLogging) : bytes :=
  texts (buffersToWrite s) ++ texts (buffers_ s) ++ ptr_text (currentBuffer_ s).

Definition logged (s : AsyncLogging) : bytes := from_option LogFile.log_text [] (output s).
Definition on_disk (s : AsyncLogging) : bytes := from_option LogFile.kept_text [] (output s).

(** What a batch was given, and what the file shows of it: all of it, or, when more
    than 25 buffers piled up during one round, a notice with the number of buffers left
    out and the first two buffers. *)
Definition given (b : Z * list bytes) : bytes := concat b.2.
Definition cut (b : Z * list bytes) : bool := bool_decide (25 < length b.2)%nat.
Definition shown (b : Z * list bytes) : bytes :=
  if cut b then notice b.1 (length b.2) ++ concat (take 2 b.2) else concat b.2.

Definition journal (s : AsyncLogging) : Prop :=
  logged s = concat (map shown (batches s)) ∧
  wanted (appended s) = concat (map given (batches s)) ++ pending s.

(** ** Invariant *)

Definition good (b : Buffer) : Prop := LogStream.wf b ∧ zlen (LogStream.data_ b) = SIZE.
Definition good_ptr (p : BufferPtr) : Prop := ∃ b, p = Some b ∧ good b.
Definition fresh (p : BufferPtr) : Prop := ∃ b, p = Some b ∧ good b ∧ LogStream.cur_ b = 0.

Definition open_output (s : AsyncLogging) : Prop := ∃ out, output s = Some out ∧ LogFile.inv out.

Definition place_inv (s : AsyncLogging) : Prop :=
  match at_ s with
  | Starting => latch_ s = 1 ∧ running_ s = true ∧ output s = None ∧ buffersToWrite s = []
  | Testing | Locking | Waiting =>
      latch_ s = 0 ∧ open_output s ∧ fresh (newBuffer1 s) ∧ fresh (newBuffer2 s) ∧ buffersToWrite s = [] ∧
      on_disk s = logged s
  | Writing =>
      latch_ s = 0 ∧ open_output s ∧ newBuffer1 s = None ∧ Forall good_ptr (buffersToWrite s) ∧ buffersToWrite s ≠ [] ∧
      (fresh (newBuffer2 s) ∨ newBuffer2 s = None ∧ (2 ≤ length (buffersToWrite s))%nat)
  | Finished => latch_ s = 0 ∧ open_output s ∧ buffersToWrite s = [] ∧ on_disk s = logged s
  end.

Record inv (s : AsyncLogging) : Prop := {
  i_current : good_ptr (currentBuffer_ s);
  i_next : nextBuffer_ s = None ∨ fresh (nextBuffer_ s);
  i_buffers : Forall good_ptr (buffers_ s);
  i_need : nextBuffer_ s = None → buffers_ s ≠ [];
  i_place : place_inv s;
  i_journal : journal s;
}.

Hypothesis SIZE_ok : 0 < SIZE < 2 ^ 31.
Hypothesis rollSize_ok : 0 ≤ rollSize_.

(** ** Buffers *)

Lemma new_good : good new_LogBuffer ∧ LogStream.cur_ new_LogBuffer = 0.
Proof. unfold good, LogStream.wf, new_LogBuffer, LogStream.new_FixedBuffer. cbn. rewrite length_replicate. lia. Qed.

Lemma bzero_fresh : fresh (Some (LogStream.bzero new_LogBuffer)).
Proof.
  exists (LogStream.bzero new_LogBuffer). unfold good, LogStream.wf, LogStream.bzero, new_LogBuffer, LogStream.new_FixedBuffer.
  cbn. rewrite !length_replicate. split; [done|]. lia.
Qed.

Lemma fresh_good p : fresh p → good_ptr p.
Proof. intros (b & ? & ? & _). by exists b. Qed.

Lemma fresh_text p : fresh p → ptr_text p = [].
Proof. intros (b & -> & _ & Hc). cbn. unfold LogStream.text. by rewrite Hc. Qed.

Lemma fresh_is_reset p : fresh p → is_reset p = true.
Proof. intros (b & -> & _ & Hc). cbn. unfold LogStream.length_. rewrite Hc. done. Qed.

Lemma reset_fresh b : good b → fresh (Some (LogStream.reset b)).
Proof. intros [[Hw1 Hw2] Hs]. exists (LogStream.reset b). unfold good, LogStream.wf, LogStream.reset. cbn. split_and!; (done || lia). Qed.

Lemma good_text b : good b → LogStream.toString b = LogStream.text b.
Proof.
  intros [[Hw1 Hw2] Hs]. unfold LogStream.toString, LogStream.text, LogStream.length_. by rewrite i32_small by lia.
Qed.

Lemma texts_app a b : texts (a ++ b) = texts a ++ texts b.
Proof. unfold texts. by rewrite map_app, concat_app. Qed.

Lemma wanted_snoc ls l : wanted (ls ++ [l]) = wanted ls ++ (if decide (fits l) then l else []).
Proof.
  unfold wanted. rewrite filter_app, concat_app. f_equal. unfold filter. cbn.
  destruct (decide (fits l)); cbn; by rewrite ?app_nil_r.
Qed.

(** An append to a good buffer: the text grows if there is room. *)
Lemma buffer_append logline b :
  good b → zlen logline < 2 ^ 31 →
  wp (LogStream.append logline (zlen logline) b) (λ b', good b' ∧
    LogStream.text b' = LogStream.text b ++ (if zlen logline <? SIZE - zlen (LogStream.text b) then logline else [])).
Proof.
  intros [Hw Hs] Hl. eapply wp_mono; [by apply LogStream.fixed_append_spec; [|lia]|].
  intros b' (Hw' & Hl' & Ht). split; [split; [done|lia]|]. rewrite Ht, Hs. do 2 f_equal.
  destruct (Z.leb_spec (zlen logline + 1) (SIZE - zlen (LogStream.text b))), (Z.ltb_spec (zlen logline) (SIZE - zlen (LogStream.text b))); done || lia.
Qed.

Lemma good_avail b : good b → LogStream.avail b = SIZE - zlen (LogStream.text b).
Proof.
  intros [[Hw1 Hw2] Hs]. unfold LogStream.avail, LogStream.text. rewrite length_ztake by lia. rewrite i32_small; lia.
Qed.

(** ** Every step keeps the invariant *)

Lemma place_inv_front cur next bufs app bs s :
  place_inv (set_front cur next bufs (set_books app bs s)) ↔ place_inv s.
Proof. done. Qed.

Lemma append_inv l s : inv s → zlen l < 2 ^ 31 → wp (append l s) inv.
Proof.
  intros [(b & Eb & Hb) Hn Hbs Hneed Hp (J1 & J2)] Hl. unfold append. cbn [currentBuffer_ set_books].
  rewrite Eb, (good_avail b Hb). unfold pending in J2. rewrite Eb in J2. cbn [ptr_text from_option] in J2.
  destruct (Z.ltb_spec (zlen l) (SIZE - zlen (LogStream.text b))) as [Hroom|Hfull].
  - eapply wp_bind; [by apply buffer_append|]. intros b' [Hb' Ht]. rewrite (proj2 (Z.ltb_lt _ _)) in Ht by done.
    constructor; cbn; [by exists b'|done..|]. split; [done|].
    cbn [appended set_front set_books]. rewrite wanted_snoc, J2, decide_True by (unfold fits; lia). unfold pending. cbn. by rewrite Ht, <- !app_assoc.
  - set (cn := match _ with Some n => _ | None => _ end).
    assert (∃ c, cn = (c, None) ∧ good c ∧ LogStream.text c = []) as (c & -> & Hc & Hct).
    { unfold cn. cbn. destruct Hn as [->|(n & -> & Hg & Hc)].
      - destruct new_good as [? Hc]. exists new_LogBuffer. split_and!; [done..|]. unfold LogStream.text. by rewrite Hc.
      - exists n. split_and!; [done..|]. unfold LogStream.text. by rewrite Hc. }
    eapply wp_bind; [by apply buffer_append|]. intros b' [Hb' Ht]. rewrite Hct, Z.sub_0_r in Ht. cbn in Ht.
    constructor; cbn; [by exists b'|by left| |by destruct (buffers_ s)|done|].
    + rewrite Forall_app, Forall_singleton. split; [done|by exists b].
    + split; [done|]. cbn [appended set_front set_books]. rewrite wanted_snoc, J2. unfold pending. cbn.
      rewrite texts_app, Ht. change (texts [Some b]) with (LogStream.text b ++ []). rewrite app_nil_r, <- !app_assoc. do 4 f_equal.
      unfold fits. case_decide; destruct (Z.ltb_spec (zlen l) SIZE); (done || lia).
Qed.

Lemma start_inv now1 now2 s :
  inv s → at_ s = Starting → 0 < now1 → wp (thread_start true now1 now2 s) inv.
Proof.
  intros [Hc Hn Hb Hneed Hp (J1 & J2)] Hat Hnow. unfold place_inv in Hp. rewrite Hat in Hp.
  destruct Hp as (Hl & Hr & Ho & Hw). unfold thread_start. rewrite Hr.
  eapply wp_bind; [by apply LogFile.new_LogFile_spec|]. intros out (Hi & _ & _ & Ht & _).
  unfold logged in J1. rewrite Ho in J1. cbn in J1.
  constructor; cbn; [done..| |].
  - split_and!; [lia|by exists out|apply bzero_fresh|apply bzero_fresh|done|]. unfold on_disk, logged. cbn.
    unfold LogFile.kept_text. rewrite Ht. apply LogFile.log_text_nil in Ht. done.
  - unfold journal, logged, pending. cbn. rewrite Ht. unfold pending in J2. rewrite Hw in J2. done.
Qed.

Lemma flush_inv s out :
  output s = Some out → LogFile.inv out →
  wp (flush_output s) (λ s', ∃ out', s' = set_output (Some out') s ∧ LogFile.inv out' ∧
    LogFile.log_text out' = LogFile.log_text out ∧ LogFile.kept_text out' = LogFile.log_text out').
Proof.
  intros Ho Hi. unfold flush_output. rewrite Ho. eapply wp_bind; [by apply LogFile.flush_spec|].
  intros out' (Hi' & _ & _ & _ & Ht & Hk). by exists out'.
Qed.

Lemma test_inv s : inv s → at_ s = Testing → wp (thread_test s) inv.
Proof.
  intros [Hc Hn Hb Hneed Hp J] Hat. unfold place_inv in Hp. rewrite Hat in Hp. unfold thread_test.
  destruct (running_ s).
  - constructor; cbn; done.
  - destruct Hp as (Hl & (out & Ho & Hi) & _ & _ & Hw & Hd). eapply wp_bind; [by eapply flush_inv|].
    intros s' (out' & -> & Hi' & Ht & Hk). constructor; cbn; try done.
    + split_and!; [done|by exists out'|done|by unfold on_disk, logged; cbn].
    + destruct J as (J1 & J2). split; [|done]. unfold logged in *. rewrite Ho in J1. cbn in *. by rewrite Ht.
Qed.

Lemma swap_inv s :
  inv s → (at_ s = Waiting ∨ (at_ s = Locking ∧ buffers_ s ≠ [])) → wp (swap_buffers s) inv.
Proof.
  intros [Hc Hn Hb Hneed Hp (J1 & J2)] Hat.
  assert (latch_ s = 0 ∧ open_output s ∧ fresh (newBuffer1 s) ∧ fresh (newBuffer2 s) ∧ buffersToWrite s = []) as
    (Hl & Ho & Hf1 & Hf2 & Hw).
  { unfold place_inv in Hp. destruct Hat as [E|[E _]]; rewrite E in Hp; by destruct_and! Hp. }
  assert (Forall good_ptr (buffers_ s ++ [currentBuffer_ s])) as Hg by (by rewrite Forall_app, Forall_singleton).
  assert (buffers_ s ++ [currentBuffer_ s] ≠ []) as Hne by (by destruct (buffers_ s)).
  assert (journal (set_back Writing None (newBuffer2 s) (buffers_ s ++ [currentBuffer_ s])
            (set_front (newBuffer1 s) (nextBuffer_ s) [] s))) as Hj.
  { split; [done|]. unfold pending in *. cbn. rewrite Hw in J2. rewrite texts_app, (fresh_text _ Hf1), app_nil_r.
    change (texts [currentBuffer_ s]) with (ptr_text (currentBuffer_ s) ++ []). by rewrite app_nil_r. }
  unfold swap_buffers. destruct (nextBuffer_ s) as [n|] eqn:En; cbn [wp]; rewrite Hw.
  - destruct Hn as [|Hn]; [done|]. constructor; cbn; [by apply fresh_good|by right|constructor|done| |exact Hj].
    split_and!; [done..|]. by left.
  - constructor; cbn; [by apply fresh_good|by right|constructor| | |exact Hj].
    + intros E. destruct Hf2 as (? & E2 & _). congruence.
    + split_and!; [done..|]. right. split; [done|]. rewrite length_app. cbn. specialize (Hneed eq_refl).
      destruct (buffers_ s); cbn; [done|lia].
Qed.

Lemma lock_inv s : inv s → at_ s = Locking → wp (thread_lock s) inv.
Proof.
  intros Hi Hat. pose proof Hi as [Hc Hn Hb Hneed Hp J]. unfold place_inv in Hp. rewrite Hat in Hp.
  destruct Hp as (Hl & Ho & Hf1 & Hf2 & Hw & Hd). unfold thread_lock.
  rewrite !fresh_is_reset, bool_decide_true by done. destruct (buffers_ s) as [|x l] eqn:E.
  - constructor; cbn; try done; by rewrite E.
  - apply swap_inv; [done|]. right. by rewrite E.
Qed.

Lemma write_all_spec w i bufs out :
  (∀ i, FileUtil.disk_ok (w i).1) → Forall good_ptr bufs → LogFile.inv out →
  wp (write_all w i bufs out) (λ out', LogFile.inv out' ∧ LogFile.log_text out' = LogFile.log_text out ++ texts bufs).
Proof.
  intros Hw Hb. revert i out. induction Hb as [|p bufs (b & -> & Hg) Hb IH]; intros i out Hi; cbn [write_all].
  - split; [done|]. by rewrite app_nil_r.
  - eapply wp_bind; [by apply LogFile.logfile_append_spec|]. intros out1 (Hi1 & Ht1 & _). eapply wp_mono; [by apply IH|].
    intros out2 (Hi2 & Ht2). split; [done|]. rewrite Ht2, Ht1, (good_text b Hg), <- app_assoc. done.
Qed.

Lemma refill_spec p bufs :
  Forall good_ptr bufs → fresh p ∨ p = None ∧ bufs ≠ [] →
  wp (refill p bufs) (λ r, fresh r.1 ∧ Forall good_ptr r.2 ∧ (length bufs - 1 ≤ length r.2)%nat).
Proof.
  intros Hb [(b & -> & Hg & Hc)|[-> Hne]]; cbn [refill].
  - split_and!; [by exists b|done|cbn; lia].
  - destruct bufs as [|x l _] using rev_ind; [done|]. apply Forall_app in Hb as [Hl Hx]. apply (proj1 (Forall_singleton good_ptr x)) in Hx.
    destruct Hx as (b & -> & Hg). rewrite last_snoc, removelast_last. cbn [wp fst snd].
    split_and!; [by apply reset_fresh|done|rewrite length_app; cbn; lia].
Qed.

(** The part of [thread_write] that logs the batch. *)
Lemma log_batch_spec now w bufs out :
  (∀ i, FileUtil.disk_ok (w i).1) → Forall good_ptr bufs → LogFile.inv out →
  wp (let! (out, bufs) :=
        (if bool_decide (25 < length bufs)%nat then
           let! out := file_append w 0 (notice now (length bufs)) out in Ok (out, take 2 bufs)
         else Ok (out, bufs)) in
      let! out := write_all w 1 bufs out in Ok (out, bufs))
     (λ r, LogFile.inv r.1 ∧ LogFile.log_text r.1 = LogFile.log_text out ++ shown (now, map ptr_text bufs) ∧
       Forall good_ptr r.2 ∧ (Nat.min 2 (length bufs) ≤ length r.2)%nat).
Proof.
  intros Hw Hb Hi. unfold shown, cut. cbn [fst snd]. rewrite length_map.
  destruct (bool_decide (25 < length bufs)%nat).
  - assert (Forall good_ptr (take 2 bufs)) as Hb2 by by apply Forall_take.
    rewrite bind_assoc. eapply wp_bind; [by apply LogFile.logfile_append_spec|]. intros o1 (Hi1 & Ht1 & _). cbn [res_bind].
    eapply wp_bind; [by apply write_all_spec|]. intros o2 (Hi2 & Ht2). cbn [wp fst snd].
    split_and!; [done| |done|rewrite length_take; lia].
    rewrite Ht2, Ht1, <- app_assoc. unfold texts. by rewrite firstn_map.
  - cbn [res_bind]. eapply wp_bind; [by apply write_all_spec|]. intros o2 (Hi2 & Ht2). cbn [wp fst snd].
    split_and!; [done|done|done|lia].
Qed.

(** [thread_write] is: log the batch, keep two buffers, refill, flush. *)
Lemma thread_write_eq now w s out :
  output s = Some out → buffersToWrite s ≠ [] →
  thread_write now w s =
    let bufs := buffersToWrite s in
    let big := bool_decide (25 < length bufs)%nat in
    let! (out, bufs) :=
      (let! (out, bufs) :=
         (if big then let! out := file_append w 0 (notice now (length bufs)) out in Ok (out, take 2 bufs)
          else Ok (out, bufs)) in
       let! out := write_all w 1 bufs out in Ok (out, bufs)) in
    let bufs := if bool_decide (2 < length bufs)%nat then take 2 bufs else bufs in
    let! (n1, bufs) := refill (newBuffer1 s) bufs in
    let! (n2, bufs) := refill (newBuffer2 s) bufs in
    let! s := flush_output (set_output (Some out)
      (set_books (appended s) (batches s ++ [(now, map ptr_text (buffersToWrite s))]) s)) in
    Ok (set_back Testing n1 n2 [] s).
Proof.
  intros Ho Hne. unfold thread_write. rewrite bool_decide_false by done. cbn [negb]. rewrite Ho. cbn zeta.
  rewrite bind_assoc. destruct (if bool_decide _ then _ else _) as [[o b]|]; [|done]. cbn [res_bind].
  rewrite bind_assoc. by destruct (write_all _ _ _ _).
Qed.

Lemma write_inv now w s :
  inv s → at_ s = Writing → (∀ i, FileUtil.disk_ok (w i).1) →
  wp (thread_write now w s) (λ s', inv s' ∧ at_ s' = Testing ∧ buffers_ s' = buffers_ s ∧ currentBuffer_ s' = currentBuffer_ s ∧
    appended s' = appended s).
Proof.
  intros [Hc Hn Hb Hneed Hp (J1 & J2)] Hat Hw. unfold place_inv in Hp. rewrite Hat in Hp.
  destruct Hp as (Hl & (out & Ho & Hi) & Hf1 & Hg & Hne & Hf2).
  rewrite (thread_write_eq _ _ _ _ Ho Hne). cbn zeta. eapply wp_bind; [by apply log_batch_spec|].
  intros [o bufs] (Hio & Ht & Hgb & Hlen). cbn [fst snd] in *.
  set (bufs2 := if bool_decide _ then _ else _).
  assert (Forall good_ptr bufs2 ∧ (Nat.min 2 (length (buffersToWrite s)) ≤ length bufs2)%nat) as [Hg2 Hlen2].
  { unfold bufs2. destruct (bool_decide (2 < length bufs)%nat); [|done]. split; [by apply Forall_take|]. rewrite length_take. lia. }
  assert (1 ≤ length (buffersToWrite s))%nat as Hne' by (destruct (buffersToWrite s); [done|cbn; lia]).
  eapply wp_bind; [apply refill_spec; [done|]|].
  { right. split; [done|]. intros E. apply (f_equal length) in E. cbn [length] in E. lia. }
  intros [n1 b1] (Hn1 & Hgb1 & Hl1). cbn [fst snd] in *. eapply wp_bind; [apply refill_spec; [done|]|].
  { destruct Hf2 as [|[E Hl2]]; [by left|]. right. split; [done|]. intros E1. apply (f_equal length) in E1. cbn [length] in E1. lia. }
  intros [n2 b2] (Hn2 & _ & _). cbn [fst snd] in *. eapply wp_bind; [by eapply flush_inv|].
  intros s' (o' & -> & Hio' & Ht' & Hk'). split_and!; [|done..]. constructor; cbn; try done.
  - split_and!; [done|by exists o'|done..].
  - unfold journal, logged, pending in *. cbn. rewrite Ho in J1. cbn in J1. rewrite !map_app, !concat_app. cbn. rewrite !app_nil_r. split.
    + by rewrite Ht', Ht, J1.
    + by rewrite J2, <- app_assoc.
Qed.

Lemma async_step_inv e s : inv s → event_ok e s → wp (step e s) inv.
Proof.
  intros Hi He. destruct e as [l| |now1 now2| | | |now w]; cbn [step event_ok] in *.
  - by apply append_inv.
  - destruct Hi as [Hc Hn Hb Hneed Hp Hj]. constructor; try done. unfold place_inv in *. cbn.
    destruct (at_ s); try done. destruct Hp as (? & _). lia.
  - apply start_inv; tauto.
  - by apply test_inv.
  - by apply lock_inv.
  - apply swap_inv; [done|by left].
  - eapply wp_mono; [apply write_inv; tauto|]. tauto.
Qed.

Lemma new_async_inv rollTime : inv (new_AsyncLogging rollTime).
Proof.
  constructor; cbn; [by apply fresh_good, bzero_fresh|right; apply bzero_fresh|constructor|done|done|].
  unfold journal, logged, pending. pose proof (fresh_text _ bzero_fresh) as E. cbn in *. by rewrite E.
Qed.

Lemma async_reach_inv rollTime s : reach rollTime s → inv s.
Proof. induction 1 as [|s e s' _ IH He Hs]; [apply new_async_inv|]. by eapply wp_inv; [apply async_step_inv|]. Qed.

(** C10. The log back end, when its file opens and the disk takes what it is given: in
    every interleaving of appending threads, the back-end thread, its timeouts and
    [stop()], no assertion of [threadFunc] fails and no null buffer is used.  What was
    written is a sequence of batches of buffers: the batches given, followed by the
    buffers still in memory, are every line that fits a buffer, whole and in the order of
    the [append] calls; the log file is the batches shown, where a batch of up to 25
    buffers is shown in full, and a larger one as the notice of its time and of the
    number of buffers left out, followed by its first two buffers.  So, as long as no
    batch is cut, the file and the buffers in memory are exactly the lines.  Outside the writing section
    everything the file was given has been flushed.  (Buffers still in memory when the
    thread leaves its loop stay there, see [stop_loses_lines].) *)
Theorem async_logging_complete rollTime s :
  reach rollTime s →
  (∀ e, event_ok e s → ∃ s', step e s = Ok s') ∧
  logged s = concat (map shown (batches s)) ∧
  wanted (appended s) = concat (map given (batches s)) ++ pending s ∧
  (Forall (λ b, cut b = false) (batches s) → wanted (appended s) = logged s ++ pending s) ∧
  (at_ s = Testing ∨ at_ s = Locking ∨ at_ s = Waiting ∨ at_ s = Finished → on_disk s = logged s).
Proof.
  intros Hi%async_reach_inv. destruct (i_journal s Hi) as [J1 J2]. split_and!; [|done|done| |].
  - intros e He. pose proof (async_step_inv e s Hi He) as Hs. apply wp_elim in Hs as (s' & ? & _). eauto.
  - intros Hc. rewrite J1, J2. f_equal. f_equal. apply map_ext_Forall. eapply Forall_impl; [exact Hc|].
    intros b Hb. unfold shown, given. by rewrite Hb.
  - pose proof (i_place s Hi) as Hp. unfold place_inv in Hp. intros [E|[E|[E|E]]]; rewrite E in Hp; by destruct_and! Hp.
Qed.

(** One round of the back end. *)
Fixpoint run (es : list event) (s : AsyncLogging) : res AsyncLogging :=
  match es with
  | [] => Ok s
  | e :: es => let! s := step e s in run es s
  end.

Lemma write_pending now w s :
  inv s → at_ s = Writing → (∀ i, FileUtil.disk_ok (w i).1) → buffers_ s = [] → ptr_text (currentBuffer_ s) = [] →
  wp (thread_write now w s) (λ s', pending s' = [] ∧ appended s' = appended s ∧ on_disk s' = logged s' ∧ at_ s' = Testing).
Proof.
  intros Hi Hat Hw Hb Hc. eapply wp_mono; [by apply write_inv|]. intros s' (Hi' & Hat' & Eb & Ec & Ea).
  pose proof (i_place s' Hi') as Hp. unfold place_inv in Hp. rewrite Hat' in Hp. destruct_and! Hp.
  split_and!; [|done..]. unfold pending. rewrite Eb, Ec, Hb, Hc. by destruct (buffersToWrite s').
Qed.

Lemma swap_pending s :
  inv s → (at_ s = Waiting ∨ (at_ s = Locking ∧ buffers_ s ≠ [])) →
  wp (swap_buffers s) (λ s', inv s' ∧ at_ s' = Writing ∧ buffers_ s' = [] ∧ ptr_text (currentBuffer_ s') = [] ∧ appended s' = appended s).
Proof.
  intros Hi Hat. pose proof (i_place s Hi) as Hp. unfold place_inv in Hp.
  assert (fresh (newBuffer1 s) ∧ buffersToWrite s = []) as [Hf Hw]
    by (destruct Hat as [E|[E _]]; rewrite E in Hp; by destruct_and! Hp).
  eapply wp_mono; [apply wp_conj; [by apply swap_inv|]|intros s' [H1 H2]; split; [exact H1|exact H2]].
  unfold swap_buffers. destruct (nextBuffer_ s); cbn [wp]; rewrite Hw; (split_and!; [done|done|by apply fresh_text|done]).
Qed.

(** Delivery: whenever the back-end thread starts a round, the round ends (the wait
    is over at the latest after [flushInterval_] seconds) and everything appended before
    is in the file and flushed; nothing stays in memory. *)
Theorem async_logging_delivers rollTime s now w :
  reach rollTime s → at_ s = Testing → running_ s = true → (∀ i, FileUtil.disk_ok (w i).1) →
  ∃ es, (es = [Test; Lock; Wake; Write now w] ∨ es = [Test; Lock; Write now w]) ∧
  wp (run es s) (λ s', pending s' = [] ∧ appended s' = appended s ∧ on_disk s' = logged s' ∧ at_ s' = Testing).
Proof.
  intros Hi%async_reach_inv Hat Hr Hw. pose proof (test_inv s Hi Hat) as Ht. unfold thread_test in Ht. rewrite Hr in Ht.
  cbn [wp] in Ht. set (s1 := set_at Locking s) in *.
  assert (∀ s2, inv s2 → appended s2 = appended s → (at_ s2 = Waiting ∨ (at_ s2 = Locking ∧ buffers_ s2 ≠ [])) →
    wp (let! s := swap_buffers s2 in let! s := thread_write now w s in Ok s)
      (λ s', pending s' = [] ∧ appended s' = appended s ∧ on_disk s' = logged s' ∧ at_ s' = Testing)) as Hround.
  { intros s2 Hi2 Ha Hat2. eapply wp_bind; [by apply swap_pending|]. intros s3 (Hi3 & Hat3 & Hb & Hc & Ha3).
    eapply wp_bind; [by apply write_pending|]. intros s4 (? & ? & ? & ?). cbn. split_and!; [done|congruence|done..]. }
  pose proof (lock_inv s1 Ht eq_refl) as Hl. pose proof (i_place s1 Ht) as (_ & _ & Hf1 & Hf2 & Hw1 & _).
  unfold thread_lock in Hl. rewrite !fresh_is_reset, bool_decide_true in Hl by done.
  destruct (buffers_ s1) as [|x l] eqn:Eb; [exists [Test; Lock; Wake; Write now w]|exists [Test; Lock; Write now w]]; (split; [tauto|]);
    cbn [run step]; unfold thread_test; rewrite Hr; cbn [res_bind]; fold s1;
    unfold thread_lock; rewrite !fresh_is_reset, bool_decide_true, Eb by done; cbn [res_bind].
  - apply Hround; [done|done|by left].
  - apply Hround; [done|done|]. right. by rewrite Eb.
Qed.

Fixpoint allowed_run (es : list event) (s : AsyncLogging) : Prop :=
  match es with
  | [] => True
  | e :: es => event_ok e s ∧ match step e s with Ok s => allowed_run es s | Err _ => False end
  end.

Lemma async_run_reach rollTime es s s' : reach rollTime s → allowed_run es s → run es s = Ok s' → reach rollTime s'.
Proof.
  revert s. induction es as [|e es IH]; intros s Hr Ha; cbn in *; [by intros [= <-]|].
  destruct Ha as [He Ha]. destruct (step e s) as [s1|] eqn:E; [|done]. cbn. apply IH; [by eapply reach_step|done].
Qed.

End Logging.

(** ** A concrete back end: buffers of eight bytes *)

Definition demo_step := step LogFile.demo_tm LogFile.demo_tm (str "host") 7 8 (str "log") 100 8.
Definition demo_run := run LogFile.demo_tm LogFile.demo_tm (str "host") 7 8 (str "log") 100 8.
Definition demo_new : AsyncLogging := new_AsyncLogging 8 0.
Definition demo_io : nat → list Z * Z := λ i, ([3; 1], 20 + Z.of_nat i).

Definition demo_events : list event :=
  [Append (str "one, "); Start 10 10; Test; Append (str "two, "); Lock; Append (str "three"); Write 5 demo_io].
Definition demo_state : AsyncLogging := match demo_run demo_events demo_new with Ok s => s | Err _ => demo_new end.

Lemma demo_reach : reach LogFile.demo_tm LogFile.demo_tm (str "host") 7 8 (str "log") 100 8 0 demo_state.
Proof.
  eapply async_run_reach with (es := demo_events); [apply reach_new| |by vm_compute].
  vm_compute. split_and!; try done. intros i. by repeat constructor.
Qed.

Lemma async_logging_complete_witness :
  logged demo_state = str "one, two, " ∧ pending demo_state = str "three" ∧
  (at_ demo_state = Testing ∨ at_ demo_state = Locking ∨ at_ demo_state = Waiting ∨ at_ demo_state = Finished →
   on_disk demo_state = logged demo_state).
Proof.
  split_and!; [by vm_compute..|].
  eapply async_logging_complete; [| |apply demo_reach]; lia.
Defined.

Lemma async_logging_delivers_witness :
  ∃ es, wp (demo_run es demo_state) (λ s', pending s' = [] ∧ appended s' = appended demo_state ∧ on_disk s' = logged s' ∧ at_ s' = Testing).
Proof.
  destruct (async_logging_delivers LogFile.demo_tm LogFile.demo_tm (str "host") 7 8 (str "log") 100 8 ltac:(lia) ltac:(lia)
    0 demo_state 6 demo_io demo_reach) as (es & _ & H).
  - by vm_compute.
  - by vm_compute.
  - intros i. by repeat constructor.
  - exists es. exact H.
Defined.

(** A line appended while the back end writes, just before [stop()], is lost: the thread
    leaves its loop without looking at the buffers again. *)
Lemma stop_loses_lines :
  wp (demo_run [Start 10 10; Test; Lock; Wake; Append (str "bye"); Stop; Write 5 demo_io; Test] demo_new)
     (λ s, at_ s = Finished ∧ logged s = [] ∧ pending s = str "bye").
Proof. by vm_compute. Qed.

(** Thirty full buffers pile up while the back end waits: it writes the notice and two of
    them. *)
Definition flood : list event :=
  [Start 10 10; Test; Lock] ++ replicate 29 (Append (str "seven.."))  ++ [Wake; Write 5 demo_io].

Lemma flood_is_cut :
  wp (demo_run flood demo_new)
     (λ s, map cut (batches s) = [true] ∧
           logged s = str "Dropped log messages at 1200001 00:00:05.000005, 27 larger buffers" ++ [Byte.x0a] ++
                      str "seven..seven..").
Proof. by vm_compute. Qed.

End AsyncLogging.
