(* ===== verification/Connector.v ===== *)
(** Connecting with retries ([netLayer/tcp/c/Connector.h], [Connector.cpp]).

    The state is the connector's members and what its loop holds for it: the functors
    and the retry timers.  Sockets are numbered in the order of their creation, so that
    the books on them (closed, handed to the client) can be balanced.  The kernel's
    answers are arguments. *)

From S2P Require Import Prelude.

Module Connector.

Inductive States := kDisconnected | kConnecting | kConnected.

#[global] Instance States_eq_dec : EqDecision States.
Proof. solve_decision. Defined.

Definition kMaxRetryDelayMs : Z := 30 * 1000.
Definition kInitRetryDelayMs : Z := 500.

(** The results of connect(2) the source distinguishes. *)
Inductive errno :=
| E0 | EINPROGRESS | EINTR | EISCONN
| EAGAIN | EADDRINUSE | EADDRNOTAVAIL | ECONNREFUSED | ENETUNREACH
| EACCES | EPERM | EAFNOSUPPORT | EALREADY | EBADF | EFAULT | ENOTSOCK
| EOTHER.

Inductive functor := FStart | FStop | FReset.

#[global] Instance functor_eq_dec : EqDecision functor.
Proof. solve_decision. Defined.

(** [channel_]: its descriptor and whether it is in the poller. *)
Record Connector := mkConnector {
  connect_ : bool;
  state_ : States;
  channel_ : option (Z * bool);
  retryDelayMs_ : Z;
  pending : list functor;
  timers : list Z;        (* the delays of the pending retries *)
  next : Z;               (* sockets created so far *)
  closed : list Z;
  handed : list Z;        (* given to newConnectionCallback_ *)
}.

Definition new_Connector : Connector := mkConnector false kDisconnected None kInitRetryDelayMs [] [] 0 [] [].

Definition set_connect (v : bool) (c : Connector) : Connector :=
  mkConnector v (state_ c) (channel_ c) (retryDelayMs_ c) (pending c) (timers c) (next c) (closed c) (handed c).
Definition set_state (v : States) (c : Connector) : Connector :=
  mkConnector (connect_ c) v (channel_ c) (retryDelayMs_ c) (pending c) (timers c) (next c) (closed c) (handed c).
Definition set_channel (v : option (Z * bool)) (c : Connector) : Connector :=
  mkConnector (connect_ c) (state_ c) v (retryDelayMs_ c) (pending c) (timers c) (next c) (closed c) (handed c).
Definition set_delay (v : Z) (c : Connector) : Connector :=
  mkConnector (connect_ c) (state_ c) (channel_ c) v (pending c) (timers c) (next c) (closed c) (handed c).
Definition set_pending (v : list functor) (c : Connector) : Connector :=
  mkConnector (connect_ c) (state_ c) (channel_ c) (retryDelayMs_ c) v (timers c) (next c) (closed c) (handed c).
Definition set_timers (v : list Z) (c : Connector) : Connector :=
  mkConnector (connect_ c) (state_ c) (channel_ c) (retryDelayMs_ c) (pending c) v (next c) (closed c) (handed c).
Definition set_next (v : Z) (c : Connector) : Connector :=
  mkConnector (connect_ c) (state_ c) (channel_ c) (retryDelayMs_ c) (pending c) (timers c) v (closed c) (handed c).
Definition set_closed (v : list Z) (c : Connector) : Connector :=
  mkConnector (connect_ c) (state_ c) (channel_ c) (retryDelayMs_ c) (pending c) (timers c) (next c) v (handed c).
Definition set_handed (v : list Z) (c : Connector) : Connector :=
  mkConnector (connect_ c) (state_ c) (channel_ c) (retryDelayMs_ c) (pending c) (timers c) (next c) (closed c) v.

Definition queue (f : functor) (c : Connector) : Connector := set_pending (pending c ++ [f]) c.
Definition close (fd : Z) (c : Connector) : Connector := set_closed (closed c ++ [fd]) c.

Definition retry (sockfd : Z) (c : Connector) : Connector :=
  let c := set_state kDisconnected (close sockfd c) in
  if connect_ c then
    let c := set_timers (timers c ++ [retryDelayMs_ c]) c in
    set_delay (Z.min (i32 (retryDelayMs_ c * 2)) kMaxRetryDelayMs) c
  else c.

(** [channel_.reset(new Channel(...)); channel_->enableWriting()]. *)
Definition connecting (sockfd : Z) (c : Connector) : res Connector :=
  let c := set_state kConnecting c in
  assert! bool_decide (channel_ c = None) in
  Ok (set_channel (Some (sockfd, true)) c).

Definition connect (e : errno) (c : Connector) : res Connector :=
  let sockfd := next c in
  let c := set_next (next c + 1) c in
  match e with
  | E0 | EINPROGRESS | EINTR | EISCONN => connecting sockfd c
  | EAGAIN | EADDRINUSE | EADDRNOTAVAIL | ECONNREFUSED | ENETUNREACH => Ok (retry sockfd c)
  | EACCES | EPERM | EAFNOSUPPORT | EALREADY | EBADF | EFAULT | ENOTSOCK => Ok (close sockfd c)
  | EOTHER => Ok (close sockfd c)
  end.

Definition startInLoop (e : errno) (c : Connector) : res Connector :=
  if connect_ c then connect e c else Ok c.

(** [start()] in the loop's thread. *)
Definition start (e : errno) (c : Connector) : res Connector := startInLoop e (set_connect true c).

Definition restart (e : errno) (c : Connector) : res Connector :=
  startInLoop e (set_connect true (set_delay kInitRetryDelayMs (set_state kDisconnected c))).

Definition stop (c : Connector) : Connector := queue FStop (set_connect false c).

(** [disableAll] and [remove] of the channel; a null [channel_] is dereferenced. *)
Definition removeAndResetChannel (c : Connector) : res (Z * Connector) :=
  match channel_ c with
  | Some (fd, _) => Ok (fd, queue FReset (set_channel (Some (fd, false)) c))
  | None => Err UseAfterFree
  end.

(** [channel_.reset()]; the destructor of [Channel] asserts that it is not in the poller. *)
Definition resetChannel (c : Connector) : res Connector :=
  match channel_ c with
  | Some (_, added) => assert! negb added in Ok (set_channel None c)
  | None => Ok c
  end.

Definition stopInLoop (c : Connector) : res Connector :=
  if bool_decide (state_ c = kConnecting) then
    let c := set_state kDisconnected c in
    let! (sockfd, c) := removeAndResetChannel c in
    Ok (retry sockfd c)
  else Ok c.

(** [err] is [SO_ERROR], [self] is [isSelfConnect]. *)
Definition handleWrite (err self : bool) (c : Connector) : res Connector :=
  if bool_decide (state_ c = kConnecting) then
    let! (sockfd, c) := removeAndResetChannel c in
    if err then Ok (retry sockfd c)
    else if self then Ok (retry sockfd c)
    else
      let c := set_state kConnected c in
      if connect_ c then Ok (set_handed (handed c ++ [sockfd]) c) else Ok (close sockfd c)
  else
    assert! bool_decide (state_ c = kDisconnected) in
    Ok c.

Definition handleError (c : Connector) : res Connector :=
  if bool_decide (state_ c = kConnecting) then
    let! (sockfd, c) := removeAndResetChannel c in
    Ok (retry sockfd c)
  else Ok c.

Definition run_functor (f : functor) (e : errno) (c : Connector) : res Connector :=
  match f with
  | FStart => startInLoop e c
  | FStop => stopInLoop c
  | FReset => resetChannel c
  end.

Inductive event :=
| Start (e : errno)              (* start() in the loop's thread *)
| OtherStart                     (* start() in another thread *)
| Restart (e : errno)
| Stop
| RunFunctor (e : errno)
| Timer (e : errno)              (* the first retry timer expires *)
| Ready (error write err self : bool).  (* the poller reports the channel *)

Definition step (ev : event) (c : Connector) : res Connector :=
  match ev with
  | Start e => start e c
  | OtherStart => Ok (queue FStart (set_connect true c))
  | Restart e => restart e c
  | Stop => Ok (stop c)
  | RunFunctor e =>
      match pending c with
      | [] => Ok c
      | f :: fs => run_functor f e (set_pending fs c)
      end
  | Timer e =>
      match timers c with
      | [] => Ok c
      | _ :: ts => startInLoop e (set_timers ts c)
      end
  | Ready error write err self =>
      (* Channel::handleEventWithGuard: the error callback, then the write callback *)
      let! c := (if error then handleError c else Ok c) in
      if write then handleWrite err self c else Ok c
  end.

(** Nothing is under way: no channel, no functor, no retry. *)
Definition at_rest (c : Connector) : Prop := channel_ c = None ∧ pending c = [] ∧ timers c = [].

(** The loop runs the functors queued by a handler before it polls again; the poller
    reports registered channels; the client starts the connector when nothing is
    under way. *)
Definition event_ok (ev : event) (c : Connector) : Prop :=
  match ev with
  | Start _ | OtherStart | Restart _ => at_rest c
  | Stop => True
  | RunFunctor _ => True
  | Timer _ => timers c ≠ [] ∧ (FReset ∉ pending c)
  | Ready _ _ _ _ => ∃ fd, channel_ c = Some (fd, true)
  end.

Inductive reach : Connector → Prop :=
| reach_new : reach new_Connector
| reach_step c ev c' : reach c → event_ok ev c → step ev c = Ok c' → reach c'.

(** ** Invariant *)

Definition starts (c : Connector) : nat := length (filter (λ f, f = FStart) (pending c)).

Definition registered (c : Connector) : list Z :=
  match channel_ c with Some (fd, true) => [fd] | _ => [] end.

Definition delay_ok (d : Z) : Prop := kInitRetryDelayMs ≤ d ≤ kMaxRetryDelayMs.

Record inv (c : Connector) : Prop := {
  i_state : state_ c = kConnecting ↔ registered c ≠ [];
  i_reset :
    match channel_ c with
    | Some (_, false) => ∃ l1 l2, pending c = l1 ++ FReset :: l2 ∧ (FReset ∉ l1) ∧ (FReset ∉ l2)
    | _ => FReset ∉ pending c
    end;
  i_one : (length (timers c) + starts c + length (registered c) ≤ 1)%nat;
  i_start : (0 < starts c)%nat → channel_ c = None;
  i_books : closed c ++ handed c ++ registered c ≡ₚ seqZ 0 (next c);
  i_next : 0 ≤ next c;
  i_delay : delay_ok (retryDelayMs_ c);
  i_timers : Forall delay_ok (timers c);
}.

Lemma delay_doubles d : delay_ok d → delay_ok (Z.min (i32 (d * 2)) kMaxRetryDelayMs).
Proof.
  unfold delay_ok, kInitRetryDelayMs, kMaxRetryDelayMs. intros Hd. rewrite i32_small by lia. lia.
Qed.

Lemma seqZ_snoc n : 0 ≤ n → seqZ 0 (n + 1) = seqZ 0 n ++ [n].
Proof. intros Hn. rewrite seqZ_app by lia. done. Qed.

(** A new socket that is closed, handed over or waited for balances the books. *)
Lemma books_new l n : 0 ≤ n → l ≡ₚ seqZ 0 n → l ++ [n] ≡ₚ seqZ 0 (n + 1).
Proof. intros Hn Hl. by rewrite seqZ_snoc, Hl. Qed.

(** [retry] of a socket that is in nobody's books. *)
Lemma retry_inv sockfd c :
  registered c = [] → timers c = [] → starts c = 0%nat →
  match channel_ c with
  | Some (_, false) => ∃ l1 l2, pending c = l1 ++ FReset :: l2 ∧ (FReset ∉ l1) ∧ (FReset ∉ l2)
  | _ => FReset ∉ pending c
  end →
  sockfd :: closed c ++ handed c ≡ₚ seqZ 0 (next c) → 0 ≤ next c → delay_ok (retryDelayMs_ c) →
  inv (retry sockfd c).
Proof.
  intros Hr Ht Hs Hp Hb Hn Hd.
  assert (∀ l, (closed c ++ [sockfd]) ++ handed c ++ l ≡ₚ sockfd :: closed c ++ handed c ++ l) as Hperm.
  { intros l. rewrite <- app_assoc. cbn. by rewrite <- Permutation_middle. }
  unfold retry. cbn. destruct (connect_ c).
  all: constructor; unfold registered, starts in *; cbn; rewrite ?Hr, ?Ht, ?Hs; try done; try (intros; cbn; lia).
  all: try (rewrite Hperm, app_nil_r; done).
  all: first [by apply delay_doubles|by constructor].
Qed.

Lemma connect_ok e c :
  inv c → channel_ c = None → timers c = [] → starts c = 0%nat → wp (connect e c) inv.
Proof.
  intros [Hst Hre Hone Hsta Hb Hn Hd Htm] Hch Ht Hs. unfold connect. rewrite Hch in Hre.
  unfold registered in Hb, Hst. rewrite Hch in Hb, Hst. rewrite app_nil_r in Hb.
  assert (inv (retry (next c) (set_next (next c + 1) c))) as Hretry.
  { apply retry_inv; try done; cbn; [unfold registered; cbn; by rewrite Hch|by rewrite Hch| |lia].
    rewrite Permutation_cons_append. by apply books_new. }
  assert (inv (close (next c) (set_next (next c + 1) c))) as Hclose.
  { constructor; unfold registered, starts in *; cbn; rewrite ?Hch, ?Ht, ?Hs; try done; try (intros; cbn; lia).
    rewrite app_nil_r, <- app_assoc, (Permutation_app_comm [_]), app_assoc. by apply books_new. }
  assert (wp (connecting (next c) (set_next (next c + 1) c)) inv) as Hconn.
  { unfold connecting. cbn. rewrite bool_decide_true by done. cbn.
    constructor; unfold registered, starts in *; cbn; rewrite ?Ht, ?Hs; try done; try (intros; cbn; lia).
    rewrite app_assoc. by apply books_new. }
  by destruct e.
Qed.

(** The channel leaves the poller and its socket goes one of three ways. *)
Lemma removed_ok c fd :
  inv c → channel_ c = Some (fd, true) →
  let c1 := queue FReset (set_channel (Some (fd, false)) c) in
  inv (retry fd c1) ∧ inv (retry fd (set_state kDisconnected c1)) ∧
  inv (set_handed (handed c1 ++ [fd]) (set_state kConnected c1)) ∧ inv (close fd (set_state kConnected c1)).
Proof.
  intros [Hst Hre Hone Hsta Hb Hn Hd Htm] Hch c1. unfold registered in *. rewrite Hch in *. cbn in Hone.
  assert (timers c = []) as Ht by (destruct (timers c); [done|cbn in Hone; lia]).
  assert (starts c = 0%nat) as Hs by lia.
  assert (starts c1 = 0%nat) as Hs1 by (unfold starts, c1; cbn; by rewrite filter_app, length_app; unfold starts in Hs; rewrite Hs).
  assert (∃ l1 l2, pending c1 = l1 ++ FReset :: l2 ∧ (FReset ∉ l1) ∧ (FReset ∉ l2)) as Hp1.
  { exists (pending c), []. split_and!; [done..|apply not_elem_of_nil]. }
  assert (fd :: closed c ++ handed c ≡ₚ seqZ 0 (next c)) as Hb1 by (rewrite <- Hb, app_assoc, <- Permutation_cons_append; done).
  split_and!.
  - by apply retry_inv.
  - by apply retry_inv.
  - constructor; unfold registered; cbn; rewrite ?Ht; try done; try (unfold starts in *; cbn in *; intros; lia).
    rewrite app_nil_r. rewrite <- Hb1, app_assoc, <- Permutation_cons_append. done.
  - constructor; unfold registered; cbn; rewrite ?Ht; try done; try (unfold starts in *; cbn in *; intros; lia).
    rewrite app_nil_r, <- Hb1, <- app_assoc. symmetry. apply Permutation_middle.
Qed.

Lemma connecting_channel c : inv c → state_ c = kConnecting → ∃ fd, channel_ c = Some (fd, true).
Proof.
  intros Hi Hs. apply (i_state _ Hi) in Hs. unfold registered in Hs. destruct (channel_ c) as [[fd []]|]; eauto; done.
Qed.

Lemma handleError_ok c : inv c → wp (handleError c) inv.
Proof.
  intros Hi. unfold handleError. case_bool_decide as Hs; [|done].
  destruct (connecting_channel c Hi Hs) as [fd Hch]. unfold removeAndResetChannel. rewrite Hch. cbn [res_bind wp].
  by apply removed_ok.
Qed.

Lemma stopInLoop_ok c : inv c → wp (stopInLoop c) inv.
Proof.
  intros Hi. unfold stopInLoop. case_bool_decide as Hs; [|done].
  destruct (connecting_channel c Hi Hs) as [fd Hch]. unfold removeAndResetChannel. cbn [channel_ set_state].
  rewrite Hch. cbn [res_bind wp]. by apply (removed_ok c fd).
Qed.

Lemma handleWrite_ok err self c : inv c → state_ c ≠ kConnected → wp (handleWrite err self c) inv.
Proof.
  intros Hi Hk. unfold handleWrite. case_bool_decide as Hs.
  - destruct (connecting_channel c Hi Hs) as [fd Hch]. unfold removeAndResetChannel. rewrite Hch. cbn [res_bind].
    destruct (removed_ok c fd Hi Hch) as (H1 & _ & H3 & H4). destruct err; [done|]. destruct self; [done|].
    cbn. destruct (connect_ c); done.
  - rewrite bool_decide_true; [done|]. by destruct (state_ c).
Qed.

(** A functor that is not [FReset] leaves the queue. *)
Lemma pop_inv c f fs :
  inv c → pending c = f :: fs → f ≠ FReset →
  inv (set_pending fs c) ∧ (f = FStart → channel_ c = None ∧ timers c = [] ∧ starts (set_pending fs c) = 0%nat).
Proof.
  intros [Hst Hre Hone Hsta Hb Hn Hd Htm] Hp Hf.
  assert (starts c = (if decide (f = FStart) then S (starts (set_pending fs c)) else starts (set_pending fs c))) as Es.
  { unfold starts. cbn. rewrite Hp, filter_cons. by case_decide. }
  rewrite Hp in Hre. split.
  - constructor; try done; cbn in *.
    + destruct (channel_ c) as [[fd []]|].
      * by apply not_elem_of_cons in Hre as [_ ?].
      * destruct Hre as ([|g l1] & l2 & [= -> ->] & H1 & H2); [done|]. exists l1, l2. split_and!; [done| |done].
        by apply not_elem_of_cons in H1 as [_ ?].
      * by apply not_elem_of_cons in Hre as [_ ?].
    + rewrite Es in Hone. unfold registered in *. cbn. case_decide; lia.
    + intros Hs. apply Hsta. rewrite Es. case_decide; lia.
  - intros ->. rewrite decide_True in Es by done. split_and!; [apply Hsta; lia| |lia].
    destruct (timers c); [done|]. cbn in Hone. lia.
Qed.

Lemma reset_ok c fs : inv c → pending c = FReset :: fs → wp (resetChannel (set_pending fs c)) inv.
Proof.
  intros [Hst Hre Hone Hsta Hb Hn Hd Htm] Hp. rewrite Hp in Hre. unfold resetChannel. cbn.
  destruct (channel_ c) as [[fd []]|] eqn:Hch; [by apply not_elem_of_cons in Hre as [? _]| |by apply not_elem_of_cons in Hre as [? _]].
  cbn. destruct Hre as ([|g l1] & l2 & E & H1 & H2); simplify_eq/=; [|by apply not_elem_of_cons in H1 as [? _]].
  assert (starts c = starts (set_channel None (set_pending l2 c))) as Es.
  { unfold starts. cbn. rewrite Hp, filter_cons. by rewrite decide_False. }
  unfold registered in *. rewrite Hch in *. constructor; unfold registered; cbn [channel_ set_channel set_pending timers pending state_ closed handed next]; rewrite <- ?Es; done.
Qed.

Lemma connector_step_ok ev c : inv c → event_ok ev c → wp (step ev c) inv.
Proof.
  intros Hi He. destruct ev as [e| |e| |e|e|error write err self]; cbn [step event_ok] in *.
  - destruct He as (Hch & Hp & Ht). apply connect_ok; try done; [by destruct Hi; constructor|].
    unfold starts. cbn. by rewrite Hp.
  - destruct He as (Hch & Hp & Ht). destruct Hi as [Hst Hre Hone Hsta Hb Hn Hd Htm]. cbn.
    constructor; unfold registered, starts in *; cbn; rewrite ?Hp, ?Ht, ?Hch in *; try done; try (cbn; lia).
    cbn. intros F. apply list_elem_of_singleton in F. done.
  - destruct He as (Hch & Hp & Ht). apply connect_ok; try done; [|unfold starts; cbn; by rewrite Hp].
    destruct Hi as [Hst Hre Hone Hsta Hb Hn Hd Htm]. unfold registered in *. rewrite Hch in *.
    constructor; unfold registered; cbn; rewrite ?Hch; try done.
  - destruct Hi as [Hst Hre Hone Hsta Hb Hn Hd Htm]. cbn.
    assert (starts (stop c) = starts c) as Es.
    { unfold starts. cbn [pending stop queue set_pending set_connect]. rewrite filter_app, length_app. apply Nat.add_0_r. }
    constructor; try done; [|by rewrite Es..]. cbn. destruct (channel_ c) as [[fd []]|].
    + intros [F|F%list_elem_of_singleton]%elem_of_app; done.
    + destruct Hre as (l1 & l2 & -> & ? & ?). exists l1, (l2 ++ [FStop]). split_and!; [by rewrite <- app_assoc|done|].
      intros [F|F%list_elem_of_singleton]%elem_of_app; done.
    + intros [F|F%list_elem_of_singleton]%elem_of_app; done.
  - destruct (pending c) as [|f fs] eqn:Hp; [done|]. destruct (decide (f = FReset)) as [->|Hf]; [by apply reset_ok|].
    destruct (pop_inv c f fs Hi Hp Hf) as [Hi' Hst]. destruct f; [|by apply stopInLoop_ok|done].
    destruct (Hst eq_refl) as (? & ? & ?). cbn [run_functor]. unfold startInLoop. case_match; [by apply connect_ok|done].
  - destruct (timers c) as [|t ts] eqn:Ht; [done|]. destruct He as [_ Hnr].
    destruct Hi as [Hst Hre Hone Hsta Hb Hn Hd Htm]. rewrite Ht in *. cbn in Hone.
    assert (channel_ c = None ∧ ts = [] ∧ starts c = 0%nat) as (Hch & -> & Hs).
    { unfold registered in Hone. split_and!; [|destruct ts; [done|cbn in Hone; lia]|lia].
      destruct (channel_ c) as [[fd []]|]; [cbn in Hone; lia| |done].
      destruct Hre as (l1 & l2 & E & _). destruct Hnr. rewrite E. apply elem_of_app. right. apply list_elem_of_here. }
    assert (inv (set_timers [] c)) as Hi'.
    { constructor; try done. unfold starts, registered in *. cbn in *. lia. }
    unfold startInLoop. destruct (connect_ _); [by apply connect_ok|done].
  - destruct He as [fd Hch]. assert (state_ c = kConnecting) as Hs.
    { apply (i_state _ Hi). unfold registered. by rewrite Hch. }
    eapply (wp_bind _ _ (λ c', inv c' ∧ state_ c' ≠ kConnected)).
    + destruct error; [|by split; [|rewrite Hs]]. apply wp_conj; [by apply handleError_ok|].
      unfold handleError. rewrite bool_decide_true by done. unfold removeAndResetChannel. rewrite Hch. cbn.
      unfold retry. cbn. by destruct (connect_ c).
    + intros c' [Hi' Hk]. destruct write; [by apply handleWrite_ok|done].
Qed.

Lemma new_inv : inv new_Connector.
Proof.
  constructor; unfold registered, starts; cbn; try done; try lia. apply not_elem_of_nil.
Qed.

Lemma connector_reach_inv c : reach c → inv c.
Proof.
  induction 1 as [|c ev c' Hr IH He Hs]; [apply new_inv|]. pose proof (connector_step_ok ev c IH He) as Hok. by rewrite Hs in Hok.
Qed.


(** The retry timer is not cancelled by [stop()], and [startInLoop] no longer asserts
    that the connector is idle: a client that calls [start()] while a retry is pending
    has two attempts under way, and when the timer expires the assertion that there is
    no channel fails. *)
Theorem start_with_pending_retry_aborts c t ts :
  reach c → channel_ c = None → timers c = t :: ts →
  (let! c := start EINPROGRESS c in step (Timer EINPROGRESS) c) = Err AssertFailed.
Proof.
  intros Hr Hch Ht. unfold start, startInLoop. cbn. unfold connecting. cbn. rewrite Hch. cbn. rewrite Ht. done.
Qed.

Fixpoint run (evs : list event) (c : Connector) : res Connector :=
  match evs with
  | [] => Ok c
  | ev :: evs => let! c := step ev c in run evs c
  end.

(** The server refuses the first attempt. *)
Definition refused : Connector :=
  match run [Start ECONNREFUSED] new_Connector with Ok c => c | Err _ => new_Connector end.

Lemma refused_reach : reach refused.
Proof. eapply (reach_step new_Connector (Start ECONNREFUSED)); [constructor|done|by vm_compute]. Qed.


Lemma start_with_pending_retry_aborts_witness :
  (let! c := start EINPROGRESS refused in step (Timer EINPROGRESS) c) = Err AssertFailed.
Proof. apply (start_with_pending_retry_aborts refused 500 [] refused_reach); by vm_compute. Defined.

End Connector.
