(* ===== verification/TcpClient.v ===== *)
(** The client ([netLayer/tcp/c/client/TcpClient.h], [TcpClient.cpp]): a connector that
    delivers connected sockets, the one connection made of the current socket, and
    reconnecting when it goes down.

    Everything happens in one loop, but another thread may call [connect()]; a step is an
    event, a functor or a call of the program.  Connector and connections share the loop's
    queue of functors.  A connection is reduced to its life, as in [TcpServer], which
    compares the reduction with the detailed model and also shows what a [forceClose] of
    another thread can do ([TcpServer.race_kills]). *)

From S2P Require Import Prelude TcpConnection Connector.

Module TcpClient.

Abbreviation kConnecting := TcpConnection.kConnecting.
Abbreviation kConnected := TcpConnection.kConnected.
Abbreviation kDisconnecting := TcpConnection.kDisconnecting.
Abbreviation kDisconnected := TcpConnection.kDisconnected.

(** A connection.  [c_detached]: its close callback is [detail::removeConnection] instead of
    [TcpClient::removeConnection]. *)
Record conn := mkConn {
  c_name : bytes;
  c_fd : Z;
  c_state : TcpConnection.StateE;
  c_detached : bool;
  c_destroyed : bool;           (* connectDestroyed has run *)
}.

Definition set_cstate (v : TcpConnection.StateE) (x : conn) : conn := mkConn (c_name x) (c_fd x) v (c_detached x) (c_destroyed x).
Definition set_detached (x : conn) : conn := mkConn (c_name x) (c_fd x) (c_state x) true (c_destroyed x).
Definition set_destroyed (x : conn) : conn := mkConn (c_name x) (c_fd x) (c_state x) (c_detached x) true.

(** The functors in the loop's queue: the connector's hold its bare [this], the others a
    [shared_ptr] to a connection. *)
Inductive functor := FC (f : Connector.functor) | FForceClose (i : nat) | FDestroy (i : nat).

#[global] Instance client_functor_eq_dec : EqDecision functor.
Proof. solve_decision. Defined.

(** The client and its surroundings: all connections ever made, the queue, the
    [shared_ptr]s the program keeps.  [connector_] is [None] when it does not exist any
    more. *)
Record TcpClient := mkClient {
  connector_ : option Connector.Connector;
  name_ : bytes;
  retry_ : bool;
  connect_ : bool;
  nextConnId_ : Z;
  connection_ : option nat;
  conns : list conn;
  queue : list functor;
  held : list nat;
  alive : bool;
}.

Definition new_TcpClient (nameArg : bytes) : TcpClient :=
  mkClient (Some Connector.new_Connector) nameArg false true 1 None [] [] [] true.

Definition set_connector (v : option Connector.Connector) (s : TcpClient) : TcpClient :=
  mkClient v (name_ s) (retry_ s) (connect_ s) (nextConnId_ s) (connection_ s) (conns s) (queue s) (held s) (alive s).
Definition set_retry (v : bool) (s : TcpClient) : TcpClient :=
  mkClient (connector_ s) (name_ s) v (connect_ s) (nextConnId_ s) (connection_ s) (conns s) (queue s) (held s) (alive s).
Definition set_connect (v : bool) (s : TcpClient) : TcpClient :=
  mkClient (connector_ s) (name_ s) (retry_ s) v (nextConnId_ s) (connection_ s) (conns s) (queue s) (held s) (alive s).
Definition set_nextConnId (v : Z) (s : TcpClient) : TcpClient :=
  mkClient (connector_ s) (name_ s) (retry_ s) (connect_ s) v (connection_ s) (conns s) (queue s) (held s) (alive s).
Definition set_connection (v : option nat) (s : TcpClient) : TcpClient :=
  mkClient (connector_ s) (name_ s) (retry_ s) (connect_ s) (nextConnId_ s) v (conns s) (queue s) (held s) (alive s).
Definition set_conns (v : list conn) (s : TcpClient) : TcpClient :=
  mkClient (connector_ s) (name_ s) (retry_ s) (connect_ s) (nextConnId_ s) (connection_ s) v (queue s) (held s) (alive s).
Definition set_queue (v : list functor) (s : TcpClient) : TcpClient :=
  mkClient (connector_ s) (name_ s) (retry_ s) (connect_ s) (nextConnId_ s) (connection_ s) (conns s) v (held s) (alive s).
Definition set_held (v : list nat) (s : TcpClient) : TcpClient :=
  mkClient (connector_ s) (name_ s) (retry_ s) (connect_ s) (nextConnId_ s) (connection_ s) (conns s) (queue s) v (alive s).
Definition set_alive (v : bool) (s : TcpClient) : TcpClient :=
  mkClient (connector_ s) (name_ s) (retry_ s) (connect_ s) (nextConnId_ s) (connection_ s) (conns s) (queue s) (held s) v.

Definition enqueue (f : functor) (s : TcpClient) : TcpClient := set_queue (queue s ++ [f]) s.

Definition state_of (i : nat) (s : TcpClient) : TcpConnection.StateE :=
  match conns s !! i with Some x => c_state x | None => kDisconnected end.
Definition on_conn (i : nat) (f : conn → conn) (s : TcpClient) : TcpClient := set_conns (alter f i (conns s)) s.

(** [state_ == kConnected || state_ == kDisconnecting]. *)
Definition is_up (v : TcpConnection.StateE) : bool := bool_decide (v = kConnected) || bool_decide (v = kDisconnecting).

(** ** Connections *)

Definition shutdown (i : nat) (s : TcpClient) : TcpClient :=
  if bool_decide (state_of i s = kConnected) then on_conn i (set_cstate kDisconnecting) s else s.

Definition forceClose (i : nat) (s : TcpClient) : TcpClient :=
  if is_up (state_of i s) then enqueue (FForceClose i) (on_conn i (set_cstate kDisconnecting) s) else s.

Definition connectEstablished (i : nat) (s : TcpClient) : res TcpClient :=
  assert! bool_decide (state_of i s = kConnecting) in
  Ok (on_conn i (set_cstate kConnected) s).

Definition connectDestroyed (i : nat) (s : TcpClient) : res TcpClient :=
  assert! bool_decide (state_of i s = kConnected) || bool_decide (state_of i s = kDisconnected) in
  Ok (on_conn i (λ x, set_destroyed (set_cstate kDisconnected x)) s).

(** ** The client *)

(** [name_ + buf], with the 32 bytes of [buf]. *)
Definition connName (peer : bytes) (s : TcpClient) : bytes :=
  name_ s ++ ztake 31 (str ":" ++ peer ++ str "#" ++ dec (nextConnId_ s)).

Definition newConnection (sockfd : Z) (peer : bytes) (s : TcpClient) : res TcpClient :=
  if negb (alive s) then Err UseAfterFree
  else
    let k := connName peer s in
    let s := set_nextConnId (nextConnId_ s +i 1) s in
    let i := length (conns s) in
    let s := set_conns (conns s ++ [mkConn k sockfd kConnecting false false]) s in
    let s := set_connection (Some i) s in
    connectEstablished i s.

(** A call of the connector: the functors it queues go to the loop's queue, a socket it
    hands over goes to [newConnection]. *)
Definition on_connector (op : Connector.Connector → res Connector.Connector) (peer : bytes) (s : TcpClient) : res TcpClient :=
  match connector_ s with
  | None => Err UseAfterFree
  | Some c =>
      let! c' := op c in
      let s := set_queue (queue s ++ map FC (drop (length (Connector.pending c)) (Connector.pending c'))) s in
      let s := set_connector (Some c') s in
      match drop (length (Connector.handed c)) (Connector.handed c') with
      | sockfd :: _ => newConnection sockfd peer s
      | [] => Ok s
      end
  end.

(** [connect()] in the loop's thread, and in another one. *)
Definition connect (e : Connector.errno) (s : TcpClient) : res TcpClient :=
  if negb (alive s) then Err UseAfterFree else on_connector (Connector.start e) [] (set_connect true s).
Definition connect_other (s : TcpClient) : res TcpClient :=
  if negb (alive s) then Err UseAfterFree else on_connector (Connector.step Connector.OtherStart) [] (set_connect true s).

Definition disconnect (s : TcpClient) : TcpClient :=
  let s := set_connect false s in
  match connection_ s with Some i => shutdown i s | None => s end.

Definition stop (s : TcpClient) : res TcpClient :=
  on_connector (λ c, Ok (Connector.stop c)) [] (set_connect false s).

Definition enableRetry (s : TcpClient) : TcpClient := set_retry true s.

(** [e] is the kernel's answer to the attempt that follows, if one does. *)
Definition removeConnection (e : Connector.errno) (i : nat) (s : TcpClient) : res TcpClient :=
  if negb (alive s) then Err UseAfterFree
  else
    assert! bool_decide (connection_ s = Some i) in
    let s := enqueue (FDestroy i) (set_connection None s) in
    if retry_ s && connect_ s then on_connector (Connector.restart e) [] s else Ok s.

(** [TcpConnection::handleClose] when it closes: the program's connection callback, which
    may call [connect()], then the close callback. *)
Definition handleClose (again : option Connector.errno) (e : Connector.errno) (i : nat) (s : TcpClient) : res TcpClient :=
  assert! is_up (state_of i s) in
  let s := on_conn i (set_cstate kDisconnected) s in
  let! s := (match again with Some e => connect e s | None => Ok s end) in
  match conns s !! i with
  | Some x => if c_detached x then Ok (enqueue (FDestroy i) s) else removeConnection e i s
  | None => Ok s
  end.

Definition forceCloseInLoop (again : option Connector.errno) (e : Connector.errno) (i : nat) (s : TcpClient) : res TcpClient :=
  if is_up (state_of i s) then handleClose again e i s else Ok s.

(** The functors that hold a [shared_ptr] to connection [i]. *)
Definition mentions (i : nat) (f : functor) : bool :=
  match f with FC _ => false | FForceClose j | FDestroy j => (i =? j)%nat end.

(** The destructor, in the loop's thread. *)
Definition delete_TcpClient (s : TcpClient) : res TcpClient :=
  match connection_ s with
  | Some i =>
      let unique := negb (bool_decide (i ∈ held s)) && negb (existsb (mentions i) (queue s)) in
      let s := on_conn i set_detached s in
      let s := if unique then forceClose i s else s in
      (* the members' destructors *)
      match connector_ s with
      | Some c =>
          assert! bool_decide (Connector.channel_ c = None) in
          Ok (set_alive false (set_connection None (set_connector None s)))
      | None => Err UseAfterFree
      end
  | None =>
      (* a timer keeps the connector *)
      let! s := on_connector (λ c, Ok (Connector.stop c)) [] s in
      Ok (set_alive false s)
  end.

(** ** Steps *)

Inductive event :=
| Connect (other : bool) (e : Connector.errno)
| Disconnect
| Stop
| EnableRetry
| ConnectorReady (error write err self : bool) (peer : bytes)
| ConnectorTimer (e : Connector.errno)
| RunFunctor (again : option Connector.errno) (e : Connector.errno)
| PeerClose (i : nat) (again : option Connector.errno) (e : Connector.errno)
| Shutdown (i : nat)
| ForceClose (i : nat)
| Hold (i : nat)              (* the program copies a shared_ptr, and drops it *)
| Release (k : nat)
| Delete.

Definition perform (ev : event) (s : TcpClient) : res TcpClient :=
  match ev with
  | Connect other e => if other then connect_other s else connect e s
  | Disconnect => Ok (disconnect s)
  | Stop => stop s
  | EnableRetry => Ok (enableRetry s)
  | ConnectorReady error write err self peer => on_connector (Connector.step (Connector.Ready error write err self)) peer s
  | ConnectorTimer e => on_connector (Connector.step (Connector.Timer e)) [] s
  | RunFunctor again e =>
      match queue s with
      | [] => Ok s
      | FC f :: q =>
          let s := set_queue q s in
          let s := set_connector (option_map (λ c, Connector.set_pending (tail (Connector.pending c)) c) (connector_ s)) s in
          on_connector (Connector.run_functor f e) [] s
      | FForceClose i :: q => forceCloseInLoop again e i (set_queue q s)
      | FDestroy i :: q => connectDestroyed i (set_queue q s)
      end
  | PeerClose i again e => handleClose again e i s
  | Shutdown i => Ok (shutdown i s)
  | ForceClose i => Ok (forceClose i s)
  | Hold i => Ok (set_held (i :: held s) s)
  | Release k => Ok (set_held (delete k (held s)) s)
  | Delete => delete_TcpClient s
  end.

(** Somebody holds a [shared_ptr] to connection [i]. *)
Definition referenced (i : nat) (s : TcpClient) : bool :=
  bool_decide (connection_ s = Some i) || existsb (mentions i) (queue s) || bool_decide (i ∈ held s).

(** The assertions of [~TcpConnection] and [~Channel] for the connections whose last
    reference is gone. *)
Definition dtors_ok (s : TcpClient) : bool :=
  forallb (λ i, referenced i s ||
    match conns s !! i with Some x => bool_decide (c_state x = kDisconnected) && c_destroyed x | None => true end)
    (seq 0 (length (conns s))).

Definition step (ev : event) (s : TcpClient) : res TcpClient :=
  let! s := perform ev s in
  assert! dtors_ok s in Ok s.

(** The connection is up. *)
Definition up (i : nat) (s : TcpClient) : Prop := is_up (state_of i s) = true.

(** The program's connection callback calls [connect()] only when nothing is under way and
    the client would not reconnect by itself. *)
Definition again_ok (again : option Connector.errno) (s : TcpClient) : Prop :=
  again = None ∨ (alive s = true ∧ retry_ s = false ∧ ∀ c, connector_ s = Some c → Connector.at_rest c).

(** The connector's functors in the queue. *)
Definition cfs (q : list functor) : list Connector.functor := omap (λ f, match f with FC g => Some g | _ => None end) q.

(** What the program and the loop do: [connect()] is called when there is no connection and
    nothing is under way; the loop runs what a handler queued before it polls again; the
    last reference to a connection that the client has let go is not dropped while it is
    up; the client is destroyed with a connection only when the connector has finished. *)
Definition enabled (ev : event) (s : TcpClient) : Prop :=
  match ev with
  | Connect _ _ => alive s = true ∧ connection_ s = None ∧ ∀ c, connector_ s = Some c → Connector.at_rest c
  | Disconnect | Stop | EnableRetry => alive s = true
  | ConnectorReady error write err self _ => ∃ c fd, connector_ s = Some c ∧ Connector.channel_ c = Some (fd, true)
  | ConnectorTimer _ => ∃ c, connector_ s = Some c ∧ Connector.timers c ≠ [] ∧ (Connector.FReset ∉ Connector.pending c)
  | RunFunctor again _ => again_ok again s ∨ ∀ i q, queue s ≠ FForceClose i :: q
  | PeerClose i again _ =>
      up i s ∧ again_ok again s ∧ ∀ c, connector_ s = Some c → Connector.FReset ∉ Connector.pending c
  | Shutdown i | ForceClose i | Hold i => referenced i s = true ∧ is_Some (conns s !! i)
  | Release k => ∀ i, held s !! k = Some i → up i s → connection_ s = Some i ∨ (FForceClose i ∈ queue s) ∨ i ∈ delete k (held s)
  | Delete => alive s = true ∧
      (connection_ s ≠ None → ∀ c, connector_ s = Some c → Connector.channel_ c = None ∧ Connector.pending c = [])
  end.

Inductive reach (nameArg : bytes) : TcpClient → Prop :=
| reach_new : reach nameArg (new_TcpClient nameArg)
| reach_step s ev s' : reach nameArg s → enabled ev s → step ev s = Ok s' → reach nameArg s'.

(** ** The connector's calls *)

(** Nothing is under way. *)
Definition quiet (c : Connector.Connector) : Prop :=
  Connector.timers c = [] ∧ Connector.starts c = 0%nat ∧ Connector.registered c = [].

(** What a call changes: it may queue the reset of the channel it waited for, and hand its
    socket over. *)
Definition handed_over (c c' : Connector.Connector) : Prop :=
  ∃ fd, Connector.handed c' = Connector.handed c ++ [fd] ∧ Connector.connect_ c = true ∧
    Connector.channel_ c = Some (fd, true) ∧ Connector.channel_ c' = Some (fd, false) ∧
    Connector.timers c' = Connector.timers c ∧ Connector.pending c' = Connector.pending c ++ [Connector.FReset].

Definition framed (c c' : Connector.Connector) : Prop :=
  Connector.connect_ c' = Connector.connect_ c ∧
  (Connector.pending c' = Connector.pending c ∨
   Connector.pending c' = Connector.pending c ++ [Connector.FReset] ∧ Connector.state_ c = Connector.kConnecting) ∧
  (Connector.handed c' = Connector.handed c ∨ handed_over c c').

Lemma framed_same c c' :
  Connector.connect_ c' = Connector.connect_ c → Connector.pending c' = Connector.pending c →
  Connector.handed c' = Connector.handed c → framed c c'.
Proof. intros H1 H2 H3. split_and!; auto. Qed.

Lemma connect_frame e c c' :
  Connector.connect e c = Ok c' →
  Connector.connect_ c' = Connector.connect_ c ∧ Connector.pending c' = Connector.pending c ∧ Connector.handed c' = Connector.handed c.
Proof.
  unfold Connector.connect, Connector.connecting, Connector.retry. cbn.
  destruct e; cbn; repeat case_match; intros; by simplify_eq.
Qed.

Lemma startInLoop_same e c c' :
  Connector.startInLoop e c = Ok c' →
  Connector.connect_ c' = Connector.connect_ c ∧ Connector.pending c' = Connector.pending c ∧ Connector.handed c' = Connector.handed c.
Proof.
  unfold Connector.startInLoop. destruct (Connector.connect_ c) eqn:E; intros H; [|by simplify_eq].
  rewrite <- E. by apply connect_frame in H.
Qed.

Lemma startInLoop_frame e c c' : Connector.startInLoop e c = Ok c' → framed c c'.
Proof. intros (? & ? & ?)%startInLoop_same. by apply framed_same. Qed.

Lemma stopInLoop_frame c c' : Connector.stopInLoop c = Ok c' → framed c c'.
Proof.
  unfold Connector.stopInLoop. case_bool_decide as Hs; [|intros; simplify_eq; by apply framed_same].
  unfold Connector.removeAndResetChannel. cbn. destruct (Connector.channel_ c) as [[fd ?]|]; cbn; intros; simplify_eq.
  unfold Connector.retry. cbn. destruct (Connector.connect_ c) eqn:E; split_and!; cbn; auto.
Qed.

Lemma run_functor_frame f e c c' : Connector.run_functor f e c = Ok c' → framed c c'.
Proof.
  destruct f; cbn [Connector.run_functor]; [apply startInLoop_frame|apply stopInLoop_frame|].
  unfold Connector.resetChannel. destruct (Connector.channel_ c) as [[fd []]|]; cbn; intros; simplify_eq; by apply framed_same.
Qed.

Lemma handleError_frame c c' : Connector.handleError c = Ok c' → framed c c'.
Proof.
  unfold Connector.handleError. case_bool_decide as Hs; [|intros; simplify_eq; by apply framed_same].
  unfold Connector.removeAndResetChannel. destruct (Connector.channel_ c) as [[fd ?]|]; cbn; intros; simplify_eq.
  unfold Connector.retry. cbn. destruct (Connector.connect_ c) eqn:E; split_and!; cbn; auto.
Qed.

Lemma handleWrite_frame err self c c' :
  Connector.inv c → Connector.handleWrite err self c = Ok c' → framed c c'.
Proof.
  intros Hi. unfold Connector.handleWrite. case_bool_decide as Hs.
  2: { case_bool_decide; intros; simplify_eq. by apply framed_same. }
  destruct (Connector.connecting_channel c Hi Hs) as [fd Hch]. unfold Connector.removeAndResetChannel. rewrite Hch. cbn.
  destruct err; [|destruct self]; cbn; unfold Connector.retry; cbn; destruct (Connector.connect_ c) eqn:E; intros; simplify_eq;
    split_and!; cbn; auto. right. exists fd. split_and!; done.
Qed.

(** The poller's report, which handles an error before it looks at the write event. *)
Lemma ready_frame error write err self c fd c' :
  Connector.inv c → Connector.channel_ c = Some (fd, true) →
  Connector.step (Connector.Ready error write err self) c = Ok c' → framed c c'.
Proof.
  intros Hi Hch H. cbn [Connector.step] in H. destruct error.
  - destruct (Connector.handleError c) as [c1|] eqn:E; [|done]. cbn [res_bind] in H. pose proof (handleError_frame _ _ E) as Hf.
    destruct write; [|by simplify_eq]. assert (Connector.state_ c1 = Connector.kDisconnected) as Hd.
    { assert (Connector.state_ c = Connector.kConnecting) as Hs.
      { apply (Connector.i_state _ Hi). unfold Connector.registered. by rewrite Hch. }
      unfold Connector.handleError in E. rewrite bool_decide_true in E by done. unfold Connector.removeAndResetChannel in E.
      rewrite Hch in E. cbn in E. injection E as <-. unfold Connector.retry. cbn. destruct (Connector.connect_ c); reflexivity. }
    unfold Connector.handleWrite in H. rewrite Hd, bool_decide_false, bool_decide_true in H by done. by simplify_eq.
  - cbn [res_bind] in H. destruct write; [by apply handleWrite_frame in H|]. simplify_eq. by apply framed_same.
Qed.

Lemma handed_over_quiet c c' : Connector.inv c → handed_over c c' → quiet c'.
Proof.
  intros Hi (fd & _ & _ & Hch & Hch' & Ht & Hp). pose proof (Connector.i_one _ Hi) as H1.
  unfold Connector.registered in H1. rewrite Hch in H1. cbn [length] in H1.
  split_and!; [rewrite Ht; destruct (Connector.timers c); [done|cbn [length] in H1; lia]| |unfold Connector.registered; by rewrite Hch'].
  unfold Connector.starts in *. rewrite Hp, filter_app, length_app, filter_cons, decide_False by done. cbn. lia.
Qed.

Lemma quiet_not_connecting c : Connector.inv c → quiet c → Connector.state_ c ≠ Connector.kConnecting.
Proof. intros Hi (_ & _ & Hr) F. by apply (Connector.i_state _ Hi) in F. Qed.

(** A quiet connector without a queued reset has no channel. *)
Lemma quiet_channel c : Connector.inv c → quiet c → Connector.FReset ∉ Connector.pending c → Connector.channel_ c = None.
Proof.
  intros Hi (_ & _ & Hr) Hp. unfold Connector.registered in Hr. pose proof (Connector.i_reset _ Hi) as Hre.
  destruct (Connector.channel_ c) as [[fd []]|]; [done| |done]. destruct Hre as (l1 & l2 & E & _). destruct Hp. rewrite E. set_solver.
Qed.

(** ** Invariant *)

Definition destroys (i : nat) (q : list functor) : nat := length (filter (λ f, f = FDestroy i) q).

#[local] Arguments destroys : simpl never.

(** No reset of the connector's channel is queued behind a forced close of [i]. *)
Definition late (i : nat) (q : list functor) : Prop := ∀ l1 l2, q = l1 ++ FForceClose i :: l2 → FC Connector.FReset ∉ l2.

(** Where connection [i] is in its life; [lax]: it need not be referenced. *)
Definition phase (lax : bool) (s : TcpClient) (i : nat) (x : conn) : Prop :=
  match c_state x with
  | TcpConnection.kConnecting => False
  | TcpConnection.kConnected | TcpConnection.kDisconnecting =>
      c_destroyed x = false ∧ destroys i (queue s) = 0%nat ∧
      (if c_detached x then connection_ s ≠ Some i ∧ (lax = true ∨ i ∈ held s ∨ FForceClose i ∈ queue s) else connection_ s = Some i)
  | TcpConnection.kDisconnected =>
      connection_ s ≠ Some i ∧ destroys i (queue s) = (if c_destroyed x then 0 else 1)%nat
  end.

Record inv_but (o : option nat) (s : TcpClient) : Prop := {
  k_conn : ∀ c, connector_ s = Some c → Connector.inv c ∧ Connector.pending c = cfs (queue s);
  k_none : connector_ s = None → alive s = false ∧ cfs (queue s) = [];
  k_dead : alive s = false → connection_ s = None ∧ ∀ c, connector_ s = Some c → Connector.connect_ c = false;
  k_cur : ∀ i, connection_ s = Some i →
    is_Some (conns s !! i) ∧ late i (queue s) ∧ ∀ c, connector_ s = Some c → quiet c;
  k_phase : ∀ i x, conns s !! i = Some x → phase (bool_decide (o = Some i)) s i x;
  k_fresh : ∀ i, conns s !! i = None → existsb (mentions i) (queue s) = false;
  k_fds : alive s = true → ∀ c, connector_ s = Some c → map c_fd (conns s) = Connector.handed c;
  k_attached : alive s = true → ∀ i x, conns s !! i = Some x → c_detached x = false;
}.

Abbreviation inv := (inv_but None).

Lemma new_client_inv nameArg : inv (new_TcpClient nameArg).
Proof.
  constructor; cbn; try done.
  - intros c [= <-]. split; [apply Connector.new_inv|done].
  - by intros _ c [= <-].
Qed.

Lemma inv_lax o s : inv s → inv_but o s.
Proof.
  intros [H1 H2 H3 H4 H5 H6 H7 H8]. constructor; try done. intros i x Hx. specialize (H5 i x Hx). unfold phase in *.
  destruct (c_state x); try done; destruct H5 as (? & ? & H); split_and!; try done; destruct (c_detached x); try done;
    destruct H as [? [?|?]]; done || (split; [done|by right]).
Qed.

Lemma cfs_app q1 q2 : cfs (q1 ++ q2) = cfs q1 ++ cfs q2.
Proof. apply omap_app. Qed.

Lemma cfs_FC l : cfs (map FC l) = l.
Proof. induction l as [|f l IH]; [done|]. change (cfs (map FC (f :: l))) with (f :: cfs (map FC l)). by rewrite IH. Qed.

Lemma destroys_app i q1 q2 : destroys i (q1 ++ q2) = (destroys i q1 + destroys i q2)%nat.
Proof. unfold destroys. by rewrite filter_app, length_app. Qed.

Lemma destroys_FC i l : destroys i (map FC l) = 0%nat.
Proof. unfold destroys. induction l as [|f l IH]; [done|]. cbn [map]. rewrite filter_cons, decide_False; done. Qed.

Lemma destroys_cons i f q : destroys i (f :: q) = ((if decide (f = FDestroy i) then 1 else 0) + destroys i q)%nat.
Proof. unfold destroys. rewrite filter_cons. by case_decide. Qed.

Lemma mentions_destroys i q : destroys i q ≠ 0%nat → existsb (mentions i) q = true.
Proof.
  unfold destroys. induction q as [|f q IH]; [done|]. rewrite filter_cons. cbn. case_decide as E.
  - intros _. rewrite E. cbn. by rewrite Nat.eqb_refl.
  - intros H. by rewrite IH, orb_true_r.
Qed.

Lemma mentions_force i q : FForceClose i ∈ q → existsb (mentions i) q = true.
Proof. intros H. apply existsb_exists. exists (FForceClose i). split; [by apply list_elem_of_In|]. cbn. apply Nat.eqb_refl. Qed.

Lemma mentions_FC i l : existsb (mentions i) (map FC l) = false.
Proof. by induction l. Qed.

Lemma cfs_elem f q : FC f ∈ q ↔ f ∈ cfs q.
Proof.
  unfold cfs. rewrite list_elem_of_omap. split.
  - intros H. by exists (FC f).
  - intros ([g| |] & H & E); by simplify_eq.
Qed.

Lemma late_app i q q' : late i q → (FForceClose i ∈ q → FC Connector.FReset ∉ q') → late i q' → late i (q ++ q').
Proof.
  intros H1 H2 H3 l1 l2 E. apply app_eq_inv in E as [(k & E1 & E2)|(k & E1 & E2)].
  - destruct k as [|f k]; cbn in E2; [by apply (H3 [] l2)|]. injection E2 as <- ->. rewrite E1 in H1, H2.
    intros [Hin|Hin]%elem_of_app; [by apply (H1 l1 k)|]. apply H2; [set_solver|done].
  - by apply (H3 k l2).
Qed.

Lemma late_tail i f q : late i (f :: q) → late i q.
Proof. intros H l1 l2 E. apply (H (f :: l1)). by rewrite E. Qed.

Lemma late_fresh i q : existsb (mentions i) q = false → late i q.
Proof. intros H l1 l2 ->. rewrite existsb_app in H. cbn in H. by rewrite Nat.eqb_refl, orb_true_r in H. Qed.

(** What the invariant says about the shared pointers makes the destructors succeed. *)
Lemma inv_dtors_ok s : inv s → dtors_ok s = true.
Proof.
  intros Hi. unfold dtors_ok. apply forallb_forall. intros i _. destruct (conns s !! i) as [x|] eqn:Hx; [|by rewrite orb_true_r].
  pose proof (k_phase _ _ Hi i x Hx) as Hp. unfold phase in Hp. unfold referenced.
  assert (FForceClose i ∈ queue s → existsb (mentions i) (queue s) = true) as Hf by apply mentions_force.
  destruct (c_state x) eqn:Ec; try done.
  - destruct Hp as [_ Hp]. destruct (c_destroyed x); [rewrite (bool_decide_true (kDisconnected = kDisconnected)) by done; by rewrite orb_true_r|].
    rewrite mentions_destroys by lia. by rewrite orb_true_r.
  - destruct Hp as (_ & _ & Hp). destruct (c_detached x); [|by rewrite (bool_decide_true (connection_ s = Some i))].
    destruct Hp as [_ [?|[?|?]]]; [done|by rewrite (bool_decide_true (i ∈ held s)), !orb_true_r|by rewrite Hf, !orb_true_r].
  - destruct Hp as (_ & _ & Hp). destruct (c_detached x); [|by rewrite (bool_decide_true (connection_ s = Some i))].
    destruct Hp as [_ [?|[?|?]]]; [done|by rewrite (bool_decide_true (i ∈ held s)), !orb_true_r|by rewrite Hf, !orb_true_r].
Qed.

(** ** Steps of the connector *)

(** The same references to connections. *)
Definition same_refs (q q' : list functor) : Prop :=
  (∀ i, destroys i q' = destroys i q) ∧ (∀ i, FForceClose i ∈ q' ↔ FForceClose i ∈ q) ∧
  (∀ i, existsb (mentions i) q' = existsb (mentions i) q).

Lemma same_refs_FC q l : same_refs q (q ++ map FC l).
Proof.
  split_and!; intros i.
  - by rewrite destroys_app, destroys_FC, Nat.add_0_r.
  - rewrite elem_of_app. split; [intros [?|F]; [done|]|auto]. apply list_elem_of_fmap in F as (? & ? & _). done.
  - by rewrite existsb_app, mentions_FC, orb_false_r.
Qed.

Lemma same_refs_pop f q : same_refs (FC f :: q) q.
Proof. split_and!; intros i; [by rewrite destroys_cons| |done]. split; [by right|]. by intros [?|?]%elem_of_cons. Qed.

Lemma same_refs_trans q1 q2 q3 : same_refs q1 q2 → same_refs q2 q3 → same_refs q1 q3.
Proof. intros (A1 & A2 & A3) (B1 & B2 & B3). split_and!; intros i; [congruence| |congruence]. by rewrite B2. Qed.

Lemma inv_update s c c' q' :
  inv s → connector_ s = Some c → Connector.inv c' → Connector.pending c' = cfs q' → same_refs (queue s) q' →
  (alive s = false → Connector.connect_ c' = false) → Connector.handed c' = Connector.handed c →
  (∀ i, connection_ s = Some i → late i q' ∧ quiet c') →
  inv (set_connector (Some c') (set_queue q' s)).
Proof.
  intros [H1 H2 H3 H4 H5 H6 H7 H8] Hc Hi Hp (Hd & Hf & Hm) Hdead Hh Hcur. constructor; cbn; try done.
  - by intros ? [= <-].
  - intros Ha. split; [by apply H3|]. intros ? [= <-]. by apply Hdead.
  - intros i Hcn. destruct (H4 i Hcn) as [? _]. destruct (Hcur i Hcn). split_and!; try done. by intros ? [= <-].
  - intros i x Hx. specialize (H5 i x Hx). unfold phase in *. cbn. rewrite !Hd.
    destruct (c_state x); try done; destruct (c_detached x); rewrite ?Hf; done.
  - intros i Hn. rewrite Hm. by apply H6.
  - intros Ha ? [= <-]. rewrite Hh. by apply H7.
Qed.

(** A connected socket becomes the current connection. *)
Lemma newConnection_ok fd peer s c c' :
  inv s → connector_ s = Some c → connection_ s = None → alive s = true → Connector.inv c' → quiet c' →
  Connector.handed c' = Connector.handed c ++ [fd] → Connector.pending c' = Connector.pending c ++ [Connector.FReset] →
  wp (newConnection fd peer (set_connector (Some c') (set_queue (queue s ++ [FC Connector.FReset]) s))) inv.
Proof.
  intros [H1 H2 H3 H4 H5 H6 H7 H8] Hc Hn Ha Hi Hq Hh Hp. unfold newConnection. cbn [alive set_connector set_queue]. rewrite Ha.
  cbn [negb]. set (i := length (conns s)). unfold connectEstablished, state_of. cbn [conns set_conns set_connection set_nextConnId set_queue set_connector].
  assert (conns s !! i = None) as Hno by by apply lookup_ge_None.
  rewrite lookup_app_r, Nat.sub_diag by done. cbn [lookup list_lookup c_state]. rewrite bool_decide_true by done. cbn [wp].
  assert (∀ j x, alter (set_cstate kConnected) i (conns s ++ [mkConn (connName peer (set_connector (Some c') (set_queue (queue s ++ [FC Connector.FReset]) s))) fd kConnecting false false]) !! j = Some x →
    (conns s !! j = Some x ∧ j ≠ i) ∨ (j = i ∧ c_state x = kConnected ∧ c_detached x = false ∧ c_destroyed x = false)) as Hlk.
  { intros j x. destruct (decide (j = i)) as [->|Hne].
    - rewrite list_lookup_alter_eq, lookup_app_r, Nat.sub_diag by done. cbn. intros [= <-]. by right.
    - rewrite list_lookup_alter_ne by done. intros Hx. left. split; [|done]. apply lookup_app_Some in Hx as [?|[? Hx]]; [done|].
      destruct (j - length (conns s))%nat eqn:E; [lia|]. done. }
  destruct (same_refs_FC (queue s) [Connector.FReset]) as (Hd & Hf & Hm). cbn [map] in Hd, Hf, Hm.
  constructor; cbn [connector_ queue connection_ conns alive held on_conn set_conns set_connection set_nextConnId set_queue set_connector].
  - intros ? [= <-]. split; [done|]. destruct (H1 c Hc) as [_ E]. by rewrite Hp, E, cfs_app.
  - done.
  - congruence.
  - intros j [= <-]. split_and!; [| |by intros ? [= <-]].
    + rewrite list_lookup_alter_eq, lookup_app_r, Nat.sub_diag by done. by eexists.
    + apply late_fresh. rewrite Hm. by apply H6.
  - intros j x Hx. apply Hlk in Hx as [[Hx Hne]|(-> & E1 & E2 & E3)].
    + specialize (H5 j x Hx). unfold phase in *. cbn. rewrite Hd. rewrite Hn in H5.
      destruct (c_state x); try done; [destruct H5 as [_ ?]; split; [intros [= E]; by apply Hne|done]|..];
        destruct H5 as (? & ? & H); destruct (c_detached x); try done; destruct H as [_ H]; rewrite Hf; (split_and!; [done..|intros [= E]; by apply Hne|done]).
    + unfold phase. rewrite E1, E2, E3. cbn. split_and!; [done| |done]. rewrite Hd.
      destruct (destroys i (queue s)) eqn:E; [done|]. pose proof (mentions_destroys i (queue s) ltac:(lia)) as F. by rewrite H6 in F.
  - intros j Hj. rewrite Hm. apply H6. apply lookup_ge_None in Hj. rewrite length_alter, length_app in Hj. apply lookup_ge_None. lia.
  - intros _ ? [= <-]. rewrite Hh, <- (H7 Ha c Hc). (* the new one's descriptor *)
    unfold i. rewrite alter_app_r_alt by done. rewrite Nat.sub_diag, map_app. done.
  - intros _ j x Hx. apply Hlk in Hx as [[Hx _]|(_ & _ & ? & _)]; [by eapply H8|done].
Qed.

(** What a call of the connector needs to keep the invariant. *)
Definition op_ok (s : TcpClient) (c c' : Connector.Connector) : Prop :=
  Connector.inv c' ∧ (alive s = false → Connector.connect_ c' = false) ∧
  (∃ ext, Connector.pending c' = Connector.pending c ++ ext ∧ (connection_ s ≠ None → Connector.FReset ∉ ext)) ∧
  (connection_ s ≠ None → quiet c') ∧ (Connector.handed c' = Connector.handed c ∨ handed_over c c').

Lemma on_connector_ok op peer s :
  inv s → connector_ s ≠ None → (∀ c, connector_ s = Some c → wp (op c) (op_ok s c)) → wp (on_connector op peer s) inv.
Proof.
  intros Hi Hs Hop. unfold on_connector. destruct (connector_ s) as [c|] eqn:Hc; [|done].
  eapply wp_bind; [by apply Hop|]. intros c' (Hi' & Hdead & (ext & Hp & Hr) & Hq & Hh).
  destruct (k_conn _ _ Hi c Hc) as [Hic Hpc]. rewrite Hp, drop_app_length.
  destruct Hh as [Hh|Hh].
  - rewrite Hh, drop_all. cbn [wp]. apply (inv_update s c c'); try done.
    + rewrite Hp, Hpc, cfs_app, cfs_FC. done.
    + apply same_refs_FC.
    + intros i Hcn. assert (connection_ s ≠ None) as Hne by by rewrite Hcn. split; [|by apply Hq].
      apply late_app; [by apply (k_cur _ _ Hi)| |].
      * intros _ F%list_elem_of_fmap. destruct F as (f & [= <-] & F). by apply Hr.
      * apply late_fresh, mentions_FC.
  - pose proof (handed_over_quiet c c' Hic Hh) as Hquiet. destruct Hh as (fd & Hh & Hcon & Hch & Hch' & Ht & Hpp).
    rewrite Hh, drop_app_length. rewrite Hpp in Hp. apply app_inv_head in Hp. subst ext. cbn [map].
    assert (alive s = true) as Ha.
    { destruct (alive s) eqn:E; [done|]. destruct (k_dead _ _ Hi E) as [_ F]. by rewrite (F c Hc) in Hcon. }
    assert (connection_ s = None) as Hn.
    { destruct (connection_ s) as [i|] eqn:E; [|done]. destruct (k_cur _ _ Hi i E) as (_ & _ & F). destruct (F c Hc) as (_ & _ & Hreg).
      unfold Connector.registered in Hreg. by rewrite Hch in Hreg. }
    by apply (newConnection_ok fd peer s c).
Qed.

(** A framed call. *)
Lemma framed_op_ok s c c' :
  inv s → connector_ s = Some c → Connector.inv c' → framed c c' → (connection_ s ≠ None → quiet c') → op_ok s c c'.
Proof.
  intros Hi Hc Hi' (Hcon & Hp & Hh) Hq. split_and!; try done.
  - intros Ha. rewrite Hcon. by apply (k_dead _ _ Hi Ha).
  - destruct Hp as [Hp|[Hp Hk]]; rewrite Hp.
    + exists []. rewrite app_nil_r. split; [done|]. intros _. apply not_elem_of_nil.
    + exists [Connector.FReset]. split; [done|]. intros Hne F. clear F.
      destruct (connection_ s) as [i|] eqn:E; [|done]. destruct (k_cur _ _ Hi i E) as (_ & _ & F).
      by apply (quiet_not_connecting c (proj1 (k_conn _ _ Hi c Hc)) (F c Hc)).
Qed.

(** Starting queues nothing and hands nothing over. *)
Lemma start_frame (start : Connector.errno → Connector.Connector → res Connector.Connector) e c :
  start = Connector.start ∨ start = Connector.restart → Connector.inv c → quiet c → Connector.channel_ c = None →
  wp (start e c) (λ c', Connector.inv c' ∧ Connector.pending c' = Connector.pending c ∧ Connector.handed c' = Connector.handed c).
Proof.
  intros Hstart Hi (Ht & Hst & Hreg) Hch. destruct Hi as [I1 I2 I3 I4 I5 I6 I7 I8]. unfold Connector.registered in *. rewrite Hch in *.
  assert (∀ c1, Connector.inv c1 → Connector.channel_ c1 = None → Connector.timers c1 = [] → Connector.starts c1 = 0%nat →
    Connector.pending c1 = Connector.pending c → Connector.handed c1 = Connector.handed c →
    wp (Connector.connect e c1) (λ c', Connector.inv c' ∧ Connector.pending c' = Connector.pending c ∧ Connector.handed c' = Connector.handed c)) as Hgo.
  { intros c1 A1 A2 A3 A4 A5 A6. pose proof (Connector.connect_ok e c1 A1 A2 A3 A4) as Hok.
    destruct (wp_elim _ _ Hok) as (c' & E & Hc'). rewrite E. cbn. destruct (connect_frame e c1 c' E) as (_ & -> & ->). done. }
  destruct Hstart as [-> | ->]; apply Hgo; try done; constructor; unfold Connector.registered; cbn; rewrite ?Hch; try done.
Qed.

(** Starting when nothing is under way. *)
Lemma start_op_ok (start : Connector.errno → Connector.Connector → res Connector.Connector) e s c :
  start = Connector.start ∨ start = Connector.restart →
  alive s = true → connection_ s = None → Connector.inv c → quiet c → Connector.channel_ c = None →
  wp (start e c) (op_ok s c).
Proof.
  intros Hstart Ha Hn Hi Hq Hch.
  eapply wp_mono; [by apply start_frame|]. intros c' (H1 & H2 & H3). split_and!; try done; [by rewrite Ha| |auto].
  exists []. rewrite app_nil_r. split; [done|]. by rewrite Hn.
Qed.

Lemma rest_quiet c : Connector.at_rest c → quiet c ∧ Connector.channel_ c = None.
Proof.
  intros (H1 & H2 & H3). split; [|done]. split_and!; [done| |]; [unfold Connector.starts; by rewrite H2|].
  unfold Connector.registered. by rewrite H1.
Qed.

Lemma client_connect_ok e s :
  inv s → alive s = true → connection_ s = None → (∀ c, connector_ s = Some c → Connector.at_rest c) → wp (connect e s) inv.
Proof.
  intros Hi Ha Hn Hr. unfold connect. rewrite Ha. cbn [negb]. apply on_connector_ok; [by destruct Hi; constructor| |].
  - intros F. destruct (k_none _ _ Hi F). congruence.
  - intros c Hc. destruct (rest_quiet c (Hr c Hc)). apply start_op_ok; auto. by apply (k_conn _ _ Hi).
Qed.

Lemma stop_ok s : inv s → connector_ s ≠ None → wp (on_connector (λ c, Ok (Connector.stop c)) [] s) inv.
Proof.
  intros Hi Hs. apply on_connector_ok; [done..|]. intros c Hc. cbn [wp]. destruct (k_conn _ _ Hi c Hc) as [Hic _].
  pose proof (Connector.connector_step_ok Connector.Stop c Hic I) as Hok. cbn in Hok. split_and!; [done|done| | |by left].
  - exists [Connector.FStop]. split; [done|]. intros _ F%list_elem_of_singleton. done.
  - intros Hne. destruct (connection_ s) as [i|] eqn:E; [|done]. destruct (k_cur _ _ Hi i E) as (_ & _ & F).
    destruct (F c Hc) as (F1 & F2 & F3). split_and!; try done. unfold Connector.starts in *. cbn.
    rewrite filter_app, length_app, F2, filter_cons, decide_False by done. done.
Qed.

(** The step of a connector that waits: no connection exists. *)
Lemma waiting_ok ev peer s c :
  inv s → connector_ s = Some c → Connector.event_ok ev c → ¬ quiet c →
  (∀ c', Connector.step ev c = Ok c' → framed c c') → wp (on_connector (Connector.step ev) peer s) inv.
Proof.
  intros Hi Hc Hev Hq Hf. apply on_connector_ok; [done|by rewrite Hc|]. intros c0 Hc0. rewrite Hc in Hc0. injection Hc0 as <-.
  destruct (k_conn _ _ Hi c Hc) as [Hic _]. destruct (wp_elim _ _ (Connector.connector_step_ok ev c Hic Hev)) as (c' & E & Hi').
  rewrite E. cbn [wp]. apply framed_op_ok; auto. intros Hne. destruct (connection_ s) as [i|] eqn:En; [|done].
  destruct (k_cur _ _ Hi i En) as (_ & _ & F). destruct (Hq (F c Hc)).
Qed.

(** A functor of the connector. *)
Lemma connector_functor_ok f e q s :
  inv s → queue s = FC f :: q →
  wp (on_connector (Connector.run_functor f e) []
        (set_connector (option_map (λ c, Connector.set_pending (tail (Connector.pending c)) c) (connector_ s)) (set_queue q s))) inv.
Proof.
  intros Hi Hq. unfold on_connector. cbn [connector_ set_connector set_queue].
  destruct (connector_ s) as [c|] eqn:Hc; cbn [option_map]; [|destruct (k_none _ _ Hi Hc) as [_ F]; by rewrite Hq in F].
  destruct (k_conn _ _ Hi c Hc) as [Hic Hp]. rewrite Hq in Hp. change (cfs (FC f :: q)) with (f :: cfs q) in Hp. rewrite Hp. cbn [tail].
  pose proof (Connector.connector_step_ok (Connector.RunFunctor e) c Hic I) as Hok. cbn [Connector.step] in Hok. rewrite Hp in Hok.
  destruct (wp_elim _ _ Hok) as (c' & E & Hi'). rewrite E. cbn [res_bind]. set (c0 := Connector.set_pending (cfs q) c) in *.
  pose proof (run_functor_frame f e c0 c' E) as (Hcon & Hpend & Hhand).
  assert (Connector.handed c' = Connector.handed c) as Hh.
  { destruct Hhand as [?|(fd & Hx & _ & Hch & Hch' & _ & Hpp)]; [done|]. exfalso.
    enough (Connector.handed c' = Connector.handed c0) as Hsame.
    { rewrite Hsame in Hx. apply (f_equal length) in Hx. rewrite length_app in Hx. cbn [length] in Hx. lia. }
    destruct f; cbn [Connector.run_functor] in E.
    - unfold Connector.startInLoop in E. destruct (Connector.connect_ c0); [by apply connect_frame in E as (_ & _ & ?)|by simplify_eq].
    - unfold Connector.stopInLoop in E. case_bool_decide; [|by simplify_eq]. unfold Connector.removeAndResetChannel in E.
      cbn [Connector.channel_ Connector.set_state] in E. rewrite Hch in E. cbn in E. injection E as <-. unfold Connector.retry. cbn.
      destruct (Connector.connect_ c); reflexivity.
    - unfold Connector.resetChannel in E. rewrite Hch in E. done. }
  assert (∃ ext, Connector.pending c' = cfs q ++ ext ∧ (ext ≠ [] → Connector.state_ c = Connector.kConnecting)) as (ext & Ep & Hext).
  { destruct Hpend as [Hx|[Hx Hk]]; rewrite Hx; [exists []; by rewrite app_nil_r|by exists [Connector.FReset]]. }
  cbn [Connector.pending Connector.handed Connector.set_pending]. change (Connector.pending c0) with (cfs q). change (Connector.handed c0) with (Connector.handed c).
  rewrite Ep, drop_app_length, Hh, drop_all. cbn [wp].
  change (inv (set_connector (Some c') (set_queue (q ++ map FC ext) s))). apply (inv_update s c c'); try done.
  - by rewrite Ep, cfs_app, cfs_FC.
  - rewrite Hq. eapply same_refs_trans; [apply same_refs_pop|apply same_refs_FC].
  - intros Ha. rewrite Hcon. exact (proj2 (k_dead _ _ Hi Ha) c Hc).
  - intros i Hn. destruct (k_cur _ _ Hi i Hn) as (_ & Hl & F). specialize (F c Hc). rewrite Hq in Hl.
    pose proof (quiet_not_connecting c Hic F) as Hk. assert (ext = []) as -> by (destruct ext; [done|destruct Hk; by apply Hext]).
    rewrite app_nil_r in *. split; [by eapply late_tail|]. destruct F as (F1 & F2 & F3).
    unfold Connector.starts in F2. rewrite Hp, filter_cons in F2. destruct f; cbn [Connector.run_functor] in E.
    + by rewrite decide_True in F2.
    + unfold Connector.stopInLoop in E. rewrite bool_decide_false in E by done. injection E as <-. split_and!; [done| |done].
      unfold Connector.starts. cbn. by rewrite decide_False in F2.
    + unfold Connector.resetChannel in E. change (Connector.channel_ c0) with (Connector.channel_ c) in E. unfold Connector.registered in F3.
      rewrite decide_False in F2 by done.
      destruct (Connector.channel_ c) as [[fd []]|] eqn:Hch; cbn in E; simplify_eq; (split_and!; [done|done|]); unfold Connector.registered; cbn; by rewrite ?Hch.
Qed.

(** ** Steps of the connections *)

Lemma on_conn_lookup f i s j x :
  conns (on_conn i f s) !! j = Some x → (j ≠ i ∧ conns s !! j = Some x) ∨ (j = i ∧ ∃ y, conns s !! i = Some y ∧ x = f y).
Proof.
  cbn. destruct (decide (j = i)) as [->|Hne].
  - rewrite list_lookup_alter_eq. destruct (conns s !! i) as [y|] eqn:E; [|done]. cbn. intros [= <-]. right. split; [done|]. by exists y.
  - rewrite list_lookup_alter_ne by done. by left.
Qed.

Lemma on_conn_some f i s j : is_Some (conns (on_conn i f s) !! j) ↔ is_Some (conns s !! j).
Proof. cbn. rewrite !lookup_lt_is_Some, length_alter. done. Qed.

Lemma on_conn_none f i s j : conns (on_conn i f s) !! j = None ↔ conns s !! j = None.
Proof. cbn. rewrite !lookup_ge_None, length_alter. done. Qed.

Lemma fds_on_conn f i s : (∀ x, c_fd (f x) = c_fd x) → map c_fd (conns (on_conn i f s)) = map c_fd (conns s).
Proof.
  intros Hf. apply list_eq. intros j. rewrite !list_lookup_fmap. cbn. destruct (decide (j = i)) as [->|Hne].
  - rewrite list_lookup_alter_eq. destruct (conns s !! i); cbn; [by rewrite Hf|done].
  - by rewrite list_lookup_alter_ne by done.
Qed.

(** A connection that stays up. *)
Lemma stays_up_ok i v s :
  inv s → up i s → is_up v = true → inv (on_conn i (set_cstate v) s).
Proof.
  intros [H1 H2 H3 H4 H5 H6 H7 H8] Hup Hv. constructor; cbn [connector_ queue alive connection_ held on_conn set_conns]; try done.
  - intros j Hj. destruct (H4 j Hj) as (? & ? & ?). split_and!; try done. by apply (on_conn_some _ i s j).
  - intros j x [[Hne Hx]|(-> & y & Hy & ->)]%(on_conn_lookup _ i s j x); [by apply H5|].
    specialize (H5 i y Hy). unfold up, state_of in Hup. rewrite Hy in Hup. unfold phase in *. cbn.
    destruct (c_state y); try done; destruct v; try done; exact H5.
  - intros j Hj. apply H6. by apply (on_conn_none (set_cstate v) i s).
  - intros Ha c Hc. rewrite (fds_on_conn (set_cstate v) i s) by done. by apply H7.
  - intros Ha j x [[Hne Hx]|(-> & y & Hy & ->)]%(on_conn_lookup _ i s j x); [by eapply H8|]. cbn. by eapply H8.
Qed.

Lemma shutdown_ok i s : inv s → inv (shutdown i s).
Proof.
  intros Hi. unfold shutdown. case_bool_decide as E; [|done]. apply stays_up_ok; [done| |done]. unfold up. by rewrite E.
Qed.

(** A queued forced close refers to a connection that exists. *)
Lemma enqueue_force_ok i s : inv s → is_Some (conns s !! i) → inv (enqueue (FForceClose i) s).
Proof.
  intros [H1 H2 H3 H4 H5 H6 H7 H8] Hx. constructor; cbn [connector_ queue alive connection_ held conns enqueue set_queue]; try done.
  - intros c Hc. destruct (H1 c Hc). rewrite cfs_app, app_nil_r. done.
  - intros Hc. destruct (H2 Hc). rewrite cfs_app, app_nil_r. done.
  - intros j Hj. destruct (H4 j Hj) as (? & Hl & ?). split_and!; try done. apply late_app; [done|set_solver|].
    intros l1 l2 E. destruct l1 as [|? [|]]; cbn in E; [injection E as _ <-; apply not_elem_of_nil|done|done].
  - intros j x Hj. specialize (H5 j x Hj). unfold phase in *. cbn. rewrite destroys_app, destroys_cons. cbn [queue].
    rewrite decide_False by done. rewrite Nat.add_0_r.
    destruct (c_state x); try done; destruct (c_detached x); try done; destruct H5 as (? & ? & ? & ?); split_and!; try done; set_solver.
  - intros j Hj. rewrite existsb_app, H6 by done. cbn. destruct (Nat.eqb_spec j i) as [->|]; [by rewrite Hj in Hx; destruct Hx|done].
Qed.

Lemma up_some i s : up i s → is_Some (conns s !! i).
Proof. unfold up, state_of. destruct (conns s !! i); [by eexists|done]. Qed.

Lemma forceClose_ok i s : inv s → inv (forceClose i s).
Proof.
  intros Hi. unfold forceClose. destruct (is_up (state_of i s)) eqn:E; [|done].
  apply enqueue_force_ok; [by apply stays_up_ok|]. apply (on_conn_some _ i s i). by apply up_some.
Qed.

(** A connection that has gone down waits for [connectDestroyed]. *)
Lemma closed_ok i s :
  inv_but (Some i) s → up i s →
  inv (enqueue (FDestroy i) (set_connection (if decide (connection_ s = Some i) then None else connection_ s)
         (on_conn i (set_cstate kDisconnected) s))).
Proof.
  intros [H1 H2 H3 H4 H5 H6 H7 H8] Hup. pose proof (up_some i s Hup) as Hsome.
  set (v := if decide (connection_ s = Some i) then None else connection_ s).
  assert (∀ j, v = Some j → connection_ s = Some j ∧ j ≠ i) as Hv.
  { intros j. unfold v. case_decide as E; [done|]. intros E'. split; [done|]. intros ->. done. }
  constructor; cbn [connector_ queue alive connection_ held conns enqueue set_queue set_connection on_conn set_conns]; try done.
  - intros c Hc. destruct (H1 c Hc). rewrite cfs_app, app_nil_r. done.
  - intros Hc. destruct (H2 Hc). rewrite cfs_app, app_nil_r. done.
  - intros Ha. destruct (H3 Ha) as [E ?]. split; [|done]. unfold v. by rewrite decide_False by (by rewrite E).
  - intros j Hj. apply Hv in Hj as [Hj Hne]. destruct (H4 j Hj) as (? & ? & ?). split_and!; [by apply (on_conn_some _ i s j)| |done].
    apply late_app; [done|set_solver|]. intros l1 l2 E. destruct l1 as [|? [|]]; done.
  - intros j x [[Hne Hx]|(-> & y & Hy & ->)]%(on_conn_lookup _ i s j x).
    + specialize (H5 j x Hx). rewrite bool_decide_false in H5 by congruence. unfold phase in *.
      cbn [connection_ queue held enqueue set_queue set_connection on_conn set_conns].
      rewrite destroys_app, destroys_cons, decide_False by congruence. rewrite Nat.add_0_r.
      assert (v = Some j ↔ connection_ s = Some j) as Hvj.
      { split; [intros E; by apply Hv in E as [? _]|]. intros E. unfold v. rewrite decide_False; [done|]. rewrite E. congruence. }
      destruct (c_state x); try done; [split; [intros E; apply Hvj in E; by destruct H5|apply H5]|..];
        destruct H5 as (? & ? & H5); (split; [done|split; [done|]]);
        (destruct (c_detached x); [destruct H5 as [? H5]; split; [intros E; by apply Hvj in E|]; set_solver|by apply Hvj]).
    + specialize (H5 i y Hy). rewrite bool_decide_true in H5 by done. unfold up, state_of in Hup. rewrite Hy in Hup.
      unfold phase in *. cbn. split; [intros E; by apply Hv in E as [_ ?]|]. rewrite destroys_app, destroys_cons, decide_True by done.
      destruct (c_state y); try done; destruct H5 as (-> & -> & _); done.
  - intros j Hj%(on_conn_none (set_cstate kDisconnected) i s). rewrite existsb_app, H6 by done. cbn.
    destruct (Nat.eqb_spec j i) as [->|]; [by rewrite Hj in Hsome; destruct Hsome|done].
  - intros Ha c Hc. transitivity (map c_fd (conns s)); [by apply (fds_on_conn (set_cstate kDisconnected) i s)|by apply H7].
  - intros Ha j x [[Hne Hx]|(-> & y & Hy & ->)]%(on_conn_lookup _ i s j x); [by eapply H8|]. cbn. by eapply H8.
Qed.

Lemma on_conn_here f i s x : conns s !! i = Some x → conns (on_conn i f s) !! i = Some (f x).
Proof. intros Hx. cbn. by rewrite list_lookup_alter_eq, Hx. Qed.

(** The current connection, gone down. *)
Definition closed_state (i : nat) (s : TcpClient) : TcpClient :=
  enqueue (FDestroy i) (set_connection None (on_conn i (set_cstate kDisconnected) s)).

Lemma closed_state_ok i s : inv_but (Some i) s → up i s → connection_ s = Some i → inv (closed_state i s).
Proof. intros Hi Hup Hn. pose proof (closed_ok i s Hi Hup) as H. by rewrite decide_True in H. Qed.

(** The close callback of the client, with its reconnecting. *)
Lemma removeConnection_ok e i s :
  inv_but (Some i) s → up i s → connection_ s = Some i → alive s = true →
  (∀ c, connector_ s = Some c → Connector.channel_ c = None) →
  wp (removeConnection e i (on_conn i (set_cstate kDisconnected) s)) inv.
Proof.
  intros Hi Hup Hn Ha Hch. unfold removeConnection. cbn [alive connection_ on_conn set_conns]. rewrite Ha, Hn. cbn [negb].
  rewrite bool_decide_true by done. pose proof (closed_state_ok i s Hi Hup Hn) as Hc. unfold closed_state in Hc.
  destruct (retry_ _ && connect_ _); [|exact Hc].
  apply on_connector_ok; [exact Hc|cbn; intros F; destruct (k_none _ _ Hi F); congruence|].
  intros c Hcc. cbn in Hcc. apply (start_op_ok Connector.restart); [by right|exact Ha|done| | |by apply Hch].
  - by apply (k_conn _ _ Hi).
  - by apply (k_cur _ _ Hi i Hn).
Qed.

Lemma handleClose_ok again e i s :
  inv_but (Some i) s → up i s →
  (connection_ s = Some i → ∀ c, connector_ s = Some c → Connector.channel_ c = None) → again_ok again s →
  wp (handleClose again e i s) inv.
Proof.
  intros Hi Hup Hch Hag. pose proof (up_some i s Hup) as [x Hx]. pose proof (k_phase _ _ Hi i x Hx) as Hp.
  pose proof Hup as Hx'. unfold up, state_of in Hx'. rewrite Hx in Hx'.
  assert (if c_detached x then connection_ s ≠ Some i else connection_ s = Some i) as Hcur.
  { unfold phase in Hp. destruct (c_state x); try done; destruct Hp as (_ & _ & Hp); by destruct (c_detached x); [destruct Hp|]. }
  unfold handleClose. rewrite Hup. set (s1 := on_conn i (set_cstate kDisconnected) s).
  assert (conns s1 !! i = Some (set_cstate kDisconnected x)) as Hx1 by by apply on_conn_here.
  destruct again as [e'|].
  - destruct Hag as [?|(Ha & Hre & Hrest)]; [done|]. rewrite (k_attached _ _ Hi Ha i x Hx) in Hcur.
    destruct (connector_ s) as [c|] eqn:Hcc; [|destruct (k_none _ _ Hi Hcc); congruence].
    destruct (rest_quiet c (Hrest c eq_refl)) as [Hq Hno]. destruct (k_conn _ _ Hi c Hcc) as [Hic Hpc].
    destruct (wp_elim _ _ (start_frame Connector.start e' c (or_introl eq_refl) Hic Hq Hno)) as (c' & E & Hi' & Hp' & Hh').
    unfold connect, s1 at 1. cbn [alive on_conn set_conns]. rewrite Ha. cbn [negb]. unfold on_connector.
    cbn [connector_ set_connect on_conn set_conns s1]. rewrite Hcc, E. cbn [res_bind]. rewrite Hp', Hh', !drop_all. cbn [map].
    rewrite app_nil_r. cbn [res_bind conns set_connector set_queue set_connect]. change (conns s1) with (conns s1) in Hx1.
    fold s1. rewrite Hx1. cbn [c_detached set_cstate]. rewrite (k_attached _ _ Hi Ha i x Hx).
    unfold removeConnection. cbn [alive connection_ set_connector set_queue set_connect on_conn set_conns s1]. rewrite Ha, Hcur.
    cbn [negb]. rewrite bool_decide_true by done. cbn [retry_ enqueue set_connection set_connector set_queue set_connect on_conn set_conns s1].
    rewrite Hre. cbn [andb wp].
    assert (inv (set_connect true (closed_state i s))) as Hc by (destruct (closed_state_ok i s Hi Hup Hcur); by constructor).
    change (inv (set_connector (Some c') (set_queue (queue s ++ [FDestroy i]) (set_connect true (closed_state i s))))).
    apply (inv_update _ c c'); try done.
    + by rewrite Hp', Hpc, cfs_app, app_nil_r.
    + cbn. rewrite Ha. done.
  - cbn [res_bind]. rewrite Hx1. cbn [c_detached set_cstate]. destruct (c_detached x).
    + cbn [wp]. pose proof (closed_ok i s Hi Hup) as Hc. rewrite decide_False in Hc by done. exact Hc.
    + assert (alive s = true) as Ha by (destruct (alive s) eqn:E; [done|]; destruct (k_dead _ _ Hi E); congruence).
      apply removeConnection_ok; auto.
Qed.

(** The functor of a forced close leaves the queue. *)
Lemma pop_force_inv i q s : inv s → queue s = FForceClose i :: q → inv_but (Some i) (set_queue q s).
Proof.
  intros [H1 H2 H3 H4 H5 H6 H7 H8] Hq. rewrite Hq in *. constructor; cbn; try done.
  - intros j Hj. destruct (H4 j Hj) as (? & Hl & ?). split_and!; try done. by eapply late_tail.
  - intros j x Hx. specialize (H5 j x Hx). unfold phase in *. cbn. rewrite Hq, destroys_cons, decide_False in H5 by done.
    destruct (c_state x); try done; destruct H5 as (? & ? & H5); (split_and!; [done..|]); destruct (c_detached x); try done;
      destruct H5 as [? [?|[?|[[= ->]|?]%elem_of_cons]]]; try done; (split; [done|]); auto; left; by rewrite bool_decide_true.
  - intros j Hj. specialize (H6 j Hj). cbn in H6. by apply orb_false_iff in H6 as [_ ?].
Qed.

Lemma down_inv i s : inv_but (Some i) s → is_up (state_of i s) = false → inv s.
Proof.
  intros [H1 H2 H3 H4 H5 H6 H7 H8] Hd. constructor; try done. intros j x Hx. specialize (H5 j x Hx).
  destruct (decide (j = i)) as [->|Hne]; [|by rewrite bool_decide_false in H5 by congruence].
  unfold state_of in Hd. rewrite Hx in Hd. unfold phase in *. destruct (c_state x); done.
Qed.

Lemma forceCloseInLoop_ok again e i q s :
  inv s → queue s = FForceClose i :: q → again_ok again s → wp (forceCloseInLoop again e i (set_queue q s)) inv.
Proof.
  intros Hi Hq Hag. pose proof (pop_force_inv i q s Hi Hq) as Hp. unfold forceCloseInLoop.
  destruct (is_up (state_of i (set_queue q s))) eqn:Hup; [|by eapply down_inv].
  apply handleClose_ok; try done. cbn. intros Hn c Hc. destruct (k_cur _ _ Hi i Hn) as (_ & Hl & F).
  destruct (k_conn _ _ Hi c Hc) as [Hic Hpc]. apply quiet_channel; [done|by apply F|]. rewrite Hpc, Hq. intros Hin.
  apply (Hl [] q Hq). apply cfs_elem. exact Hin.
Qed.

Lemma connectDestroyed_ok i q s : inv s → queue s = FDestroy i :: q → wp (connectDestroyed i (set_queue q s)) inv.
Proof.
  intros Hi Hq. destruct Hi as [H1 H2 H3 H4 H5 H6 H7 H8]. rewrite Hq in *.
  assert (is_Some (conns s !! i)) as [x Hx].
  { destruct (conns s !! i) as [x|] eqn:E; [by eexists|]. specialize (H6 i E). cbn in H6. by rewrite Nat.eqb_refl in H6. }
  assert (c_state x = kDisconnected ∧ connection_ s ≠ Some i ∧ destroys i q = 0%nat ∧ c_destroyed x = false) as (Hst & Hn & Hd & Hnd).
  { pose proof (H5 i x Hx) as Hp. unfold phase in Hp. rewrite Hq, destroys_cons, decide_True in Hp by done.
    destruct (c_state x); try done; [|destruct Hp as (_ & ? & _); lia..].
    destruct Hp as [? Hp]. destruct (c_destroyed x); [lia|]. split_and!; done || lia. }
  unfold connectDestroyed, state_of. cbn [conns set_queue]. rewrite Hx, Hst. cbn [wp].
  rewrite (bool_decide_true (kDisconnected = kDisconnected)), orb_true_r by done. cbn [wp].
  set (f := λ x, set_destroyed (set_cstate kDisconnected x)). set (s' := set_queue q s).
  constructor; cbn [connector_ queue alive connection_ held on_conn set_conns set_queue]; try done.
  - intros j Hj. destruct (H4 j Hj) as (? & Hl & ?). split_and!; [by apply (on_conn_some f i s' j)|by eapply late_tail|done].
  - intros j y [[Hne Hy]|(-> & z & Hz & ->)]%(on_conn_lookup f i s' j y).
    + specialize (H5 j y Hy). unfold phase in *. cbn. rewrite Hq, destroys_cons, decide_False in H5 by congruence.
      destruct (c_state y); try done; destruct H5 as (? & ? & H5); (split_and!; [done..|]); destruct (c_detached y); try done;
        destruct H5 as [? [?|[?|[?|?]%elem_of_cons]]]; try done; (split; [done|]); auto.
    + unfold phase. cbn. split; [done|exact Hd].
  - intros j Hj. assert (conns s !! j = None) as Hj' by by apply (on_conn_none f i s' j).
    specialize (H6 j Hj'). cbn in H6. by apply orb_false_iff in H6 as [_ ?].
  - intros Ha c Hc. transitivity (map c_fd (conns s)); [by apply (fds_on_conn f i s')|by apply H7].
  - intros Ha j y [[Hne Hy]|(-> & z & Hz & ->)]%(on_conn_lookup f i s' j y); [by eapply H8|]. cbn. by eapply H8.
Qed.

Lemma hold_ok i s : inv s → inv (set_held (i :: held s) s).
Proof.
  intros [H1 H2 H3 H4 H5 H6 H7 H8]. constructor; try done. intros j x Hx. specialize (H5 j x Hx). unfold phase in *. cbn.
  destruct (c_state x); try done; destruct (c_detached x); try done; destruct H5 as (? & ? & ? & [?|[?|?]]); split_and!; try done; set_solver.
Qed.

Lemma release_ok k s : inv s → enabled (Release k) s → inv (set_held (delete k (held s)) s).
Proof.
  intros [H1 H2 H3 H4 H5 H6 H7 H8] He. constructor; try done. intros j x Hx. change (conns s !! j = Some x) in Hx. pose proof (H5 j x Hx) as Hp. unfold phase in *. cbn.
  assert (j ∈ held s → is_up (c_state x) = true → connection_ s ≠ Some j → FForceClose j ∈ queue s ∨ j ∈ delete k (held s)) as Hgo.
  { intros Hin Hup Hn. destruct (held s !! k) as [i|] eqn:Hk.
    - destruct (decide (i = j)) as [->|Hne].
      + cbn in He. destruct (He j Hk) as [?|?]; [unfold up, state_of; by rewrite Hx|done|done].
      + right. apply list_elem_of_lookup in Hin as [m Hm]. apply list_elem_of_lookup.
        destruct (decide (m < k)%nat); [exists m; by rewrite list_lookup_delete_lt|].
        exists (pred m). rewrite list_lookup_delete_ge by (destruct (decide (m = k)) as [->|]; [congruence|lia]).
        replace (S (pred m)) with m; [done|]. destruct (decide (m = k)) as [->|]; [congruence|lia].
    - right. apply list_elem_of_lookup in Hin as [m Hm]. apply list_elem_of_lookup. exists m.
      apply lookup_ge_None in Hk. apply lookup_lt_Some in Hm as Hlt. by rewrite list_lookup_delete_lt by lia. }
  destruct (c_state x); try done; destruct (c_detached x); try done; destruct Hp as (? & ? & ? & Hp); (split_and!; [done..|]);
    destruct Hp as [?|[Hin|?]]; auto; destruct (Hgo Hin eq_refl ltac:(done)); auto.
Qed.

(** Without a queued destruction a mention is a forced close. *)
Lemma mentions_up i q : destroys i q = 0%nat → existsb (mentions i) q = true → FForceClose i ∈ q.
Proof.
  induction q as [|f q IH]; [done|]. rewrite destroys_cons. cbn. intros Hd. destruct f as [f|j|j]; cbn.
  - intros H. right. by apply IH.
  - destruct (Nat.eqb_spec i j) as [->|]; [left|]. intros H. right. by apply IH.
  - destruct (Nat.eqb_spec i j) as [->|Hne]; [by rewrite decide_True in Hd|]. intros H. right. apply IH; [|done].
    rewrite decide_False in Hd by congruence. done.
Qed.

(** What the destructor leaves of a client with a connection. *)
Lemma delete_current_ok i q l s :
  inv s → alive s = true → connection_ s = Some i → cfs (queue s) = [] →
  (q = queue s ∧ l = conns (on_conn i set_detached s) ∧ (i ∈ held s ∨ FForceClose i ∈ queue s) ∨
   q = queue s ++ [FForceClose i] ∧ l = alter (set_cstate kDisconnecting) i (conns (on_conn i set_detached s))) →
  inv (set_alive false (set_connection None (set_connector None (set_conns l (set_queue q s))))).
Proof.
  intros [H1 H2 H3 H4 H5 H6 H7 H8] Ha Hn Hcfs Hql.
  assert (cfs q = [] ∧ (∀ j, destroys j q = destroys j (queue s)) ∧ (∀ f, f ∈ queue s → f ∈ q) ∧ (i ∈ held s ∨ FForceClose i ∈ q) ∧
    (∀ j, conns s !! j = None → existsb (mentions j) q = false)) as (Q1 & Q2 & Q3 & Q4 & Q5).
  { destruct (H4 i Hn) as [Hsome _].
    destruct Hql as [(-> & _ & Href)|[-> _]]; [done|]. rewrite cfs_app, Hcfs. split_and!; try done.
    - intros j. rewrite destroys_app, destroys_cons, decide_False by done. unfold destroys at 2. cbn. lia.
    - set_solver.
    - right. set_solver.
    - intros j Hj. rewrite existsb_app, H6 by done. cbn. destruct (Nat.eqb_spec j i) as [->|]; [by rewrite Hj in Hsome; destruct Hsome|done]. }
  assert (∀ j x, l !! j = Some x → (j ≠ i ∧ conns s !! j = Some x) ∨
    (j = i ∧ ∃ y, conns s !! i = Some y ∧ c_detached x = true ∧ c_destroyed x = c_destroyed y ∧ (c_state x = c_state y ∨ c_state x = kDisconnecting))) as Hl.
  { intros j x. destruct (decide (j = i)) as [->|Hne].
    - destruct Hql as [(_ & -> & _)|[_ ->]]; cbn; rewrite !list_lookup_alter_eq; (destruct (conns s !! i) as [y|]; [|done]); cbn; intros [= <-];
        right; (split; [done|]); exists y; auto.
    - destruct Hql as [(_ & -> & _)|[_ ->]]; cbn; rewrite !list_lookup_alter_ne by done; by left. }
  constructor; cbn; try done.
  - intros j x [[Hne Hx]|(-> & y & Hy & E1 & E2 & E3)]%Hl.
    + specialize (H5 j x Hx). unfold phase in *. cbn. rewrite (H8 Ha j x Hx), Hn in *. rewrite Q2.
      destruct (c_state x); try done; [by destruct H5|destruct H5 as (_ & _ & F); congruence..].
    + specialize (H5 i y Hy). unfold phase in *. cbn. rewrite (H8 Ha i y Hy), Hn in H5. rewrite E1, E2, Q2.
      destruct (c_state y), E3 as [-> | ->]; try done; try (destruct H5 as [F _]; done);
        destruct H5 as (? & ? & _); split_and!; try done; by right.
  - intros j Hj. apply Q5. destruct (conns s !! j) as [x|] eqn:E; [|done].
    assert (length l = length (conns s)) as El by (destruct Hql as [(_ & -> & _)|[_ ->]]; cbn; by rewrite !length_alter).
    apply lookup_ge_None in Hj. apply lookup_lt_Some in E. lia.
Qed.

Lemma delete_ok s : inv s → enabled Delete s → wp (delete_TcpClient s) inv.
Proof.
  intros Hi [Ha Hd]. unfold delete_TcpClient. destruct (connection_ s) as [i|] eqn:Hn.
  - destruct (connector_ s) as [c|] eqn:Hc; [|destruct (k_none _ _ Hi Hc); congruence].
    destruct (Hd ltac:(done) c eq_refl) as [Hch Hp]. destruct (k_conn _ _ Hi c Hc) as [_ Hcfs]. rewrite Hp in Hcfs.
    destruct (k_cur _ _ Hi i Hn) as ([x Hx] & _ & _). pose proof (k_phase _ _ Hi i x Hx) as Hph.
    assert (is_up (c_state x) = true ∧ destroys i (queue s) = 0%nat) as [Hup Hz].
    { unfold phase in Hph. destruct (c_state x); try done; [by destruct Hph|destruct Hph as (_ & ? & _); done..]. }
    assert (state_of i (on_conn i set_detached s) = c_state x) as Hst by (unfold state_of; by rewrite (on_conn_here _ _ _ x Hx)).
    destruct (negb (bool_decide (i ∈ held s)) && negb (existsb (mentions i) (queue s))) eqn:Hu.
    + unfold forceClose. rewrite Hst, Hup. cbn [connector_ enqueue set_queue on_conn set_conns]. rewrite Hc, bool_decide_true by done. cbn [wp].
      apply (delete_current_ok i (queue s ++ [FForceClose i]) (alter (set_cstate kDisconnecting) i (conns (on_conn i set_detached s)))); try done. by right.
    + cbn [connector_ on_conn set_conns]. rewrite Hc, bool_decide_true by done. cbn [wp].
      apply (delete_current_ok i (queue s) (conns (on_conn i set_detached s))); try done. left. split_and!; [done..|].
      apply andb_false_iff in Hu as [Hu|Hu]; apply negb_false_iff in Hu; [left; by apply bool_decide_eq_true in Hu|].
      right. by apply mentions_up.
  - assert (connector_ s ≠ None) as Hc by (intros F; destruct (k_none _ _ Hi F); congruence).
    destruct (connector_ s) as [c|] eqn:Ec; [|done]. clear Hc.
    pose proof (stop_ok s Hi ltac:(by rewrite Ec)) as Hs. unfold on_connector in *. rewrite Ec in *. cbn [res_bind] in *.
    change (Connector.handed (Connector.stop c)) with (Connector.handed c) in *. rewrite drop_all in *. cbn [res_bind wp] in *.
    destruct Hs as [H1 H2 H3 H4 H5 H6 H7 H8]. constructor; cbn in *; try done. by intros _; split; [|intros ? [= <-]].
Qed.

(** ** Every step *)

Lemma perform_ok ev s : inv s → enabled ev s → wp (perform ev s) inv.
Proof.
  intros Hi He. pose proof He as He'. destruct ev as [other e| | | |error write err self peer|e|again e|i again e|i|i|i|k|]; cbn [perform enabled] in *.
  - destruct He as (Ha & Hn & Hr). destruct other; [|by apply client_connect_ok]. unfold connect_other. rewrite Ha. cbn [negb].
    apply on_connector_ok; [by destruct Hi; constructor|cbn; intros F; destruct (k_none _ _ Hi F); congruence|].
    intros c Hc. cbn in Hc. destruct (k_conn _ _ Hi c Hc) as [Hic _].
    pose proof (Connector.connector_step_ok Connector.OtherStart c Hic (Hr c Hc)) as Hok. cbn in Hok |- *.
    unfold op_ok; cbn [alive connection_ set_connect Connector.pending Connector.handed Connector.queue Connector.set_pending]. rewrite Hn, Ha.
    split_and!; [done|done|by exists [Connector.FStart]|done|by left].
  - unfold disconnect. assert (inv (set_connect false s)) as Hi' by (by destruct Hi; constructor). cbn [connection_ set_connect wp].
    destruct (connection_ s); [by apply shutdown_ok|done].
  - unfold stop. apply stop_ok; [by destruct Hi; constructor|]. cbn. intros F. destruct (k_none _ _ Hi F). congruence.
  - cbn. by destruct Hi; constructor.
  - destruct He as (c & fd & Hc & Hch). destruct (k_conn _ _ Hi c Hc) as [Hic _]. apply (waiting_ok _ _ s c); try done.
    + by exists fd.
    + intros (_ & _ & F). unfold Connector.registered in F. by rewrite Hch in F.
    + intros c'. by apply (ready_frame error write err self c fd).
  - destruct He as (c & Hc & Ht & Hr). apply (waiting_ok _ _ s c); try done.
    + by intros (F & _).
    + intros c' E. cbn [Connector.step] in E. destruct (Connector.timers c) as [|t ts]; [done|].
      apply startInLoop_same in E as (? & ? & ?). by apply framed_same.
  - destruct (queue s) as [|[f|i|i] q] eqn:Hq; [done|exact (connector_functor_ok f e q s Hi Hq)| |by apply connectDestroyed_ok].
    apply forceCloseInLoop_ok; [done..|]. destruct He as [?|F]; [done|]. by destruct (F i q).
  - destruct He as (Hup & Hag & Hr). apply handleClose_ok; [by apply inv_lax|done| |done].
    intros Hn c Hc. destruct (k_cur _ _ Hi i Hn) as (_ & _ & F). apply quiet_channel; [by apply (k_conn _ _ Hi)|by apply F|by apply Hr].
  - by apply shutdown_ok.
  - by apply forceClose_ok.
  - by apply hold_ok.
  - by apply release_ok.
  - by apply delete_ok.
Qed.

Lemma client_step_ok ev s : inv s → enabled ev s → wp (step ev s) inv.
Proof.
  intros Hi He. unfold step. eapply wp_bind; [by apply perform_ok|]. intros s' Hi'. by rewrite inv_dtors_ok.
Qed.

Lemma client_reach_inv nameArg s : reach nameArg s → inv s.
Proof.
  induction 1 as [|s ev s' Hr IH He Hs]; [apply new_client_inv|]. pose proof (client_step_ok ev s IH He) as Hok. by rewrite Hs in Hok.
Qed.


(** ** Runs *)

Fixpoint run (es : list event) (s : TcpClient) : res TcpClient :=
  match es with
  | [] => Ok s
  | e :: es => let! s := step e s in run es s
  end.

Fixpoint run_allowed (es : list event) (s : TcpClient) : Prop :=
  match es with
  | [] => True
  | e :: es => enabled e s ∧ match step e s with Ok s => run_allowed es s | Err _ => False end
  end.

Lemma client_run_reach nameArg es s s' :
  reach nameArg s → run_allowed es s → run es s = Ok s' → reach nameArg s'.
Proof.
  revert s. induction es as [|e es IH]; intros s Hr Ha Hrun; cbn in *; [by simplify_eq|].
  destruct Ha as [He Ha]. destruct (step e s) as [s1|] eqn:E; [|done]. cbn in Hrun.
  apply (IH s1); [by eapply reach_step|done..].
Qed.

Definition or_else (m : res TcpClient) : TcpClient := match m with Ok s => s | Err _ => new_TcpClient [] end.

Definition fresh : TcpClient := new_TcpClient (str "redis").
Definition peer : bytes := str "10.0.0.2:6379".
Definition connected : event := ConnectorReady false true false false peer.

(** With retries: a connection, closed by its peer, and the one that replaces it; then the
    program keeps a pointer, and the client is destroyed. *)
Definition redis_events : list event :=
  [EnableRetry; Connect false Connector.EINPROGRESS; connected; RunFunctor None Connector.E0; PeerClose 0 None Connector.ECONNREFUSED;
   RunFunctor None Connector.E0; ConnectorTimer Connector.EINPROGRESS; connected; RunFunctor None Connector.E0; Hold 1].

Definition redis : TcpClient := or_else (run redis_events fresh).

(** Evaluate the steps of a run one by one. *)
Ltac client_run_steps :=
  repeat first
    [ exact I
    | split; [vm_compute; repeat first [done | eexists | split | by left | progress intros; simplify_eq | set_solver]|
        match goal with |- context [step ?e ?s] =>
          let s' := eval vm_compute in (or_else (step e s)) in
          replace (step e s) with (Ok s') by (by vm_compute)
        end; cbv beta iota]].

Lemma redis_reach : reach (str "redis") redis.
Proof.
  apply (client_run_reach (str "redis") redis_events fresh); [constructor| |by vm_compute]. unfold redis_events.
  client_run_steps.
Qed.


(** ** What the conditions on the program exclude *)

(** [connect()] with a connection: it makes another one, and the first is destroyed while
    it is up; if the program kept it, its end fails the assertion of [removeConnection]. *)
Lemma connect_twice :
  run [Connect false Connector.E0; connected; RunFunctor None Connector.E0; Connect false Connector.E0; connected] fresh
    = Err AssertFailed ∧
  (∃ s, run [Connect false Connector.E0; connected; RunFunctor None Connector.E0; Hold 0; Connect false Connector.E0; connected;
     RunFunctor None Connector.E0] fresh = Ok s ∧ up 0 s ∧ up 1 s ∧ step (PeerClose 0 None Connector.E0) s = Err AssertFailed).
Proof. split; [by vm_compute|]. eexists. split; [vm_compute; reflexivity|split_and!; by vm_compute]. Qed.

(** [connect()] in the callback of a connection that goes down, with retries enabled: the
    client starts its connector twice. *)
Lemma reconnect_in_callback :
  run [EnableRetry; Connect false Connector.E0; connected; RunFunctor None Connector.E0;
       PeerClose 0 (Some Connector.E0) Connector.E0] fresh = Err AssertFailed.
Proof. by vm_compute. Qed.

(** Destroying the client in the callback of its new connection, before the functor that
    resets the connector's channel. *)
Lemma delete_in_callback : run [Connect false Connector.E0; connected; Delete] fresh = Err AssertFailed.
Proof. by vm_compute. Qed.

(** The client is destroyed while the program holds its connection, and the program drops
    the pointer before the connection is closed. *)
Lemma release_after_client :
  run [Connect false Connector.E0; connected; RunFunctor None Connector.E0; Hold 0; Delete; Release 0] fresh = Err AssertFailed.
Proof. by vm_compute. Qed.

(** Destroyed alone, the client closes its connection. *)
Lemma delete_closes :
  ∃ s, run [Connect false Connector.E0; connected; RunFunctor None Connector.E0; Delete; RunFunctor None Connector.E0;
            RunFunctor None Connector.E0] fresh = Ok s ∧
    queue s = [] ∧ map c_state (conns s) = [kDisconnected] ∧ map c_destroyed (conns s) = [true].
Proof. eexists. split; [vm_compute; reflexivity|]. split_and!; by vm_compute. Qed.

(** The 32 bytes of [buf] are too few for an IPv6 address: the number that makes the names
    different is cut. *)
Lemma names_collide s n :
  connName (str "[fe80:1111:2222:3333:4444:5555:6666:7777]:65535") (set_nextConnId n s) =
  connName (str "[fe80:1111:2222:3333:4444:5555:6666:7777]:65535") s.
Proof.
  unfold connName. cbn [name_ nextConnId_ set_nextConnId]. reflexivity.
Qed.

(** ** Reconnecting *)

(** The sockets created so far. *)
Definition attempts (s : TcpClient) : Z := match connector_ s with Some c => Connector.next c | None => 0 end.

Lemma connect_next e c c' : Connector.connect e c = Ok c' → Connector.next c' = Connector.next c + 1.
Proof.
  unfold Connector.connect, Connector.connecting, Connector.retry. cbn.
  destruct e; cbn; repeat case_match; intros; by simplify_eq.
Qed.

(** When a connection of the client goes down, the client tries again at once if retries
    are enabled and the program has not disconnected or stopped it, and only then. *)
Theorem reconnects nameArg s i e s' :
  reach nameArg s → alive s = true → enabled (PeerClose i None e) s → step (PeerClose i None e) s = Ok s' →
  connection_ s' = None ∧ attempts s' = attempts s + (if retry_ s && connect_ s then 1 else 0).
Proof.
  intros Hi%client_reach_inv Ha (Hup & _ & _) H. destruct (up_some i s Hup) as [x Hx].
  unfold step, perform, handleClose in H. rewrite Hup in H. cbn [res_bind] in H.
  rewrite (on_conn_here _ i s x Hx) in H. cbn [c_detached set_cstate] in H. rewrite (k_attached _ _ Hi Ha i x Hx) in H.
  unfold removeConnection in H. cbn [alive connection_ retry_ connect_ enqueue set_queue set_connection on_conn set_conns] in H.
  rewrite Ha in H. cbn [negb] in H. destruct (bool_decide (connection_ s = Some i)); [|done].
  destruct (connector_ s) as [c|] eqn:Hc; [|destruct (k_none _ _ Hi Hc); congruence].
  unfold attempts at 2. rewrite Hc. destruct (retry_ s && connect_ s).
  - destruct (on_connector _ _ _) as [s1|] eqn:E; [|done]. cbn [res_bind] in H. destruct (dtors_ok s1); [|done]. simplify_eq.
    unfold on_connector in E. cbn [connector_ enqueue set_queue set_connection on_conn set_conns] in E. rewrite Hc in E.
    destruct (Connector.restart e c) as [c'|] eqn:Er; [|done]. cbn [res_bind] in E.
    unfold Connector.restart in Er. pose proof (startInLoop_same _ _ _ Er) as (_ & _ & Hh). cbn in Hh. rewrite Hh, drop_all in E.
    unfold Connector.startInLoop in Er. cbn [Connector.connect_ Connector.set_connect] in Er. apply connect_next in Er. cbn in Er.
    simplify_eq. split; [done|]. unfold attempts. exact Er.
  - cbn [res_bind] in H. match type of H with (assert! dtors_ok ?s1 in _) = _ => destruct (dtors_ok s1) end; [|done]. simplify_eq. split; [done|]. unfold attempts. cbn. rewrite Hc. lia.
Qed.

End TcpClient.
