(* ===== verification/Locks.v ===== *)
(** Mutexes and condition variables ([base/thread/Mutex.h], [Condition.h],
    [Condition.cpp]) and per-thread objects ([ThreadLocalSingleton.h],
    [CurrentThread.h]), in every interleaving of the threads.

    A step is one statement of the wrappers: what pthread does, and the stores to
    [holder_].  The theorems justify the models that take a section under a mutex as one
    step ([ThreadPool], [AsyncLogging], [EventLoopThread], [EventLoop]). *)

From S2P Require Import Prelude.

Module Locks.

(** ** A mutex and the conditions of its threads *)

(** Where a thread is: [Lock1] and [Lock2] are the statements of [lock()], [Unlock1] and
    [Unlock2] those of [unlock()]; [wait()] is [Wait1] (the constructor of [UnassignGuard]),
    [Wait2] (the call of [pthread_cond_wait]), [Blocked], [Wait3] (woken, [pthread_cond_wait]
    locks the mutex again) and [Wait4] (the destructor of the guard). *)
Inductive pc := Outside | Lock1 | Lock2 | Inside | Unlock1 | Unlock2 | Wait1 | Wait2 | Blocked | Wait3 | Wait4.

#[global] Instance pc_eq_dec : EqDecision pc.
Proof. solve_decision. Defined.

(** [mutex_] is the thread that has locked it. *)
Record MutexLock := mkMutex {
  mutex_ : option nat;
  holder_ : Z;
  pcs : list pc;
  destroyed : bool;
}.

Definition new_MutexLock (threads : nat) : MutexLock := mkMutex None 0 (replicate threads Outside) false.

Definition set_mutex (v : option nat) (s : MutexLock) : MutexLock := mkMutex v (holder_ s) (pcs s) (destroyed s).
Definition set_holder (v : Z) (s : MutexLock) : MutexLock := mkMutex (mutex_ s) v (pcs s) (destroyed s).
Definition goto (i : nat) (p : pc) (s : MutexLock) : MutexLock := mkMutex (mutex_ s) (holder_ s) (<[i:=p]> (pcs s)) (destroyed s).
Definition set_destroyed (v : bool) (s : MutexLock) : MutexLock := mkMutex (mutex_ s) (holder_ s) (pcs s) v.

Section Threads.

(** The kernel's thread ids. *)
Context (tid : nat → Z).

Definition unassignHolder (s : MutexLock) : MutexLock := set_holder 0 s.
Definition assignHolder (i : nat) (s : MutexLock) : MutexLock := set_holder (tid i) s.

Definition isLockedByThisThread (i : nat) (s : MutexLock) : bool := holder_ s =? tid i.

(** [pthread_mutex_lock] returns when nobody holds the mutex. *)
Definition acquire (i : nat) (next : pc) (s : MutexLock) : MutexLock :=
  match mutex_ s with Some _ => s | None => goto i next (set_mutex (Some i) s) end.

(** [pthread_mutex_unlock] and [pthread_cond_wait] by a thread that does not hold the mutex
    are undefined. *)
Definition release (i : nat) (next : pc) (s : MutexLock) : res MutexLock :=
  if bool_decide (mutex_ s = Some i) then Ok (goto i next (set_mutex None s)) else Err OutOfRange.

(** The statements of [lock()], [unlock()] and [wait()]. *)
Definition lock (i : nat) (p : pc) (s : MutexLock) : res MutexLock :=
  match p with
  | Lock1 => Ok (acquire i Lock2 s)
  | Lock2 => Ok (goto i Inside (assignHolder i s))
  | _ => Ok s
  end.

Definition unlock (i : nat) (p : pc) (s : MutexLock) : res MutexLock :=
  match p with
  | Unlock1 => Ok (goto i Unlock2 (unassignHolder s))
  | Unlock2 => release i Outside s
  | _ => Ok s
  end.

Definition wait (i : nat) (p : pc) (s : MutexLock) : res MutexLock :=
  match p with
  | Wait1 => Ok (goto i Wait2 (unassignHolder s))
  | Wait2 => release i Blocked s
  | Wait3 => Ok (acquire i Wait4 s)
  | Wait4 => Ok (goto i Inside (assignHolder i s))
  | _ => Ok s
  end.

(** The next statement of thread [i]. *)
Definition run_thread (i : nat) (s : MutexLock) : res MutexLock :=
  match pcs s !! i with
  | Some ((Lock1 | Lock2) as p) => lock i p s
  | Some ((Unlock1 | Unlock2) as p) => unlock i p s
  | Some ((Wait1 | Wait2 | Wait3 | Wait4) as p) => wait i p s
  | Some (Outside | Inside | Blocked) | None => Ok s
  end.

Definition assertLocked (i : nat) (s : MutexLock) : res MutexLock :=
  assert! isLockedByThisThread i s in Ok s.

(** The destructor; [pthread_mutex_destroy] fails on a locked mutex. *)
Definition delete_MutexLock (s : MutexLock) : res MutexLock :=
  assert! holder_ s =? 0 in
  assert! bool_decide (mutex_ s = None) in
  Ok (set_destroyed true s).

(** ** Steps

    What the program does, and when threads run.  [Wake]: [notify()] wakes at least one
    blocked thread, [notifyAll()] all of them, and a thread may wake by itself or because
    its time is over. *)
Inductive event :=
| CallLock (i : nat)
| CallUnlock (i : nat)
| CallWait (i : nat)
| Notify (woken : list nat)
| NotifyAll
| Wake (i : nat)
| AssertLocked (i : nat)
| Run (i : nat)
| Delete.

Definition wake (i : nat) (s : MutexLock) : MutexLock :=
  if bool_decide (pcs s !! i = Some Blocked) then goto i Wait3 s else s.

Definition step (e : event) (s : MutexLock) : res MutexLock :=
  if destroyed s then Err UseAfterFree
  else
    match e with
    | CallLock i => Ok (goto i Lock1 s)
    | CallUnlock i => Ok (goto i Unlock1 s)
    | CallWait i => Ok (goto i Wait1 s)
    | Notify woken => Ok (foldr wake s woken)
    | NotifyAll => Ok (foldr wake s (seq 0 (length (pcs s))))
    | Wake i => Ok (wake i s)
    | AssertLocked i => assertLocked i s
    | Run i => run_thread i s
    | Delete => delete_MutexLock s
    end.

(** [MutexLockGuard] pairs the calls; [wait()] is called in a section; the mutex is
    destroyed when no thread uses it, and not used afterwards. *)
Definition enabled (e : event) (s : MutexLock) : Prop :=
  destroyed s = false ∧
  match e with
  | CallLock i => pcs s !! i = Some Outside
  | CallUnlock i | CallWait i | AssertLocked i => pcs s !! i = Some Inside
  | Notify woken => Blocked ∈ pcs s → ∃ i, i ∈ woken ∧ pcs s !! i = Some Blocked
  | NotifyAll | Wake _ | Run _ => True
  | Delete => ∀ i p, pcs s !! i = Some p → p = Outside
  end.

Inductive reach (threads : nat) : MutexLock → Prop :=
| reach_new : reach threads (new_MutexLock threads)
| reach_step s e s' : reach threads s → enabled e s → step e s = Ok s' → reach threads s'.

End Threads.

(** ** Invariant *)

(** The mutex belongs to a thread there. *)
Definition holds (p : pc) : bool :=
  match p with Lock2 | Inside | Unlock1 | Unlock2 | Wait1 | Wait2 | Wait4 => true | _ => false end.

(** [holder_] names a thread there. *)
Definition named (p : pc) : bool := match p with Inside | Unlock1 | Wait1 => true | _ => false end.

(** A statement of the wrappers is under way. *)
Definition busy (p : pc) : bool := match p with Outside | Inside | Blocked => false | _ => true end.

(** The statements a thread has before it. *)
Definition rank (p : pc) : nat :=
  match p with Lock1 | Wait3 => 2 | Lock2 | Wait4 => 1 | Unlock1 | Wait1 => 2 | Unlock2 | Wait2 => 1 | _ => 0 end.

Definition ranks (s : MutexLock) : nat := sum_list_with rank (pcs s).

Section Proofs.
Context (tid : nat → Z).

Record inv (s : MutexLock) : Prop := {
  l_owner : ∀ i p, pcs s !! i = Some p → holds p = bool_decide (mutex_ s = Some i);
  l_some : ∀ i, mutex_ s = Some i → is_Some (pcs s !! i);
  l_holder : holder_ s = match mutex_ s with
                         | Some i => match pcs s !! i with Some p => if named p then tid i else 0 | None => 0 end
                         | None => 0
                         end;
}.

Lemma new_lock_inv threads : inv (new_MutexLock threads).
Proof. constructor; cbn; try done. by intros i p [-> _]%lookup_replicate. Qed.

(** A thread goes on; it may take the mutex when it is free and give it back. *)
Lemma inv_goto i p p' h s :
  inv s → pcs s !! i = Some p → (holds p' = true → holds p = true ∨ mutex_ s = None) →
  h = (if holds p' then if named p' then tid i else 0 else if holds p then 0 else holder_ s) →
  inv (mkMutex (if holds p' then Some i else if holds p then None else mutex_ s) h (<[i:=p']> (pcs s)) (destroyed s)).
Proof.
  intros [H1 H2 H3] Hp Hfree ->. pose proof (H1 i p Hp) as Hi. pose proof (lookup_lt_Some _ _ _ Hp) as Hlt.
  constructor; cbn.
  - intros j q [[-> [<- _]]|[Hne Hj]]%list_lookup_insert_Some.
    + destruct (holds p'); [by rewrite bool_decide_true|]. destruct (holds p); [done|]. by rewrite <- Hi.
    + rewrite (H1 j q Hj). destruct (holds p') eqn:E; [|destruct (holds p) eqn:E']; [..|done].
      * rewrite (bool_decide_false (Some i = Some j)) by congruence. apply bool_decide_false. intros F.
        destruct (Hfree eq_refl) as [E'|E']; [|congruence]. rewrite E' in Hi. symmetry in Hi. apply bool_decide_eq_true in Hi. congruence.
      * rewrite (bool_decide_false (None = Some j)) by done. apply bool_decide_false. symmetry in Hi. apply bool_decide_eq_true in Hi. congruence.
  - intros j Hj. apply lookup_lt_is_Some. rewrite length_insert. destruct (holds p'); [by simplify_eq|].
    destruct (holds p); [done|]. by apply lookup_lt_is_Some, H2.
  - destruct (holds p'); [by rewrite list_lookup_insert_eq|]. destruct (holds p); [done|]. rewrite H3.
    destruct (mutex_ s) as [j|]; [|done]. rewrite list_lookup_insert_ne; [done|]. intros ->. by rewrite bool_decide_true in Hi.
Qed.

Lemma mutex_release_ok i p s next :
  inv s → pcs s !! i = Some p → holds p = true → named p = false → holds next = false →
  release i next s = Ok (goto i next (set_mutex None s)) ∧ inv (goto i next (set_mutex None s)).
Proof.
  intros Hi Hp Hh Hn Hx. pose proof (l_owner _ Hi i p Hp) as Ho. rewrite Hh in Ho. symmetry in Ho.
  unfold release. rewrite Ho. split; [done|]. apply bool_decide_eq_true in Ho.
  pose proof (inv_goto i p next 0 s Hi Hp) as H. rewrite Hh, Hx in H. assert (holder_ s = 0) as E.
  { by rewrite (l_holder _ Hi), Ho, Hp, Hn. }
  unfold goto, set_mutex. cbn. rewrite E. apply H; done.
Qed.

Lemma acquire_ok i p s next :
  inv s → pcs s !! i = Some p → holds p = false → holds next = true → named next = false → inv (acquire i next s).
Proof.
  intros Hi Hp Hh Hx Hn. unfold acquire. destruct (mutex_ s) eqn:E; [done|].
  pose proof (inv_goto i p next 0 s Hi Hp) as H. rewrite Hx, Hn in H. assert (holder_ s = 0) as E'.
  { by rewrite (l_holder _ Hi), E. }
  unfold goto, set_mutex. cbn. rewrite E'. apply H; auto.
Qed.

(** Statements that only store [holder_]. *)
Lemma store_ok i p s next :
  inv s → pcs s !! i = Some p → holds p = true → holds next = true →
  inv (goto i next (set_holder (if named next then tid i else 0) s)).
Proof.
  intros Hi Hp Hh Hx. pose proof (inv_goto i p next (if named next then tid i else 0) s Hi Hp) as H. rewrite Hx in H.
  pose proof (l_owner _ Hi i p Hp) as Ho. rewrite Hh in Ho. symmetry in Ho. apply bool_decide_eq_true in Ho.
  unfold goto, set_holder. cbn. rewrite Ho. apply H; auto.
Qed.

Lemma run_thread_ok i s : inv s → wp (run_thread tid i s) inv.
Proof.
  intros Hi. unfold run_thread. destruct (pcs s !! i) as [p|] eqn:Hp; [|done].
  destruct p; cbn [lock unlock wait wp]; try done.
  - by eapply acquire_ok.
  - by apply (store_ok i Lock2 s Inside).
  - by apply (store_ok i Unlock1 s Unlock2).
  - destruct (mutex_release_ok i Unlock2 s Outside Hi Hp) as [-> ?]; done.
  - by apply (store_ok i Wait1 s Wait2).
  - destruct (mutex_release_ok i Wait2 s Blocked Hi Hp) as [-> ?]; done.
  - by eapply acquire_ok.
  - by apply (store_ok i Wait4 s Inside).
Qed.

(** Calls that neither take nor give back the mutex. *)
Lemma call_ok i p s next :
  inv s → pcs s !! i = Some p → holds next = holds p → named next = named p → inv (goto i next s).
Proof.
  intros Hi Hp Hh Hn. pose proof (inv_goto i p next (holder_ s) s Hi Hp) as H. rewrite Hh, Hn in H.
  pose proof (l_owner _ Hi i p Hp) as Ho. destruct (holds p) eqn:E.
  - symmetry in Ho. apply bool_decide_eq_true in Ho. unfold goto. rewrite Ho. apply H; [auto|]. by rewrite (l_holder _ Hi), Ho, Hp.
  - unfold goto. apply H; [done|]. done.
Qed.

Lemma wake_ok i s : inv s → inv (wake i s).
Proof. intros Hi. unfold wake. case_bool_decide as H; [|done]. by apply (call_ok i Blocked). Qed.

Lemma wakes_ok l s : inv s → inv (foldr wake s l).
Proof. intros Hi. induction l as [|i l IH]; [done|]. cbn. by apply wake_ok. Qed.

Lemma locked_inside i s : inv s → pcs s !! i = Some Inside → holder_ s = tid i.
Proof.
  intros Hi Hp. pose proof (l_owner _ Hi i _ Hp) as Ho. symmetry in Ho. apply bool_decide_eq_true in Ho.
  by rewrite (l_holder _ Hi), Ho, Hp.
Qed.

Lemma delete_mutex_ok s : inv s → (∀ i p, pcs s !! i = Some p → p = Outside) → wp (delete_MutexLock s) inv.
Proof.
  intros Hi Hout. assert (mutex_ s = None) as Hm.
  { destruct (mutex_ s) as [i|] eqn:E; [|done]. destruct (l_some _ Hi i E) as [p Hp].
    pose proof (l_owner _ Hi i p Hp) as Ho. rewrite E, (Hout i p Hp), bool_decide_true in Ho; done. }
  unfold delete_MutexLock. rewrite (l_holder _ Hi), Hm. cbn. by destruct Hi.
Qed.

Lemma mutex_step_ok e s : inv s → enabled e s → wp (step tid e s) inv.
Proof.
  intros Hi [Hd He]. unfold step. rewrite Hd. destruct e as [i|i|i|l| |i|i|i|]; cbn [wp].
  - by apply (call_ok i Outside).
  - by apply (call_ok i Inside).
  - by apply (call_ok i Inside).
  - by apply wakes_ok.
  - by apply wakes_ok.
  - by apply wake_ok.
  - unfold assertLocked, isLockedByThisThread. rewrite (locked_inside i s Hi He), Z.eqb_refl. done.
  - by apply run_thread_ok.
  - by apply delete_mutex_ok.
Qed.

Lemma mutex_reach_inv threads s : reach tid threads s → inv s.
Proof.
  induction 1 as [|s e s' Hr IH He Hs]; [apply new_lock_inv|]. pose proof (mutex_step_ok e s IH He) as H. by rewrite Hs in H.
Qed.

(** ** Progress *)

Lemma ranks_goto i p p' s s' :
  pcs s !! i = Some p → pcs s' = <[i:=p']> (pcs s) → (rank p' < rank p)%nat → (ranks s' < ranks s)%nat.
Proof.
  intros Hp E Hr. unfold ranks. rewrite E. rewrite <- (take_drop_middle (pcs s) i p Hp) at 2.
  rewrite (insert_take_drop _ _ _ (lookup_lt_Some _ _ _ Hp)), !sum_list_with_app. cbn. lia.
Qed.

(** A thread that has the mutex, or waits for it while it is free, goes on. *)
Lemma run_thread_goes i p s :
  inv s → pcs s !! i = Some p → busy p = true → holds p = true ∨ mutex_ s = None →
  ∃ s', run_thread tid i s = Ok s' ∧ (ranks s' < ranks s)%nat.
Proof.
  intros Hi Hp Hb Hf. unfold run_thread. rewrite Hp.
  destruct p; try done; cbn [lock unlock wait]; try (destruct Hf as [?|Hf]; [done|]; unfold acquire; rewrite Hf);
    try (edestruct (mutex_release_ok i) as [-> _]; [done..|]); eexists; (split; [done|]);
    (eapply (ranks_goto i); [exact Hp|done|cbn; lia]).
Qed.

Lemma busy_goes i p s :
  inv s → pcs s !! i = Some p → busy p = true →
  (∃ j s', run_thread tid j s = Ok s' ∧ (ranks s' < ranks s)%nat) ∨ (∃ j, pcs s !! j = Some Inside).
Proof.
  intros Hi Hp Hb. destruct (mutex_ s) as [j|] eqn:Hm.
  - destruct (l_some _ Hi j Hm) as [q Hq]. pose proof (l_owner _ Hi j q Hq) as Ho. rewrite Hm, bool_decide_true in Ho by done.
    destruct (busy q) eqn:Hbq.
    + left. exists j. apply (run_thread_goes j q); auto.
    + right. exists j. rewrite Hq. by destruct q.
  - left. exists i. apply (run_thread_goes i p); auto.
Qed.

Lemma inside_unique i j s : inv s → pcs s !! i = Some Inside → pcs s !! j = Some Inside → i = j.
Proof.
  intros Hi Hp Hq. pose proof (l_owner _ Hi i _ Hp) as H1. pose proof (l_owner _ Hi j _ Hq) as H2. symmetry in H1, H2.
  apply bool_decide_eq_true in H1, H2. congruence.
Qed.

(** A thread leaves a section only by its own calls. *)
Lemma goto_inside i j p s : pcs s !! i = Some Inside → pcs s !! j ≠ Some Inside ∨ p = Inside → pcs (goto j p s) !! i = Some Inside.
Proof.
  intros Hi Hj. cbn. destruct (decide (i = j)) as [->|Hne]; [|by rewrite list_lookup_insert_ne].
  destruct Hj as [Hj| ->]; [done|]. apply list_lookup_insert_eq. by eapply lookup_lt_Some.
Qed.

Lemma wakes_inside i l s : pcs s !! i = Some Inside → pcs (foldr wake s l) !! i = Some Inside.
Proof.
  intros Hi. induction l as [|j l IH]; [done|]. cbn. unfold wake at 1. case_bool_decide as E; [|done].
  apply goto_inside; [done|]. left. by rewrite E.
Qed.

Lemma run_thread_inside i j s s' : pcs s !! i = Some Inside → run_thread tid j s = Ok s' → pcs s' !! i = Some Inside.
Proof.
  intros Hi. unfold run_thread, release, acquire. destruct (pcs s !! j) as [p|] eqn:Hp; [|intros; by simplify_eq].
  assert (p ≠ Inside → ∀ q r, pcs r = pcs s → pcs (goto j q r) !! i = Some Inside) as Hgo.
  { intros Hne q r E. apply goto_inside; rewrite E; [done|left; congruence]. }
  destruct p; cbn [lock unlock wait]; unfold release, acquire; try (intros; simplify_eq; done); repeat case_match; intros; simplify_eq; try done; apply Hgo; done.
Qed.

Lemma inside_stays i e s s' :
  pcs s !! i = Some Inside → enabled e s → step tid e s = Ok s' → e ≠ CallUnlock i → e ≠ CallWait i →
  pcs s' !! i = Some Inside.
Proof.
  intros Hi [Hd He] Hs H1 H2. unfold step in Hs. rewrite Hd in Hs. destruct e as [j|j|j|l| |j|j|j|].
  - simplify_eq. apply goto_inside; [done|left]. by rewrite He.
  - simplify_eq. cbn. by rewrite list_lookup_insert_ne by congruence.
  - simplify_eq. cbn. by rewrite list_lookup_insert_ne by congruence.
  - simplify_eq. by apply wakes_inside.
  - simplify_eq. by apply wakes_inside.
  - simplify_eq. by apply (wakes_inside i [j]).
  - unfold assertLocked in Hs. destruct (isLockedByThisThread tid j s); [by simplify_eq|done].
  - by eapply run_thread_inside.
  - by specialize (He i Inside Hi).
Qed.

(** C14. Mutexes in every interleaving of threads that lock, wait and notify: no assertion of
    the wrappers fails and pthread is never called by a thread that does not hold the mutex;
    one thread at most is past [pthread_mutex_lock]; [isLockedByThisThread] is true exactly
    for the thread that is in a section; and as long as a thread has statements of the
    wrappers before it, some thread goes on (each step leaves fewer of them), unless a
    thread is in a section of the program. *)
Theorem mutex_correct threads s :
  (∀ i, tid i ≠ 0) → (∀ i j, tid i = tid j → i = j) → reach tid threads s →
  (∀ e, enabled e s → ∃ s', step tid e s = Ok s') ∧
  (∀ i j p q, pcs s !! i = Some p → pcs s !! j = Some q → holds p = true → holds q = true → i = j) ∧
  (∀ i p, pcs s !! i = Some p → isLockedByThisThread tid i s = named p) ∧
  (∀ i p, pcs s !! i = Some p → busy p = true →
     (∃ j s', run_thread tid j s = Ok s' ∧ (ranks s' < ranks s)%nat) ∨ (∃ j, pcs s !! j = Some Inside)).
Proof.
  intros Hpos Hinj Hi%mutex_reach_inv. split_and!.
  - intros e He. destruct (wp_elim _ _ (mutex_step_ok e s Hi He)) as (s' & ? & _). by exists s'.
  - intros i j p q Hp Hq H1 H2. rewrite (l_owner _ Hi i p Hp) in H1. rewrite (l_owner _ Hi j q Hq) in H2.
    apply bool_decide_eq_true in H1, H2. congruence.
  - intros i p Hp. unfold isLockedByThisThread. rewrite (l_holder _ Hi). pose proof (l_owner _ Hi i p Hp) as Ho.
    destruct (mutex_ s) as [j|] eqn:Hm; [destruct (decide (j = i)) as [->|Hne]|].
    + rewrite Hp. destruct (named p); [by rewrite Z.eqb_refl|]. apply Z.eqb_neq. intros F. by destruct (Hpos i).
    + rewrite bool_decide_false in Ho by congruence. assert (named p = false) as -> by by destruct p.
      destruct (l_some _ Hi j Hm) as [q ->]. apply Z.eqb_neq. destruct (named q); [|intros F; by destruct (Hpos i)].
      intros F. by apply Hne, Hinj.
    + rewrite bool_decide_false in Ho by done. assert (named p = false) as -> by by destruct p.
      apply Z.eqb_neq. intros F. by destruct (Hpos i).
  - intros i p Hp Hb. by apply (busy_goes i p).
Qed.

(** ** Data that the mutex guards *)

Section Guarded.
Context {A : Type}.

(** Threads use the data in sections. *)
Inductive action := Sync (e : event) | Access (i : nat) (f : A → A).

Definition act_enabled (a : action) (s : MutexLock) : Prop :=
  match a with Sync e => enabled e s | Access i _ => destroyed s = false ∧ pcs s !! i = Some Inside end.

Inductive shared_reach (threads : nat) (d0 : A) : list action → MutexLock → A → Prop :=
| shared_new : shared_reach threads d0 [] (new_MutexLock threads) d0
| shared_sync acts s d e s' :
    shared_reach threads d0 acts s d → act_enabled (Sync e) s → step tid e s = Ok s' →
    shared_reach threads d0 (acts ++ [Sync e]) s' d
| shared_access acts s d i f :
    shared_reach threads d0 acts s d → act_enabled (Access i f) s →
    shared_reach threads d0 (acts ++ [Access i f]) s (f d).

(** The sections the threads have ended, by [unlock()] or [wait()], in this order, and what
    each has done in the section it is in. *)
Definition note (b : list (nat * list (A → A)) * gmap nat (list (A → A))) (a : action) :=
  let (closed, open) := b in
  match a with
  | Access i f => (closed, <[i := default [] (open !! i) ++ [f]]> open)
  | Sync (CallUnlock i) | Sync (CallWait i) => (closed ++ [(i, default [] (open !! i))], delete i open)
  | Sync _ => b
  end.

Definition sections (acts : list action) := foldl note ([], ∅) acts.

(** A section at once, and one section after the other. *)
Definition at_once (fs : list (A → A)) (d : A) : A := foldl (λ d f, f d) d fs.
Definition serial (closed : list (nat * list (A → A))) (d : A) : A := foldl (λ d '(_, fs), at_once fs d) d closed.

Lemma at_once_snoc fs f d : at_once (fs ++ [f]) d = f (at_once fs d).
Proof. unfold at_once. by rewrite foldl_app. Qed.

Lemma serial_snoc closed i fs d : serial (closed ++ [(i, fs)]) d = at_once fs (serial closed d).
Proof. unfold serial. by rewrite foldl_app. Qed.

Definition open_ok (s : MutexLock) (d0 d : A) (b : list (nat * list (A → A)) * gmap nat (list (A → A))) : Prop :=
  (∀ i l, b.2 !! i = Some l → pcs s !! i = Some Inside ∧ d = at_once l (serial b.1 d0)) ∧
  ((∀ i, b.2 !! i = None) → d = serial b.1 d0).

(** What thread [i] has done in its section, on the serial data. *)
Lemma open_here i s d0 d b :
  inv s → open_ok s d0 d b → pcs s !! i = Some Inside → d = at_once (default [] (b.2 !! i)) (serial b.1 d0).
Proof.
  intros Hi [H1 H2] Hp. destruct (b.2 !! i) as [l|] eqn:E; cbn; [by apply (H1 i)|]. apply H2. intros j.
  destruct (b.2 !! j) as [l|] eqn:E'; [|done]. destruct (H1 j l E') as [Hj _]. rewrite (inside_unique i j s) in E; [congruence|done..].
Qed.

Lemma open_only i s d0 d b :
  inv s → open_ok s d0 d b → pcs s !! i = Some Inside → ∀ j, j ≠ i → b.2 !! j = None.
Proof.
  intros Hi [H1 _] Hp j Hne. destruct (b.2 !! j) as [l|] eqn:E; [|done]. destruct (H1 j l E) as [Hj _].
  by destruct Hne; apply (inside_unique j i s).
Qed.

Lemma open_end i s s' d0 d closed open :
  inv s → open_ok s d0 d (closed, open) → pcs s !! i = Some Inside →
  open_ok s' d0 d (closed ++ [(i, default [] (open !! i))], delete i open).
Proof.
  intros Hi Ho Hp. pose proof (open_only i s d0 d _ Hi Ho Hp) as Hn. pose proof (open_here i s d0 d _ Hi Ho Hp) as Hd. cbn [fst snd] in *. split; cbn [fst snd].
  - intros j l Hj. apply lookup_delete_Some in Hj as [Hne Hj]. by rewrite Hn in Hj.
  - intros _. by rewrite serial_snoc.
Qed.

Lemma shared_open threads d0 acts s d :
  shared_reach threads d0 acts s d → reach tid threads s ∧ open_ok s d0 d (sections acts).
Proof.
  induction 1 as [|acts s d e s' _ [Hr Ho] He Hs|acts s d i f _ [Hr Ho] [Hd Hp]].
  - split; [constructor|]. split; [|done]. intros i l Hl. cbn in Hl. by rewrite lookup_empty in Hl.
  - split; [by eapply reach_step|]. pose proof (mutex_reach_inv _ _ Hr) as Hi. unfold sections in *. rewrite foldl_app. cbn [foldl].
    destruct (foldl note ([], ∅) acts) as [closed open].
    assert ((∀ i, e ≠ CallUnlock i) → (∀ i, e ≠ CallWait i) → open_ok s' d0 d (closed, open)) as Hother.
    { intros N1 N2. destruct Ho as [H1 H2]. split; [|done]. intros i l Hl. destruct (H1 i l Hl) as [Hp Hd]. split; [|done].
      by eapply inside_stays. }
    destruct e; cbn [note]; try (by apply Hother); destruct He as [_ He]; by apply (open_end _ s).
  - split; [done|]. pose proof (mutex_reach_inv _ _ Hr) as Hi. unfold sections in *. rewrite foldl_app. cbn [foldl].
    destruct (foldl note ([], ∅) acts) as [closed open]. cbn [note].
    pose proof (open_only i s d0 d _ Hi Ho Hp) as Hn. pose proof (open_here i s d0 d _ Hi Ho Hp) as Hd'. cbn [fst snd] in *. split; cbn [fst snd].
    + intros j l [[<- <-]|[Hne Hj]]%lookup_insert_Some; [|by rewrite Hn in Hj]. split; [done|].
      by rewrite at_once_snoc, <- Hd'.
    + intros F. specialize (F i). by rewrite lookup_insert_eq in F.
Qed.

(** C15. Sections are atomic: whatever the interleaving, the data is what the sections that
    have ended make of it when each runs at once, in the order of their ends; a thread in a
    section sees this and what it has itself done since, and nothing of any other thread. *)
Theorem sections_atomic threads d0 acts s d :
  shared_reach threads d0 acts s d →
  let (closed, open) := sections acts in
  (∀ i, pcs s !! i = Some Inside → d = at_once (default [] (open !! i)) (serial closed d0)) ∧
  ((∀ i, pcs s !! i ≠ Some Inside) → d = serial closed d0).
Proof.
  intros [Hr Ho]%shared_open. pose proof (mutex_reach_inv _ _ Hr) as Hi.
  pose proof (λ i, open_here i s d0 d _ Hi Ho) as Hh. destruct (sections acts) as [closed open]. cbn in *.
  split; [done|]. intros Hno. destruct Ho as [H1 H2]. apply H2. intros i. cbn.
  destruct (open !! i) as [l|] eqn:E; [|done]. by destruct (Hno i), (H1 i l E).
Qed.

End Guarded.
End Proofs.

(** ** [waitForSeconds] *)

Definition kNanoSecondsPerSecond : Z := 1000000000.

(** [abstime], for the time of day [now] and a whole number of seconds: such a product of
    doubles is exact below 2^53, and the callers pass an [int]. *)
Definition deadline (now : Z * Z) (seconds : Z) : Z * Z :=
  let nanoseconds := i64 (seconds * kNanoSecondsPerSecond) in
  let (tv_sec, tv_nsec) := now in
  (i64 (tv_sec + Z.quot (i64 (tv_nsec + nanoseconds)) kNanoSecondsPerSecond),
   Z.rem (i64 (tv_nsec + nanoseconds)) kNanoSecondsPerSecond).

(** The deadline is [seconds] after [now], and [pthread_cond_timedwait] accepts it. *)
Lemma deadline_ok tv_sec tv_nsec seconds :
  0 ≤ tv_nsec < kNanoSecondsPerSecond → 0 ≤ seconds < 2 ^ 31 → 0 ≤ tv_sec < 2 ^ 62 →
  let (s, n) := deadline (tv_sec, tv_nsec) seconds in
  0 ≤ n < kNanoSecondsPerSecond ∧
  s * kNanoSecondsPerSecond + n = tv_sec * kNanoSecondsPerSecond + tv_nsec + seconds * kNanoSecondsPerSecond.
Proof.
  unfold deadline, kNanoSecondsPerSecond, i64. intros Hn Hs Ht.
  rewrite (swrap_small 64 (seconds * _)), (swrap_small 64 (tv_nsec + _)) by lia.
  rewrite Z.quot_div_nonneg, Z.rem_mod_nonneg by lia.
  pose proof (Z.div_mod (tv_nsec + seconds * 1000000000) 1000000000 ltac:(lia)).
  pose proof (Z.mod_pos_bound (tv_nsec + seconds * 1000000000) 1000000000 ltac:(lia)).
  rewrite swrap_small by lia. lia.
Qed.

(** With a negative number of seconds [tv_nsec] may be negative; [pthread_cond_timedwait]
    then fails at once, and the result says that there was no timeout. *)
Lemma negative_deadline : deadline (1000, 5) (-1) = (1000, -999999995).
Proof. reflexivity. Qed.

(** ** [ThreadLocalSingleton]

    Objects are numbered in the order in which they are made.  [t_value_] and [specific]
    (what [pthread_getspecific] returns) are per thread. *)
Record Singletons := mkSingletons {
  t_value_ : gmap nat nat;
  specific : gmap nat nat;
  made : nat;
  deleted : list nat;
}.

Definition no_singletons : Singletons := mkSingletons ∅ ∅ 0 [].

(** [instance()] with [Deleter::set]; the object it returns. *)
Definition instance (i : nat) (s : Singletons) : res (nat * Singletons) :=
  match t_value_ s !! i with
  | Some x => Ok (x, s)
  | None =>
      let x := made s in
      assert! bool_decide (specific s !! i = None) in
      Ok (x, mkSingletons (<[i:=x]> (t_value_ s)) (<[i:=x]> (specific s)) (S (made s)) (deleted s))
  end.

(** [destructor]: when a thread ends, pthread resets the value of the key and calls it with
    the old one. *)
Definition thread_exit (i : nat) (s : Singletons) : res Singletons :=
  match specific s !! i with
  | None => Ok s
  | Some obj =>
      let s := mkSingletons (t_value_ s) (delete i (specific s)) (made s) (deleted s) in
      assert! bool_decide (t_value_ s !! i = Some obj) in
      Ok (mkSingletons (delete i (t_value_ s)) (specific s) (made s) (deleted s ++ [obj]))
  end.

Inductive singletons_reach : Singletons → Prop :=
| singletons_new : singletons_reach no_singletons
| singletons_instance s i x s' : singletons_reach s → instance i s = Ok (x, s') → singletons_reach s'
| singletons_exit s i s' : singletons_reach s → thread_exit i s = Ok s' → singletons_reach s'.

Record singletons_inv (s : Singletons) : Prop := {
  g_same : specific s = t_value_ s;
  g_made : ∀ i x, t_value_ s !! i = Some x → (x < made s)%nat ∧ x ∉ deleted s;
  g_deleted : ∀ x, x ∈ deleted s → (x < made s)%nat;
  g_nodup : NoDup (deleted s);
  g_own : ∀ i j x, t_value_ s !! i = Some x → t_value_ s !! j = Some x → i = j;
  g_count : made s = (size (t_value_ s) + length (deleted s))%nat;
}.

Lemma instance_ok i s :
  singletons_inv s → wp (instance i s) (λ '(x, s'), singletons_inv s' ∧ t_value_ s' !! i = Some x).
Proof.
  intros Hi. unfold instance. destruct (t_value_ s !! i) as [x|] eqn:E; [done|]. destruct Hi as [H1 H2 H3 H4 H5 H6].
  rewrite H1, E, bool_decide_true by done. cbn. split; [|by rewrite lookup_insert_eq]. constructor; cbn.
  - done.
  - intros j x [[<- <-]|[Hne Hj]]%lookup_insert_Some.
    + split; [lia|]. intros F%H3. lia.
    + destruct (H2 j x Hj). split; [lia|done].
  - intros x Hx%H3. lia.
  - done.
  - intros j k x [[<- <-]|[Hne Hj]]%lookup_insert_Some [[<- F]|[Hne' Hk]]%lookup_insert_Some; [done|..].
    + destruct (H2 k _ Hk). lia.
    + subst x. destruct (H2 j _ Hj). lia.
    + by eapply H5.
  - rewrite map_size_insert_None by done. lia.
Qed.

Lemma thread_exit_ok i s :
  singletons_inv s → wp (thread_exit i s) (λ s', singletons_inv s' ∧ t_value_ s' !! i = None).
Proof.
  intros [H1 H2 H3 H4 H5 H6]. unfold thread_exit. rewrite H1. destruct (t_value_ s !! i) as [x|] eqn:E; [|by split].
  cbn [t_value_ specific made deleted]. rewrite E, bool_decide_true by done. destruct (H2 i x E) as [Hx Hnot].
  cbn. split; [|by rewrite lookup_delete_eq]. constructor; cbn.
  - done.
  - intros j y [Hne Hj]%lookup_delete_Some. destruct (H2 j y Hj) as [? Hy]. split; [done|].
    intros [?|F%list_elem_of_singleton]%elem_of_app; [done|]. subst y. by destruct Hne; apply (H5 i j x).
  - intros y [?|F%list_elem_of_singleton]%elem_of_app; [by apply H3|by subst].
  - apply NoDup_app. split_and!; [done|set_solver|apply NoDup_singleton].
  - intros j k y [_ Hj]%lookup_delete_Some [_ Hk]%lookup_delete_Some. by apply (H5 j k y).
  - rewrite map_size_delete_Some by (by eexists). rewrite length_app. cbn.
    assert (size (t_value_ s) ≠ 0%nat) by (intros F%map_size_empty_iff; by rewrite F, lookup_empty in E). lia.
Qed.

(** Every thread has one object at most, shares it with no other thread and gets the same
    one until it ends; then the object is deleted, once. *)
Theorem singletons_correct s :
  singletons_reach s →
  (∀ i, ∃ x s', instance i s = Ok (x, s') ∧ instance i s' = Ok (x, s')) ∧
  (∀ i, ∃ s', thread_exit i s = Ok s' ∧ t_value_ s' !! i = None) ∧
  (∀ i j x, t_value_ s !! i = Some x → t_value_ s !! j = Some x → i = j) ∧
  NoDup (deleted s) ∧ made s = (size (t_value_ s) + length (deleted s))%nat.
Proof.
  intros Hr. assert (singletons_inv s) as Hi.
  { induction Hr as [|s i x s' _ IH E|s i s' _ IH E].
    - constructor; try done; [set_solver|constructor].
    - pose proof (instance_ok i s IH) as H. rewrite E in H. apply H.
    - pose proof (thread_exit_ok i s IH) as H. rewrite E in H. apply H. }
  split_and!; [| |apply Hi..].
  - intros i. destruct (wp_elim _ _ (instance_ok i s Hi)) as ([x s'] & E & _ & Hx). exists x, s'. split; [done|].
    unfold instance. by rewrite Hx.
  - intros i. destruct (wp_elim _ _ (thread_exit_ok i s Hi)) as (s' & E & _ & Hx). by exists s'.
Qed.

(** ** Runs *)

Definition or_new (m : res MutexLock) : MutexLock := match m with Ok s => s | Err _ => new_MutexLock 0 end.

Definition tids (i : nat) : Z := 4000 + Z.of_nat i.

(** Thread 0 waits in a section; thread 1 notifies it in one of its own. *)
Definition handover : list (action (A := Z)) :=
  [Sync (CallLock 0); Sync (CallLock 1); Sync (Run 0); Sync (Run 0); Sync (Run 1); Access 0 (Z.add 1); Sync (CallWait 0);
   Sync (Run 0); Sync (Run 0); Sync (Run 1); Sync (Run 1); Access 1 (Z.mul 10); Sync (Notify [0%nat]); Sync (Run 0);
   Access 1 (Z.add 2); Sync (CallUnlock 1); Sync (Run 1); Sync (Run 1); Sync (Run 0); Sync (Run 0); Access 0 (Z.mul 3)].

Definition act (a : action (A := Z)) (x : MutexLock * Z) : res (MutexLock * Z) :=
  match a with
  | Sync e => let! s := step tids e x.1 in Ok (s, x.2)
  | Access i f => Ok (x.1, f x.2)
  end.

Fixpoint act_all (acts : list (action (A := Z))) (x : MutexLock * Z) : res (MutexLock * Z) :=
  match acts with
  | [] => Ok x
  | a :: acts => let! x := act a x in act_all acts x
  end.

Fixpoint acts_enabled (acts : list (action (A := Z))) (x : MutexLock * Z) : Prop :=
  match acts with
  | [] => True
  | a :: acts => act_enabled a x.1 ∧ match act a x with Ok x => acts_enabled acts x | Err _ => False end
  end.

Lemma act_all_reach threads d0 acts acts0 x x' :
  shared_reach tids threads d0 acts0 x.1 x.2 → acts_enabled acts x → act_all acts x = Ok x' →
  shared_reach tids threads d0 (acts0 ++ acts) x'.1 x'.2.
Proof.
  revert acts0 x. induction acts as [|a acts IH]; intros acts0 x Hr He Hx; cbn in *; [by simplify_eq; rewrite app_nil_r|].
  destruct He as [Ha He]. destruct (act a x) as [y|] eqn:E; [|done]. cbn in Hx. change (a :: acts) with ([a] ++ acts).
  rewrite app_assoc. apply (IH _ y); [|done..]. destruct a as [e|i f]; cbn in E.
  - destruct (step tids e x.1) as [s|] eqn:Es; [|done]. cbn in E. simplify_eq. by apply (shared_sync _ _ _ _ x.1).
  - simplify_eq. by apply shared_access.
Qed.

Definition handed_over : MutexLock * Z :=
  match act_all handover (new_MutexLock 2, 0) with Ok x => x | Err _ => (new_MutexLock 0, 0) end.

Ltac act_step :=
  match goal with |- context [act ?a ?x] =>
    let y := eval vm_compute in (act a x) in
    replace (act a x) with y by (by vm_compute)
  end; cbv beta iota; cbn [acts_enabled].

Lemma handover_reach : shared_reach tids 2 0 handover handed_over.1 handed_over.2.
Proof.
  apply (act_all_reach 2 0 handover [] (new_MutexLock 2, 0)); [constructor| |by vm_compute].
  unfold handover. repeat (split; [vm_compute; split; first [done | intros _; exists 0%nat; split; [by left|done]]|act_step]).
  exact I.
Qed.

(** Thread 0 has gone on after thread 1 has left its section. *)
Lemma sections_atomic_witness : handed_over.2 = 36 ∧ pcs handed_over.1 = [Inside; Outside].
Proof.
  pose proof (sections_atomic tids 2 0 handover handed_over.1 handed_over.2 handover_reach) as H.
  split; [|by vm_compute]. destruct (sections handover) as [closed open] eqn:E. vm_compute in E. injection E as <- <-.
  destruct H as [H _]. rewrite (H 0%nat ltac:(by vm_compute)). by vm_compute.
Defined.

Lemma mutex_correct_witness :
  isLockedByThisThread tids 0 handed_over.1 = true ∧ isLockedByThisThread tids 1 handed_over.1 = false ∧
  ∃ s', step tids (AssertLocked 0) handed_over.1 = Ok s'.
Proof.
  destruct (shared_open tids 2 0 _ _ _ handover_reach) as [Hr _].
  destruct (mutex_correct tids 2 handed_over.1 ltac:(unfold tids; lia) ltac:(unfold tids; lia) Hr) as (H1 & _ & H3 & _).
  rewrite (H3 0%nat Inside ltac:(by vm_compute)), (H3 1%nat Outside ltac:(by vm_compute)).
  split_and!; [done|done|]. apply H1. by vm_compute.
Defined.

(** ** What the conditions exclude *)

(** A thread that locks the mutex again in its section waits for itself, for ever. *)
Lemma lock_twice s :
  mutex_ s = Some 0%nat → pcs s !! 0%nat = Some Lock1 → run_thread tids 0 s = Ok s.
Proof. intros Hm Hp. unfold run_thread, lock, acquire. by rewrite Hp, Hm. Qed.

(** [unlock()] without [lock()], and destroying a mutex that is locked. *)
Lemma misuse :
  act_all [Sync (CallUnlock 0); Sync (Run 0); Sync (Run 0)] (new_MutexLock 1, 0) = Err OutOfRange ∧
  act_all [Sync (CallLock 0); Sync (Run 0); Sync Delete] (new_MutexLock 1, 0) = Err AssertFailed.
Proof. split; by vm_compute. Qed.

End Locks.
