(* ===== verification/ThreadPool.v ===== *)
(** The thread pool ([base/thread/ThreadPool.h], [ThreadPool.cpp], and its copy
    [base/thread/threadPool.h] for thread-local objects).

    A bounded buffer with two condition variables.  Every section under the mutex is
    one step; workers and producers are counted by where they are.  [notify] wakes one
    of the waiting threads, and a waiting thread may also wake spuriously, as
    pthread_cond_wait(3) allows. *)

From S2P Require Import Prelude.

Module ThreadPool.

Record ThreadPool := mkPool {
  queue_ : list Z;
  isRunning_ : bool;
  maxQueueSize_ : Z;
  threads : nat;                (* threads_.size() *)
  testing : nat;                (* workers at while (isRunning_) *)
  taking : nat;                 (* workers entering take() *)
  woken : nat;                  (* workers woken from notEmpty_ *)
  waiting : nat;                (* workers in notEmpty_.wait() *)
  busy : list Z;                (* the tasks being run *)
  finished : nat;               (* workers that have returned *)
  putting : list Z;             (* tasks of producers woken from notFull_ *)
  blocked : list Z;             (* tasks of producers in notFull_.wait() *)
  accepted : list Z;            (* tasks ever put in the queue *)
  started : list Z;             (* tasks ever taken from it *)
  inline : list Z;              (* tasks run by put() itself *)
}.

(** [start(numThreads)] after construction. *)
Definition start (numThreads : nat) (maxSize : Z) : ThreadPool :=
  mkPool [] true maxSize numThreads numThreads 0 0 0 [] 0 [] [] [] [] [].

Definition isFull (p : ThreadPool) : bool :=
  (0 <? maxQueueSize_ p) && (maxQueueSize_ p <=? zlen (queue_ p)).

(** Threads that change place. *)
Definition set_workers (te ta wo wa : nat) (bu : list Z) (fi : nat) (p : ThreadPool) : ThreadPool :=
  mkPool (queue_ p) (isRunning_ p) (maxQueueSize_ p) (threads p) te ta wo wa bu fi
    (putting p) (blocked p) (accepted p) (started p) (inline p).
Definition set_producers (pu bl : list Z) (p : ThreadPool) : ThreadPool :=
  mkPool (queue_ p) (isRunning_ p) (maxQueueSize_ p) (threads p) (testing p) (taking p) (woken p) (waiting p)
    (busy p) (finished p) pu bl (accepted p) (started p) (inline p).
Definition set_queue (q ac st : list Z) (p : ThreadPool) : ThreadPool :=
  mkPool q (isRunning_ p) (maxQueueSize_ p) (threads p) (testing p) (taking p) (woken p) (waiting p)
    (busy p) (finished p) (putting p) (blocked p) ac st (inline p).
Definition set_running (v : bool) (p : ThreadPool) : ThreadPool :=
  mkPool (queue_ p) v (maxQueueSize_ p) (threads p) (testing p) (taking p) (woken p) (waiting p)
    (busy p) (finished p) (putting p) (blocked p) (accepted p) (started p) (inline p).
Definition set_inline (v : list Z) (p : ThreadPool) : ThreadPool :=
  mkPool (queue_ p) (isRunning_ p) (maxQueueSize_ p) (threads p) (testing p) (taking p) (woken p) (waiting p)
    (busy p) (finished p) (putting p) (blocked p) (accepted p) (started p) v.

(** [notEmpty_.notify()]. *)
Definition notify_worker (p : ThreadPool) : ThreadPool :=
  match waiting p with
  | O => p
  | S n => set_workers (testing p) (taking p) (S (woken p)) n (busy p) (finished p) p
  end.

(** [notFull_.notify()]: the kernel picks waiter [i]. *)
Definition notify_producer (i : nat) (p : ThreadPool) : ThreadPool :=
  match blocked p !! i with
  | Some t => set_producers (putting p ++ [t]) (delete i (blocked p)) p
  | None => p
  end.

(** [take()] with the mutex held, for one worker; [i] is the producer a notification
    would wake. *)
Definition take (i : nat) (p : ThreadPool) : ThreadPool :=
  match queue_ p with
  | [] =>
      if isRunning_ p
      then set_workers (testing p) (taking p) (woken p) (S (waiting p)) (busy p) (finished p) p
      else set_workers (S (testing p)) (taking p) (woken p) (waiting p) (busy p) (finished p) p
  | t :: q =>
      let p := set_queue q (accepted p) (started p ++ [t]) p in
      let p := set_workers (testing p) (taking p) (woken p) (waiting p) (busy p ++ [t]) (finished p) p in
      if 0 <? maxQueueSize_ p then notify_producer i p else p
  end.

(** [put(f)] with the mutex held, for one producer. *)
Definition put (t : Z) (p : ThreadPool) : ThreadPool :=
  if bool_decide (threads p = 0%nat) then set_inline (inline p ++ [t]) p
  else if isFull p then set_producers (putting p) (blocked p ++ [t]) p
  else notify_worker (set_queue (queue_ p ++ [t]) (accepted p ++ [t]) (started p) p).

(** The part of [stop()] before the joins. *)
Definition stop (p : ThreadPool) : ThreadPool :=
  set_workers (testing p) (taking p) (woken p + waiting p) 0 (busy p) (finished p) (set_running false p).

(** The steps of [runInThread] and of the producers. *)
Inductive event :=
| Test                     (* a worker evaluates while (isRunning_) *)
| Take (i : nat)           (* a worker that passed the test locks the mutex *)
| TakeWoken (i : nat)      (* a woken worker has the mutex again *)
| Finish (k : nat)         (* the k-th running task returns *)
| Put (t : Z)
| PutWoken (k : nat)       (* a woken producer has the mutex again *)
| SpuriousWorker
| SpuriousProducer (k : nat)
| Stop.

(** The thread a notification wakes is a waiting one. *)
Definition picks (i : nat) (p : ThreadPool) : Prop := blocked p = [] ∨ (i < length (blocked p))%nat.

Definition enabled (e : event) (p : ThreadPool) : Prop :=
  match e with
  | Test => (0 < testing p)%nat
  | Take i => (0 < taking p)%nat ∧ picks i p
  | TakeWoken i => (0 < woken p)%nat ∧ picks i p
  | Finish k => (k < length (busy p))%nat
  | PutWoken k => (k < length (putting p))%nat
  | SpuriousWorker => (0 < waiting p)%nat
  | SpuriousProducer k => (k < length (blocked p))%nat
  | Put _ | Stop => True
  end.

Definition step (e : event) (p : ThreadPool) : ThreadPool :=
  match e with
  | Test =>
      if isRunning_ p
      then set_workers (testing p - 1) (S (taking p)) (woken p) (waiting p) (busy p) (finished p) p
      else set_workers (testing p - 1) (taking p) (woken p) (waiting p) (busy p) (S (finished p)) p
  | Take i => take i (set_workers (testing p) (taking p - 1) (woken p) (waiting p) (busy p) (finished p) p)
  | TakeWoken i => take i (set_workers (testing p) (taking p) (woken p - 1) (waiting p) (busy p) (finished p) p)
  | Finish k => set_workers (S (testing p)) (taking p) (woken p) (waiting p) (delete k (busy p)) (finished p) p
  | Put t => put t p
  | PutWoken k =>
      match putting p !! k with
      | Some t => put t (set_producers (delete k (putting p)) (blocked p) p)
      | None => p
      end
  | SpuriousWorker => set_workers (testing p) (taking p) (S (woken p)) (waiting p - 1) (busy p) (finished p) p
  | SpuriousProducer k => notify_producer k p
  | Stop => stop p
  end.

Inductive reach (n : nat) (m : Z) : ThreadPool → Prop :=
| reach_start : reach n m (start n m)
| reach_step p e : reach n m p → enabled e p → reach n m (step e p).

(** ** Invariant *)

Record inv (n : nat) (m : Z) (p : ThreadPool) : Prop := {
  i_threads : threads p = n;
  i_max : maxQueueSize_ p = m;
  i_workers : (testing p + taking p + woken p + waiting p + length (busy p) + finished p = n)%nat;
  i_fifo : started p ++ queue_ p = accepted p;
  i_bound : 0 < m → zlen (queue_ p) ≤ m;
  (* a waiting worker has a woken colleague for every queued task *)
  i_awake : (0 < waiting p)%nat → (length (queue_ p) ≤ woken p)%nat;
  (* a blocked producer has a woken colleague for every free place *)
  i_space : blocked p ≠ [] → 0 < m ∧ m - zlen (queue_ p) ≤ zlen (putting p);
  i_finished : isRunning_ p = true → finished p = 0%nat;
  i_inline : n = 0%nat → putting p = [] ∧ blocked p = [];
}.

Lemma length_delete {A} (l : list A) k : (k < length l)%nat → length (delete k l) = (length l - 1)%nat.
Proof. intros Hk. apply length_delete, lookup_lt_is_Some_2. done. Qed.

(** A producer is woken: the books of the producers. *)
Lemma notify_producer_space i p :
  let p' := notify_producer i p in
  picks i p →
  queue_ p' = queue_ p ∧ isRunning_ p' = isRunning_ p ∧ maxQueueSize_ p' = maxQueueSize_ p ∧ threads p' = threads p ∧
  testing p' = testing p ∧ taking p' = taking p ∧ woken p' = woken p ∧ waiting p' = waiting p ∧ busy p' = busy p ∧
  finished p' = finished p ∧ accepted p' = accepted p ∧ started p' = started p ∧
  (blocked p' ≠ [] → blocked p ≠ [] ∧ zlen (putting p') = zlen (putting p) + 1) ∧
  (blocked p = [] → p' = p).
Proof.
  intros p' Hi. unfold p', notify_producer. destruct (blocked p !! i) as [t|] eqn:E.
  - cbn. split_and!; try done; [|intros F; by rewrite F in E]. intros _. split; [intros F; by rewrite F in E|].
    rewrite length_app. cbn. lia.
  - split_and!; try done. intros Hb. destruct Hi as [|Hi]; [done|]. apply lookup_ge_None_1 in E. lia.
Qed.

Lemma notify_producer_inv n m i p : inv n m p → picks i p → inv n m (notify_producer i p).
Proof.
  intros [] Hi. destruct (notify_producer_space i p Hi) as (E1 & E2 & E3 & E4 & E5 & E6 & E7 & E8 & E9 & E10 & E11 & E12 & Hs & Hnone).
  constructor; rewrite ?E1, ?E2, ?E3, ?E4, ?E5, ?E6, ?E7, ?E8, ?E9, ?E10, ?E11, ?E12; try done.
  - intros Hb. destruct (Hs Hb) as [Hb' ->]. destruct (i_space0 Hb'). lia.
  - intros Hn. destruct (i_inline0 Hn) as [? Hb]. by rewrite Hnone.
Qed.

(** [take()] for a worker that has left its place: [p] counts one worker too few. *)
Lemma take_inv n m i p :
  (testing p + taking p + woken p + waiting p + length (busy p) + finished p + 1 = n)%nat →
  threads p = n → maxQueueSize_ p = m → started p ++ queue_ p = accepted p → (0 < m → zlen (queue_ p) ≤ m) →
  ((0 < waiting p)%nat → (length (queue_ p) ≤ S (woken p))%nat) →
  (blocked p ≠ [] → 0 < m ∧ m - zlen (queue_ p) ≤ zlen (putting p)) →
  (isRunning_ p = true → finished p = 0%nat) → picks i p →
  inv n m (take i p).
Proof.
  intros Hw Ht Hm Hf Hb Ha Hs Hfin Hi. unfold take. destruct (queue_ p) as [|t q] eqn:Hq.
  - destruct (isRunning_ p) eqn:Er.
    + constructor; cbn; rewrite ?Hq; try done; cbn; lia.
    + constructor; cbn; rewrite ?Hq; try done; cbn; lia || congruence.
  - set (p1 := set_workers _ _ _ _ _ _ _). change (maxQueueSize_ p1) with (maxQueueSize_ p). rewrite Hm.
    assert (∀ p', (p' = p1 ∧ m ≤ 0) ∨ (p' = notify_producer i p1 ∧ 0 < m) → inv n m p') as Hgo.
    { intros p' Hp'. destruct (notify_producer_space i p1 Hi) as (E1 & E2 & E3 & E4 & E5 & E6 & E7 & E8 & E9 & E10 & E11 & E12 & Hn & Hnone).
      destruct Hp' as [[-> Hm0]|[-> Hm0]]; constructor; rewrite ?E1, ?E2, ?E3, ?E4, ?E5, ?E6, ?E7, ?E8, ?E9, ?E10, ?E11, ?E12; cbn in *; try done.
      all: try (rewrite length_app; cbn; lia). all: try (rewrite <- app_assoc; done).
      all: try (intros; lia).
      - intros F. destruct (Hs F). lia.
      - intros F. destruct (Hn F) as [F' ->]. destruct (Hs F'). lia. }
    destruct (Z.ltb_spec 0 m); apply Hgo; [right|left]; done.
Qed.

(** [put] by a new producer, or by a woken one that has left [putting]. *)
Lemma put_inv n m t pu p :
  inv n m p → n ≠ 0%nat → zlen (putting p) ≤ zlen pu + 1 → inv n m (put t (set_producers pu (blocked p) p)).
Proof.
  intros [Ht Hm Hw Hf Hb Ha Hs Hfin Hin] Hn Hpu. unfold put. cbn. rewrite bool_decide_false by congruence.
  unfold isFull. cbn. rewrite Hm. destruct ((0 <? m) && (m <=? zlen (queue_ p))) eqn:Ef; bool_prop.
  - constructor; cbn; try done. intros _. lia.
  - assert (0 < m → zlen (queue_ p) < m) as Hroom.
    { intros Hm0. rewrite (proj2 (Z.ltb_lt 0 m)) in Ef by done. cbn in Ef. by apply Z.leb_gt in Ef. }
    unfold notify_worker. cbn. destruct (waiting p) as [|w] eqn:Ew.
    + constructor; cbn; try done; rewrite ?Ew, ?length_app; cbn; try lia.
      * by rewrite <- Hf, app_assoc.
      * intros F. destruct (Hs F). lia.
    + constructor; cbn; try done; rewrite ?length_app; cbn; try lia.
      * by rewrite <- Hf, app_assoc.
      * intros F. destruct (Hs F). lia.
Qed.

Lemma step_inv n m e p : inv n m p → enabled e p → inv n m (step e p).
Proof.
  intros Hi He. pose proof Hi as [Ht Hm Hw Hf Hb Ha Hs Hfin Hin].
  destruct e as [|i|i|k|t|k| |k|]; cbn [step enabled] in *.
  - destruct (isRunning_ p) eqn:Er; constructor; cbn; try done; lia || congruence.
  - destruct He as [He Hp]. apply take_inv; cbn; try done; lia.
  - destruct He as [He Hp]. apply take_inv; cbn; try done; lia.
  - constructor; cbn; try done. rewrite length_delete by done. lia.
  - destruct (decide (n = 0%nat)) as [->|Hn].
    + unfold put. rewrite bool_decide_true by done. by constructor.
    + replace p with (set_producers (putting p) (blocked p) p) by by destruct p. apply put_inv; [done..|lia].
  - destruct (putting p !! k) as [t|] eqn:Ek; [|done]. apply put_inv; [done| |].
    + intros Hn. destruct (Hin Hn) as [F _]. by rewrite F in Ek.
    + rewrite length_delete by done. lia.
  - constructor; cbn; try done; lia.
  - apply notify_producer_inv; [done|]. by right.
  - constructor; cbn; try done; lia.
Qed.

Lemma pool_reach_inv n m p : reach n m p → inv n m p.
Proof.
  induction 1 as [|p e Hr IH He]; [|by apply step_inv].
  constructor; cbn; try done; lia.
Qed.

(** C16. The thread pool: in every interleaving, the tasks are taken in the order in which
    they were put, the queue never exceeds its bound, no worker is lost, and no wake-up
    is: when every thread that could take a task waits, the queue is empty, and when
    every producer waits, the queue is full. *)
Theorem threadpool_correct n m p :
  reach n m p →
  started p ++ queue_ p = accepted p ∧
  (0 < m → zlen (queue_ p) ≤ m) ∧
  (testing p + taking p + woken p + waiting p + length (busy p) + finished p = n)%nat ∧
  ((0 < waiting p)%nat → woken p = 0%nat → queue_ p = []) ∧
  (blocked p ≠ [] → putting p = [] → isFull p = true).
Proof.
  intros [Ht Hm Hw Hf Hb Ha Hs Hfin Hin]%pool_reach_inv. split_and!; [done..| |].
  - intros H1 H2. apply nil_length_inv. specialize (Ha H1). lia.
  - intros H1 H2. destruct (Hs H1) as [H3 H4]. rewrite H2 in H4. cbn in H4. unfold isFull. rewrite Hm.
    rewrite (proj2 (Z.ltb_lt _ _)), (proj2 (Z.leb_le _ _)) by lia. done.
Qed.

Fixpoint run (es : list event) (p : ThreadPool) : ThreadPool :=
  match es with [] => p | e :: es => run es (step e p) end.

(** Two workers, at most one queued task: both workers wait, a task is put. *)
Definition sample : ThreadPool := run [Test; Take 0; Test; Take 0; Put 7] (start 2 1).

Lemma sample_pool_reach : reach 2 1 sample.
Proof.
  unfold sample. cbn [run]. repeat (apply reach_step; [|by vm_compute; auto]). constructor.
Qed.

Lemma threadpool_correct_witness : started sample ++ queue_ sample = [7] ∧ waiting sample = 1%nat ∧ woken sample = 1%nat.
Proof. split_and!; [apply (threadpool_correct 2 1 sample sample_pool_reach)|by vm_compute..]. Defined.

(** After [stop()] the workers return although tasks are queued, and a producer that
    waits for room is never woken: [stop()] notifies only [notEmpty_]. *)
Lemma stop_strands :
  let p := run [Put 1; Put 2; Stop; Test] (start 1 1) in
  finished p = threads p ∧ queue_ p = [1] ∧ blocked p = [2] ∧ putting p = [] ∧ started p = [].
Proof. by vm_compute. Qed.

End ThreadPool.
