(* ===== verification/ConfigLoad.v ===== *)
(** The reading of the configuration ([webServer/configLoad.cpp], [cgiServer/configLoad.cpp]).

    The tree and the conversions are yaml-cpp's and come as a class; so does MD5.  The
    globals are variables by name, as the source has them, and the containers that loops
    fill.  An exception, here the text of its [what()], ends the reading; what was assigned
    before it stays. *)

From S2P Require Import Prelude.

Module ConfigLoad.

(** yaml-cpp: [inl] is an exception. *)
Class Yaml := {
  node : Type;
  real : Type;
  sub : node → string → bytes + node;          (* [node["key"]] *)
  as_string : node → bytes + bytes;
  as_int : node → bytes + Z;                   (* [as<int>()], [as<long long>()] *)
  as_real : node → bytes + real;               (* [as<double>()], [as<float>()] *)
  pairs : node → list (node * node);           (* [begin()] to [end()] *)
  defined : node → bool;
  LoadFile : bytes → bytes + node;
  MD5 : bytes → bytes;
}.

Section init.
Context `{Yaml}.

Inductive value := VString (s : bytes) | VInt (z : Z) | VReal (r : real).

Record Globals := mkGlobals {
  vars : gmap string value;
  mimeType : gmap bytes bytes;
  g_redis_vip : list bytes;
  urlTomd5 : gmap bytes bytes;
  g_zlibMap : gmap bytes Z;
}.

Definition new_Globals : Globals := mkGlobals ∅ ∅ [] ∅ ∅.

Definition set_var (x : string) (v : value) (g : Globals) : Globals :=
  mkGlobals (<[x := v]> (vars g)) (mimeType g) (g_redis_vip g) (urlTomd5 g) (g_zlibMap g).

(** *** Reading *)

Definition then_ {A B} (m : bytes + A) (k : A → bytes + B) : bytes + B :=
  match m with inl what => inl what | inr a => k a end.

(** [config["a"]["b"]...]. *)
Fixpoint at_ (path : list string) (n : node) : bytes + node :=
  match path with
  | [] => inr n
  | k :: ks => then_ (sub n k) (at_ ks)
  end.

Definition string_at (path : list string) (n : node) : bytes + bytes := then_ (at_ path n) as_string.
Definition int_at (path : list string) (n : node) : bytes + Z := then_ (at_ path n) as_int.

Definition a_string (path : list string) (n : node) : bytes + value :=
  then_ (string_at path n) (λ s, inr (VString s)).
Definition an_int (path : list string) (n : node) : bytes + value :=
  then_ (int_at path n) (λ z, inr (VInt z)).
Definition a_real (path : list string) (n : node) : bytes + value :=
  then_ (at_ path n) (λ x, then_ (as_real x) (λ r, inr (VReal r))).

(** G and M are [long long], K and B are [int]. *)
Definition maxSize (G M K B : Z) : Z :=
  i64 (i64 (i64 (i64 (i64 (i64 (G * 1024) * 1024) * 1024) + i64 (i64 (M * 1024) * 1024)) + i32 (K * 1024)) + B).

Definition rollDaySeconds (hour minute second : Z) : Z :=
  i32 (i32 (i32 (hour * 3600) + i32 (minute * 60)) + second).

Definition a_maxSize (n : node) : bytes + value :=
  then_ (int_at ["log"; "maxSize"; "G"]%string n) (λ G,
  then_ (int_at ["log"; "maxSize"; "M"]%string n) (λ M,
  then_ (int_at ["log"; "maxSize"; "K"]%string n) (λ K,
  then_ (int_at ["log"; "maxSize"; "B"]%string n) (λ B, inr (VInt (maxSize G M K B)))))).

Definition a_rollDaySeconds (n : node) : bytes + value :=
  then_ (int_at ["log"; "rollTime"; "hour"]%string n) (λ h,
  then_ (int_at ["log"; "rollTime"; "minute"]%string n) (λ m,
  then_ (int_at ["log"; "rollTime"; "second"]%string n) (λ s, inr (VInt (rollDaySeconds h m s))))).

(** *** Assignments *)

(** The globals, and the exception that ended the assignments. *)
Definition outcome : Type := Globals * option bytes.

Fixpoint assigns (l : list (string * (node → bytes + value))) (n : node) (g : Globals) : outcome :=
  match l with
  | [] => (g, None)
  | (x, read) :: l =>
      match read n with
      | inl what => (g, Some what)
      | inr v => assigns l n (set_var x v g)
      end
  end.

Definition and_then (o : outcome) (k : Globals → outcome) : outcome :=
  match o with (g, None) => k g | (g, Some what) => (g, Some what) end.

Definition log_table : list (string * (node → bytes + value)) :=
  [("g_log_level"%string, a_string ["log"; "level"]%string);
   ("g_log_path"%string, a_string ["log"; "path"]%string);
   ("g_log_maxSize"%string, a_maxSize);
   ("g_log_rollZoneTime"%string, an_int ["log"; "rollTime"; "zoneTime"]%string);
   ("g_log_rollDaySeconds"%string, a_rollDaySeconds);
   ("g_log_IOFrequency"%string, an_int ["log"; "IOFrequency"]%string)].

Definition web_table : list (string * (node → bytes + value)) :=
  [("g_nginx_ip"%string, a_string ["webServer"; "ip"]%string);
   ("g_webServer_port"%string, an_int ["webServer"; "port"]%string);
   ("g_webServer_poolThreads"%string, an_int ["webServer"; "poolThreads"]%string);
   ("g_webServer_loopThreads"%string, an_int ["webServer"; "loopThreads"]%string);
   ("g_nginx_ip"%string, a_string ["webServer"; "nginxIP"]%string);
   ("g_stop_after"%string, a_real ["webServer"; "aliveTime"]%string);
   ("g_conn_expire"%string, a_real ["webServer"; "connIdleTime"]%string);
   ("g_maxConnections"%string, an_int ["webServer"; "maxConnections"]%string)] ++
  log_table ++
  [("g_heartBeat_switch"%string, a_string ["heartBeat"; "switch"]%string);
   ("g_heartBeat_ip"%string, a_string ["heartBeat"; "server"; "ip"]%string);
   ("g_heartBeat_port"%string, an_int ["heartBeat"; "server"; "port"]%string);
   ("g_heartBeat_frequency"%string, an_int ["heartBeat"; "frequency"]%string);
   ("g_resource_base_path"%string, a_string ["resource"; "basePath"]%string);
   ("g_resource_index_path"%string, a_string ["resource"; "indexPath"]%string)].

Definition redis_table : list (string * (node → bytes + value)) :=
  [("g_redis_ip"%string, a_string ["redis"; "server"; "ip"]%string);
   ("g_redis_port"%string, an_int ["redis"; "server"; "port"]%string);
   ("g_redis_rate"%string, a_real ["redis"; "rate"]%string)].

Definition cgi_table : list (string * (node → bytes + value)) :=
  [("g_nginx_ip"%string, a_string ["cgiServer"; "ip"]%string);
   ("g_cgi_port"%string, an_int ["cgiServer"; "port"]%string);
   ("g_cgi_poolThreads"%string, an_int ["cgiServer"; "poolThreads"]%string);
   ("g_cgi_loopThreads"%string, an_int ["cgiServer"; "loopThreads"]%string);
   ("g_webServer_nginxIP"%string, a_string ["webServer"; "nginxIP"]%string)] ++
  log_table ++
  [("g_heartBeat_ip"%string, a_string ["heartBeat"; "server"; "ip"]%string);
   ("g_heartBeat_port"%string, an_int ["heartBeat"; "server"; "port"]%string);
   ("g_heartBeat_frequency"%string, an_int ["heartBeat"; "frequency"]%string);
   ("g_resource_base_path"%string, a_string ["resource"; "basePath"]%string);
   ("g_db_server"%string, a_string ["dataBase"; "server"]%string);
   ("g_db_user"%string, a_string ["dataBase"; "user"]%string);
   ("g_db_pswd"%string, a_string ["dataBase"; "pswd"]%string);
   ("g_db_dbName"%string, a_string ["dataBase"; "dbName"]%string)].

(** *** Loops *)

Fixpoint mime_loop (l : list (node * node)) (g : Globals) : outcome :=
  match l with
  | [] => (g, None)
  | (first, second) :: l =>
      match as_string second with
      | inl what => (g, Some what)
      | inr v =>
          match as_string first with
          | inl what => (g, Some what)
          | inr k => mime_loop l (mkGlobals (vars g) (<[k := v]> (mimeType g)) (g_redis_vip g) (urlTomd5 g) (g_zlibMap g))
          end
      end
  end.

Definition hex : bytes := str "0123456789ABCDEF".

(** [hex[str[i] >> 4] << hex[str[i] & 0xf]], sixteen times. *)
Definition hex_byte (c : byte) : bytes :=
  let z := ub c in
  [default Byte.x00 (hex !! Z.to_nat (Z.shiftr z 4)); default Byte.x00 (hex !! Z.to_nat (Z.land z 15))].

Definition strToHex (s : bytes) : bytes := concat (map hex_byte (take 16 s)).

Fixpoint vip_loop (l : list (node * node)) (g : Globals) : outcome :=
  match l with
  | [] => (g, None)
  | (_, second) :: l =>
      match as_string second with
      | inl what => (g, Some what)
      | inr url =>
          vip_loop l (mkGlobals (vars g) (mimeType g) (g_redis_vip g ++ [url])
                       (<[url := strToHex (MD5 url)]> (urlTomd5 g)) (g_zlibMap g))
      end
  end.

Fixpoint zlib_loop (l : list (node * node)) (g : Globals) : outcome :=
  match l with
  | [] => (g, None)
  | (first, second) :: l =>
      match as_int second with
      | inl what => (g, Some what)
      | inr v =>
          match as_string first with
          | inl what => (g, Some what)
          | inr k => zlib_loop l (mkGlobals (vars g) (mimeType g) (g_redis_vip g) (urlTomd5 g) (<[k := v]> (g_zlibMap g)))
          end
      end
  end.

(** A loop over the node at a path. *)
Definition over (path : list string) (loop : list (node * node) → Globals → outcome) (n : node) (g : Globals) : outcome :=
  match at_ path n with
  | inl what => (g, Some what)
  | inr m => loop (pairs m) g
  end.

(** [if (config["zlibMap"])]. *)
Definition over_if (path : list string) (loop : list (node * node) → Globals → outcome) (n : node) (g : Globals) : outcome :=
  match at_ path n with
  | inl what => (g, Some what)
  | inr m => if defined m then loop (pairs m) g else (g, None)
  end.

(** *** [init] *)

(** The globals, the result, and what is printed. *)
Definition finish (o : outcome) : Globals * bool * bytes :=
  match o with
  | (g, None) => (g, true, [])
  | (g, Some what) => (g, false, what ++ [Byte.x0a])
  end.

Definition web_read (n : node) (g : Globals) : outcome :=
  and_then (assigns web_table n g) (λ g,
  and_then (over ["mime"]%string mime_loop n g) (λ g,
  and_then (assigns redis_table n g) (λ g,
  and_then (over ["redis"; "vip"]%string vip_loop n g) (over_if ["zlibMap"]%string zlib_loop n)))).

Definition web_init (conf_path : bytes) (g : Globals) : Globals * bool * bytes :=
  finish match LoadFile conf_path with
         | inl what => (g, Some what)
         | inr config => web_read config g
         end.

Definition cgi_init (conf_path : bytes) (g : Globals) : Globals * bool * bytes :=
  finish match LoadFile conf_path with
         | inl what => (g, Some what)
         | inr config => assigns cgi_table config g
         end.

End init.

(** ** Sizes and times *)

(** The sum of the four parts, when G and M are not negative, K is less than 2^21 and the
    whole less than 2^63. *)
Lemma maxSize_exact G M K B :
  0 ≤ G → 0 ≤ M → - 2 ^ 21 ≤ K < 2 ^ 21 → - 2 ^ 31 ≤ B < 2 ^ 31 → (G * 1024 + M) * 2 ^ 20 < 2 ^ 62 →
  maxSize G M K B = G * 2 ^ 30 + M * 2 ^ 20 + K * 2 ^ 10 + B.
Proof.
  intros HG HM HK HB Hs. unfold maxSize. rewrite (i32_small (K * 1024)) by lia.
  assert (∀ z, - 2 ^ 63 ≤ z < 2 ^ 63 → i64 z = z) as Hi by (intros; by apply (swrap_small 64)).
  rewrite (Hi (G * 1024)), (Hi (G * 1024 * 1024)), (Hi (G * 1024 * 1024 * 1024)), (Hi (M * 1024)), (Hi (M * 1024 * 1024)) by lia.
  rewrite (Hi (G * 1024 * 1024 * 1024 + M * 1024 * 1024)) by lia.
  rewrite (Hi (G * 1024 * 1024 * 1024 + M * 1024 * 1024 + K * 1024)), Hi by lia. lia.
Qed.

(** K is multiplied as an [int]: two GiB in K make a negative size. *)
Lemma maxSize_wraps : maxSize 0 0 2097152 0 = - 2 ^ 31.
Proof. by vm_compute. Qed.

Lemma rollDaySeconds_in_day h m s :
  0 ≤ h < 24 → 0 ≤ m < 60 → 0 ≤ s < 60 →
  rollDaySeconds h m s = h * 3600 + m * 60 + s ∧ 0 ≤ rollDaySeconds h m s < 86400.
Proof. intros. unfold rollDaySeconds. rewrite (i32_small (h * 3600)), (i32_small (m * 60)) by lia.
  rewrite (i32_small (h * 3600 + _)) by lia. rewrite i32_small by lia. lia. Qed.

(** ** Keys *)

Lemma hex_byte_inj a b : hex_byte a = hex_byte b → a = b.
Proof.
  intros E. apply ub_inj. assert (∀ z, 0 ≤ z < 16 → ∀ z', 0 ≤ z' < 16 →
    default Byte.x00 (hex !! Z.to_nat z) = default Byte.x00 (hex !! Z.to_nat z') → z = z') as Hd.
  { intros z Hz z' Hz' Ez.
    assert (Forall (λ i, Forall (λ j, default Byte.x00 (hex !! i) = default Byte.x00 (hex !! j) → i = j) (seq 0 16)) (seq 0 16)) as Hall.
    { refine (proj1 (bool_decide_eq_true _) _). vm_compute. reflexivity. }
    rewrite Forall_forall in Hall. specialize (Hall (Z.to_nat z) ltac:(apply elem_of_seq; lia)).
    rewrite Forall_forall in Hall. specialize (Hall (Z.to_nat z') ltac:(apply elem_of_seq; lia) Ez). lia. }
  unfold hex_byte in E. injection E as E1 E2. pose proof (ub_range a) as Ha. pose proof (ub_range b) as Hb.
  rewrite !(Z.shiftr_div_pow2 _ 4) in E1 by lia. change 15 with (Z.ones 4) in E2. rewrite !Z.land_ones in E2 by lia.
  apply Hd in E1; [|split; [apply Z.div_pos; lia|apply Z.div_lt_upper_bound; lia]..].
  apply Hd in E2; [|apply Z.mod_pos_bound; lia..].
  rewrite (Z.div_mod (ub a) (2 ^ 4)), (Z.div_mod (ub b) (2 ^ 4)) by lia. lia.
Qed.

(** Different digests give different keys. *)
Lemma strToHex_inj a b : length a = 16%nat → length b = 16%nat → strToHex a = strToHex b → a = b.
Proof.
  intros Ha Hb. unfold strToHex. rewrite !take_ge by lia. clear Ha.
  assert (length a = length b ∨ True) as _ by by right. revert b Hb. generalize 16%nat. intros n b _. revert b.
  induction a as [|x a IH]; intros [|y b]; cbn [map concat]; try done.
  intros E. assert (hex_byte x = hex_byte y ∧ concat (map hex_byte a) = concat (map hex_byte b)) as [E1 E2].
  { unfold hex_byte in E |- *. cbn [app] in E. injection E as -> -> ->. done. }
  f_equal; [by apply hex_byte_inj|by apply IH].
Qed.

Lemma length_strToHex s : length s = 16%nat → length (strToHex s) = 32%nat.
Proof.
  intros Hs. unfold strToHex. rewrite take_ge by lia. do 16 (destruct s as [|? s]; [done|]). by destruct s.
Qed.

(** ** What [init] leaves *)

Section init_lemmas.
Context `{Yaml}.

(** The last assignment to a variable. *)
Definition last_read (x : string) (l : list (string * (node → bytes + value))) : option (node → bytes + value) :=
  snd <$> List.find (λ e, bool_decide (e.1 = x)) (rev l).

Lemma last_read_cons x y r l :
  last_read x ((y, r) :: l) = match last_read x l with Some r' => Some r' | None => if bool_decide (y = x) then Some r else None end.
Proof.
  unfold last_read. cbn [rev]. induction (rev l) as [|[z r'] k IH]; cbn.
  - by destruct (bool_decide (y = x)).
  - destruct (bool_decide (z = x)); [done|]. exact IH.
Qed.

Lemma assigns_vars l n g g' :
  assigns l n g = (g', None) →
  mimeType g' = mimeType g ∧ g_redis_vip g' = g_redis_vip g ∧ urlTomd5 g' = urlTomd5 g ∧ g_zlibMap g' = g_zlibMap g ∧
  ∀ x, match last_read x l with
       | Some r => ∃ v, r n = inr v ∧ vars g' !! x = Some v
       | None => vars g' !! x = vars g !! x
       end.
Proof.
  revert g. induction l as [|[y r] l IH]; intros g; cbn [assigns]; [by intros [= <-]|].
  destruct (r n) as [what|v] eqn:E; [done|]. intros (? & ? & ? & ? & Hx)%IH. split_and!; [done..|]. intros x.
  rewrite last_read_cons. specialize (Hx x). destruct (last_read x l); [done|]. cbn in Hx. rewrite Hx.
  case_bool_decide as Ey; [|by rewrite lookup_insert_ne]. subst. exists v. by rewrite lookup_insert_eq.
Qed.

(** The keys of the cached files. *)
Definition keys_ok (g : Globals) : Prop := ∀ url, url ∈ g_redis_vip g → urlTomd5 g !! url = Some (strToHex (MD5 url)).

Lemma mime_loop_ok l g g' e :
  mime_loop l g = (g', e) → vars g' = vars g ∧ (keys_ok g → keys_ok g').
Proof.
  revert g. induction l as [|[a b] l IH]; intros g; cbn [mime_loop]; [by intros [= <- <-]|].
  destruct (as_string b); [by intros [= <- <-]|]. destruct (as_string a); [by intros [= <- <-]|]. intros Hx%IH. exact Hx.
Qed.

Lemma zlib_loop_ok l g g' e :
  zlib_loop l g = (g', e) → vars g' = vars g ∧ (keys_ok g → keys_ok g').
Proof.
  revert g. induction l as [|[a b] l IH]; intros g; cbn [zlib_loop]; [by intros [= <- <-]|].
  destruct (as_int b); [by intros [= <- <-]|]. destruct (as_string a); [by intros [= <- <-]|]. intros Hx%IH. exact Hx.
Qed.

Lemma vip_loop_ok l g g' e :
  vip_loop l g = (g', e) → vars g' = vars g ∧ (keys_ok g → keys_ok g').
Proof.
  revert g. induction l as [|[a b] l IH]; intros g; cbn [vip_loop]; [by intros [= <- <-]|].
  destruct (as_string b) as [what|url]; [by intros [= <- <-]|]. intros [Hv Hk]%IH. split; [done|]. intros Hg. apply Hk.
  intros u. cbn. destruct (decide (u = url)) as [->|Hne]; [by rewrite lookup_insert_eq|].
  rewrite lookup_insert_ne by done. intros [Hu|Hu%list_elem_of_singleton]%elem_of_app; [by apply Hg|done].
Qed.

Lemma and_then_ok o k g' : and_then o k = (g', None) → ∃ g, o = (g, None) ∧ k g = (g', None).
Proof. destruct o as [g [?|]]; [done|]. by exists g. Qed.

Lemma over_ok path loop n g g' :
  over path loop n g = (g', None) → ∃ l, loop l g = (g', None).
Proof. unfold over. destruct (at_ path n); [done|]. eauto. Qed.

Lemma over_if_ok path loop n g g' :
  over_if path loop n g = (g', None) → g' = g ∨ ∃ l, loop l g = (g', None).
Proof. unfold over_if. destruct (at_ path n); [done|]. destruct (defined _); [eauto|]. intros [= <-]. by left. Qed.

(** A configuration that is accepted: every variable has the value of the last entry that
    the source reads into it, and every file of the cache's list has the key that is made
    of its digest.  One that is not gives a message, and the caller ends the program. *)
Theorem web_init_sets conf_path g g' ok out :
  keys_ok g → web_init conf_path g = (g', ok, out) →
  if ok : bool then
    out = [] ∧ keys_ok g' ∧ ∃ config, LoadFile conf_path = inr config ∧
    ∀ x r, last_read x (web_table ++ redis_table) = Some r → ∃ v, r config = inr v ∧ vars g' !! x = Some v
  else out ≠ [].
Proof.
  intros Hk. unfold web_init. destruct (LoadFile conf_path) as [what|config].
  { intros [= <- <- <-]. by destruct what. }
  destruct (web_read config g) as [g1 [what|]] eqn:E; intros [= <- <- <-]; [by destruct what|].
  unfold web_read in E. apply and_then_ok in E as (g2 & E1 & E). apply and_then_ok in E as (g3 & E2 & E).
  apply and_then_ok in E as (g4 & E3 & E). apply and_then_ok in E as (g5 & E4 & E).
  apply assigns_vars in E1 as (M1 & V1 & U1 & Z1 & X1). apply over_ok in E2 as (l2 & [X2 K2]%mime_loop_ok).
  apply assigns_vars in E3 as (M3 & V3 & U3 & Z3 & X3). apply over_ok in E4 as (l4 & [X4 K4]%vip_loop_ok).
  assert (vars g1 = vars g5 ∧ (keys_ok g5 → keys_ok g1)) as [X5 K5].
  { apply over_if_ok in E as [->|(l & ?%zlib_loop_ok)]; done. }
  split; [done|]. split.
  { apply K5, K4. unfold keys_ok in *. rewrite V3, U3. apply K2. by rewrite V1, U1. }
  exists config. split; [done|]. intros x r Hr. rewrite X5, X4. specialize (X1 x). specialize (X3 x). rewrite X2 in X3.
  assert (last_read x (web_table ++ redis_table) =
    match last_read x redis_table with Some r => Some r | None => last_read x web_table end) as Happ.
  { unfold last_read. rewrite rev_app_distr. generalize (rev web_table). intros l.
    induction (rev redis_table) as [|[z q] k IH]; cbn; [done|]. by destruct (bool_decide (z = x)). }
  rewrite Happ in Hr. destruct (last_read x redis_table); [by simplify_eq|]. rewrite X3. rewrite Hr in X1. done.
Qed.

(** [g_nginx_ip] is read from two places; the address of the server is lost. *)
Lemma ip_is_overwritten :
  last_read "g_nginx_ip" web_table = Some (a_string ["webServer"; "nginxIP"]%string) ∧
  last_read "g_webServer_ip" (web_table ++ redis_table) = None.
Proof. split; reflexivity. Qed.

Theorem cgi_init_sets conf_path g g' ok out :
  cgi_init conf_path g = (g', ok, out) →
  if ok : bool then
    out = [] ∧ ∃ config, LoadFile conf_path = inr config ∧
    ∀ x r, last_read x cgi_table = Some r → ∃ v, r config = inr v ∧ vars g' !! x = Some v
  else out ≠ [].
Proof.
  unfold cgi_init. destruct (LoadFile conf_path) as [what|config]; [intros [= <- <- <-]; by destruct what|].
  destruct (assigns cgi_table config g) as [g1 [what|]] eqn:E; intros [= <- <- <-]; [by destruct what|].
  apply assigns_vars in E as (_ & _ & _ & _ & Hx). split; [done|]. exists config. split; [done|].
  intros x r Hr. specialize (Hx x). by rewrite Hr in Hx.
Qed.

End init_lemmas.

End ConfigLoad.
