(* ===== verification/RequestParser.v ===== *)
(** The request parser of the static web server ([webServer/requestParser.h],
    [requestParser.cpp]) and the client of its cache ([webServer/redis.h], [redis.cpp]).

    A [Parser] lives as long as its worker thread and serves the requests of many
    connections.  What it does to a connection is the list [done] of actions; files, the
    cache server and zlib answer through arguments.  The response buffer is the byte
    queue that [Buffer] implements ([buffer_refines_queue]). *)

From S2P Require Import Prelude Buffer Http TimeZone.

(** ** The cache client *)

Module Redis.

(** [redisReply] of hiredis, by its type. *)
Inductive redisReply :=
| ReplyString (s : bytes)
| ReplyStatus (s : bytes)
| ReplyError (s : bytes)
| ReplyInteger (n : Z)
| ReplyNil
| ReplyArray (elements : list redisReply).

(** [toString]: [%lld] in [buf[32]]. *)
Definition reply_number (value : Z) : bytes := ztake 31 (dec value).

Fixpoint redisReplyToString (reply : redisReply) : bytes :=
  match reply with
  | ReplyString s | ReplyStatus s | ReplyError s => s
  | ReplyInteger n => reply_number n
  | ReplyArray l => reply_number (zlen l) ++ str " " ++ concat (map (λ e, str " " ++ redisReplyToString e) l)
  | ReplyNil => []
  end.

(** The key is passed with the length 32: that many bytes are read from its array, which
    ends with a terminator. *)
Definition key32 (key : bytes) : res bytes :=
  if 32 <=? zlen key + 1 then Ok (ztake 32 (key ++ [Byte.x00])) else Err OutOfRange.

(** [exeGET]: [None] when it throws 0, because the server did not reply. *)
Definition exeGET (server : bytes → option redisReply) (key : bytes) : res (option bytes) :=
  let! k := key32 key in
  match server k with
  | None => Ok None
  | Some ReplyNil => Ok (Some [])
  | Some reply => Ok (Some (redisReplyToString reply))
  end.

(** [exeSET]: what is sent; [valenth] bytes are read from the array [value], whose bytes
    are [None] where nothing was stored.  (hiredis is C code and throws nothing, so that
    the handler that throws 1 is never entered.) *)
Definition exeSET (key : bytes) (value : list (option byte)) (valenth : Z) : res (bytes * list (option byte)) :=
  let! k := key32 key in
  if u64 valenth <=? zlen value then Ok (k, ztake (u64 valenth) value) else Err OutOfRange.

(** [Connect]: [context] is whether redisConnect gives one, [err] its error field.  When
    none is given, [isRedisConnectWell_] becomes true all the same. *)
Definition Connect (context err : bool) : bool := negb (context && err).

End Redis.

(** ** The parser *)

Module RequestParser.

(** What the parser does to the connection, to the loop and to the cache. *)
Inductive act :=
| SetKv (key value : bytes)               (* setContextkv *)
| CancelWriteComplete                     (* setWriteCompleteCallback(WriteCompleteCallback()) *)
| Send (response : bytes)
| ForceCloseWithDelay (seconds : Z)
| ForceClose
| Shutdown
| SetFp (file : bytes) (position : Z)     (* setContextfp; where the stream stands *)
| SetBuffer                               (* setbuffer(fp, iobuf, ...): an array of responseRequest's frame *)
| RetryInLoop                             (* runInLoop(retryInLoop) *)
| ConnectAfter (seconds : Z)              (* runAfter(seconds, connectRedis) *)
| CacheSet (key : bytes) (value : list (option byte))
| SaveSize (key : bytes) (size : Z).      (* the zlibMap entry of the configuration file *)

Record Parser := mkParser {
  paramMap_ : gmap bytes bytes;
  response_ : bytes;
  isRedisConnectWell_ : bool;             (* redis_->isRedisConnectWell_ *)
  g_zlib : bool;                          (* not null *)
  count_ : Z;
  g_zlibMap : gmap bytes Z;               (* a global of the program *)
  done : list act;
}.

Definition set_params (v : gmap bytes bytes) (p : Parser) : Parser :=
  mkParser v (response_ p) (isRedisConnectWell_ p) (g_zlib p) (count_ p) (g_zlibMap p) (done p).
Definition set_response (v : bytes) (p : Parser) : Parser :=
  mkParser (paramMap_ p) v (isRedisConnectWell_ p) (g_zlib p) (count_ p) (g_zlibMap p) (done p).
Definition set_redis (well zlib : bool) (p : Parser) : Parser :=
  mkParser (paramMap_ p) (response_ p) well zlib (count_ p) (g_zlibMap p) (done p).
Definition set_count (v : Z) (p : Parser) : Parser :=
  mkParser (paramMap_ p) (response_ p) (isRedisConnectWell_ p) (g_zlib p) v (g_zlibMap p) (done p).
Definition set_zlibMap (v : gmap bytes Z) (p : Parser) : Parser :=
  mkParser (paramMap_ p) (response_ p) (isRedisConnectWell_ p) (g_zlib p) (count_ p) v (done p).
Definition emit (a : act) (p : Parser) : Parser :=
  mkParser (paramMap_ p) (response_ p) (isRedisConnectWell_ p) (g_zlib p) (count_ p) (g_zlibMap p) (done p ++ [a]).

(** [paramMap_[key]] read. *)
Definition param (key : bytes) (p : Parser) : bytes := default [] (paramMap_ p !! key).

(** The configuration ([configLoad.cpp]). *)
Record Config := mkConfig {
  g_resource_base_path : bytes;
  g_resource_index_path : bytes;
  mimeType : gmap bytes bytes;
  g_redis_vip : list bytes;
  urlTomd5 : gmap bytes bytes;
  compressed_size : Z → Z;                (* (int)((float)size * g_redis_rate) + 1 *)
}.

(** What a request meets: whether the connection is still up when the answer is sent,
    stat(2) (the mode), fopen(3) (the contents), how much the first fread(3) gives, the
    cache, zlib's compress, and the array of the given size after an uncompress that
    succeeds. *)
Record World := mkWorld {
  connected : bool;
  stat : bytes → option Z;
  fopen : bytes → option bytes;
  fread : bytes → Z;
  cache : bytes → option Redis.redisReply;
  compress : bytes → option bytes;
  uncompress : bytes → Z → option bytes;
}.

Section Request.
Context (conf : Config) (w : World).

(** *** Scanning *)

(** [request[j]] of a [std::string]: the terminator at its size, nothing beyond. *)
Definition char_at (request : bytes) (j : Z) : res byte :=
  if j <? zlen request then Ok (default Byte.x00 (request !! Z.to_nat j))
  else if j =? zlen request then Ok Byte.x00 else Err OutOfRange.

(** The loop that fills [method[16]]; [room] is [sizeof(method) - 1 - i]. *)
Fixpoint read_method (room : nat) (request : bytes) (j : Z) (method : bytes) : res (bytes * Z) :=
  let! c := char_at request j in
  if Http.isspace c then Ok (method, j)
  else match room with
       | O => Ok (method, j)
       | S room => read_method room request (j + 1) (method ++ [c])
       end.

(** strcasecmp(3). *)
Definition to_lower (c : byte) : byte := if (65 <=? ub c) && (ub c <=? 90) then byte_of_Z (ub c + 32) else c.
Definition strcasecmp_eq (a b : bytes) : bool :=
  bool_decide (map to_lower (TimeZone.c_string a) = map to_lower (TimeZone.c_string b)).

(** The loop that fills [url[255]] ([room] left), and what remains of the request. *)
Fixpoint read_url (room : nat) (rest : bytes) : bytes * bytes :=
  match room, rest with
  | S room, c :: rest' =>
      if Byte.eqb c Byte.x20 then ([], rest)
      else let '(url, rest') := read_url room rest' in (c :: url, rest')
  | _, _ => ([], rest)
  end.

Fixpoint skip_blanks (l : bytes) : bytes :=
  match l with
  | c :: l' => if Byte.eqb c Byte.x20 then skip_blanks l' else l
  | [] => []
  end.

(** sprintf(3) with one string argument: every other conversion has no argument. *)
Fixpoint sprintf1 (fmt : bytes) (arg : option bytes) : res bytes :=
  match fmt with
  | [] => Ok []
  | c :: fmt =>
      if Byte.eqb c Byte.x25 then
        match fmt with
        | [] => Err OutOfRange
        | d :: fmt =>
            if Byte.eqb d Byte.x25 then let! r := sprintf1 fmt arg in Ok (c :: r)
            else if Byte.eqb d Byte.x73 then
              match arg with
              | Some a => let! r := sprintf1 fmt None in Ok (a ++ r)
              | None => Err OutOfRange
              end
            else Err OutOfRange
        end
      else let! r := sprintf1 fmt arg in Ok (c :: r)
  end.

(** A C string stored in an array of 255 bytes. *)
Definition store255 (s : bytes) : res bytes := if zlen s <? 255 then Ok s else Err OutOfRange.

(** [sprintf(path, (base_path + "%s").c_str(), url)]. *)
Definition make_path (url : bytes) : res bytes :=
  let! path := sprintf1 (TimeZone.c_string (g_resource_base_path conf ++ str "%s")) (Some (TimeZone.c_string url)) in
  store255 path.

Definition index_path : res bytes :=
  store255 (TimeZone.c_string (g_resource_base_path conf ++ g_resource_index_path conf)).

(** [path[strlen(path) - 1] == '/']. *)
Definition ends_in_slash (path : bytes) : res bool :=
  match last path with
  | Some c => Ok (Byte.eqb c Byte.x2f)
  | None => Err OutOfRange
  end.

(** The characters after the last dot; without a dot the loop reads [path[-1]]. *)
Fixpoint suffix_loop (rpath mime : bytes) : res bytes :=
  match rpath with
  | [] => Err OutOfRange
  | c :: rpath => if Byte.eqb c Byte.x2e then Ok mime else suffix_loop rpath (c :: mime)
  end.
Definition file_suffix (path : bytes) : res bytes := suffix_loop (rev path) [].

(** [string(first, last)] for two positions of the request. *)
Definition substring (l : bytes) (first last : Z) : res bytes :=
  if first <=? last then Ok (ztake (last - first) (zdrop first l)) else Err LengthError.

(** *** Answers *)

Definition CRLF : bytes := Buffer.kCRLF.

Definition not_found : bytes :=
  str "HTTP/1.1 404 NOT FOUND" ++ CRLF ++ str "Content-Type: text/html" ++ CRLF ++ CRLF ++
  str "<HTML><TITLE>404 Not Found</TITLE>" ++ CRLF ++ str "<BODY>The server could not fulfill" ++ CRLF ++
  str "your request because the resource specified" ++ CRLF ++ str "is unavailable or nonexistent." ++ CRLF ++
  str "</BODY></HTML>" ++ CRLF.

Definition not_autho : bytes :=
  str "HTTP/1.1 403 Forbidden" ++ CRLF ++ str "Content-Type: text/html" ++ CRLF ++ CRLF ++
  str "<HTML><TITLE> 403 Forbidden </TITLE>" ++ CRLF ++ str "<BODY><P> 403 Forbidden " ++ CRLF ++
  str "the resource you accessed you have no permission for it " ++ CRLF ++ str "</BODY></HTML>" ++ CRLF.

Definition unimplemented : bytes :=
  str "HTTP/1.1 501 Method Not Implemented" ++ CRLF ++ str "Content-Type: text/html" ++ CRLF ++ CRLF ++
  str "<HTML><HEAD><TITLE>Method Not Implemented" ++ CRLF ++ str "</TITLE></HEAD>" ++ CRLF ++
  str "<BODY><P>HTTP request method not supported." ++ CRLF ++ str "</BODY></HTML>" ++ CRLF.

Definition version_not_support : bytes :=
  str "HTTP/1.1 505 version not support" ++ CRLF ++ str "Content-Type: text/html" ++ CRLF ++ CRLF ++
  str "<HTML><HEAD><TITLE>version not suppord" ++ CRLF ++ str "</TITLE></HEAD>" ++ CRLF ++
  str "<BODY><P>HTTP request version not supported." ++ CRLF ++ str "</BODY></HTML>" ++ CRLF.

(** [response_.append(res); conn->send(&response_)]: a connection that is no longer up
    leaves the buffer as it is. *)
Definition send_response (text : bytes) (p : Parser) : Parser :=
  let p := set_response (response_ p ++ text) p in
  if connected w then set_response [] (emit (Send (response_ p)) p) else p.

(** The four refusals. *)
Definition refuse (text : bytes) (p : Parser) : Parser :=
  emit (ForceCloseWithDelay 1) (send_response text (emit CancelWriteComplete p)).

(** *** The cache *)

Definition retryInLoop (rand : Z) (p : Parser) : Parser :=
  let c := i64 (count_ p + 1) in
  let c := if c =? 2 ^ 63 - 1 then 0 else c in
  let p := set_count c p in
  if Z.rem c 5 =? 1 then emit (ConnectAfter (Z.rem rand 10 + 1)) p else p.

Definition connectRedis (context err : bool) (p : Parser) : Parser :=
  if isRedisConnectWell_ p then p
  else
    let well := Redis.Connect context err in
    if well && negb (g_zlib p) then set_redis well true p
    else emit RetryInLoop (set_redis well (g_zlib p) p).

(** The label [ReConn]. *)
Definition reConn (p : Parser) : Parser := emit RetryInLoop (set_redis false false p).

(** [CZlibMgr::Compress] into an array of [cap] bytes: what the array holds and the
    length; zlib's output is copied without a check. *)
Definition Compress (plain : bytes) (ulCompLen cap : Z) : res (list (option byte) * Z) :=
  let untouched := replicate (Z.to_nat cap) None in
  if ulCompLen =? 0 then Ok (untouched, ulCompLen)
  else match compress w plain with
       | None => Ok (untouched, ulCompLen)
       | Some c =>
           if zlen c <=? cap then Ok (map Some c ++ replicate (Z.to_nat (cap - zlen c)) None, zlen c)
           else Err OutOfRange
       end.

(** [CZlibMgr::UnCompress]: the array, or [None] for failure. *)
Definition UnCompress (s : bytes) (unCompLen : Z) : option bytes :=
  if (zlen s =? 0) || (unCompLen =? 0) then None else uncompress w s unCompLen.

(** A page of the cache list: the new state, the body if it could be had, and the size.
    [None] for the body stands for [getFromRedis == false]. *)
Definition fill_cache (g_file md5 : bytes) (p : Parser) : res (Parser * option bytes * Z) :=
  match fopen w g_file with
  | None => Err UseAfterFree        (* fclose of a null pointer *)
  | Some file =>
      let size := i32 (zlen file) in
      let cap := compressed_size conf size in
      if size <? 0 then Err BadAlloc else
      (* g_zlib->Compress(plain, array, compressLen) *)
      let! (value, compressLen) := (if negb (g_zlib p) then Err UseAfterFree else Compress file size cap) in
      let p := emit (SaveSize md5 size) (set_zlibMap (<[md5 := size]> (g_zlibMap p)) p) in
      let p := emit CancelWriteComplete p in
      let! (key, sent) := Redis.exeSET md5 value (i32 compressLen) in
      Ok (emit (CacheSet key sent) p, Some (ztake size file), size)
  end.

Definition use_cache (s md5 : bytes) (p : Parser) : res (Parser * option bytes * Z) :=
  let size := default 0 (g_zlibMap p !! md5) in
  if size <? 0 then Err BadAlloc
  else if negb (g_zlib p) then Err UseAfterFree
  else
    let '(p, body) :=
      match UnCompress s size with
      | Some body => (p, Some (ztake size body))
      | None => (set_redis false (g_zlib p) p, None)
      end in
    Ok (emit CancelWriteComplete p, body, size).

Definition from_redis (g_file : bytes) (p : Parser) : res (Parser * option bytes * Z) :=
  if negb (isRedisConnectWell_ p) then Ok (reConn p, None, 0)
  else
    let md5 := default [] (urlTomd5 conf !! g_file) in
    let! r := Redis.exeGET (cache w) md5 in
    match r with
    | None => Ok (reConn p, None, 0)
    | Some s =>
        if (zlen s =? 0) || (default 0 (g_zlibMap p !! md5) =? 0) then fill_cache g_file md5 p
        else use_cache s md5 p
    end.

Definition kBufSize : Z := 1024 * 1024.

Definition response_head (mime : bytes) (fileSize : Z) (p : Parser) : bytes :=
  str "HTTP/" ++ param (str "version") p ++ str " 200 OK" ++ CRLF ++ str "Connection:" ++ param (str "Connection") p ++
  CRLF ++ str "Content-type:" ++ default [] (mimeType conf !! mime) ++ str ";charset=utf-8" ++ CRLF ++
  (if bool_decide (param (str "Connection") p = str "close") then [] else str "Content-Length:" ++ dec fileSize) ++
  CRLF ++ CRLF.

Definition responseRequest (g_file mime : bytes) (p : Parser) : res Parser :=
  let! (p, cached, size) :=
    (if bool_decide (g_file ∈ g_redis_vip conf) then from_redis g_file p else Ok (p, None, 0)) in
  let answer (p : Parser) (body : bytes) (size : Z) : Parser :=
    send_response (response_head mime size p ++ body) p in
  match cached with
  | Some body =>
      let p := answer p body size in
      Ok (if bool_decide (param (str "Connection") p = str "close") then emit Shutdown p else p)
  | None =>
      match fopen w g_file with
      | None => Ok (emit ForceClose p)
      | Some file =>
          let nread := Z.max 0 (Z.min (fread w g_file) (Z.min kBufSize (zlen file))) in
          let p := emit SetBuffer (emit (SetFp g_file nread) p) in
          if nread =? 0 then Ok (emit Shutdown p)
          else Ok (answer p (ztake nread file) (i32 (zlen file)))
      end
  end.

(** *** The request *)

(** The header loop: the parameters, or [None] for [goto Down]. *)
Fixpoint read_headers (fuel : nat) (rest : bytes) (params : gmap bytes bytes) : res (gmap bytes bytes * bool) :=
  match rest with
  | [] => Ok (params, true)
  | _ =>
      match fuel with
      | O => Err OutOfFuel
      | S fuel =>
          match Buffer.find_crlf rest with
          | None => Ok (params, false)
          | Some crlf =>
              let line := ztake crlf rest in
              let colon := Z.of_nat (find_byte Byte.x3a line) in
              if colon <? crlf then
                let! value := substring rest (colon + 2) crlf in
                read_headers fuel (zdrop (crlf + 2) rest) (<[ztake colon rest := value]> params)
              else Ok (params, crlf + 2 =? zlen rest)
          end
      end
  end.

Definition S_IRUSR : Z := 256.
Definition S_IRGRP : Z := 32.
Definition S_IROTH : Z := 4.
Definition S_IFMT : Z := 61440.
Definition S_IFDIR : Z := 16384.

Definition readable (mode : Z) : bool :=
  negb ((Z.land mode S_IRUSR =? 0) && (Z.land mode S_IRGRP =? 0) && (Z.land mode S_IROTH =? 0)).

(** The rest of the first line, and the headers. *)
Definition parse_tail (path mime rest : bytes) (p : Parser) : res Parser :=
  match Buffer.find_crlf rest with
  | None => Ok (refuse unimplemented p)
  | Some crlf =>
      (* [string(crlf - 3, crlf)] begins inside the request, after the method *)
      let! head := substring rest 0 (crlf - 3) in
      let! version := substring rest (crlf - 3) crlf in
      if negb (bool_decide (head = str "HTTP/")) ||
         negb (bool_decide (version ∈ [str "1.0"; str "1.1"; str "2.0"]))
      then Ok (refuse version_not_support p)
      else
        let p := set_params (<[str "version" := version]> (paramMap_ p)) p in
        let! (params, ok) := read_headers (length rest) (zdrop (crlf + 2) rest) (paramMap_ p) in
        let p := set_params params p in
        if ok then
          let p := emit (SetKv (str "connectionFlag") (param (str "Connection") p)) p in
          (* [paramMap_["Connection"]] enters the key *)
          let p := set_params (<[str "Connection" := param (str "Connection") p]> (paramMap_ p)) p in
          responseRequest path mime p
        else Ok (refuse unimplemented p)
  end.

Definition parserRequest (request : bytes) (p : Parser) : res Parser :=
  let! (method, j) := read_method 15 request 0 [] in
  if negb (strcasecmp_eq method (str "GET")) then Ok (refuse unimplemented p)
  else
    let rest := Http.skip_space (zdrop j request) in
    let '(url, rest) := read_url 254 rest in
    let! path := make_path url in
    let! slash := ends_in_slash path in
    let! path := (if slash then index_path else Ok path) in
    let p := emit (SetKv (str "file") path) p in
    match stat w path with
    | None => Ok (refuse not_found p)
    | Some mode =>
        if negb (readable mode) then Ok (refuse not_autho p)
        else
          let! path := (if Z.land mode S_IFMT =? S_IFDIR then index_path else Ok path) in
          let! mime := file_suffix path in
          match mimeType conf !! mime with
          | None => Ok (refuse unimplemented p)
          | Some _ => parse_tail path mime (skip_blanks rest) p
          end
    end.

(** ** Requests as the clients mean them *)

Record get_request := mkGet {
  gr_url : bytes;
  gr_version : bytes;
  gr_headers : list (bytes * bytes);
}.

Definition header_line (h : bytes * bytes) : bytes := h.1 ++ str ": " ++ h.2 ++ CRLF.
Definition header_text (hs : list (bytes * bytes)) : bytes := concat (map header_line hs).

Definition request_text (r : get_request) : bytes :=
  str "GET " ++ gr_url r ++ str " HTTP/" ++ gr_version r ++ CRLF ++ header_text (gr_headers r) ++ CRLF.

Definition header_ok (h : bytes * bytes) : Prop :=
  (Byte.x3a ∉ h.1) ∧ (Byte.x0d ∉ h.1) ∧ (Byte.x0d ∉ h.2).

Definition url_ok (url : bytes) : Prop :=
  (Byte.x20 ∉ url) ∧ zlen url ≤ 254 ∧ ∃ c u, url = c :: u ∧ Http.isspace c = false.

Record get_ok (r : get_request) : Prop := {
  g_url : url_ok (gr_url r);
  g_version : gr_version r ∈ [str "1.0"; str "1.1"; str "2.0"];
  g_headers : Forall header_ok (gr_headers r);
}.

(** What the server should do with such a request, without any text. *)
Definition request_params (r : get_request) (params : gmap bytes bytes) : gmap bytes bytes :=
  foldl (λ m h, <[h.1 := h.2]> m) (<[str "version" := gr_version r]> params) (gr_headers r).

(** The file a url stands for, and the answers when there is none to give; [k] gets the
    path and the type. *)
Definition locate (url : bytes) (k : bytes → bytes → Parser → res Parser) (p : Parser) : res Parser :=
  let! path := make_path url in
  let! slash := ends_in_slash path in
  let! path := (if slash then index_path else Ok path) in
  let p := emit (SetKv (str "file") path) p in
  match stat w path with
  | None => Ok (refuse not_found p)
  | Some mode =>
      if negb (readable mode) then Ok (refuse not_autho p)
      else
        let! path := (if Z.land mode S_IFMT =? S_IFDIR then index_path else Ok path) in
        let! mime := file_suffix path in
        if bool_decide (is_Some (mimeType conf !! mime)) then k path mime p
        else Ok (refuse unimplemented p)
  end.

Definition serve (r : get_request) : Parser → res Parser :=
  locate (gr_url r) (λ path mime p,
    let params := request_params r (paramMap_ p) in
    let connection := default [] (params !! str "Connection") in
    responseRequest path mime
      (set_params (<[str "Connection" := connection]> params) (emit (SetKv (str "connectionFlag") connection) p))).

(** ** Lemmas on scanning *)

Lemma char_at_here pre c rest : char_at (pre ++ c :: rest) (zlen pre) = Ok c.
Proof.
  unfold char_at. rewrite length_app. cbn [length]. rewrite (proj2 (Z.ltb_lt _ _)) by lia.
  rewrite Nat2Z.id, list_lookup_middle; done.
Qed.

Lemma read_method_spec room m pre c rest acc :
  Forall (λ x, Http.isspace x = false) m → (length m ≤ room)%nat → Http.isspace c = true →
  read_method room (pre ++ m ++ c :: rest) (zlen pre) acc = Ok (acc ++ m, zlen (pre ++ m)).
Proof.
  intros Hm. revert room pre acc. induction Hm as [|x m Hx Hm IH]; intros room pre acc Hl Hc.
  - cbn [app]. destruct room; cbn [read_method]; rewrite char_at_here; cbn [res_bind]; rewrite Hc, !app_nil_r; done.
  - cbn [app length] in *. destruct room as [|room]; [lia|]. cbn [read_method]. rewrite char_at_here. cbn [res_bind]. rewrite Hx.
    replace (pre ++ x :: m ++ c :: rest) with ((pre ++ [x]) ++ m ++ c :: rest) by (by rewrite <- app_assoc).
    replace (zlen pre + 1) with (zlen (pre ++ [x])) by (rewrite length_app; cbn; lia).
    rewrite IH by (done || lia). by rewrite <- !app_assoc.
Qed.

Lemma read_url_spec room u rest :
  Byte.x20 ∉ u → (length u ≤ room)%nat → read_url room (u ++ Byte.x20 :: rest) = (u, Byte.x20 :: rest).
Proof.
  revert room. induction u as [|x u IH]; intros room Hu Hl; [by destruct room|].
  destruct room as [|room]; [cbn in Hl; lia|]. apply not_elem_of_cons in Hu as [Hx Hu]. cbn [app read_url].
  destruct (byte_eqb_spec x Byte.x20); [congruence|]. rewrite IH by (done || cbn in Hl; lia). done.
Qed.

Lemma find_crlf_here : ∀ k, Buffer.find_crlf (CRLF ++ k) = Some 0.
Proof. intros k. by apply (Buffer.find_crlf_line [] k), not_elem_of_nil. Qed.

Lemma find_colon k v : Byte.x3a ∉ k → find_byte Byte.x3a (k ++ str ": " ++ v) = length k.
Proof. intros Hk. by apply (find_byte_notin Byte.x3a k (str " " ++ v)). Qed.

Lemma read_headers_spec fuel hs params :
  Forall header_ok hs → (length hs < fuel)%nat →
  read_headers fuel (header_text hs ++ CRLF) params = Ok (foldl (λ m h, <[h.1 := h.2]> m) params hs, true).
Proof.
  intros Hh. revert fuel params. induction Hh as [|[k v] hs (Hk1 & Hk2 & Hv) Hh IH]; intros fuel params Hf; cbn [fst snd] in *.
  - destruct fuel as [|fuel]; [lia|]. by vm_compute.
  - destruct fuel as [|fuel]; [lia|]. cbn [length] in Hf.
    change (header_text ((k, v) :: hs)) with (header_line (k, v) ++ header_text hs). unfold header_line. cbn [fst snd].
    set (line := k ++ str ": " ++ v).
    replace ((k ++ str ": " ++ v ++ CRLF) ++ header_text hs) with (line ++ CRLF ++ header_text hs)
      by (unfold line; by rewrite <- !app_assoc).
    rewrite <- !app_assoc. set (rest := header_text hs ++ CRLF) in *.
    assert (Byte.x0d ∉ line) as Hl.
    { unfold line. rewrite !elem_of_app. intros [|[H|]]; [done| |done]. apply (bool_decide_pack _) in H. by vm_compute in H. }
    assert (line ++ CRLF ++ rest ≠ []) as Hne by (by destruct line).
    cbn [read_headers]. destruct (line ++ CRLF ++ rest) as [|c0 l0] eqn:E0; [done|]. rewrite <- E0. clear Hne E0 c0 l0.
    rewrite Buffer.find_crlf_line by done. rewrite ztake_app_len by done.
    assert (find_byte Byte.x3a line = length k) as -> by (by apply find_colon).
    assert (zlen line = zlen k + 2 + zlen v) as Hlen by (unfold line; rewrite !length_app; change (length (str ": ")) with 2%nat; lia).
    rewrite (proj2 (Z.ltb_lt _ _)) by lia. unfold substring. rewrite (proj2 (Z.leb_le _ _)) by lia. cbn [res_bind].
    replace (zdrop (zlen line + 2) (line ++ CRLF ++ rest)) with rest.
    2:{ rewrite app_assoc. symmetry. apply zdrop_app_len. rewrite length_app. change (length CRLF) with 2%nat. lia. }
    rewrite IH by lia. cbn [foldl fst snd]. do 4 f_equal.
    + unfold line. rewrite <- !app_assoc. by apply ztake_app_len.
    + replace (line ++ CRLF ++ rest) with ((k ++ str ": ") ++ v ++ CRLF ++ rest) by (unfold line; by rewrite <- !app_assoc).
      rewrite zdrop_app_len by (rewrite length_app; change (length (str ": ")) with 2%nat; lia).
      apply ztake_app_len. lia.
Qed.

Lemma length_header_text hs : (length hs ≤ length (header_text hs))%nat.
Proof.
  induction hs as [|h hs IH]; [done|]. change (header_text (h :: hs)) with (header_line h ++ header_text hs).
  rewrite length_app. unfold header_line. rewrite !length_app. change (length CRLF) with 2%nat. cbn [length]. lia.
Qed.

Lemma version_facts v :
  v ∈ [str "1.0"; str "1.1"; str "2.0"] → length v = 3%nat ∧ Byte.x0d ∉ str "HTTP/" ++ v.
Proof.
  intros H. repeat (apply elem_of_cons in H as [->|H]; [split; [done|]; intros F; apply (bool_decide_pack _) in F; by vm_compute in F|]).
  by apply elem_of_nil in H.
Qed.

(** The tail of a first line whose version is good. *)
Lemma parse_tail_version path mime version rest p :
  version ∈ [str "1.0"; str "1.1"; str "2.0"] →
  parse_tail path mime (str "HTTP/" ++ version ++ CRLF ++ rest) p =
    (let p := set_params (<[str "version" := version]> (paramMap_ p)) p in
     let! (params, ok) := read_headers (S (length (tail (str "HTTP/" ++ version ++ CRLF ++ rest)))) rest (paramMap_ p) in
     let p := set_params params p in
     if ok then
       let p := emit (SetKv (str "connectionFlag") (param (str "Connection") p)) p in
       responseRequest path mime (set_params (<[str "Connection" := param (str "Connection") p]> (paramMap_ p)) p)
     else Ok (refuse unimplemented p)).
Proof.
  intros Hv. destruct (version_facts _ Hv) as [Hl Hc]. unfold parse_tail.
  change (S (length (tail (str "HTTP/" ++ version ++ CRLF ++ rest)))) with (length (str "HTTP/" ++ version ++ CRLF ++ rest)).
  replace (str "HTTP/" ++ version ++ CRLF ++ rest) with ((str "HTTP/" ++ version) ++ CRLF ++ rest) by (by rewrite <- app_assoc).
  rewrite Buffer.find_crlf_line by done. rewrite length_app, Hl. change (Z.of_nat (length (str "HTTP/") + 3)) with 8.
  change (8 - 3) with 5. unfold substring. cbn [Z.leb Z.compare Pos.compare Pos.compare_cont res_bind].
  rewrite <- !app_assoc. rewrite zdrop_0, (ztake_app_len (5 - 0)), (zdrop_app_len 5), (ztake_app_len (8 - 5)) by (rewrite ?Hl; done).
  rewrite (bool_decide_true _ eq_refl), (bool_decide_true (version ∈ _)) by done. cbn [negb orb].
  assert (zdrop (8 + 2) (str "HTTP/" ++ version ++ CRLF ++ rest) = rest) as ->; [|done].
  rewrite app_assoc, (app_assoc (_ ++ _)). apply zdrop_app_len. by rewrite !length_app, Hl.
Qed.

(** The tail of a request line and the headers. *)
Lemma parse_tail_spec path mime r p :
  get_ok r →
  parse_tail path mime (str "HTTP/" ++ gr_version r ++ CRLF ++ header_text (gr_headers r) ++ CRLF) p =
    (let params := request_params r (paramMap_ p) in
     let connection := default [] (params !! str "Connection") in
     responseRequest path mime
       (set_params (<[str "Connection" := connection]> params) (emit (SetKv (str "connectionFlag") connection) p))).
Proof.
  intros [_ Hv Hh]. etrans; [by apply parse_tail_version|]. cbn zeta. cbn [paramMap_ set_params].
  rewrite read_headers_spec; [|done|].
  - cbn [res_bind]. by destruct p.
  - assert (∀ l, length (tail (str "HTTP/" ++ l)) = (4 + length l)%nat) as -> by done.
    rewrite !length_app. pose proof (length_header_text (gr_headers r)). lia.
Qed.

(** Up to the version, a GET request is its url. *)
Lemma parserRequest_get url tail p :
  url_ok url →
  parserRequest (str "GET " ++ url ++ Byte.x20 :: tail) p =
    locate url (λ path mime p, parse_tail path mime (skip_blanks tail) p) p.
Proof.
  intros (Hu & Hlen & c & u & Eu & Hc). unfold parserRequest, locate.
  change (str "GET " ++ url ++ Byte.x20 :: tail) with ([] ++ str "GET" ++ Byte.x20 :: (url ++ Byte.x20 :: tail)).
  change 0 with (zlen (@nil byte)) at 1. rewrite read_method_spec by (by repeat constructor || (cbn; lia)). cbn [res_bind app].
  change (negb (strcasecmp_eq (str "GET") (str "GET"))) with false. cbn [negb].
  change (zdrop (zlen (str "GET")) (str "GET" ++ Byte.x20 :: url ++ Byte.x20 :: tail)) with (Byte.x20 :: url ++ Byte.x20 :: tail).
  assert (Http.skip_space (Byte.x20 :: url ++ Byte.x20 :: tail) = url ++ Byte.x20 :: tail) as ->.
  { rewrite Eu. cbn [Http.skip_space app]. change (Http.isspace Byte.x20) with true. cbn. by rewrite Hc. }
  rewrite read_url_spec by (done || lia). destruct (make_path url) as [path|]; [|done]. cbn [res_bind].
  destruct (ends_in_slash path) as [slash|]; [|done]. cbn [res_bind].
  destruct (if slash then _ else _) as [path1|]; [|done]. cbn [res_bind].
  destruct (stat w path1) as [mode|]; [|done]. destruct (readable mode); [|done]. cbn [negb].
  destruct (if Z.land mode _ =? _ then _ else _) as [path2|]; [|done]. cbn [res_bind].
  destruct (file_suffix path2) as [mime|]; [|done]. cbn [res_bind].
  destruct (mimeType conf !! mime); [by rewrite bool_decide_true|by rewrite bool_decide_false by (by intros [? ?])].
Qed.

Lemma locate_ext url k1 k2 p : (∀ path mime p, k1 path mime p = k2 path mime p) → locate url k1 p = locate url k2 p.
Proof.
  intros H. unfold locate. destruct (make_path url); [|done]. cbn. destruct (ends_in_slash _) as [slash|]; [|done]. cbn.
  destruct (if slash then _ else _); [|done]. cbn. case_match; [|done]. case_match; [done|].
  destruct (if Z.land _ _ =? _ then _ else _); [|done]. cbn. destruct (file_suffix _); [|done]. cbn. by rewrite H.
Qed.

(** C11. The web server parses what clients send: for every well-formed GET request the
    parser does exactly what [serve] prescribes for its url, version and headers: the
    404, 403 and 501 answers, the index page for a directory, the file's page and its
    type, and the parameters that later parts read; nothing depends on how the request
    is written down. *)
Theorem request_served r p : get_ok r → parserRequest (request_text r) p = serve r p.
Proof.
  intros Hr. unfold request_text, serve. rewrite (parserRequest_get (gr_url r)
    (str "HTTP/" ++ gr_version r ++ CRLF ++ header_text (gr_headers r) ++ CRLF)) by apply Hr.
  apply locate_ext. intros path mime q. by apply parse_tail_spec.
Qed.

Lemma read_method_beyond room m pre acc :
  Forall (λ x, Http.isspace x = false) m → (length m < room)%nat →
  read_method room (pre ++ m) (zlen pre) acc = Err OutOfRange.
Proof.
  intros Hm. revert room pre acc. induction Hm as [|x m Hx Hm IH]; intros room pre acc Hl.
  - cbn [length] in Hl. destruct room as [|room]; [lia|]. rewrite app_nil_r. cbn [read_method]. unfold char_at at 1.
    rewrite (proj2 (Z.ltb_ge _ _)), (proj2 (Z.eqb_eq _ _)) by lia. cbn [res_bind].
    change (Http.isspace Byte.x00) with false. destruct room; cbn [read_method]; unfold char_at;
      by rewrite (proj2 (Z.ltb_ge _ _)), (proj2 (Z.eqb_neq _ _)) by lia.
  - cbn [length] in Hl. destruct room as [|room]; [lia|]. cbn [read_method]. rewrite char_at_here. cbn [res_bind]. rewrite Hx.
    replace (pre ++ x :: m) with ((pre ++ [x]) ++ m) by (by rewrite <- app_assoc).
    replace (zlen pre + 1) with (zlen (pre ++ [x])) by (rewrite length_app; cbn; lia). apply IH. lia.
Qed.

(** A header that ends with its colon. *)
Lemma read_headers_colon fuel key rest params :
  Byte.x3a ∉ key → Byte.x0d ∉ key →
  read_headers (S fuel) (key ++ str ":" ++ CRLF ++ rest) params = Err LengthError.
Proof.
  intros Hk Hr. set (line := key ++ str ":"). replace (key ++ str ":" ++ CRLF ++ rest) with (line ++ CRLF ++ rest)
    by (unfold line; by rewrite <- app_assoc).
  assert (line ++ CRLF ++ rest ≠ []) as Hne by (by destruct line).
  assert (Byte.x0d ∉ line) as Hl.
  { unfold line. rewrite elem_of_app. intros [|H]; [done|]. apply (bool_decide_pack _) in H. by vm_compute in H. }
  cbn [read_headers]. destruct (line ++ CRLF ++ rest) as [|c0 l0] eqn:E0; [done|]. rewrite <- E0. clear Hne E0 c0 l0.
  rewrite Buffer.find_crlf_line by done. rewrite ztake_app_len by done.
  assert (find_byte Byte.x3a line = length key) as -> by (by apply (find_byte_notin Byte.x3a key [])).
  assert (zlen line = zlen key + 1) as -> by (unfold line; rewrite length_app; cbn; lia).
  rewrite (proj2 (Z.ltb_lt _ _)) by lia. unfold substring. by rewrite (proj2 (Z.leb_gt _ _)) by lia.
Qed.


(** ** The cache client and its null pointers *)

(** The compressor exists while the cache server is taken to be connected. *)
Definition inv (p : Parser) : Prop := isRedisConnectWell_ p = true → g_zlib p = true.

(** [m] keeps the invariant and uses no null pointer. *)
Definition sound {A} (m : res A) (Q : A → Prop) : Prop :=
  match m with Ok a => Q a | Err f => f ≠ UseAfterFree end.

Lemma sound_bind {A B} (m : res A) (k : A → res B) (Q : A → Prop) (R : B → Prop) :
  sound m Q → (∀ a, Q a → sound (k a) R) → sound (res_bind m k) R.
Proof. destruct m; cbn; auto. Qed.

Lemma sound_any {A} (m : res A) : m ≠ Err UseAfterFree → sound m (λ _, True).
Proof. by destruct m as [|f]; cbn; [|intros H ->]. Qed.

Lemma emit_inv a p : inv p → inv (emit a p).
Proof. done. Qed.

Lemma send_inv t p : inv p → inv (send_response t p).
Proof. unfold send_response. by destruct (connected w). Qed.

Lemma refuse_inv t p : inv p → inv (refuse t p).
Proof. intros Hp. by apply emit_inv, send_inv. Qed.

Lemma reConn_inv p : inv (reConn p).
Proof. done. Qed.

Lemma key32_sound k : sound (Redis.key32 k) (λ _, True).
Proof. unfold Redis.key32. by case_match. Qed.

Lemma fill_cache_sound f md5 p :
  inv p → isRedisConnectWell_ p = true → is_Some (fopen w f) → sound (fill_cache f md5 p) (λ r, inv r.1.1).
Proof.
  intros Hp Hw [file Ef]. unfold fill_cache. rewrite Ef, (Hp Hw). cbn [negb]. case_match; [done|].
  apply sound_bind with (Q := λ _, True).
  - unfold Compress. case_match; [done|]. destruct (compress w file); [|done]. by case_match.
  - intros [value len] _. apply sound_bind with (Q := λ _, True); [|by intros [] _].
    unfold Redis.exeSET. eapply sound_bind; [apply key32_sound|]. intros k _. by case_match.
Qed.

Lemma use_cache_sound s md5 p : inv p → isRedisConnectWell_ p = true → sound (use_cache s md5 p) (λ r, inv r.1.1).
Proof.
  intros Hp Hw. unfold use_cache. case_match; [done|]. rewrite (Hp Hw). cbn [negb]. by destruct (UnCompress _ _).
Qed.

Lemma responseRequest_sound f mime p :
  inv p → (∀ f, f ∈ g_redis_vip conf → is_Some (fopen w f)) → sound (responseRequest f mime p) inv.
Proof.
  intros Hp Hf. unfold responseRequest. eapply sound_bind with (Q := λ r, inv r.1.1).
  - destruct (bool_decide (f ∈ _)) eqn:E; [|done]. apply bool_decide_eq_true in E. unfold from_redis.
    destruct (isRedisConnectWell_ p) eqn:Hw; cbn [negb]; [|done].
    apply sound_bind with (Q := λ _, True).
    + unfold Redis.exeGET. eapply sound_bind; [apply key32_sound|]. intros k _. by repeat case_match.
    + intros [s|] _; [|done]. case_match; [apply fill_cache_sound; auto|by apply use_cache_sound].
  - intros [[p1 cached] size] Hp1. cbn [fst] in Hp1. destruct cached as [body|].
    + cbn. case_match; [apply emit_inv|]; by apply send_inv.
    + destruct (fopen w f); [|done]. case_match; [done|]. cbn. apply send_inv. done.
Qed.

Lemma read_headers_sound fuel rest params : sound (read_headers fuel rest params) (λ _, True).
Proof.
  revert rest params. induction fuel as [|fuel IH]; intros [|c rest] params; cbn [read_headers]; try done.
  destruct (Buffer.find_crlf _); [|done]. case_match; [|done].
  apply sound_bind with (Q := λ _, True); [unfold substring; by case_match|]. auto.
Qed.

Lemma parse_tail_sound path mime rest p :
  inv p → (∀ f, f ∈ g_redis_vip conf → is_Some (fopen w f)) → sound (parse_tail path mime rest p) inv.
Proof.
  intros Hp Hf. unfold parse_tail. destruct (Buffer.find_crlf rest); [|by apply refuse_inv].
  do 2 (apply sound_bind with (Q := λ _, True); [unfold substring; by case_match|]; intros ? _).
  case_match; [by apply refuse_inv|]. eapply sound_bind; [apply read_headers_sound|]. intros [params ok] _.
  destruct ok; [by apply responseRequest_sound|by apply refuse_inv].
Qed.

Lemma read_method_sound room request j m : sound (read_method room request j m) (λ _, True).
Proof.
  revert j m. induction room as [|room IH]; intros j m; cbn [read_method];
    (apply sound_bind with (Q := λ _, True); [unfold char_at; by repeat case_match|]; intros c _; by case_match).
Qed.

Lemma sprintf1_sound fmt arg : sound (sprintf1 fmt arg) (λ _, True).
Proof.
  enough (∀ n fmt arg, (length fmt ≤ n)%nat → sound (sprintf1 fmt arg) (λ _, True)) as H by (by eapply H).
  clear fmt arg. induction n as [|n IH]; intros [|c fmt] arg Hl; cbn [length] in Hl; try done; [lia|]. cbn [sprintf1].
  assert (∀ fmt arg f, (length fmt ≤ n)%nat → sound (let! r := sprintf1 fmt arg in Ok (f r : bytes)) (λ _, True)) as Hgo.
  { intros. eapply sound_bind; [by apply IH|done]. }
  destruct (Byte.eqb c _); [|apply Hgo; lia]. destruct fmt as [|d fmt]; [done|]. cbn [length] in Hl.
  destruct (Byte.eqb d _); [apply Hgo; lia|]. destruct (Byte.eqb d _); [|done]. destruct arg; [apply Hgo; lia|done].
Qed.

(** The parser never uses its compressor or a file through a null pointer, provided
    that the pages of the cache list exist: the compressor is there while the cache is
    taken to be connected, whatever the request, the cache, zlib and the files answer,
    and whenever a reconnection succeeds or fails. *)
Theorem parser_cache_safe p :
  inv p → (∀ f, f ∈ g_redis_vip conf → is_Some (fopen w f)) →
  (∀ request, sound (parserRequest request p) inv) ∧
  (∀ context err, inv (connectRedis context err p)) ∧ (∀ rand, inv (retryInLoop rand p)).
Proof.
  intros Hp Hf. split_and!.
  - intros request. unfold parserRequest. eapply sound_bind; [apply read_method_sound|]. intros [m j] _.
    case_match; [by apply refuse_inv|]. destruct (read_url _ _) as [url rest].
    assert (∀ s, sound (store255 s) (λ _, True)) as Hst by (intros; unfold store255; by case_match).
    apply sound_bind with (Q := λ _, True).
    { unfold make_path. eapply sound_bind; [apply sprintf1_sound|]. auto. }
    intros path _. apply sound_bind with (Q := λ _, True); [unfold ends_in_slash; by case_match|]. intros slash _.
    apply sound_bind with (Q := λ _, True); [destruct slash; [apply Hst|done]|]. intros path1 _.
    destruct (stat w path1) as [mode|]; [|by apply refuse_inv]. case_match; [by apply refuse_inv|].
    apply sound_bind with (Q := λ _, True); [case_match; [apply Hst|done]|]. intros path2 _.
    apply sound_bind with (Q := λ _, True).
    { unfold file_suffix. generalize (@nil byte). induction (rev path2); intros; cbn; [done|]. by case_match. }
    intros mime _. destruct (mimeType conf !! mime); [by apply parse_tail_sound|by apply refuse_inv].
  - intros context err. unfold connectRedis, inv. destruct (isRedisConnectWell_ p) eqn:E; [by intros; apply Hp|].
    destruct (Redis.Connect context err && negb (g_zlib p)) eqn:E2; cbn; [done|]. intros Hc. rewrite Hc in E2.
    cbn in E2. by destruct (g_zlib p).
  - intros rand. unfold retryInLoop. by case_match.
Qed.

End Request.

(** ** The page cache *)

Lemma key32_md5 md5 : length md5 = 32%nat → Redis.key32 md5 = Ok md5.
Proof.
  intros Hl. unfold Redis.key32. rewrite Hl. cbn. by rewrite ztake_app_len by (rewrite Hl; done).
Qed.

Definition page (conf : Config) (mime : bytes) (file : bytes) (p : Parser) : bytes :=
  response_head conf mime (zlen file) p ++ file.
Definition closing (p : Parser) : list act :=
  if bool_decide (param (str "Connection") p = str "close") then [Shutdown] else [].

Section Cache.
Context (conf : Config) (w1 w2 : World) (g_file md5 file c : bytes).
Hypothesis vip : g_file ∈ g_redis_vip conf.
Hypothesis md5_of : urlTomd5 conf !! g_file = Some md5.
Hypothesis md5_len : length md5 = 32%nat.
Hypothesis up : connected w1 = true ∧ connected w2 = true.
Hypothesis on_disk : fopen w1 g_file = Some file.
Hypothesis file_size : 0 < zlen file < 2 ^ 31.
(** zlib: compression that fits the array, and its inverse. *)
Hypothesis compressed : compress w1 file = Some c ∧ c ≠ [] ∧ zlen c < 2 ^ 31.
Hypothesis array : zlen c ≤ compressed_size conf (zlen file).
Hypothesis inverse : ∀ f c, compress w1 f = Some c → uncompress w2 c (zlen f) = Some f.
(** The cache server does not have the page first, and has what was set afterwards. *)
Hypothesis missing : cache w1 md5 = Some Redis.ReplyNil.
Hypothesis stored : ∀ v, map Some v = map Some c → cache w2 md5 = Some (Redis.ReplyString v).

Lemma fill_cache_run p :
  g_zlib p = true →
  fill_cache conf w1 g_file md5 p =
    Ok (emit (CacheSet md5 (map Some c)) (emit CancelWriteComplete (emit (SaveSize md5 (zlen file))
          (set_zlibMap (<[md5 := zlen file]> (g_zlibMap p)) p))), Some file, zlen file).
Proof.
  destruct compressed as (Hc & Hne & Hcs). intros Hz. unfold fill_cache. rewrite on_disk, Hz.
  assert (i32 (zlen file) = zlen file) as -> by (apply i32_small; lia). cbn [negb].
  unfold Compress. rewrite (proj2 (Z.ltb_ge _ _)), (proj2 (Z.eqb_neq _ _)), Hc, (proj2 (Z.leb_le _ _)) by lia. cbn [res_bind].
  unfold Redis.exeSET. rewrite key32_md5 by done. cbn [res_bind].
  assert (i32 (zlen c) = zlen c) as -> by (apply i32_small; lia).
  assert (u64 (zlen c) = zlen c) as -> by (apply uwrap_small; lia).
  rewrite (proj2 (Z.leb_le _ _)) by (rewrite length_app, length_map; lia). cbn [res_bind].
  rewrite ztake_app_len by (by rewrite length_map). by rewrite (ztake_all (zlen file) file).
Qed.

Lemma answer_cached w mime body size p :
  connected w = true → response_ p = [] →
  let p' := send_response w (response_head conf mime size p ++ body) p in
  done p' = done p ++ [Send (response_head conf mime size p ++ body)] ∧ response_ p' = [] ∧
  paramMap_ p' = paramMap_ p ∧ isRedisConnectWell_ p' = isRedisConnectWell_ p ∧ g_zlib p' = g_zlib p ∧
  g_zlibMap p' = g_zlibMap p.
Proof. intros Hw Hr. unfold send_response. rewrite Hw. cbn. by rewrite Hr. Qed.

(** The cache is transparent: a page of the cache list that the cache does not have
    is read from the file, compressed and stored, and the next request for it is
    answered from the cache with the same bytes, the whole file after the same head, and
    closed in the same way. *)
Theorem cached_page_same mime p :
  isRedisConnectWell_ p = true → g_zlib p = true → response_ p = [] →
  wp (responseRequest conf w1 g_file mime p) (λ p1,
    done p1 = done p ++ [SaveSize md5 (zlen file); CancelWriteComplete; CacheSet md5 (map Some c);
                         Send (page conf mime file p)] ++ closing p ∧
    wp (responseRequest conf w2 g_file mime p1) (λ p2,
      done p2 = done p1 ++ [CancelWriteComplete; Send (page conf mime file p)] ++ closing p)).
Proof.
  intros Hw Hz Hr. destruct compressed as (Hc & Hne & Hcs), up as [Hu1 Hu2].
  assert (zlen c ≠ 0) as Hcl by (destruct c; cbn; done || lia).
  unfold responseRequest. rewrite bool_decide_true by done. unfold from_redis at 1.
  rewrite Hw, md5_of. cbn [negb from_option id]. unfold Redis.exeGET at 1. rewrite key32_md5 by done. cbn [res_bind].
  rewrite missing. cbn [res_bind]. change (zlen (@nil byte) =? 0) with true. cbn [orb].
  rewrite fill_cache_run by done. cbn [res_bind].
  set (q := emit (CacheSet _ _) _).
  destruct (answer_cached w1 mime file (zlen file) q Hu1 Hr) as (E1 & E2 & E3 & E4 & E5 & E6).
  set (q1 := send_response w1 _ q) in *. cbn [wp].
  set (p1 := if bool_decide _ then _ else q1).
  assert (paramMap_ p1 = paramMap_ p ∧ response_ p1 = [] ∧ isRedisConnectWell_ p1 = true ∧ g_zlib p1 = true ∧
    g_zlibMap p1 = <[md5 := zlen file]> (g_zlibMap p)) as (F1 & F2 & F3 & F4 & F5).
  { unfold p1. case_match; cbn; rewrite ?E2, ?E3, ?E4, ?E5, ?E6; cbn; by rewrite ?Hw, ?Hz. }
  assert (∀ size x, paramMap_ x = paramMap_ p → response_head conf mime size x = response_head conf mime size p) as Hh
    by (intros size x E; unfold response_head, param; by rewrite E).
  assert (∀ x, paramMap_ x = paramMap_ p → param (str "Connection") x = param (str "Connection") p) as Hparam
    by (intros x E; unfold param; by rewrite E).
  split.
  - unfold p1, closing. rewrite (Hparam q1) by (by rewrite E3). rewrite (Hh _ q) in E1 by done.
    case_match; cbn [done emit]; rewrite E1; unfold q; cbn [done emit set_zlibMap]; by rewrite <- !app_assoc.
  - unfold from_redis. rewrite F3, md5_of. cbn [negb from_option id]. unfold Redis.exeGET. rewrite key32_md5 by done. cbn [res_bind].
    rewrite (stored c eq_refl). cbn [res_bind Redis.redisReplyToString]. rewrite F5, lookup_insert_eq. cbn [from_option id].
    rewrite (proj2 (Z.eqb_neq (zlen c) 0)), (proj2 (Z.eqb_neq (zlen file) 0)) by lia. cbn [orb].
    unfold use_cache. rewrite F5, lookup_insert_eq, F4. cbn [from_option id negb].
    rewrite (proj2 (Z.ltb_ge _ _)) by lia. unfold UnCompress.
    rewrite (proj2 (Z.eqb_neq (zlen c) 0)), (proj2 (Z.eqb_neq (zlen file) 0)) by lia. cbn [orb].
    rewrite (inverse _ _ Hc). cbn [res_bind]. rewrite (ztake_all (zlen file) file) by lia.
    destruct (answer_cached w2 mime file (zlen file) (emit CancelWriteComplete p1) Hu2 F2) as (G1 & G2 & G3 & _).
    set (q2 := send_response w2 _ _) in *. rewrite (Hh _ (emit CancelWriteComplete p1)) in G1 by (by cbn).
    cbn [wp]. rewrite (Hparam q2) by (by rewrite G3). unfold closing.
    case_match; cbn [done emit] in *; rewrite G1; by rewrite <- !app_assoc.
Qed.

End Cache.

(** ** A concrete server *)

Definition demo_md5 : bytes := str "0123456789ABCDEF0123456789ABCDEF".
Definition demo_conf : Config :=
  mkConfig (str "/srv/www") (str "/index.html") {[str "html" := str "text/html"]} [str "/srv/www/vip.html"]
    {[str "/srv/www/vip.html" := demo_md5]} (λ n, n + 1).
Definition demo_pages (f : bytes) : option bytes :=
  if decide (f = str "/srv/www/vip.html") then Some (str "very important page")
  else if decide (f = str "/srv/www/a.html") then Some (str "page a") else None.
Definition demo_world (up : bool) (cached : option Redis.redisReply) : World :=
  mkWorld up (λ f, if decide (is_Some (demo_pages f)) then Some 33188 else None) demo_pages (λ _, kBufSize)
    (λ _, cached) (λ f, Some (rev f)) (λ c n, Some (rev c)).
Definition demo_parser (well : bool) : Parser := mkParser ∅ [] well well 0 ∅ [].
Definition demo_get : get_request := mkGet (str "/a.html") (str "1.1") [(str "Host", str "localhost"); (str "Connection", str "close")].

Lemma demo_get_ok : get_ok demo_get.
Proof.
  assert (∀ (c : byte) (l : bytes), bool_decide (c ∈ l) = false → c ∉ l) as H by (intros c l E; by apply bool_decide_eq_false in E).
  constructor.
  - split_and!; [by apply H; vm_compute|by vm_compute|by exists Byte.x2f, (str "a.html")].
  - right. left.
  - repeat constructor; by apply H; vm_compute.
Qed.

Lemma request_served_witness :
  get_ok demo_get ∧
  parserRequest demo_conf (demo_world true None) (request_text demo_get) (demo_parser false) =
    serve demo_conf (demo_world true None) demo_get (demo_parser false) ∧
  done <$> (match serve demo_conf (demo_world true None) demo_get (demo_parser false) with Ok p => Some p | Err _ => None end) =
    Some [SetKv (str "file") (str "/srv/www/a.html"); SetKv (str "connectionFlag") (str "close"); SetFp (str "/srv/www/a.html") 6; SetBuffer;
          Send (response_head demo_conf (str "html") 6 (set_params {[str "version" := str "1.1"; str "Connection" := str "close"]} (demo_parser false)) ++ str "page a")].
Proof. split_and!; [exact demo_get_ok|apply request_served; exact demo_get_ok|by vm_compute]. Defined.


Lemma parser_cache_safe_witness :
  inv (demo_parser true) ∧ sound (parserRequest demo_conf (demo_world true None) (request_text demo_get) (demo_parser true)) inv.
Proof.
  split; [done|]. apply parser_cache_safe; [done|]. intros f Hf. apply list_elem_of_singleton in Hf as ->. vm_compute. eauto.
Defined.

Lemma cached_page_same_witness :
  wp (responseRequest demo_conf (demo_world true (Some Redis.ReplyNil)) (str "/srv/www/vip.html") (str "html") (demo_parser true)) (λ p1,
    wp (responseRequest demo_conf (demo_world true (Some (Redis.ReplyString (rev (str "very important page"))))) (str "/srv/www/vip.html") (str "html") p1)
      (λ p2, done p2 = done p1 ++ [CancelWriteComplete; Send (page demo_conf (str "html") (str "very important page") (demo_parser true))])).
Proof.
  eapply wp_mono; [apply (cached_page_same demo_conf (demo_world true (Some Redis.ReplyNil))
    (demo_world true (Some (Redis.ReplyString (rev (str "very important page"))))) (str "/srv/www/vip.html") demo_md5
    (str "very important page") (rev (str "very important page")))|].
  - by left.
  - by vm_compute.
  - done.
  - done.
  - by vm_compute.
  - by vm_compute.
  - by vm_compute.
  - by vm_compute.
  - intros f c [= <-]. cbn. by rewrite rev_involutive.
  - done.
  - intros v E. apply (inj (fmap (M := list) Some)) in E. by rewrite E.
  - done.
  - done.
  - done.
  - intros p1 [_ H]. eapply wp_mono; [exact H|]. intros p2 E. rewrite E. by vm_compute.
Defined.

(** An answer for a connection that has gone stays in the worker's buffer and is sent to
    the next client, in front of its own answer. *)
Lemma stale_answer_leaks w1 w2 text1 text2 p :
  connected w1 = false → connected w2 = true →
  let p1 := refuse w1 text1 p in
  done (refuse w2 text2 p1) =
    done p1 ++ [CancelWriteComplete; Send (response_ p ++ text1 ++ text2); ForceCloseWithDelay 1].
Proof.
  intros H1 H2. unfold refuse, send_response. rewrite H1, H2. cbn. by rewrite <- !app_assoc.
Qed.

(** With [Connection: close] the head ends with one line end too many, which the client
    takes for the beginning of the body. *)
Lemma close_head_is_long conf mime size p :
  param (str "Connection") p = str "close" →
  ∃ h, response_head conf mime size p = h ++ str ";charset=utf-8" ++ CRLF ++ CRLF ++ CRLF.
Proof.
  intros E. unfold response_head. rewrite E, bool_decide_true by done.
  exists (str "HTTP/" ++ param (str "version") p ++ str " 200 OK" ++ CRLF ++ str "Connection:" ++ str "close" ++ CRLF ++
    str "Content-type:" ++ default [] (mimeType conf !! mime)). by rewrite <- !app_assoc.
Qed.

End RequestParser.
