(* ===== verification/EventLoopThread.v ===== *)
(** Threads and the threads that run event loops ([base/thread/CountDownLatch.cpp],
    [base/thread/Thread.cpp], [netLayer/event/eventloop/EventLoopThread.cpp] and
    [EventLoopThreadPool.cpp]).

    [CountDownLatch]: a latch with any number of waiting threads; a section under its
    mutex is one step.  [EventLoopThread]: the thread that calls [startLoop()] and later
    destroys the object, the thread it starts, and the two hand-shakes between them
    ([Thread::start] with the latch, [startLoop] with the condition variable).
    [EventLoopThreadPool]: the loops of a server and the choice among them. *)

From S2P Require Import Prelude.

Module CountDownLatch.

(** The counter, and the threads inside [wait()]: blocked in [condition_.wait()], woken
    or about to test the counter again, and returned. *)
Record CountDownLatch := mkLatch {
  count_ : Z;
  waiters : list nat;
  ready : list nat;
  passed : list nat;
}.

Definition new_CountDownLatch (count : Z) : CountDownLatch := mkLatch count [] [] [].

(** One evaluation of [while (count_ > 0)] by thread [t], with the mutex held. *)
Definition wait_test (t : nat) (l : CountDownLatch) : CountDownLatch :=
  if 0 <? count_ l then mkLatch (count_ l) (waiters l ++ [t]) (ready l) (passed l)
  else mkLatch (count_ l) (waiters l) (ready l) (passed l ++ [t]).

(** A woken thread has the mutex again. *)
Definition awake (k : nat) (l : CountDownLatch) : CountDownLatch :=
  match ready l !! k with
  | Some t => wait_test t (mkLatch (count_ l) (waiters l) (delete k (ready l)) (passed l))
  | None => l
  end.

(** pthread_cond_wait returns without a notification. *)
Definition spurious (k : nat) (l : CountDownLatch) : CountDownLatch :=
  match waiters l !! k with
  | Some t => mkLatch (count_ l) (delete k (waiters l)) (ready l ++ [t]) (passed l)
  | None => l
  end.

Definition countDown (l : CountDownLatch) : CountDownLatch :=
  let c := count_ l -i 1 in
  if c =? 0 then mkLatch c [] (ready l ++ waiters l) (passed l)
  else mkLatch c (waiters l) (ready l) (passed l).

Definition getCount (l : CountDownLatch) : Z := count_ l.

(** Every interleaving; [d] counts the calls of [countDown()] and [ts] lists the threads
    that called [wait()]. *)
Inductive reach (c : Z) : Z → list nat → CountDownLatch → Prop :=
| reach_new : reach c 0 [] (new_CountDownLatch c)
| reach_wait d ts l t : reach c d ts l → reach c d (ts ++ [t]) (wait_test t l)
| reach_awake d ts l k : reach c d ts l → reach c d ts (awake k l)
| reach_spurious d ts l k : reach c d ts l → reach c d ts (spurious k l)
| reach_down d ts l : reach c d ts l → reach c (d + 1) ts (countDown l).

Definition inside (l : CountDownLatch) : list nat := waiters l ++ ready l ++ passed l.

Lemma wait_test_inside t l : inside (wait_test t l) ≡ₚ t :: inside l.
Proof. unfold inside, wait_test. case_match; cbn; solve_Permutation. Qed.

Lemma awake_inside k l : inside (awake k l) ≡ₚ inside l.
Proof.
  unfold awake. destruct (ready l !! k) as [t|] eqn:E; [|done]. rewrite wait_test_inside. unfold inside. cbn.
  rewrite (delete_Permutation (ready l) k t E) at 2. cbn. solve_Permutation.
Qed.

Lemma spurious_inside k l : inside (spurious k l) ≡ₚ inside l.
Proof.
  unfold spurious. destruct (waiters l !! k) as [t|] eqn:E; [|done]. unfold inside. cbn.
  rewrite (delete_Permutation (waiters l) k t E) at 2. solve_Permutation.
Qed.

Lemma countDown_inside l : inside (countDown l) ≡ₚ inside l.
Proof. unfold inside, countDown. case_match; cbn; solve_Permutation. Qed.

Record latch_inv (c d : Z) (ts : list nat) (l : CountDownLatch) : Prop := {
  l_count : count_ l = c - d;
  l_downs : 0 ≤ d;
  l_inside : inside l ≡ₚ ts;
  l_waiters : waiters l ≠ [] → 0 < count_ l;
  l_passed : passed l ≠ [] → count_ l ≤ 0;
}.

Lemma wait_test_latch_inv c d ts t l : latch_inv c d ts l → latch_inv c d (ts ++ [t]) (wait_test t l).
Proof.
  intros [Hc Hd Hi Hw Hp]. pose proof (wait_test_inside t l) as Hin. rewrite Hi, Permutation_cons_append in Hin.
  unfold wait_test in *. destruct (0 <? count_ l) eqn:E; bool_prop; by constructor.
Qed.

Lemma latch_reach_inv c d ts l :
  0 ≤ c < 2 ^ 31 → reach c d ts l → d - c ≤ 2 ^ 31 → latch_inv c d ts l.
Proof.
  intros Hc Hr. induction Hr as [|d ts l t Hr IH|d ts l k Hr IH|d ts l k Hr IH|d ts l Hr IH]; intros Hd.
  - constructor; cbn; done || lia.
  - by apply wait_test_latch_inv, IH.
  - destruct (IH Hd) as [H1 H2 H3 H4 H5]. pose proof (awake_inside k l) as Hin. rewrite H3 in Hin.
    unfold awake, wait_test in *. destruct (ready l !! k); [|by constructor].
    cbn in *. destruct (0 <? count_ l) eqn:E; bool_prop; by constructor.
  - destruct (IH Hd) as [H1 H2 H3 H4 H5]. pose proof (spurious_inside k l) as Hin. rewrite H3 in Hin.
    unfold spurious in *. destruct (waiters l !! k) eqn:E; [|by constructor].
    constructor; cbn; try done. intros _. apply H4. by intros F; rewrite F in E.
  - destruct (IH ltac:(lia)) as [H1 H2 H3 H4 H5]. pose proof (countDown_inside l) as Hin. rewrite H3 in Hin.
    unfold countDown in *. rewrite i32_small in * by lia.
    destruct (count_ l - 1 =? 0) eqn:E; bool_prop; (constructor; cbn; [lia|lia|done|..]); try done.
    + intros ?. lia.
    + intros F. specialize (H4 F). lia.
    + intros F. specialize (H5 F). lia.
Qed.

(** Let every woken thread test the counter once. *)
Fixpoint awake_all (n : nat) (l : CountDownLatch) : CountDownLatch :=
  match n with O => l | S n => awake_all n (awake 0 l) end.

Lemma awake_all_open l n : count_ l ≤ 0 → length (ready l) = n → waiters (awake_all n l) = waiters l ∧ ready (awake_all n l) = [].
Proof.
  revert l. induction n as [|n IH]; intros l Hc Hn; cbn.
  - split; [done|by apply nil_length_inv].
  - destruct (ready l) as [|t r] eqn:E; [done|]. injection Hn as Hn.
    unfold awake, wait_test. rewrite E. cbn. rewrite (proj2 (Z.ltb_ge _ _)) by done.
    apply (IH (mkLatch (count_ l) (waiters l) r (passed l ++ [t])) Hc Hn).
Qed.

Lemma awake_all_inside n l : inside (awake_all n l) ≡ₚ inside l.
Proof.
  revert l. induction n as [|n IH]; intros l; cbn; [done|]. rewrite IH. apply awake_inside.
Qed.

(** A latch of [c] lets nobody pass before [c] calls of [countDown()], however often
    waiting threads wake up, and strands nobody afterwards: nobody is blocked, and when
    the woken threads have run once, every thread that called [wait()] has returned. *)
Theorem latch_gate c d ts l :
  0 ≤ c < 2 ^ 31 → d - c ≤ 2 ^ 31 → reach c d ts l →
  getCount l = c - d ∧ inside l ≡ₚ ts ∧
  (d < c → passed l = []) ∧
  (c ≤ d → waiters l = [] ∧ passed (awake_all (length (ready l)) l) ≡ₚ ts).
Proof.
  intros Hc Hd Hr. destruct (latch_reach_inv c d ts l Hc Hr Hd) as [H1 H2 H3 H4 H5].
  split_and!; [done..| |].
  - intros Hlt. destruct (passed l) eqn:E; [done|]. specialize (H5 ltac:(done)). lia.
  - intros Hle. assert (waiters l = []) as Hw.
    { destruct (waiters l) eqn:E; [done|]. specialize (H4 ltac:(done)). lia. }
    split; [done|]. destruct (awake_all_open l _ ltac:(lia) eq_refl) as [Hw' Hr'].
    pose proof (awake_all_inside (length (ready l)) l) as Hin. unfold inside in Hin at 1.
    rewrite Hw', Hr', Hw in Hin. cbn in Hin. by rewrite Hin.
Qed.

End CountDownLatch.

Module EventLoopThread.
Import CountDownLatch.

(** The members of [Thread] but the function and the name. *)
Record Thread := mkThread {
  started_ : bool;
  joined_ : bool;
  tid_ : Z;
  latch_ : CountDownLatch;
}.

Definition new_Thread : Thread := mkThread false false 0 (new_CountDownLatch 1).

(** Where the thread that owns the object is: before [startLoop()]; at the
    mutex of the latch; in [latch_.wait()]; at the mutex of [startLoop()]; in [cond_.wait()]; woken from it; back from
    [startLoop()]; in the destructor, in [loop_->quit()] before and after
    [quit_ = true], and in [join()]; after the destructor. *)
Inductive owner_place :=
| Fresh | AtLatch | InLatch | AtLock | InCond | CondWoken | Returned | Quitting | Waking | Joining | Gone.

(** Where the started thread is: before and after it has written its tid, in the
    callback, at the mutex of [threadFunc()], before [loop()], in it, behind it, and
    after [threadFunc()]. *)
Inductive thread_place :=
| Unborn | Born | Counting | Setup | Publishing | Entering | Looping | Clearing | Ended.

#[global] Instance owner_place_eq_dec : EqDecision owner_place.
Proof. solve_decision. Defined.
#[global] Instance thread_place_eq_dec : EqDecision thread_place.
Proof. solve_decision. Defined.

(** [loop_] is [NULL] or points to the EventLoop on the stack of the thread, of which
    [quit_] is a member. *)
Record EventLoopThread := mkELT {
  thread_ : Thread;
  loop_ : bool;
  exiting_ : bool;
  quit_ : bool;
  owner : owner_place;
  child : thread_place;
}.

Definition new_EventLoopThread : EventLoopThread := mkELT new_Thread false false false Fresh Unborn.

Definition set_thread (t : Thread) (s : EventLoopThread) : EventLoopThread :=
  mkELT t (loop_ s) (exiting_ s) (quit_ s) (owner s) (child s).
Definition set_loop (v : bool) (s : EventLoopThread) : EventLoopThread :=
  mkELT (thread_ s) v (exiting_ s) (quit_ s) (owner s) (child s).
Definition set_exiting (v : bool) (s : EventLoopThread) : EventLoopThread :=
  mkELT (thread_ s) (loop_ s) v (quit_ s) (owner s) (child s).
Definition set_quit (v : bool) (s : EventLoopThread) : EventLoopThread :=
  mkELT (thread_ s) (loop_ s) (exiting_ s) v (owner s) (child s).
Definition set_owner (v : owner_place) (s : EventLoopThread) : EventLoopThread :=
  mkELT (thread_ s) (loop_ s) (exiting_ s) (quit_ s) v (child s).
Definition set_child (v : thread_place) (s : EventLoopThread) : EventLoopThread :=
  mkELT (thread_ s) (loop_ s) (exiting_ s) (quit_ s) (owner s) v.

(** The EventLoop exists from the beginning of [threadFunc()] to its end. *)
Definition loop_alive (s : EventLoopThread) : bool :=
  match child s with Publishing | Entering | Looping | Clearing => true | _ => false end.

Definition set_latch (l : CountDownLatch) (t : Thread) : Thread := mkThread (started_ t) (joined_ t) (tid_ t) l.

(** [latch_.wait()] has tested its counter: the owner (thread 0) is through or not. *)
Definition after_latch (s : EventLoopThread) : res EventLoopThread :=
  if bool_decide (passed (latch_ (thread_ s)) = []) then Ok (set_owner InLatch s)
  else
    assert! 0 <? tid_ (thread_ s) in
    Ok (set_owner AtLock s).

(** [Thread::start()]; [created] says what pthread_create answers. *)
Definition Thread_start (created : bool) (s : EventLoopThread) : res EventLoopThread :=
  let t := thread_ s in
  assert! negb (started_ t) in
  if created then
    Ok (set_owner AtLatch (set_child Born (set_thread (mkThread true (joined_ t) (tid_ t) (latch_ t)) s)))
  else Ok (set_owner AtLock s).

(** [Thread::join()], until pthread_join returns. *)
Definition Thread_join (s : EventLoopThread) : res EventLoopThread :=
  let t := thread_ s in
  assert! started_ t in
  assert! negb (joined_ t) in
  Ok (set_owner Joining (set_thread (mkThread (started_ t) true (tid_ t) (latch_ t)) s)).

(** [startLoop()] up to its first wait. *)
Definition startLoop (created : bool) (s : EventLoopThread) : res EventLoopThread :=
  assert! negb (started_ (thread_ s)) in
  Thread_start created s.

(** One evaluation of [while (loop_ == NULL)]. *)
Definition startLoop_test (s : EventLoopThread) : EventLoopThread :=
  if loop_ s then set_owner Returned s else set_owner InCond s.

(** The destructor up to [loop_->quit()]. *)
Definition destroy (s : EventLoopThread) : EventLoopThread :=
  let s := set_exiting true s in
  if loop_ s then set_owner Quitting s else set_owner Gone s.

(** The next step of the owner. *)
Definition owner_step (s : EventLoopThread) : res EventLoopThread :=
  match owner s with
  | AtLatch => after_latch (set_thread (set_latch (wait_test 0 (latch_ (thread_ s))) (thread_ s)) s)
  | InLatch => after_latch (set_thread (set_latch (awake 0 (latch_ (thread_ s))) (thread_ s)) s)
  | AtLock | CondWoken => Ok (startLoop_test s)
  | Quitting => if loop_ s && loop_alive s then Ok (set_owner Waking (set_quit true s)) else Err UseAfterFree
  | Waking => if loop_alive s then Thread_join s else Err UseAfterFree
  | Joining => Ok (if bool_decide (child s = Ended) then set_owner Gone s else s)
  | _ => Ok s
  end.

(** The next step of the thread, whose id is [tid].  All of them but the loop itself use
    members of the EventLoopThread. *)
Definition thread_step (tid : Z) (s : EventLoopThread) : res EventLoopThread :=
  if bool_decide (owner s = Gone) && negb (bool_decide (child s = Looping)) then Err UseAfterFree
  else match child s with
  | Born => Ok (set_child Counting (set_thread (mkThread (started_ (thread_ s)) (joined_ (thread_ s)) tid (latch_ (thread_ s))) s))
  | Counting => Ok (set_child Setup (set_thread (set_latch (countDown (latch_ (thread_ s))) (thread_ s)) s))
  | Setup => Ok (set_child Publishing (set_quit false s))
  | Publishing =>
      let s := set_child Entering (set_loop true s) in
      Ok (if bool_decide (owner s = InCond) then set_owner CondWoken s else s)
  | Entering => Ok (set_child Looping (set_quit false s))
  | Looping => Ok (if quit_ s then set_child Clearing s else s)
  | Clearing => Ok (set_child Ended (set_loop false s))
  | Unborn | Ended => Ok s
  end.

Inductive event :=
| StartLoop (created : bool)
| Owner
| Child (tid : Z)
| Spurious                 (* a wait of the owner returns without a notification *)
| Destroy
| OtherQuit.               (* somebody else calls quit() of the loop *)

Definition step (e : event) (s : EventLoopThread) : res EventLoopThread :=
  match e with
  | StartLoop created => startLoop created s
  | Owner => owner_step s
  | Child tid => thread_step tid s
  | Spurious =>
      Ok (match owner s with
          | InLatch => set_thread (set_latch (spurious 0 (latch_ (thread_ s))) (thread_ s)) s
          | InCond => set_owner CondWoken s
          | _ => s
          end)
  | Destroy => Ok (destroy s)
  | OtherQuit => Ok (set_quit true s)
  end.

(** [shared] says whether others than the owner call [quit()]. *)
Definition enabled (shared : bool) (e : event) (s : EventLoopThread) : Prop :=
  match e with
  | StartLoop created => owner s = Fresh ∧ created = true
  | Owner =>
      match owner s with
      | InLatch => ready (latch_ (thread_ s)) ≠ []
      | AtLatch | AtLock | CondWoken | Quitting | Waking => True
      | Joining => child s = Ended
      | _ => False
      end
  | Child tid => 0 < tid ∧
      match child s with Unborn | Ended => False | Looping => quit_ s = true | _ => True end
  | Spurious => (owner s = InLatch ∧ waiters (latch_ (thread_ s)) ≠ []) ∨ owner s = InCond
  | Destroy => owner s = Fresh ∨ owner s = Returned
  | OtherQuit => shared = true ∧ loop_alive s = true
  end.

Inductive reach (shared : bool) : EventLoopThread → Prop :=
| reach_new : reach shared new_EventLoopThread
| reach_step s e s' : reach shared s → enabled shared e s → step e s = Ok s' → reach shared s'.

(** ** Invariant *)

(** The latch of a thread that has been started. *)
Definition latch_ok (s : EventLoopThread) : Prop :=
  let l := latch_ (thread_ s) in
  let c := match child s with Born | Counting => 1 | _ => 0 end in
  match owner s with
  | AtLatch => l = mkLatch c [] [] []
  | InLatch => (l = mkLatch c [0%nat] [] [] ∧ c = 1) ∨ l = mkLatch c [] [0%nat] []
  | _ => l = mkLatch 0 [] [] [0%nat] ∧ c = 0
  end.

(** Where the thread can be, given where the owner is. *)
Definition places_ok (s : EventLoopThread) : Prop :=
  match owner s, child s with
  | (AtLatch | InLatch), (Born | Counting | Setup | Publishing | Entering | Looping) => True
  | (AtLock | CondWoken), (Setup | Publishing | Entering | Looping) => True
  | InCond, (Setup | Publishing) => True
  | (Returned | Quitting), (Entering | Looping) => True
  | (Waking | Joining), (Entering | Looping | Clearing | Ended) => True
  | Gone, Ended => True
  | _, _ => False
  end.

Record running (s : EventLoopThread) : Prop := {
  r_started : started_ (thread_ s) = true;
  r_joined : joined_ (thread_ s) = match owner s with Joining | Gone => true | _ => false end;
  r_tid : match child s with Born => True | _ => 0 < tid_ (thread_ s) end;
  r_loop : loop_ s = match child s with Entering | Looping | Clearing => true | _ => false end;
  r_quit : match owner s with Waking | Joining | Gone => True | _ => quit_ s = false end;
  r_latch : latch_ok s;
  r_places : places_ok s;
}.

Definition inv (s : EventLoopThread) : Prop :=
  s = new_EventLoopThread ∨ s = destroy new_EventLoopThread ∨ running s.

(** Split a state into its members and simplify what is known of them. *)
Ltac elt_case H :=
  destruct H as [Hs Hj Ht Hl Hq Hla Hp];
  unfold latch_ok in Hla; cbn in *;
  repeat match goal with
  | H : _ ∨ _ |- _ => destruct H
  | H : _ ∧ _ |- _ => destruct H
  end; subst; cbn in *; simplify_eq/=; try done.

(** Evaluate a step of a state that [elt_case] has split. *)
Ltac elt_step :=
  unfold thread_step, after_latch, startLoop_test, Thread_join in *; cbn in *;
  repeat match goal with
  | H : context [bool_decide ?P] |- _ =>
      first [rewrite (bool_decide_true P) in H by done | rewrite (bool_decide_false P) in H by done]; cbn in H
  | H : context [0 <? ?t] |- _ => rewrite (proj2 (Z.ltb_lt 0 t)) in H by done
  end; simplify_eq/=;
  constructor; unfold latch_ok; cbn; auto.

Lemma running_owner s s' : running s → enabled false Owner s → owner_step s = Ok s' → running s'.
Proof.
  intros Hr He Hst. destruct s as [[st jo ti la] lo ex qu ow ch].
  destruct ow, ch; try done; elt_case Hr; elt_step.
Qed.

Lemma running_child tid s s' : running s → enabled false (Child tid) s → thread_step tid s = Ok s' → running s'.
Proof.
  intros Hr [Htid He] Hst. destruct s as [[st jo ti la] lo ex qu ow ch].
  destruct ow, ch; try done; elt_case Hr; elt_step.
Qed.

Lemma running_other e s s' :
  running s → enabled false e s → step e s = Ok s' → match e with Owner | Child _ => False | _ => True end → running s'.
Proof.
  intros Hr He Hst Hne. destruct s as [[st jo ti la] lo ex qu ow ch].
  destruct e, ow, ch; try done; try (by destruct He as [[]|[]]); try (by destruct He); elt_case Hr; elt_step.
Qed.

Lemma elt_reach_inv s : reach false s → inv s.
Proof.
  induction 1 as [|s e s' Hr [->|[->|IH]] He Hst]; [by left| | |].
  - destruct e as [c| |tid| | |]; cbn in He.
    + destruct He as [_ ->]. cbn in Hst. simplify_eq/=. do 2 right. constructor; unfold latch_ok; cbn; auto.
    + done.
    + by destruct He.
    + by destruct He as [[]|].
    + cbn in Hst. simplify_eq/=. by right; left.
    + by destruct He.
  - destruct e as [c| |tid| | |]; cbn in He; try done; try (by destruct He); try (by destruct He as [[]|]).
  - do 2 right. destruct e; [by eapply running_other|by eapply running_owner|by eapply running_child|by eapply running_other..].
Qed.

Lemma running_faults e s :
  running s → enabled false e s →
  match step e s with
  | Ok _ => True
  | Err f => f = UseAfterFree ∧ e = Owner ∧ owner s = Waking ∧ child s = Ended
  end.
Proof.
  intros Hr He. destruct s as [[st jo ti la] lo ex qu ow ch].
  destruct e, ow, ch; try done; try (by destruct He as [[]|[]]); try (by destruct He); elt_case Hr.
  all: unfold thread_step, after_latch, Thread_join in *; cbn; auto.
  all: repeat case_match; simplify_eq/=; auto; bool_prop; lia.
Qed.

(** C23. The start-up hand-shake and the end of a loop thread, in every interleaving of the
    two threads and of spurious wake-ups, when only the destructor quits the loop:
    [startLoop()] returns only when the thread runs, knows its tid and has published a
    loop that exists; no assertion fails and no member is used after the destructor; the
    only fault is the one the comments of [~EventLoopThread] and [EventLoop::quit] admit,
    the wake-up of a loop that has already been destroyed; and the destructor ends after
    the thread. *)
Theorem event_loop_thread_safe s :
  reach false s →
  (owner s = Returned →
     loop_ s = true ∧ loop_alive s = true ∧ started_ (thread_ s) = true ∧ 0 < tid_ (thread_ s) ∧ quit_ s = false) ∧
  (owner s = Gone → child s = Unborn ∨ child s = Ended) ∧
  (∀ e, enabled false e s →
     match step e s with
     | Ok _ => True
     | Err f => f = UseAfterFree ∧ e = Owner ∧ owner s = Waking ∧ child s = Ended
     end).
Proof.
  intros Hr%elt_reach_inv. split_and!.
  - intros Ho. destruct Hr as [->|[->|Hr]]; [done..|]. destruct s as [[st jo ti la] lo ex qu ow ch]. cbn in Ho. subst ow.
    destruct ch; elt_case Hr; auto.
  - intros Ho. destruct Hr as [->|[->|Hr]]; [by left..|]. destruct s as [[st jo ti la] lo ex qu ow ch]. cbn in Ho. subst ow.
    destruct ch; elt_case Hr; auto.
  - intros e He. destruct Hr as [->|[->|Hr]]; [| |by apply running_faults].
    + destruct e; try done; by destruct He as [? ->].
    + destruct e; try done; by destruct He.
Qed.

(** How far the two threads are from the end. *)
Definition owner_rank (o : owner_place) : nat :=
  match o with
  | Fresh => 13 | AtLatch => 12 | InLatch => 10 | AtLock => 9 | CondWoken => 8 | InCond => 7
  | Returned => 6 | Quitting => 5 | Waking => 4 | Joining => 3 | Gone => 0
  end.
Definition thread_rank (c : thread_place) : nat :=
  match c with
  | Unborn => 8 | Born => 7 | Counting => 6 | Setup => 5 | Publishing => 4 | Entering => 3
  | Looping => 2 | Clearing => 1 | Ended => 0
  end.
Definition rank (s : EventLoopThread) : nat :=
  (owner_rank (owner s) + 3 * thread_rank (child s) + length (ready (latch_ (thread_ s))))%nat.

(** The loop missed the destructor's [quit()]: it was asked before it began. *)
Definition missed_quit (s : EventLoopThread) : Prop :=
  owner s = Joining ∧ child s = Looping ∧ quit_ s = false.

Lemma running_rank e s s' :
  running s → enabled false e s → e ≠ Spurious → step e s = Ok s' → (rank s' < rank s)%nat.
Proof.
  intros Hr He Hne Hst. destruct s as [[st jo ti la] lo ex qu ow ch].
  destruct e, ow, ch; try done; try (by destruct He as [[]|[]]); try (by destruct He); elt_case Hr.
  all: unfold thread_step, after_latch, startLoop_test, Thread_join, rank in *; cbn in *; repeat case_match; simplify_eq/=; lia.
Qed.

Lemma running_stuck s :
  running s → ¬ enabled false Owner s → ¬ enabled false (Child 1) s →
  owner s ∈ [Returned; Gone] ∨ missed_quit s.
Proof.
  intros Hr Ho Hc. destruct s as [[st jo ti la] lo ex qu ow ch].
  destruct ow, ch; elt_case Hr; try (by exfalso; apply Ho); try (by exfalso; apply Hc).
  all: try (left; cbn; set_solver).
  right. destruct qu; [by exfalso; apply Hc|done].
Qed.


Fixpoint run (es : list event) (s : EventLoopThread) : res EventLoopThread :=
  match es with [] => Ok s | e :: es => let! s := step e s in run es s end.

(** A run in which every step is enabled. *)
Fixpoint allowed_run (shared : bool) (es : list event) (s : EventLoopThread) : Prop :=
  match es with
  | [] => True
  | e :: es => enabled shared e s ∧ match step e s with Ok s' => allowed_run shared es s' | Err _ => True end
  end.

Lemma elt_run_reach shared es s s' : reach shared s → allowed_run shared es s → run es s = Ok s' → reach shared s'.
Proof.
  revert s. induction es as [|e es IH]; intros s Hr Ha Hrun; cbn in *; [by simplify_eq|].
  destruct Ha as [He Ha]. destruct (step e s) as [s1|] eqn:E; [|done]. cbn in Hrun.
  apply (IH s1); [by eapply reach_step|done..].
Qed.

(** [startLoop()] with every wait taken. *)
Definition start_events : list event :=
  [StartLoop true; Owner; Child 7; Child 7; Owner; Owner; Child 7; Child 7; Owner].

Definition or_new (m : res EventLoopThread) : EventLoopThread :=
  match m with Ok s => s | Err _ => new_EventLoopThread end.

Definition started_thread : EventLoopThread := or_new (run start_events new_EventLoopThread).

Lemma started_thread_reach : reach false started_thread.
Proof.
  apply (elt_run_reach false start_events new_EventLoopThread); [constructor|vm_compute|by vm_compute].
  split_and!; done.
Qed.

Lemma event_loop_thread_safe_witness : owner started_thread = Returned ∧ loop_alive started_thread = true.
Proof. split; [done|]. apply (event_loop_thread_safe started_thread started_thread_reach). done. Defined.

(** The destructor joins a thread that is in its loop. *)
Definition stopping_thread : EventLoopThread := or_new (run [Child 7; Destroy; Owner; Owner] started_thread).


Lemma stopping_thread_ends : ∃ s, run [Child 7; Child 7; Owner] stopping_thread = Ok s ∧ owner s = Gone ∧ child s = Ended.
Proof. by eexists. Qed.

(** Destroying the object as soon as [startLoop()] has returned hangs: [loop()] resets
    [quit_], so the thread never ends and [join()] never returns. *)
Lemma early_destructor_hangs :
  ∃ s, run [Destroy; Owner; Owner; Child 7] started_thread = Ok s ∧ owner s = Joining ∧ missed_quit s ∧
    ∀ tid, step (Child tid) s = Ok s ∧ step Owner s = Ok s.
Proof. eexists. split; [vm_compute; reflexivity|]. split_and!; done. Qed.

(** The thread can leave its loop between the two halves of [quit()]: the destructor then
    wakes up a loop that is gone. *)
Lemma destructor_races :
  run [Child 7; Destroy; Owner; Child 7; Child 7; Owner] started_thread = Err UseAfterFree.
Proof. done. Qed.

(** When pthread_create fails, [Thread::start] returns without an error and [startLoop()]
    waits for a notification that never comes. *)
Lemma failed_create_hangs :
  ∃ s, run [StartLoop false; Owner] new_EventLoopThread = Ok s ∧ owner s = InCond ∧ child s = Unborn ∧
    ∀ tid, step (Child tid) s = Ok s ∧ run [Spurious; Owner] s = Ok s.
Proof. by eexists. Qed.

(** A loop that quits by itself before the owner has looked leaves [startLoop()] waiting. *)
Lemma early_quit_hangs :
  let es := take 8 start_events ++ [Child 7; OtherQuit; Child 7; Child 7; Owner] in
  ∃ s, allowed_run true es new_EventLoopThread ∧ run es new_EventLoopThread = Ok s ∧
    owner s = InCond ∧ child s = Ended.
Proof. eexists. split; [vm_compute; split_and!; done|]. by vm_compute. Qed.

End EventLoopThread.

Module EventLoopThreadPool.

(** A loop is its identity: [baseLoop_] and the loops that the threads publish.
    [threads_] holds the names of the threads. *)
Record EventLoopThreadPool := mkLoops {
  baseLoop_ : Z;
  name_ : bytes;
  started_ : bool;
  numThreads_ : Z;
  next_ : Z;
  threads_ : list bytes;
  loops_ : list Z;
  inits : list Z;              (* the loops for which the pool itself called [cb] *)
}.

Definition new_EventLoopThreadPool (baseLoop : Z) (nameArg : bytes) : EventLoopThreadPool :=
  mkLoops baseLoop nameArg false 0 0 [] [] [].

Definition setThreadNum (n : Z) (p : EventLoopThreadPool) : EventLoopThreadPool :=
  mkLoops (baseLoop_ p) (name_ p) (started_ p) n (next_ p) (threads_ p) (loops_ p) (inits p).
Definition set_started (v : bool) (p : EventLoopThreadPool) : EventLoopThreadPool :=
  mkLoops (baseLoop_ p) (name_ p) v (numThreads_ p) (next_ p) (threads_ p) (loops_ p) (inits p).
Definition set_next (v : Z) (p : EventLoopThreadPool) : EventLoopThreadPool :=
  mkLoops (baseLoop_ p) (name_ p) (started_ p) (numThreads_ p) v (threads_ p) (loops_ p) (inits p).
Definition add_thread (t : bytes) (l : Z) (p : EventLoopThreadPool) : EventLoopThreadPool :=
  mkLoops (baseLoop_ p) (name_ p) (started_ p) (numThreads_ p) (next_ p) (threads_ p ++ [t]) (loops_ p ++ [l]) (inits p).
Definition set_inits (v : list Z) (p : EventLoopThreadPool) : EventLoopThreadPool :=
  mkLoops (baseLoop_ p) (name_ p) (started_ p) (numThreads_ p) (next_ p) (threads_ p) (loops_ p) v.

Section Pool.
(** The loop that the [i]-th thread publishes. *)
Variable loop_of : Z → Z.
(** Whether the caller runs in [baseLoop_]'s thread. *)
Variable inLoop : bool.

(** [baseLoop_->assertInLoopThread()]. *)
Definition assertInLoopThread : res unit := if inLoop then Ok () else Err FatalLog.

(** The name of the [i]-th thread; the buffer has 32 bytes more than the pool's name. *)
Definition thread_name (p : EventLoopThreadPool) (i : Z) : bytes := ztake (zlen (name_ p) + 31) (name_ p ++ dec i).

(** The iterations of [for (int i = 0; i < numThreads_; ++i)] that are left. *)
Fixpoint start_threads (left : nat) (i : Z) (p : EventLoopThreadPool) : EventLoopThreadPool :=
  match left with
  | O => p
  | S n => start_threads n (i +i 1) (add_thread (thread_name p i) (loop_of i) p)
  end.

Definition start (cb : bool) (p : EventLoopThreadPool) : res EventLoopThreadPool :=
  assert! negb (started_ p) in
  let! _ := assertInLoopThread in
  let p := set_started true p in
  let p := start_threads (Z.to_nat (numThreads_ p)) 0 p in
  Ok (if (numThreads_ p =? 0) && cb then set_inits (inits p ++ [baseLoop_ p]) p else p).

(** [loops_[i]], undefined outside the vector. *)
Definition loop_at (i : Z) (p : EventLoopThreadPool) : res Z :=
  if (0 <=? i) && (i <? zlen (loops_ p)) then Ok (nth (Z.to_nat i) (loops_ p) 0) else Err OutOfRange.

Definition getNextLoop (p : EventLoopThreadPool) : res (Z * EventLoopThreadPool) :=
  let! _ := assertInLoopThread in
  assert! started_ p in
  if bool_decide (loops_ p = []) then Ok (baseLoop_ p, p)
  else
    let! loop := loop_at (next_ p) p in
    let next := next_ p +i 1 in
    Ok (loop, set_next (if zlen (loops_ p) <=? u64 next then 0 else next) p).

Definition getLoopForHash (hashCode : Z) (p : EventLoopThreadPool) : res Z :=
  let! _ := assertInLoopThread in
  if bool_decide (loops_ p = []) then Ok (baseLoop_ p) else loop_at (hashCode mod zlen (loops_ p)) p.

Definition getAllLoops (p : EventLoopThreadPool) : res (list Z) :=
  let! _ := assertInLoopThread in
  assert! started_ p in
  Ok (if bool_decide (loops_ p = []) then [baseLoop_ p] else loops_ p).

(** [k] calls of [getNextLoop()]. *)
Fixpoint getNextLoops (k : nat) (p : EventLoopThreadPool) : res (list Z * EventLoopThreadPool) :=
  match k with
  | O => Ok ([], p)
  | S k =>
      let! (l, p) := getNextLoop p in
      let! (ls, p) := getNextLoops k p in
      Ok (l :: ls, p)
  end.
End Pool.

(** ** Properties *)

Lemma start_threads_spec loop_of n i p :
  0 ≤ i → i + Z.of_nat n < 2 ^ 31 →
  let p' := start_threads loop_of n i p in
  started_ p' = started_ p ∧ baseLoop_ p' = baseLoop_ p ∧ next_ p' = next_ p ∧ numThreads_ p' = numThreads_ p ∧
  inits p' = inits p ∧
  loops_ p' = loops_ p ++ map (λ k, loop_of (i + Z.of_nat k)) (seq 0 n) ∧
  threads_ p' = threads_ p ++ map (λ k, thread_name p (i + Z.of_nat k)) (seq 0 n).
Proof.
  revert i p. induction n as [|n IH]; intros i p Hi Hn; cbn [start_threads seq map].
  - by rewrite !app_nil_r.
  - rewrite i32_small by lia.
    destruct (IH (i + 1) (add_thread (thread_name p i) (loop_of i) p)) as (-> & -> & -> & -> & -> & -> & ->); [lia..|].
    rewrite <- (seq_shift n 0), !map_map. cbn. rewrite <- !app_assoc, Z.add_0_r. cbn. split_and!; [done..| |].
    all: do 2 f_equal; apply map_ext; intros k; f_equal; lia.
Qed.

(** One call of [getNextLoop()] on a pool with loops. *)
Lemma getNextLoop_spec p :
  started_ p = true → 0 ≤ next_ p < zlen (loops_ p) → zlen (loops_ p) < 2 ^ 31 →
  getNextLoop true p =
    Ok (nth (Z.to_nat (next_ p)) (loops_ p) 0, set_next ((next_ p + 1) mod zlen (loops_ p)) p).
Proof.
  intros Hs Hn Hl. unfold getNextLoop, loop_at. cbn. rewrite Hs, bool_decide_false by (by intros F; rewrite F in Hn; cbn in Hn; lia).
  rewrite (proj2 (Z.leb_le _ _)), (proj2 (Z.ltb_lt _ _)) by lia. cbn. rewrite i32_small by lia.
  unfold u64. rewrite uwrap_small by lia. destruct (Z.leb_spec (zlen (loops_ p)) (next_ p + 1)).
  - replace (next_ p + 1) with (zlen (loops_ p)) by lia. by rewrite Z.mod_same by lia.
  - by rewrite Z.mod_small by lia.
Qed.

Lemma getNextLoops_spec k p :
  started_ p = true → 0 ≤ next_ p < zlen (loops_ p) → zlen (loops_ p) < 2 ^ 31 →
  getNextLoops true k p =
    Ok (map (λ i, nth (Z.to_nat ((next_ p + Z.of_nat i) mod zlen (loops_ p))) (loops_ p) 0) (seq 0 k),
        set_next ((next_ p + Z.of_nat k) mod zlen (loops_ p)) p).
Proof.
  revert p. induction k as [|k IH]; intros p Hs Hn Hl; cbn [getNextLoops seq map].
  - rewrite Z.add_0_r, Z.mod_small by lia. by destruct p.
  - rewrite getNextLoop_spec by done. cbn [res_bind].
    rewrite IH; [|done|cbn; apply Z.mod_pos_bound; lia|done]. cbn [res_bind set_next next_ loops_].
    rewrite Z.add_0_r, (Z.mod_small (next_ p)) by lia. rewrite <- (seq_shift k 0), map_map.
    f_equal. f_equal; [f_equal|].
    + apply map_ext. intros i. rewrite Zplus_mod_idemp_l. by replace (next_ p + 1 + Z.of_nat i) with (next_ p + Z.of_nat (S i)) by lia.
    + rewrite Zplus_mod_idemp_l. by replace (next_ p + 1 + Z.of_nat k) with (next_ p + Z.of_nat (S k)) by lia.
Qed.

(** How often the residue [j] occurs among the first [k] numbers. *)
Lemma residue_count n j k :
  0 < n → 0 ≤ j < n →
  Z.of_nat (length (filter (λ i : nat, Z.of_nat i mod n = j) (seq 0 k))) = (Z.of_nat k + (n - 1 - j)) / n.
Proof.
  intros Hn Hj. induction k as [|k IH].
  - cbn. symmetry. apply Z.div_small. lia.
  - rewrite seq_S, filter_app, length_app, Nat2Z.inj_add, IH. cbn [seq Nat.add].
    rewrite filter_cons, filter_nil. set (a := Z.of_nat k).
    pose proof (Z.div_mod a n ltac:(lia)) as Ha. pose proof (Z.mod_pos_bound a n Hn) as Hb.
    destruct (decide (a mod n = j)) as [E|E]; cbn [length].
    + replace (a + (n - 1 - j)) with (n - 1 + (a / n) * n) by lia.
      replace (Z.of_nat (S k) + (n - 1 - j)) with (0 + (a / n + 1) * n) by lia.
      rewrite !Z.div_add, Z.div_0_l, Z.div_small by lia. lia.
    + rewrite Z.add_0_r. apply Z.div_unique with (r := (a + (n - 1 - j)) mod n + 1).
      * left. assert ((a + (n - 1 - j)) mod n ≠ n - 1); [|pose proof (Z.mod_pos_bound (a + (n - 1 - j)) n Hn); lia].
        intros F. apply E. replace a with (a + (n - 1 - j) - (n - 1 - j)) by lia.
        rewrite Zminus_mod, F, (Z.mod_small (n - 1 - j)) by lia. rewrite Z.mod_small by lia. lia.
      * pose proof (Z.div_mod (a + (n - 1 - j)) n ltac:(lia)). lia.
Qed.

(** The loops of a started pool. *)
Lemma start_spec loop_of cb p :
  started_ p = false → loops_ p = [] → numThreads_ p < 2 ^ 31 →
  ∃ p', start loop_of true cb p = Ok p' ∧ started_ p' = true ∧ next_ p' = next_ p ∧ baseLoop_ p' = baseLoop_ p ∧
    inits p' = inits p ++ (if (numThreads_ p =? 0) && cb then [baseLoop_ p] else []) ∧
    loops_ p' = map (λ k, loop_of (Z.of_nat k)) (seq 0 (Z.to_nat (numThreads_ p))).
Proof.
  intros Hs Hl Hn. unfold start. rewrite Hs. cbn [negb assertInLoopThread res_bind].
  destruct (start_threads_spec loop_of (Z.to_nat (numThreads_ (set_started true p))) 0 (set_started true p))
    as (E1 & E2 & E3 & E4 & E5 & E6 & E7); [lia| |].
  { cbn. destruct (Z.le_gt_cases 0 (numThreads_ p)); lia. }
  eexists. split; [done|]. rewrite E4. cbn in *. rewrite Hl in E6.
  destruct ((numThreads_ p =? 0) && cb); cbn; rewrite ?E1, ?E2, ?E3, ?E5, ?E6, ?app_nil_r; done.
Qed.

Lemma zlen_loops (loop_of : Z → Z) n : zlen (map (λ k, loop_of (Z.of_nat k)) (seq 0 n)) = Z.of_nat n.
Proof. by rewrite length_map, length_seq. Qed.

(** A pool started with [n] threads deals its loops in turn: [k] calls of
    [getNextLoop()] fault nowhere and give the loops of threads 0, 1, ..., n-1, 0, ..., so
    that each loop is given [k / n] times, rounded up or down; [getLoopForHash] gives the
    same loop for the same hash; a pool without threads gives its base loop. *)
Theorem pool_round_robin loop_of cb p p' k :
  started_ p = false → loops_ p = [] → next_ p = 0 → 0 ≤ numThreads_ p < 2 ^ 31 →
  start loop_of true cb p = Ok p' →
  let n := numThreads_ p in
  (n = 0 → ∀ h, getNextLoops true k p' = Ok (repeat (baseLoop_ p) k, p') ∧ getLoopForHash true h p' = Ok (baseLoop_ p)) ∧
  (0 < n →
     (∃ p'', getNextLoops true k p' = Ok (map (λ i, loop_of (Z.of_nat i mod n)) (seq 0 k), p'')) ∧
     (∀ j, 0 ≤ j < n →
        Z.of_nat (length (filter (λ i : nat, Z.of_nat i mod n = j) (seq 0 k))) = (Z.of_nat k + (n - 1 - j)) / n) ∧
     (∀ h, 0 ≤ h → getLoopForHash true h p' = Ok (loop_of (h mod n)))).
Proof.
  intros Hs Hl Hx Hn Hp n. destruct (start_spec loop_of cb p Hs Hl) as (q & Hq & Hs' & Hx' & Hb & Hi & Hl'); [lia|].
  rewrite Hq in Hp. simplify_eq. split.
  - intros Hn0 h. fold n in Hl'. rewrite Hn0 in Hl'. change (loops_ p' = []) in Hl'. split.
    + rewrite <- Hb. clear -Hs' Hl'. induction k as [|k IH]; [done|]. cbn [getNextLoops].
      unfold getNextLoop at 1. cbn. rewrite Hs', Hl'. cbn. by rewrite IH.
    + unfold getLoopForHash. cbn. by rewrite Hl', <- Hb.
  - intros Hn0. assert (zlen (loops_ p') = n) as Hlen by (rewrite Hl', zlen_loops; lia).
    assert (∀ j, 0 ≤ j < n → nth (Z.to_nat j) (loops_ p') 0 = loop_of j) as Hnth.
    { intros j Hj. rewrite Hl'. rewrite (nth_indep _ 0 (loop_of (Z.of_nat 0))) by (rewrite length_map, length_seq; lia).
      rewrite (map_nth (λ k, loop_of (Z.of_nat k))), seq_nth by lia. f_equal. lia. }
    split_and!.
    + eexists. rewrite getNextLoops_spec; [|done|lia|lia]. do 2 f_equal. apply map_ext. intros i.
      rewrite Hx', Hx, Hlen, Hnth by (apply Z.mod_pos_bound; lia). done.
    + intros j Hj. by apply residue_count.
    + intros h Hh. unfold getLoopForHash, loop_at. cbn.
      pose proof (Z.mod_pos_bound h n Hn0). rewrite bool_decide_false by (intros F; rewrite F in Hlen; cbn in Hlen; lia).
      rewrite Hlen, (proj2 (Z.leb_le _ _)), (proj2 (Z.ltb_lt _ _)) by lia. cbn. by rewrite Hnth.
Qed.

Definition sample_pool : EventLoopThreadPool := setThreadNum 3 (new_EventLoopThreadPool 100 (str "io")).

Lemma pool_round_robin_witness :
  match start (λ i, 7 + i) true false sample_pool with
  | Ok p => threads_ p = [str "io0"; str "io1"; str "io2"] ∧ getLoopForHash true 5 p = Ok 9
  | Err _ => False
  end.
Proof.
  destruct (start (λ i, 7 + i) true false sample_pool) as [p|] eqn:E; [|by vm_compute in E].
  split; [vm_compute in E; by simplify_eq|].
  apply (pool_round_robin (λ i, 7 + i) false sample_pool p 0); [done|done|done|by vm_compute|done|done|done].
Defined.

(** With a negative number of threads no thread is started and the initial callback is not
    called either. *)
Lemma negative_threads_skip_callback :
  match start (λ i, 7 + i) true true (setThreadNum (-1) sample_pool) with
  | Ok p => loops_ p = [] ∧ inits p = []
  | Err _ => False
  end.
Proof. by vm_compute. Qed.

End EventLoopThreadPool.
