(* ===== verification/Threads.v ===== *)
(** Atomic counters, thread objects and the current thread ([base/Atomic.h],
    [base/thread/Thread.h], [Thread.cpp], [CurrentThread.cpp]).  How a thread starts is part
    of [EventLoopThread]; here are the parts around it: the tickets that name threads and
    number timers, the life of a [pthread_t], how the function of a thread ends, sleeping,
    and the text of a stack trace. *)

From S2P Require Import Prelude.

Module Threads.

(** ** Atomic integers

    An [AtomicIntegerT] of [w] bits is a [Z]; each operation has one atomic instruction, so
    a run of several threads is the list of their operations in the order of these. *)

Inductive atomic_op :=
| Get | GetAndAdd (x : Z) | AddAndGet (x : Z) | IncrementAndGet | DecrementAndGet
| Add (x : Z) | Increment | Decrement | GetAndSet (x : Z).

(** What is added, and the value for the caller, from the old one. *)
Definition atomic_exec (w : Z) (o : atomic_op) (value_ : Z) : Z * Z :=
  match o with
  | Get => (value_, value_)
  | GetAndAdd x | Add x => (value_, swrap w (value_ + x))
  | AddAndGet x => (swrap w (value_ + x), swrap w (value_ + x))
  | IncrementAndGet | Increment => (swrap w (value_ + 1), swrap w (value_ + 1))
  | DecrementAndGet | Decrement => (swrap w (value_ - 1), swrap w (value_ - 1))
  | GetAndSet x => (value_, x)
  end.

(** The answers, in order, and the last value. *)
Fixpoint atomic_run (w : Z) (os : list atomic_op) (value_ : Z) : list Z * Z :=
  match os with
  | [] => ([], value_)
  | o :: os =>
      let '(r, v) := atomic_exec w o value_ in
      let '(rs, v) := atomic_run w os v in (r :: rs, v)
  end.

(** ** Thread names and objects *)

(** [snprintf] into [char buf[32]]. *)
Definition default_name (num : Z) : bytes := ztake 31 (str "Thread" ++ dec num).

(** [Thread::setDefaultName]; every object takes a number, named or not. *)
Definition setDefaultName (name : bytes) (numCreated_ : Z) : bytes * Z :=
  let '(num, v) := atomic_exec 32 IncrementAndGet numCreated_ in
  (if bool_decide (name = []) then default_name num else name, v).

(** The names of the objects made with the given ones. *)
Fixpoint names (given : list bytes) (numCreated_ : Z) : list bytes :=
  match given with
  | [] => []
  | name :: given => let '(n, v) := setDefaultName name numCreated_ in n :: names given v
  end.

(** What has become of the threads that [pthread_create] made. *)
Inductive pthread := Joinable | Joined | Detached.

Record Thread := mkThread {
  started_ : bool;
  joined_ : bool;
  pthreadId_ : option nat;   (* index into the threads made *)
}.

Definition new_Thread : Thread := mkThread false false None.

(** [start()]; [created]: pthread_create succeeds. *)
Definition start (created : bool) (t : Thread) (ps : list pthread) : res (Thread * list pthread) :=
  assert! negb (started_ t) in
  if created then Ok (mkThread true (joined_ t) (Some (length ps)), ps ++ [Joinable])
  else Ok (mkThread false (joined_ t) (pthreadId_ t), ps).

(** pthread_join and pthread_detach, on a thread that is joinable. *)
Definition release (to : pthread) (id : option nat) (ps : list pthread) : res (list pthread) :=
  match id with
  | Some i => match ps !! i with
              | Some Joinable => Ok (<[i := to]> ps)
              | _ => Err UseAfterFree
              end
  | None => Err UseAfterFree
  end.

Definition join (t : Thread) (ps : list pthread) : res (Thread * list pthread) :=
  assert! started_ t in
  assert! negb (joined_ t) in
  let! ps := release Joined (pthreadId_ t) ps in
  Ok (mkThread (started_ t) true (pthreadId_ t), ps).

Definition delete_Thread (t : Thread) (ps : list pthread) : res (list pthread) :=
  if started_ t && negb (joined_ t) then release Detached (pthreadId_ t) ps else Ok ps.

Inductive thread_call := Start (created : bool) | Join.

Fixpoint use_thread (cs : list thread_call) (t : Thread) (ps : list pthread) : res (Thread * list pthread) :=
  match cs with
  | [] => Ok (t, ps)
  | Start created :: cs => let! (t, ps) := start created t ps in use_thread cs t ps
  | Join :: cs => let! (t, ps) := join t ps in use_thread cs t ps
  end.

(** *** The function of a thread *)

Inductive outcome := Returns | ThrowsException | ThrowsStd | ThrowsOther.
Inductive ending := Ended | Aborted | Rethrown.

(** [ThreadData::runInThread], after the latch: the name while the function runs, the last
    name, how it ends, and what is written to [stderr]. *)
Definition runInThread (name_ : bytes) (o : outcome) (what stackTrace : bytes) : bytes * bytes * ending * list bytes :=
  let running := if bool_decide (name_ = []) then str "Thread" else name_ in
  let report := str "exception caught in Thread " ++ name_ ++ [Byte.x0a] in
  match o with
  | Returns => (running, str "finished", Ended, [])
  | ThrowsException => (running, str "crashed", Aborted,
      [report; str "reason:" ++ what ++ [Byte.x0a]; str "stack trace:" ++ stackTrace ++ [Byte.x0a]])
  | ThrowsStd => (running, str "crashed", Aborted, [report; str "reason:" ++ what ++ [Byte.x0a]])
  | ThrowsOther => (running, str "crashed", Rethrown, [str "unknown " ++ report])
  end.

(** ** The current thread *)

(** [sleepUsec]: the seconds and nanoseconds for nanosleep. *)
Definition sleepUsec (usec : Z) : Z * Z := (i64 (Z.quot usec 1000000), i64 (Z.rem usec 1000000 * 1000)).

(** [afterFork]: the child's names and its thread id, which is its process id. *)
Definition afterFork (gettid : Z) : bytes * Z := (str "main", gettid).

Definition isMainThread (tid getpid : Z) : bool := tid =? getpid.

(** The last of a byte, and the last of another, as the loop of [stackTrace] finds them. *)
Fixpoint scan_frame (i : nat) (s : bytes) (left_par plus : option nat) : option nat * option nat :=
  match s with
  | [] => (left_par, plus)
  | c :: s =>
      if Byte.eqb c Byte.x28 then scan_frame (S i) s (Some i) plus
      else if Byte.eqb c Byte.x2b then scan_frame (S i) s left_par (Some i)
      else scan_frame (S i) s left_par plus
  end.

(** One line of the trace; [demangle] is [abi::__cxa_demangle] on the text from behind the
    parenthesis to the plus sign, which is overwritten by a zero for the call. *)
Definition frame_line (demangle : option (bytes → option bytes)) (s : bytes) : bytes :=
  match demangle, scan_frame 0 s None None with
  | Some f, (Some l, Some p) =>
      let mangled := if (p <? l)%nat then drop (S l) s else take (p - S l) (drop (S l) s) in
      match f mangled with
      | Some name => take (S l) s ++ name ++ drop p s ++ [Byte.x0a]
      | None => s ++ [Byte.x0a]
      end
  | _, _ => s ++ [Byte.x0a]
  end.

(** The frames but the first. *)
Definition stackTrace (demangle : option (bytes → option bytes)) (strings : list bytes) : bytes :=
  concat (map (frame_line demangle) (tail strings)).

(** [Exception] of [base/Exception.cpp]: the message and the frames as they are. *)
Record Exception := mkException { message_ : bytes; stack_ : bytes }.

Definition new_Exception (what : bytes) (strings : list bytes) : Exception := mkException what (stackTrace None strings).

(** ** Theorems *)

(** *** Tickets *)

(** The answers of the increments of a run. *)
Definition tickets (os : list atomic_op) (rs : list Z) : list Z :=
  (filter (λ x, x.1 = true) (zip (map (λ o, match o with IncrementAndGet => true | _ => false end) os) rs)).*2.

Lemma swrap_swrap_add w v k : 0 < w → swrap w (swrap w v + k) = swrap w (v + k).
Proof.
  intros Hw. rewrite <- (swrap_uwrap w (swrap w v + k)), <- (swrap_uwrap w (v + k)) by done. f_equal. unfold uwrap.
  rewrite <- (Z.add_mod_idemp_l (swrap w v)), <- (Z.add_mod_idemp_l v) by (pose proof (Z.pow_pos_nonneg 2 w ltac:(lia) ltac:(lia)); lia).
  do 2 f_equal. apply (uwrap_swrap w v Hw).
Qed.

Lemma swrap_inj w a b : 0 < w → a ≤ b < a + 2 ^ w → swrap w a = swrap w b → a = b.
Proof.
  intros Hw Hab E. apply (f_equal (uwrap w)) in E. rewrite !uwrap_swrap in E by done. unfold uwrap in E.
  assert (2 ^ w ≠ 0) by (pose proof (Z.pow_pos_nonneg 2 w ltac:(lia) ltac:(lia)); lia).
  pose proof (Z.div_mod a (2 ^ w) ltac:(done)). pose proof (Z.div_mod b (2 ^ w) ltac:(done)).
  assert (a / 2 ^ w = b / 2 ^ w) by nia. lia.
Qed.

Lemma tickets_of_run w os v k :
  0 < w → Forall (λ o, o = Get ∨ o = IncrementAndGet) os →
  ∃ n, tickets os (atomic_run w os (swrap w (v + k))).1 = map (λ i, swrap w (v + k + i)) (seqZ 1 n) ∧
    0 ≤ n ≤ zlen os.
Proof.
  intros Hw Hos. revert k. induction Hos as [|o os [-> | ->] Hos IH]; intros k.
  - exists 0. split; [done|]. cbn. lia.
  - destruct (IH k) as (n & E & Hn). exists n. unfold tickets in *. cbn [atomic_run atomic_exec map].
    destruct (atomic_run w os (swrap w (v + k))) as [rs v']. cbn [fst] in *. cbn [zip_with]. rewrite filter_cons_False by done.
    split; [exact E|]. cbn [length]. lia.
  - destruct (IH (k + 1)) as (n & E & Hn). exists (n + 1). unfold tickets in *. cbn [atomic_run atomic_exec map].
    rewrite swrap_swrap_add by done. replace (v + k + 1) with (v + (k + 1)) by lia.
    destruct (atomic_run w os (swrap w (v + (k + 1)))) as [rs v']. cbn [fst] in *. cbn [zip_with].
    rewrite filter_cons_True by done. cbn [fmap list_fmap snd]. rewrite E. split; [|cbn [length]; lia].
    rewrite (seqZ_cons 1 (n + 1)) by lia. replace (Z.pred (n + 1)) with n by lia. cbn [map]. f_equal; [by replace (v + (k + 1)) with (v + k + 1) by lia|].
    change (Z.succ 1) with (1 + 1). rewrite <- (fmap_add_seqZ 1 1 n), <- list_fmap_compose. apply list_fmap_ext. intros i x _. cbn.
    by replace (v + (k + 1) + x) with (v + k + (1 + x)) by lia.
Qed.

(** No two increments get the same ticket, however many threads take them and whatever they
    read in between, until all numbers of the width have been used. *)
Theorem tickets_distinct w os v :
  0 < w → zlen os < 2 ^ w → Forall (λ o, o = Get ∨ o = IncrementAndGet) os →
  swrap w v = v → NoDup (tickets os (atomic_run w os v).1).
Proof.
  intros Hw Hl Hos Hv. destruct (tickets_of_run w os v 0 Hw Hos) as (n & E & Hn). rewrite Z.add_0_r, Hv in E. rewrite E.
  apply NoDup_fmap_2_strong; [|apply NoDup_seqZ]. intros i j [Hi1 Hi2]%elem_of_seqZ [Hj1 Hj2]%elem_of_seqZ Eij.
  destruct (Z.le_ge_cases i j).
  - apply (swrap_inj w (v + i) (v + j)) in Eij; lia.
  - symmetry in Eij. apply (swrap_inj w (v + j) (v + i)) in Eij; lia.
Qed.

(** *** Names *)

Lemma names_lookup given v i :
  0 ≤ v → v + zlen given < 2 ^ 31 →
  names given v !! i = (λ g, if bool_decide (g = []) then default_name (v + 1 + Z.of_nat i) else g) <$> (given !! i).
Proof.
  revert v i. induction given as [|g given IH]; intros v i Hv Hl; [done|]. cbn [length] in Hl.
  cbn [names setDefaultName atomic_exec]. change (swrap 32 (v + 1)) with (i32 (v + 1)). rewrite i32_small by lia.
  destruct i as [|i]; cbn [lookup list_lookup]; [cbn; by rewrite Z.add_0_r|].
  change (list_lookup i (names given (v + 1))) with (names given (v + 1) !! i). rewrite IH by lia.
  change (list_lookup i given) with (given !! i). destruct (given !! i); cbn; [|done].
    by replace (v + 1 + 1 + Z.of_nat i) with (v + 1 + Z.of_nat (S i)) by lia.
Qed.

Lemma default_name_inj a b : 0 ≤ a < 2 ^ 31 → 0 ≤ b < 2 ^ 31 → default_name a = default_name b → a = b.
Proof.
  intros Ha Hb. unfold default_name, dec. rewrite !(proj2 (Z.ltb_ge _ _)) by lia.
  assert (∀ n, 0 ≤ n < 2 ^ 31 → zlen (str "Thread" ++ udec 20 n) ≤ 31) as Hlen.
  { intros n Hn. rewrite length_app. pose proof (length_udec 20 n 10 ltac:(lia) ltac:(lia)). change (length (str "Thread")) with 6%nat. lia. }
  intros E. rewrite !ztake_all in E by (apply Hlen; lia). apply app_inv_head in E.
  rewrite <- (udec_val_udec 20 a), <- (udec_val_udec 20 b) by lia. by rewrite E.
Qed.

(** Threads without a name of their own get different ones. *)
Theorem default_names_distinct given v i j n :
  0 ≤ v → v + zlen given < 2 ^ 31 →
  given !! i = Some [] → given !! j = Some [] → names given v !! i = Some n → names given v !! j = Some n → i = j.
Proof.
  intros Hv Hl Hi Hj Ei Ej. rewrite names_lookup in Ei, Ej by done. rewrite Hi in Ei. rewrite Hj in Ej. cbn in Ei, Ej.
  apply lookup_lt_Some in Hi. apply lookup_lt_Some in Hj. assert (default_name (v + 1 + Z.of_nat i) = default_name (v + 1 + Z.of_nat j)) as E by congruence.
  apply default_name_inj in E; lia.
Qed.

(** *** The life of a thread *)

(** A thread object over the threads made before it. *)
Definition thread_inv (ps0 : list pthread) (t : Thread) (ps : list pthread) : Prop :=
  match started_ t, joined_ t with
  | false, j => j = false ∧ ps = ps0
  | true, false => pthreadId_ t = Some (length ps0) ∧ ps = ps0 ++ [Joinable]
  | true, true => ps = ps0 ++ [Joined]
  end.

Lemma use_thread_inv ps0 cs t ps :
  thread_inv ps0 t ps →
  match use_thread cs t ps with Ok (t', ps') => thread_inv ps0 t' ps' | Err e => e = AssertFailed end.
Proof.
  revert t ps. induction cs as [|c cs IH]; intros [[] [] id] ps Hi; cbn in Hi; [exact Hi..| | | |]; destruct c as [created|]; cbn; try done.
  - destruct Hi as [-> ->]. unfold join, release. cbn. rewrite list_lookup_middle by done. cbn. apply IH. cbn.
    by rewrite insert_app_r_alt, Nat.sub_diag by lia.
  - by destruct Hi.
  - destruct Hi as [_ ->]. unfold start. cbn. destruct created; cbn; by apply IH.
Qed.

(** Whatever the calls, a thread object makes one thread at most, and when it is deleted that
    thread has been joined or detached, once; only a second [start()], or a [join()] that is
    not of a started thread or is the second one, fails an assertion. *)
Theorem thread_released_once cs ps0 :
  match use_thread cs new_Thread ps0 with
  | Ok (t, ps) => ∃ last, delete_Thread t ps = Ok (ps0 ++ last) ∧ last ∈ [[]; [Joined]; [Detached]]
  | Err e => e = AssertFailed
  end.
Proof.
  pose proof (use_thread_inv ps0 cs new_Thread ps0 (conj eq_refl eq_refl)) as H.
  destruct (use_thread _ _ _) as [[[[] [] id] ps]|]; [| | | |done]; cbn in H; unfold delete_Thread; cbn.
  - subst. exists [Joined]. split; [done|]. right. by left.
  - destruct H as [-> ->]. exists [Detached]. cbn. rewrite list_lookup_middle by done.
    rewrite insert_app_r_alt, Nat.sub_diag by lia. split; [done|]. do 2 right. by left.
  - by destruct H.
  - destruct H as [_ ->]. exists []. rewrite app_nil_r. split; [done|]. by left.
Qed.

(** *** Sleeping and stack traces *)

(** nanosleep gets the whole time, in a form it accepts. *)
Lemma sleepUsec_exact usec :
  0 ≤ usec < 2 ^ 63 →
  let '(sec, nsec) := sleepUsec usec in sec * 1000000000 + nsec = usec * 1000 ∧ 0 ≤ nsec < 1000000000.
Proof.
  intros Hu. unfold sleepUsec. pose proof (Z.quot_rem' usec 1000000). pose proof (Z.rem_bound_pos usec 1000000 ltac:(lia) ltac:(lia)).
  unfold i64. rewrite !swrap_small by lia. lia.
Qed.

(** Of a negative time it gets nanoseconds that it refuses, so that the call does not sleep. *)
Lemma sleepUsec_negative : (sleepUsec (-1)).2 = -1000.
Proof. done. Qed.

Lemma scan_frame_skip i s k lp pl :
  Byte.x28 ∉ s → Byte.x2b ∉ s → scan_frame i (s ++ k) lp pl = scan_frame (i + length s) k lp pl.
Proof.
  revert i. induction s as [|c s IH]; intros i H1 H2; cbn; [by rewrite Nat.add_0_r|].
  apply not_elem_of_cons in H1 as [? ?]. apply not_elem_of_cons in H2 as [? ?].
  destruct (byte_eqb_spec c Byte.x28); [congruence|]. destruct (byte_eqb_spec c Byte.x2b); [congruence|].
  rewrite IH by done. f_equal. lia.
Qed.

(** The left parenthesis that was found last stays. *)
Lemma scan_frame_left i s k l pl :
  Byte.x28 ∉ s → ∃ pl', scan_frame i (s ++ k) (Some l) pl = scan_frame (i + length s) k (Some l) pl'.
Proof.
  revert i pl. induction s as [|c s IH]; intros i pl H1; cbn; [exists pl; by rewrite Nat.add_0_r|].
  apply not_elem_of_cons in H1 as [? ?]. destruct (byte_eqb_spec c Byte.x28); [congruence|].
  destruct (Byte.eqb c Byte.x2b);
    [destruct (IH (S i) (Some i)) as [pl' E]; [done|]|destruct (IH (S i) pl) as [pl' E]; [done|]];
    exists pl'; rewrite E; f_equal; lia.
Qed.

(** Whatever stands before the last parenthesis. *)
Lemma scan_frame_any i s k lp pl : ∃ lp' pl', scan_frame i (s ++ k) lp pl = scan_frame (i + length s) k lp' pl'.
Proof.
  revert i lp pl. induction s as [|c s IH]; intros i lp pl; cbn; [exists lp, pl; by rewrite Nat.add_0_r|].
  destruct (Byte.eqb c Byte.x28); [|destruct (Byte.eqb c Byte.x2b)];
    [destruct (IH (S i) (Some i) pl) as (lp' & pl' & E)|destruct (IH (S i) lp (Some i)) as (lp' & pl' & E)|
     destruct (IH (S i) lp pl) as (lp' & pl' & E)];
    exists lp', pl'; rewrite E; f_equal; lia.
Qed.

(** In a frame as [backtrace_symbols] writes it, [file(symbol+offset) address], the symbol and
    nothing else is replaced by the demangled name, whatever characters the file has. *)
Theorem frame_demangled f file symbol rest name :
  Byte.x28 ∉ symbol → Byte.x28 ∉ rest → Byte.x2b ∉ rest → f symbol = Some name →
  frame_line (Some f) (file ++ [Byte.x28] ++ symbol ++ [Byte.x2b] ++ rest) =
    file ++ [Byte.x28] ++ name ++ [Byte.x2b] ++ rest ++ [Byte.x0a].
Proof.
  intros Hs Hr1 Hr2 Hf. unfold frame_line.
  destruct (scan_frame_any 0 file ([Byte.x28] ++ symbol ++ [Byte.x2b] ++ rest) None None) as (lp & pl & ->).
  cbn [app scan_frame]. change (Byte.eqb Byte.x28 Byte.x28) with true. cbv iota.
  destruct (scan_frame_left (S (0 + length file)) symbol (Byte.x2b :: rest) (0 + length file)%nat pl Hs) as [pl' ->].
  cbn [scan_frame]. change (Byte.eqb Byte.x2b Byte.x28) with false. change (Byte.eqb Byte.x2b Byte.x2b) with true. cbv iota.
  pose proof (scan_frame_skip (S (S (0 + length file) + length symbol)) rest [] (Some (0 + length file)%nat)
    (Some (S (0 + length file) + length symbol)%nat) Hr1 Hr2) as E. rewrite app_nil_r in E. rewrite E. cbn [scan_frame Nat.add].
  rewrite (proj2 (Nat.ltb_ge _ _)) by lia.
  assert (drop (S (length file)) (file ++ Byte.x28 :: symbol ++ Byte.x2b :: rest) = symbol ++ Byte.x2b :: rest) as ->.
  { change (Byte.x28 :: symbol ++ Byte.x2b :: rest) with ([Byte.x28] ++ symbol ++ Byte.x2b :: rest).
    rewrite app_assoc. apply drop_app_length'. rewrite length_app. cbn. lia. }
  rewrite (take_app_length' symbol) by lia. rewrite Hf.
  assert (take (S (length file)) (file ++ Byte.x28 :: symbol ++ Byte.x2b :: rest) = file ++ [Byte.x28]) as ->.
  { change (Byte.x28 :: symbol ++ Byte.x2b :: rest) with ([Byte.x28] ++ symbol ++ Byte.x2b :: rest).
    rewrite app_assoc. apply take_app_length'. rewrite length_app. cbn. lia. }
  assert (drop (S (length file + length symbol)) (file ++ Byte.x28 :: symbol ++ Byte.x2b :: rest) = Byte.x2b :: rest) as ->.
  { change (Byte.x28 :: symbol ++ Byte.x2b :: rest) with ([Byte.x28] ++ symbol ++ Byte.x2b :: rest).
    rewrite !app_assoc. apply drop_app_length'. rewrite !length_app. cbn. lia. }
  by rewrite <- !app_assoc.
Qed.

(** Every frame ends its line. *)
Lemma frame_line_ends demangle s : last (frame_line demangle s) = Some Byte.x0a.
Proof. unfold frame_line. repeat case_match; rewrite ?app_assoc; by rewrite last_snoc. Qed.

End Threads.
