(* ===== verification/Acceptor.v ===== *)
(** Listening sockets ([netLayer/tcp/s/Acceptor.cpp] with the functions of
    [netLayer/socket/SocketsOps.cpp] it calls).

    [Descriptors] is the part of the kernel the code relies on: the table of open
    descriptors of the process.  What the system calls answer are arguments. *)

From S2P Require Import Prelude.

Module Descriptors.

(** The open descriptors, and the arguments of the calls of close(2) that failed. *)
Record Table := mkTable {
  fds : gset Z;
  failed_closes : list Z;
}.

(** The kernel returns a descriptor; negative answers are errors. *)
Definition give (fd : Z) (k : Table) : Table :=
  if 0 <=? fd then mkTable ({[fd]} ∪ fds k) (failed_closes k) else k.

(** [sockets::close]: a failure is only logged. *)
Definition close (fd : Z) (k : Table) : Table :=
  if bool_decide (fd ∈ fds k) then mkTable (fds k ∖ {[fd]}) (failed_closes k)
  else mkTable (fds k) (failed_closes k ++ [fd]).

(** What the kernel may answer: an error or a descriptor that is not in use. *)
Definition fresh (fd : Z) (k : Table) : Prop := fd < 0 ∨ fd ∉ fds k.

Lemma fds_give fd k : 0 ≤ fd → fds (give fd k) = {[fd]} ∪ fds k.
Proof. intros Hfd. unfold give. by rewrite (proj2 (Z.leb_le _ _)). Qed.

Lemma give_error fd k : fd < 0 → give fd k = k.
Proof. intros Hfd. unfold give. by rewrite (proj2 (Z.leb_gt _ _)). Qed.

Lemma close_open fd k : fd ∈ fds k → close fd k = mkTable (fds k ∖ {[fd]}) (failed_closes k).
Proof. intros Hfd. unfold close. by rewrite bool_decide_true. Qed.

Lemma failed_give fd k : failed_closes (give fd k) = failed_closes k.
Proof. unfold give. by case_match. Qed.

(** A descriptor that was just opened is closed again. *)
Lemma close_give fd k : 0 ≤ fd → fd ∉ fds k → close fd (give fd k) = k.
Proof.
  intros H0 Hfd. unfold give. rewrite (proj2 (Z.leb_le _ _)) by done. rewrite close_open by set_solver.
  destruct k as [s b]. cbn in *. f_equal. set_solver.
Qed.

End Descriptors.

Module Acceptor.
Import Descriptors.

(** errno(3) values of accept(2). *)
Definition EPERM : Z := 1.
Definition EINTR : Z := 4.
Definition EBADF : Z := 9.
Definition EAGAIN : Z := 11.
Definition ENOMEM : Z := 12.
Definition EFAULT : Z := 14.
Definition EINVAL : Z := 22.
Definition ENFILE : Z := 23.
Definition EMFILE : Z := 24.
Definition EPROTO : Z := 71.
Definition ENOTSOCK : Z := 88.
Definition EOPNOTSUPP : Z := 95.
Definition ECONNABORTED : Z := 103.
Definition ENOBUFS : Z := 105.

(** accept4(2): a descriptor and the peer's address, or an error. *)
Inductive accept_answer := Accepted (connfd : Z) (peer : bytes) | Failed (e : Z).

(** The first group of cases of [sockets::accept]. *)
Definition expected (e : Z) : bool :=
  bool_decide (e ∈ [EAGAIN; ECONNABORTED; EINTR; EPROTO; EPERM; EMFILE]).

(** [sockets::accept]: the descriptor with the peer, or the errno it leaves. *)
Definition accept (a : accept_answer) (k : Table) : res ((Z * bytes + Z) * Table) :=
  match a with
  | Accepted connfd peer => Ok (inl (connfd, peer), give connfd k)
  | Failed e => if expected e then Ok (inr e, k) else Err FatalLog
  end.

Record Acceptor := mkAcceptor {
  acceptSocket_ : Z;
  listenning_ : bool;
  reading : bool;               (* acceptChannel_.isReading() *)
  hasCallback : bool;           (* newConnectionCallback_ is set *)
  idleFd_ : Z;
}.

Definition set_idleFd (v : Z) (a : Acceptor) : Acceptor :=
  mkAcceptor (acceptSocket_ a) (listenning_ a) (reading a) (hasCallback a) v.

(** The calls whose failure is fatal; the arguments are what socket, bind and listen
    return. *)
Definition createNonblockingOrDie (sockfd : Z) (k : Table) : res (Z * Table) :=
  if sockfd <? 0 then Err FatalLog else Ok (sockfd, give sockfd k).
Definition bindOrDie (ret : Z) : res unit := if ret <? 0 then Err FatalLog else Ok ().
Definition listenOrDie (ret : Z) : res unit := if ret <? 0 then Err FatalLog else Ok ().

(** The constructor; [sock], [idle] and [bound] are the answers of socket, open and
    bind.  The reuse options cannot fail. *)
Definition new_Acceptor (sock idle bound : Z) (k : Table) : res (Acceptor * Table) :=
  let! (acceptSocket, k) := createNonblockingOrDie sock k in
  let k := give idle k in
  assert! 0 <=? idle in
  let! _ := bindOrDie bound in
  Ok (mkAcceptor acceptSocket false false false idle, k).

Definition setNewConnectionCallback (a : Acceptor) : Acceptor :=
  mkAcceptor (acceptSocket_ a) (listenning_ a) (reading a) true (idleFd_ a).

(** The destructors of the acceptor and of its socket. *)
Definition delete_Acceptor (a : Acceptor) (k : Table) : Table := close (acceptSocket_ a) (close (idleFd_ a) k).

(** [listen()]; [answer] is what listen(2) returns. *)
Definition listen (answer : Z) (a : Acceptor) : res Acceptor :=
  let! _ := listenOrDie answer in
  Ok (mkAcceptor (acceptSocket_ a) true true (hasCallback a) (idleFd_ a)).

(** [handleRead()] up to the call of [newConnectionCallback_], whose arguments it returns.
    [again] and [reopen] are the answers of the second accept and of open; the error
    log leaves errno alone. *)
Definition handleRead (answer : accept_answer) (again reopen : Z) (a : Acceptor) (k : Table)
    : res (Acceptor * Table * option (Z * bytes)) :=
  let! (r, k) := accept answer k in
  match r with
  | inl (connfd, peer) =>
      if hasCallback a then Ok (a, k, Some (connfd, peer))
      else Ok (a, close connfd k, None)
  | inr e =>
      if e =? EMFILE then
        let k := close (idleFd_ a) k in
        let a := set_idleFd again a in
        let k := give again k in
        let k := close (idleFd_ a) k in
        let a := set_idleFd reopen a in
        Ok (a, give reopen k, None)
      else Ok (a, k, None)
  end.

(** The answers the kernel may give in state [k]. *)
Definition answers_ok (answer : accept_answer) (again reopen : Z) (a : Acceptor) (k : Table) : Prop :=
  match answer with
  | Accepted connfd _ => 0 ≤ connfd ∧ connfd ∉ fds k
  | Failed e =>
      let k1 := close (idleFd_ a) k in
      fresh again k1 ∧ fresh reopen (close again (give again k1))
  end.

(** The descriptors of the acceptor: its socket, and [idleFd_] unless open failed. *)
Definition own (a : Acceptor) : gset Z := {[acceptSocket_ a]} ∪ (if 0 <=? idleFd_ a then {[idleFd_ a]} else ∅).

Record acceptor_ok (a : Acceptor) (k : Table) : Prop := {
  ao_own : own a ⊆ fds k;
  ao_socket : 0 ≤ acceptSocket_ a ∧ acceptSocket_ a ≠ idleFd_ a;
  ao_positive : ∀ fd, fd ∈ fds k → 0 ≤ fd;
  ao_closes : ∀ fd, fd ∈ failed_closes k → fd < 0;
}.

Lemma close_fresh again k :
  fresh again k → fds (close again (give again k)) = fds k ∧
  (failed_closes (close again (give again k)) = failed_closes k ∨
   again < 0 ∧ failed_closes (close again (give again k)) = failed_closes k ++ [again]) ∨ (again < 0 ∧ again ∈ fds k).
Proof.
  intros Hf. destruct (Z.lt_ge_cases again 0) as [Hn|Hp].
  - rewrite give_error by done. unfold close. destruct (bool_decide (again ∈ fds k)) eqn:E; bool_prop; [by right|].
    left. split; [done|]. by right.
  - destruct Hf as [Hf|Hf]; [lia|]. rewrite close_give by done. left. split; [done|]. by left.
Qed.

(** The trick with [idleFd_]: the table of descriptors is as before, but for [idleFd_]. *)
Lemma emfile_ok again reopen a k :
  acceptor_ok a k → fresh again (close (idleFd_ a) k) →
  fresh reopen (close again (give again (close (idleFd_ a) k))) →
  let k' := give reopen (close again (give again (close (idleFd_ a) k))) in
  acceptor_ok (set_idleFd reopen a) k' ∧ fds k' ∖ own (set_idleFd reopen a) = fds k ∖ own a.
Proof.
  intros [Hown [Hs Hne] Hpos Hcl] Hf1 Hf2 k'. unfold own in *.
  assert (fds (close (idleFd_ a) k) = fds k ∖ (if 0 <=? idleFd_ a then {[idleFd_ a]} else ∅) ∧
          ∀ fd, fd ∈ failed_closes (close (idleFd_ a) k) → fd < 0) as [E1 F1].
  { unfold close. destruct (0 <=? idleFd_ a) eqn:E; bool_prop.
    - rewrite bool_decide_true by set_solver. done.
    - rewrite bool_decide_false by (intros F; specialize (Hpos _ F); lia). cbn. split; [set_solver|].
      intros fd [?|?]%elem_of_app; [by apply Hcl|]. set_solver. }
  set (k1 := close (idleFd_ a) k) in *.
  assert (∀ fd, fd ∈ fds k1 → 0 ≤ fd) as P1 by (intros fd; rewrite E1; set_solver).
  destruct (close_fresh again k1 Hf1) as [[E2 F2]|[? F]]; [|specialize (P1 _ F); lia].
  set (k2 := close again (give again k1)) in *.
  assert (∀ fd, fd ∈ failed_closes k2 → fd < 0) as F2' by (destruct F2 as [->|[? ->]]; set_solver).
  unfold k'. cbn [set_idleFd idleFd_ acceptSocket_]. destruct (0 <=? reopen) eqn:E; bool_prop.
  - assert (reopen ∉ fds k1) as Hr by (destruct Hf2 as [?|Hf2]; [lia|by rewrite E2 in Hf2]).
    assert (fds (give reopen k2) = {[reopen]} ∪ fds k1) as E3 by (rewrite fds_give by done; by rewrite E2).
    assert (acceptSocket_ a ∈ fds k1) as Hin by (rewrite E1; destruct (0 <=? idleFd_ a); set_solver).
    split; [constructor|].
    + unfold own. cbn. rewrite (proj2 (Z.leb_le _ _)) by done. rewrite E3. set_solver.
    + cbn. split; [done|]. intros F. by rewrite F in Hin.
    + intros fd. rewrite E3. set_solver.
    + by rewrite failed_give.
    + rewrite E3. rewrite E1 in Hr |- *. destruct (0 <=? idleFd_ a); set_solver.
  - rewrite give_error by done. assert (acceptSocket_ a ∈ fds k2) as Hin by (rewrite E2, E1; destruct (0 <=? idleFd_ a); set_solver).
    split; [constructor|].
    + unfold own. cbn. rewrite (proj2 (Z.leb_gt _ _)) by done. set_solver.
    + cbn. split; [done|lia].
    + intros fd. rewrite E2. apply P1.
    + done.
    + rewrite E2, E1. destruct (0 <=? idleFd_ a); set_solver.
Qed.

(** The kernel hands out a descriptor. *)
Lemma accepted_ok connfd a k :
  acceptor_ok a k → 0 ≤ connfd → connfd ∉ fds k → acceptor_ok a (give connfd k).
Proof.
  intros [H1 H2 H3 H4] Hp Hn. constructor; rewrite ?fds_give, ?failed_give by done; try done; set_solver.
Qed.

(** Errors of accept. *)
Lemma handleRead_failed e again reopen a k :
  acceptor_ok a k → answers_ok (Failed e) again reopen a k →
  match handleRead (Failed e) again reopen a k with
  | Ok (a', k', handed) =>
      handed = None ∧ expected e = true ∧ acceptor_ok a' k' ∧ fds k' ∖ own a' = fds k ∖ own a ∧
      (e ≠ EMFILE → a' = a ∧ k' = k) ∧ ∃ z, a' = set_idleFd z a
  | Err f => f = FatalLog ∧ expected e = false
  end.
Proof.
  intros Hok [H1 H2]. unfold handleRead, accept. destruct (expected e) eqn:E; [|done]. cbn.
  destruct (Z.eqb_spec e EMFILE) as [->|Hne].
  - destruct (emfile_ok again reopen a k Hok H1 H2) as [H3 H4]. cbn [set_idleFd idleFd_]. split_and!; try done. by exists reopen.
  - split_and!; try done. exists (idleFd_ a). by destruct a.
Qed.

(** Whatever accept, open and close answer, one readiness event of the listening socket
    keeps the books of the descriptors: a connection is handed over with its descriptor
    open, or, without a callback, closed; an error that accept(2) documents as transient
    changes nothing, and running out of descriptors changes nothing but [idleFd_], whose
    descriptor serves to drop one waiting connection; no descriptor is closed twice and
    none of somebody else's is closed.  Every other error ends the process. *)
Theorem acceptor_keeps_books answer again reopen a k :
  acceptor_ok a k → answers_ok answer again reopen a k →
  match handleRead answer again reopen a k with
  | Ok (a', k', handed) =>
      acceptor_ok a' k' ∧ acceptSocket_ a' = acceptSocket_ a ∧
      match answer with
      | Accepted connfd peer =>
          a' = a ∧
          (hasCallback a = true → handed = Some (connfd, peer) ∧ fds k' = {[connfd]} ∪ fds k ∧ connfd ∉ fds k) ∧
          (hasCallback a = false → handed = None ∧ k' = k)
      | Failed e =>
          handed = None ∧ expected e = true ∧ fds k' ∖ own a' = fds k ∖ own a ∧ (e ≠ EMFILE → a' = a ∧ k' = k)
      end
  | Err f => f = FatalLog ∧ ∃ e, answer = Failed e ∧ expected e = false
  end.
Proof.
  intros Hok Ha. destruct answer as [connfd peer|e].
  - destruct Ha as [Hp Hn]. unfold handleRead, accept. cbn. destruct (hasCallback a) eqn:E.
    + split_and!; try done; [by apply accepted_ok|by intros _; rewrite fds_give].
    + rewrite close_give by done. done.
  - pose proof (handleRead_failed e again reopen a k Hok Ha) as H.
    destruct (handleRead _ _ _ _ _) as [[[a' k'] handed]|f]; [|by destruct H; eauto].
    destruct H as (-> & He & Hok' & Hf & Hk & [z ->]). by split_and!.
Qed.

Definition sample_table : Table := mkTable {[3; 4]} [].
Definition sample_acceptor : Acceptor := mkAcceptor 3 true true true 4.

Lemma sample_ok : acceptor_ok sample_acceptor sample_table.
Proof. constructor; unfold own; cbn; set_solver by lia. Qed.

(** All descriptors are in use: a waiting connection is accepted with the reserve and
    dropped. *)
Lemma acceptor_keeps_books_witness :
  match handleRead (Failed EMFILE) 4 4 sample_acceptor sample_table with
  | Ok (a', k', handed) => handed = None ∧ fds k' ∖ own a' = fds sample_table ∖ own sample_acceptor ∧ idleFd_ a' = 4
  | Err _ => False
  end.
Proof.
  assert (answers_ok (Failed EMFILE) 4 4 sample_acceptor sample_table) as H.
  { unfold answers_ok. rewrite close_give; [|lia|vm_compute; by intros ?]. split; right; vm_compute; by intros ?. }
  pose proof (acceptor_keeps_books (Failed EMFILE) 4 4 sample_acceptor sample_table sample_ok H) as P.
  destruct (handleRead _ _ _ _ _) as [[[a' k'] handed]|] eqn:E; [|by vm_compute in E].
  destruct P as (_ & _ & Hh & _ & Hk & _). split; [done|]. split; [done|]. vm_compute in E. by simplify_eq/=.
Defined.

(** When open fails after the trick, [idleFd_] is -1, and the next shortage closes -1 and
    drops nothing: the waiting connection stays and the loop reports it again. *)
Lemma reserve_lost :
  match handleRead (Failed EMFILE) 4 (-1) sample_acceptor sample_table with
  | Ok (a', k', _) =>
      idleFd_ a' = -1 ∧
      match handleRead (Failed EMFILE) (-1) (-1) a' k' with
      | Ok (a2, k2, _) => idleFd_ a2 = -1 ∧ fds k2 = fds k' ∧ failed_closes k2 = [-1; -1]
      | Err _ => False
      end
  | Err _ => False
  end.
Proof. by vm_compute. Qed.

(** Shortages of the whole system are treated as fatal: the server ends. *)
Lemma shortage_is_fatal :
  ∀ e, e ∈ [ENFILE; ENOBUFS; ENOMEM] → handleRead (Failed e) 0 0 sample_acceptor sample_table = Err FatalLog.
Proof. intros e He. by repeat (apply elem_of_cons in He as [->|He]; [done|]); apply not_elem_of_nil in He. Qed.

End Acceptor.
