(* ===== verification/System.v ===== *)
(** Sockets and processes as the system shows them: the options of [Socket.cpp], the calls of
    [SocketsOps.cpp] that return an answer, the description of a connection, and the rest of
    [ProcessInfo.cpp] ([ProcMon] has what reads [/proc]). *)

From S2P Require Import Prelude Doubles.

Module System.

(** ** Socket options *)

Record Options := mkOptions { tcpNoDelay : bool; reuseAddr : bool; reusePort : bool; keepAlive : bool }.

(** An [int] option, on when it is not 0. *)
Definition optval (on : bool) : Z := if on then 1 else 0.
Definition as_option (v : Z) : bool := negb (v =? 0).

Definition setTcpNoDelay (on : bool) (o : Options) : Options :=
  mkOptions (as_option (optval on)) (reuseAddr o) (reusePort o) (keepAlive o).
Definition setReuseAddr (on : bool) (o : Options) : Options :=
  mkOptions (tcpNoDelay o) (as_option (optval on)) (reusePort o) (keepAlive o).
Definition setKeepAlive (on : bool) (o : Options) : Options :=
  mkOptions (tcpNoDelay o) (reuseAddr o) (reusePort o) (as_option (optval on)).

(** The kernel may lack this option ([ret] is setsockopt's answer); then it is logged when it
    was asked for.  The flag is whether it was. *)
Definition setReusePort (on : bool) (ret : Z) (o : Options) : Options * bool :=
  (if ret <? 0 then o else mkOptions (tcpNoDelay o) (reuseAddr o) (as_option (optval on)) (keepAlive o),
   (ret <? 0) && on).

(** ** Answers *)

(** [getSocketError]: [None] when getsockopt fails, with its [errno]. *)
Definition getSocketError (answer : option Z) (errno : Z) : Z := default errno answer.

(** The numbers of [struct tcp_info] that are shown; [memZero] fills the structure with ones,
    and the kernel writes as many fields as it knows. *)
Definition unfilled : Z := 2 ^ 32 - 1.

Definition tcp_fields : list string :=
  ["unrecovered="; " rto="; " ato="; " snd_mss="; " rcv_mss="; " lost="; " retrans="; " rtt="; " rttvar="; " sshthresh=";
   " cwnd="; " total_retrans="]%string.

(** [getTcpInfo]: the answer of getsockopt, of which a prefix was written. *)
Definition getTcpInfo (answer : option (list Z)) : option (list Z) :=
  option_map (λ vs, take 12 vs ++ replicate (12 - length vs) unfilled) answer.

(** [%u]. *)
Definition tcp_text (vs : list Z) : bytes :=
  concat (zip_with (λ n v, str n ++ udec 20 (u32 v)) tcp_fields vs).

(** [Socket::getTcpInfoString] into a buffer of [len] bytes. *)
Definition getTcpInfoString (answer : option (list Z)) (buf : bytes) (len : Z) : bytes * bool :=
  match getTcpInfo answer with
  | Some vs => (ztake (len - 1) (tcp_text vs), true)
  | None => (buf, false)
  end.

(** [TcpConnection::getTcpInfoString]. *)
Definition connection_info (answer : option (list Z)) : bytes := (getTcpInfoString answer [] 1024).1.

(** ** The process *)

(** [username]: [None] when there is no entry for the user. *)
Definition username (pw_name : option bytes) : bytes := default (str "unknownuser") pw_name.

(** [exePath]: what readlink writes into 1024 bytes, if it does. *)
Definition exePath (link : option bytes) : bytes := ztake 1024 (default [] link).

(** The path that [threadStat] reads, through [char buf[64]]. *)
Definition thread_stat_path (tid : Z) : bytes := ztake 63 (str "/proc/self/task/" ++ dec tid ++ str "/stat").

(** [cpuTime]: the user's and the system's seconds, as doubles; they stay 0 when times fails. *)
Definition cpuTime (hz : Z) (times : option (Z * Z)) : Z * Z :=
  match times with
  | Some (utime, stime) =>
      (Doubles.sround (Doubles.of_int utime * Doubles.unit) (Doubles.of_int hz),
       Doubles.sround (Doubles.of_int stime * Doubles.unit) (Doubles.of_int hz))
  | None => (0, 0)
  end.

(** The debug build is the one that is built. *)
Definition isDebugBuild : bool := true.

(** ** Properties *)

(** Each setter sets its option and no other. *)
Lemma options_set on o :
  setTcpNoDelay on o = mkOptions on (reuseAddr o) (reusePort o) (keepAlive o) ∧
  setReuseAddr on o = mkOptions (tcpNoDelay o) on (reusePort o) (keepAlive o) ∧
  setKeepAlive on o = mkOptions (tcpNoDelay o) (reuseAddr o) (reusePort o) on ∧
  (setReusePort on 0 o).1 = mkOptions (tcpNoDelay o) (reuseAddr o) on (keepAlive o) ∧
  ∀ ret, ret < 0 → setReusePort on ret o = (o, on).
Proof.
  split_and!; try by destruct on. intros ret Hr. unfold setReusePort. by rewrite (proj2 (Z.ltb_lt _ _)).
Qed.

Lemma tcp_text_length ns vs :
  zlen (concat (zip_with (λ n v, str n ++ udec 20 (u32 v)) ns vs)) ≤ zlen (concat (map str ns)) + 10 * zlen ns.
Proof.
  revert vs. induction ns as [|n ns IH]; intros vs; [done|]. destruct vs as [|v vs]; cbn [zip_with map concat length]; [lia|].
  specialize (IH vs). rewrite !length_app. pose proof (uwrap_range 32 v ltac:(lia)).
  pose proof (length_udec 20 (u32 v) 10 ltac:(unfold u32; lia) ltac:(lia)). lia.
Qed.

(** The description of a connection is never cut: twelve numbers and their names fit 1024
    bytes with room to spare. *)
Theorem tcp_info_whole vs : connection_info (Some vs) = tcp_text (take 12 vs ++ replicate (12 - length vs) unfilled).
Proof.
  unfold connection_info, getTcpInfoString, getTcpInfo. cbn [option_map fst]. apply ztake_all.
  pose proof (tcp_text_length tcp_fields (take 12 vs ++ replicate (12 - length vs) unfilled)) as H. unfold tcp_text.
  assert (zlen (concat (map str tcp_fields)) + 10 * zlen tcp_fields ≤ 1023) by (by vm_compute). lia.
Qed.

(** A kernel that knows fewer fields leaves the ones that [memZero] put there. *)
Lemma old_kernel_shows_ones : connection_info (Some []) = tcp_text (replicate 12 4294967295).
Proof. by vm_compute. Qed.

Lemma no_info : connection_info None = [].
Proof. done. Qed.

(** The path of a thread's file is whole. *)
Theorem thread_stat_path_whole tid :
  - 2 ^ 31 ≤ tid < 2 ^ 31 → thread_stat_path tid = str "/proc/self/task/" ++ dec tid ++ str "/stat".
Proof.
  intros Ht. unfold thread_stat_path. apply ztake_all. rewrite !length_app.
  change (length (str "/proc/self/task/")) with 16%nat. change (length (str "/stat")) with 5%nat.
  assert (zlen (dec tid) ≤ 11); [|lia]. unfold dec. destruct (Z.ltb_spec tid 0).
  - rewrite length_app. pose proof (length_udec 20 (- tid) 10 ltac:(lia) ltac:(lia)). change (length (str "-")) with 1%nat. lia.
  - pose proof (length_udec 20 tid 10 ltac:(lia) ltac:(lia)). lia.
Qed.

(** Ticks become seconds: whole ones exactly. *)
Theorem cpuTime_exact hz user system :
  0 < hz < 2 ^ 31 → 0 ≤ user < 2 ^ 22 → 0 ≤ system < 2 ^ 22 →
  cpuTime hz (Some (user * hz, system * hz)) = (user * Doubles.unit, system * Doubles.unit).
Proof.
  intros Hh Hu Hs. pose proof Doubles.unit_pos. unfold cpuTime. rewrite !Doubles.of_int_exact by nia.
  assert (∀ n, 0 ≤ n < 2 ^ 22 → Doubles.sround (n * hz * Doubles.unit * Doubles.unit) (hz * Doubles.unit) = n * Doubles.unit) as E.
  { intros n Hn. replace (n * hz * Doubles.unit * Doubles.unit) with (n * Doubles.unit * (hz * Doubles.unit)) by ring.
    apply Doubles.sround_dbl; [nia|]. apply Doubles.dbl_int. lia. }
  by rewrite !E.
Qed.

End System.
