(* ===== verification/TcpServer.v ===== *)
(** The server ([netLayer/tcp/s/server/TcpServer.cpp]): accepting, naming, distributing
    and removing connections, over the acceptor, the pool of loops and the loops'
    functor queues.

    A step is what one loop does without giving up control: a readiness event of the
    listening socket, the next functor of a loop, an event of a connection, or the
    release of a [shared_ptr].  Loops run side by side, so the steps of different loops
    interleave in any order.  [forceClose] may be called by any thread and is three steps:
    it reads [state_], writes it and queues a functor without a lock, and a close may fall
    in between.  [shutdown] is one step, called in the loop of its connection as in the
    programs here.  A connection is reduced to its life ([state_], its descriptor, whether
    its channel asks for events, whether [connectDestroyed] has run, whether the object
    exists); what it does with bytes is in [TcpConnection], and the end of this file compares
    the two. *)

From S2P Require Import Prelude StdMap Poller TcpConnection EventLoopThread Acceptor.

Module TcpServer.
Import StdMap Descriptors.

Abbreviation kConnecting := TcpConnection.kConnecting.
Abbreviation kConnected := TcpConnection.kConnected.
Abbreviation kDisconnecting := TcpConnection.kDisconnecting.
Abbreviation kDisconnected := TcpConnection.kDisconnected.

(** A connection.  [c_watched]: its channel asks for events.  [c_forced] is [forceFlag_]:
    [connectDestroyed] closes the descriptor, otherwise the destructor does. *)
Record conn := mkC {
  c_name : bytes;
  c_fd : Z;
  c_peer : bytes;
  c_loop : Z;
  c_state : TcpConnection.StateE;
  c_watched : bool;
  c_forced : bool;
  c_destroyed : bool;          (* conn_destroyed has run *)
  c_gone : bool;               (* the destructor has run *)
}.

Definition set_cstate (v : TcpConnection.StateE) (c : conn) : conn :=
  mkC (c_name c) (c_fd c) (c_peer c) (c_loop c) v (c_watched c) (c_forced c) (c_destroyed c) (c_gone c).
Definition set_watched (v : bool) (c : conn) : conn :=
  mkC (c_name c) (c_fd c) (c_peer c) (c_loop c) (c_state c) v (c_forced c) (c_destroyed c) (c_gone c).
Definition set_forced (c : conn) : conn :=
  mkC (c_name c) (c_fd c) (c_peer c) (c_loop c) (c_state c) (c_watched c) true (c_destroyed c) (c_gone c).
Definition set_destroyed (c : conn) : conn :=
  mkC (c_name c) (c_fd c) (c_peer c) (c_loop c) (c_state c) (c_watched c) (c_forced c) true (c_gone c).
Definition set_gone (c : conn) : conn :=
  mkC (c_name c) (c_fd c) (c_peer c) (c_loop c) (c_state c) (c_watched c) (c_forced c) (c_destroyed c) true.

(** What [connectEstablished] does to the connection. *)
Definition set_established (c : conn) : conn := set_watched true (set_cstate kConnected c).
(** What [handleClose] does to the connection. *)
Definition set_closed (c : conn) : conn := set_watched false (set_cstate kDisconnected c).

(** Queued functors; connections are numbered in the order of their creation.  All but
    [FListen] hold a [shared_ptr] to the connection; [FRemove] holds the server's bare
    [this] as well. *)
Inductive functor := FEstablish (i : nat) | FForceClose (i : nat) | FRemove (i : nat) | FDestroy (i : nat).

#[global] Instance functor_eq_dec : EqDecision functor.
Proof. solve_decision. Defined.

Definition conn_of (f : functor) : nat :=
  match f with FEstablish i | FForceClose i | FRemove i | FDestroy i => i end.

(** A call of [TcpConnection::forceClose] that has begun in some thread.  It reads
    [state_], writes it and queues a functor, without a lock: the caller has seen an open
    connection ([Passed]), or has also written [kDisconnecting] ([Marked]).  The caller
    holds a [shared_ptr]. *)
Inductive call := Passed (i : nat) | Marked (i : nat).

Definition call_conn (x : call) : nat := match x with Passed i | Marked i => i end.

(** The server and its surroundings: all connections ever made, the functors queued in
    the loops (those of one loop in order), the [shared_ptr]s that the program keeps,
    the calls of [forceClose] under way, the descriptors of the process, and whether the
    server exists. *)
Record Server := mkServer {
  name_ : bytes;
  ipPort_ : bytes;
  acceptor_ : Acceptor.Acceptor;
  threadPool_ : EventLoopThreadPool.EventLoopThreadPool;
  started_ : Z;
  nextConnId_ : Z;
  connections_ : smap (option nat);
  conns : list conn;
  queue : list (Z * functor);
  held : list nat;
  calls : list call;
  table : Table;
  alive : bool;
}.

Definition set_acceptor (v : Acceptor.Acceptor) (s : Server) : Server :=
  mkServer (name_ s) (ipPort_ s) v (threadPool_ s) (started_ s) (nextConnId_ s) (connections_ s) (conns s) (queue s) (held s) (calls s) (table s) (alive s).
Definition set_pool (v : EventLoopThreadPool.EventLoopThreadPool) (s : Server) : Server :=
  mkServer (name_ s) (ipPort_ s) (acceptor_ s) v (started_ s) (nextConnId_ s) (connections_ s) (conns s) (queue s) (held s) (calls s) (table s) (alive s).
Definition set_sstarted (v : Z) (s : Server) : Server :=
  mkServer (name_ s) (ipPort_ s) (acceptor_ s) (threadPool_ s) v (nextConnId_ s) (connections_ s) (conns s) (queue s) (held s) (calls s) (table s) (alive s).
Definition set_nextConnId (v : Z) (s : Server) : Server :=
  mkServer (name_ s) (ipPort_ s) (acceptor_ s) (threadPool_ s) (started_ s) v (connections_ s) (conns s) (queue s) (held s) (calls s) (table s) (alive s).
Definition set_connections (v : smap (option nat)) (s : Server) : Server :=
  mkServer (name_ s) (ipPort_ s) (acceptor_ s) (threadPool_ s) (started_ s) (nextConnId_ s) v (conns s) (queue s) (held s) (calls s) (table s) (alive s).
Definition set_conns (v : list conn) (s : Server) : Server :=
  mkServer (name_ s) (ipPort_ s) (acceptor_ s) (threadPool_ s) (started_ s) (nextConnId_ s) (connections_ s) v (queue s) (held s) (calls s) (table s) (alive s).
Definition set_queue (v : list (Z * functor)) (s : Server) : Server :=
  mkServer (name_ s) (ipPort_ s) (acceptor_ s) (threadPool_ s) (started_ s) (nextConnId_ s) (connections_ s) (conns s) v (held s) (calls s) (table s) (alive s).
Definition set_held (v : list nat) (s : Server) : Server :=
  mkServer (name_ s) (ipPort_ s) (acceptor_ s) (threadPool_ s) (started_ s) (nextConnId_ s) (connections_ s) (conns s) (queue s) v (calls s) (table s) (alive s).
Definition set_calls (v : list call) (s : Server) : Server :=
  mkServer (name_ s) (ipPort_ s) (acceptor_ s) (threadPool_ s) (started_ s) (nextConnId_ s) (connections_ s) (conns s) (queue s) (held s) v (table s) (alive s).
Definition set_table (v : Table) (s : Server) : Server :=
  mkServer (name_ s) (ipPort_ s) (acceptor_ s) (threadPool_ s) (started_ s) (nextConnId_ s) (connections_ s) (conns s) (queue s) (held s) (calls s) v (alive s).
Definition set_alive (v : bool) (s : Server) : Server :=
  mkServer (name_ s) (ipPort_ s) (acceptor_ s) (threadPool_ s) (started_ s) (nextConnId_ s) (connections_ s) (conns s) (queue s) (held s) (calls s) (table s) v.

(** [loop_], the loop of the acceptor and base of the pool. *)
Definition loop_ (s : Server) : Z := EventLoopThreadPool.baseLoop_ (threadPool_ s).

(** Change connection [i]; a dangling index cannot occur through a [shared_ptr]. *)
Definition on_conn (i : nat) (f : conn → conn) (s : Server) : Server := set_conns (alter f i (conns s)) s.

Definition state_of (i : nat) (s : Server) : TcpConnection.StateE :=
  match conns s !! i with Some c => c_state c | None => kDisconnected end.
Definition loop_of (i : nat) (s : Server) : Z :=
  match conns s !! i with Some c => c_loop c | None => 0 end.
Definition watched_of (i : nat) (s : Server) : bool :=
  match conns s !! i with Some c => c_watched c | None => false end.
Definition destroyed_of (i : nat) (s : Server) : bool :=
  match conns s !! i with Some c => c_destroyed c | None => false end.
Definition name_of (i : nat) (s : Server) : bytes :=
  match conns s !! i with Some c => c_name c | None => [] end.

(** ** Destructors *)

(** Somebody holds a [shared_ptr] to connection [i]. *)
Definition referenced (i : nat) (s : Server) : bool :=
  bool_decide (Some i ∈ map snd (connections_ s)) || bool_decide (i ∈ map (λ x, conn_of x.2) (queue s)) ||
  bool_decide (i ∈ held s) || bool_decide (i ∈ map call_conn (calls s)).

(** [~TcpConnection], [~Channel] and [~Socket]. *)
Definition destruct_conn (i : nat) (c : conn) (s : Server) : res Server :=
  assert! bool_decide (c_state c = kDisconnected) in
  assert! c_destroyed c in
  let s := on_conn i set_gone s in
  Ok (if c_forced c then s else set_table (close (c_fd c) (table s)) s).

(** The connections in [ids] whose last reference is gone. *)
Fixpoint collect (ids : list nat) (s : Server) : res Server :=
  match ids with
  | [] => Ok s
  | i :: ids =>
      let! s :=
        match conns s !! i with
        | Some c => if c_gone c || referenced i s then Ok s else destruct_conn i c s
        | None => Ok s
        end in
      collect ids s
  end.

(** ** Functors *)

Definition loop_queue (l : Z) (f : functor) (s : Server) : Server := set_queue (queue s ++ [(l, f)]) s.

(** [TcpConnection::connectEstablished]; the program's callback is left out. *)
Definition conn_established (i : nat) (s : Server) : res Server :=
  assert! bool_decide (state_of i s = kConnecting) in
  Ok (on_conn i (set_established) s).

(** [TcpConnection::connectDestroyed]: only a connected one stops watching its channel;
    [Channel::remove] asserts that nothing is watched, and the poller that it still has the
    channel.  Missing: a channel that is switched off after its removal registers itself
    again, but only [race_kills] comes near that. *)
Definition conn_destroyed (i : nat) (s : Server) : res Server :=
  let s := if bool_decide (state_of i s = kConnected)
           then on_conn i set_closed s else s in
  assert! negb (watched_of i s) in
  assert! negb (destroyed_of i s) in
  let s := on_conn i set_destroyed s in
  Ok (match conns s !! i with
      | Some c => if c_forced c then set_table (close (c_fd c) (table s)) s else s
      | None => s
      end).

(** [connections_[conn->name()]] inserts a null pointer if there is no entry, so that
    the [erase] always finds one. *)
Definition removeConnectionInLoop (i : nat) (s : Server) : res Server :=
  if negb (alive s) then Err UseAfterFree
  else
    let k := name_of i s in
    let m := match find k (connections_ s) with Some _ => connections_ s | None => put k None (connections_ s) end in
    let n := match find k m with Some _ => 1 | None => 0 end in
    let s := set_connections (erase k m) s in
    assert! n =? 1 in
    Ok (loop_queue (loop_of i s) (FDestroy i) s).

(** [removeConnection], called in loop [cur]. *)
Definition removeConnection (cur : Z) (i : nat) (s : Server) : res Server :=
  if negb (alive s) then Err UseAfterFree
  else if cur =? loop_ s then removeConnectionInLoop i s
  else Ok (loop_queue (loop_ s) (FRemove i) s).

(** [TcpConnection::handleClose] when it closes ([closeFlag_] is set). *)
Definition conn_close (cur : Z) (i : nat) (s : Server) : res Server :=
  assert! bool_decide (state_of i s = kConnected) || bool_decide (state_of i s = kDisconnecting) in
  removeConnection cur i (on_conn i set_closed s).

(** [TcpConnection::forceCloseInLoop]. *)
Definition conn_forceClose (cur : Z) (i : nat) (s : Server) : res Server :=
  if bool_decide (state_of i s = kConnected) || bool_decide (state_of i s = kDisconnecting)
  then conn_close cur i (on_conn i set_forced s) else Ok s.

Definition exec (cur : Z) (f : functor) (s : Server) : res Server :=
  match f with
  | FEstablish i => conn_established i s
  | FForceClose i => conn_forceClose cur i s
  | FRemove i => removeConnectionInLoop i s
  | FDestroy i => conn_destroyed i s
  end.

Definition loop_run (cur l : Z) (f : functor) (s : Server) : res Server :=
  if cur =? l then exec cur f s else Ok (loop_queue l f s).

(** ** The server *)

(** [start()] in the thread of [loop_]; [answer] is what listen(2) returns. *)
Definition start (answer : Z) (s : Server) : res Server :=
  let old := started_ s in
  let s := set_sstarted 1 s in
  if old =? 0 then
    let! pool := EventLoopThreadPool.start (λ i, i + 1) true false (threadPool_ s) in
    let s := set_pool pool s in
    assert! negb (Acceptor.listenning_ (acceptor_ s)) in
    let! a := Acceptor.listen answer (acceptor_ s) in
    Ok (set_acceptor a s)
  else Ok s.

Definition setThreadNum (numThreads : Z) (s : Server) : res Server :=
  assert! 0 <=? numThreads in
  Ok (set_pool (EventLoopThreadPool.setThreadNum numThreads (threadPool_ s)) s).

(** [name_ + buf], with the 64 bytes of [buf]. *)
Definition connName (s : Server) : bytes :=
  name_ s ++ ztake 63 (str "-" ++ ipPort_ s ++ str "#" ++ dec (nextConnId_ s)).

Definition newConnection (sockfd : Z) (peerAddr : bytes) (s : Server) : res Server :=
  let! (ioLoop, pool) := EventLoopThreadPool.getNextLoop true (threadPool_ s) in
  let s := set_pool pool s in
  let k := connName s in
  let s := set_nextConnId (nextConnId_ s +i 1) s in
  let i := length (conns s) in
  let s := set_conns (conns s ++ [mkC k sockfd peerAddr ioLoop kConnecting false false false false]) s in
  let s := set_connections (put k (Some i) (connections_ s)) s in
  loop_run (loop_ s) ioLoop (FEstablish i) s.

(** [Acceptor::handleRead] with [newConnection] as its callback. *)
Definition acceptable (answer : Acceptor.accept_answer) (again reopen : Z) (s : Server) : res Server :=
  let! (a, k, handed) := Acceptor.handleRead answer again reopen (acceptor_ s) (table s) in
  let s := set_table k (set_acceptor a s) in
  match handed with
  | Some (connfd, peer) => newConnection connfd peer s
  | None => Ok s
  end.

(** The loop of the destructor, in the thread of [loop_]. *)
Fixpoint destroy_items (items : smap (option nat)) (s : Server) : res Server :=
  match items with
  | [] => Ok s
  | (k, Some i) :: items =>
      let s := set_connections (put k None (connections_ s)) s in
      let! s := loop_run (loop_ s) (loop_of i s) (FDestroy i) s in
      destroy_items items s
  | (k, None) :: items => Err OutOfRange
  end.

(** The destructor of a server whose pool of loops somebody else keeps. *)
Definition delete_TcpServer (s : Server) : res Server :=
  let! s := destroy_items (connections_ s) s in
  let s := set_connections [] s in
  Ok (set_alive false (set_table (Acceptor.delete_Acceptor (acceptor_ s) (table s)) s)).

(** The constructor; [sock], [idle] and [bound] are the kernel's answers. *)
Definition new_TcpServer (loop : Z) (ipPort nameArg : bytes) (sock idle bound : Z) (k : Table) : res Server :=
  let! (a, k) := Acceptor.new_Acceptor sock idle bound k in
  Ok (mkServer nameArg ipPort (Acceptor.setNewConnectionCallback a)
        (EventLoopThreadPool.new_EventLoopThreadPool loop nameArg) 0 1 [] [] [] [] [] k true).

(** ** Steps *)

(** The next functor of loop [l]. *)
Fixpoint pop (l : Z) (q : list (Z * functor)) : option (functor * list (Z * functor)) :=
  match q with
  | [] => None
  | (l', f) :: q =>
      if l' =? l then Some (f, q)
      else match pop l q with Some (g, q') => Some (g, (l', f) :: q') | None => None end
  end.

Inductive event :=
| Acceptable (answer : Acceptor.accept_answer) (again reopen : Z)
| RunFunctor (l : Z)
| PeerClose (i : nat)        (* the connection's channel reports the end *)
| Shutdown (i : nat)         (* shutdown() in the loop of the connection *)
| ForceClose (i : nat)       (* some thread calls forceClose() and reads state_ *)
| ForceStep (k : nat)        (* that thread writes state_, and then queues the functor *)
| Hold (i : nat)             (* the program copies a shared_ptr, and drops it *)
| Release (k : nat)
| Delete.                    (* the server is destroyed *)

(** The state is one of those in which [forceClose] goes on. *)
Definition open_state (i : nat) (s : Server) : bool :=
  bool_decide (state_of i s = kConnected) || bool_decide (state_of i s = kDisconnecting).

Definition force_step (k : nat) (s : Server) : Server :=
  match calls s !! k with
  | Some (Passed i) => set_calls (<[k := Marked i]> (calls s)) (on_conn i (set_cstate kDisconnecting) s)
  | Some (Marked i) => set_calls (delete k (calls s)) (loop_queue (loop_of i s) (FForceClose i) s)
  | None => s
  end.

Definition perform (e : event) (s : Server) : res Server :=
  match e with
  | Acceptable answer again reopen => acceptable answer again reopen s
  | RunFunctor l =>
      match pop l (queue s) with
      | Some (f, q) => exec l f (set_queue q s)
      | None => Ok s
      end
  | PeerClose i => conn_close (loop_of i s) i s
  | Shutdown i => Ok (if bool_decide (state_of i s = kConnected) then on_conn i (set_cstate kDisconnecting) s else s)
  | ForceClose i => Ok (if open_state i s then set_calls (Passed i :: calls s) s else s)
  | ForceStep k => Ok (force_step k s)
  | Hold i => Ok (set_held (i :: held s) s)
  | Release k => Ok (set_held (delete k (held s)) s)
  | Delete => delete_TcpServer s
  end.

Definition step (e : event) (s : Server) : res Server :=
  let! s := perform e s in
  collect (seq 0 (length (conns s))) s.

(** The object of connection [i] exists. *)
Definition exists_ (i : nat) (s : Server) : Prop := ∃ c, conns s !! i = Some c ∧ c_gone c = false.

(** What can happen while the server exists, before it has made 2^31 - 2 connections.
    Any number of threads may be inside [forceClose]; excluded is one order: that the
    connection closes between the caller's reading of [state_] and its writing
    ([race_kills] shows what happens then). *)
Definition enabled (e : event) (s : Server) : Prop :=
  match e with
  | Acceptable answer again reopen =>
      Acceptor.reading (acceptor_ s) = true ∧ nextConnId_ s < 2 ^ 31 - 1 ∧
      Acceptor.answers_ok answer again reopen (acceptor_ s) (table s)
  | RunFunctor l => pop l (queue s) ≠ None
  | PeerClose i => watched_of i s = true
  | ForceStep k => match calls s !! k with Some (Passed i) => open_state i s = true | Some (Marked _) => True | None => False end
  | Shutdown i | ForceClose i | Hold i => exists_ i s
  | Release k => (k < length (held s))%nat
  | Delete => False
  end.

(** A server with [n] threads that has been started. *)
Definition started_server (n : Z) (nameArg ipPort : bytes) (sock idle : Z) (k : Table) : res Server :=
  let! s := new_TcpServer 0 ipPort nameArg sock idle 0 k in
  let! s := setThreadNum n s in
  start 0 s.

Inductive reach (s0 : Server) : Server → Prop :=
| reach_start : reach s0 s0
| reach_step s e s' : reach s0 s → enabled e s → step e s = Ok s' → reach s0 s'.

(** ** Invariant *)

(** The functors of the life of connection [i] that are queued, with their loops. *)
Definition life (i : nat) (x : Z * functor) : bool :=
  match x.2 with FForceClose _ => false | f => (conn_of f =? i)%nat end.
Definition jobs (i : nat) (q : list (Z * functor)) : list (Z * functor) := filter (λ x, life i x = true) q.
#[local] Arguments jobs : simpl never.

(** Where connection [i] is in its life: its queued functors and its entry in the map. *)
Definition stage (i : nat) (c : conn) (s : Server) : Prop :=
  let j := jobs i (queue s) in
  let m := find (c_name c) (connections_ s) in
  match c_state c with
  | TcpConnection.kConnecting => j = [(c_loop c, FEstablish i)] ∧ m = Some (Some i) ∧ c_destroyed c = false
  | TcpConnection.kConnected | TcpConnection.kDisconnecting => j = [] ∧ m = Some (Some i) ∧ c_destroyed c = false
  | TcpConnection.kDisconnected =>
      (j = [(loop_ s, FRemove i)] ∧ m = Some (Some i) ∧ c_destroyed c = false) ∨
      (j = [(c_loop c, FDestroy i)] ∧ m = None ∧ c_destroyed c = false) ∨
      (j = [] ∧ m = None ∧ c_destroyed c = true)
  end.

(** The descriptor of the connection is open. *)
Definition fd_open (c : conn) : bool := negb (if c_forced c then c_destroyed c else c_gone c).

(** The name and the loop of the connection number [i], counted from 0. *)
Definition conn_name (s : Server) (i : nat) : bytes :=
  name_ s ++ str "-" ++ ipPort_ s ++ str "#" ++ dec (Z.of_nat i + 1).
Definition conn_loop (s : Server) (i : nat) : Z :=
  let ls := EventLoopThreadPool.loops_ (threadPool_ s) in
  if bool_decide (ls = []) then loop_ s else nth (Z.to_nat (Z.of_nat i mod zlen ls)) ls 0.

Record conn_ok (i : nat) (c : conn) (s : Server) : Prop := {
  k_stage : stage i c s;
  k_gone : c_gone c = true → c_destroyed c = true ∧ referenced i s = false;
  k_forced : c_forced c = true → c_state c = kDisconnected;
  k_watched : c_watched c = bool_decide (c_state c = kConnected) || bool_decide (c_state c = kDisconnecting);
}.

(** The pool deals connection [length (conns s)] next. *)
Definition pool_ok (s : Server) : Prop :=
  let p := threadPool_ s in
  EventLoopThreadPool.started_ p = true ∧ zlen (EventLoopThreadPool.loops_ p) < 2 ^ 31 ∧
  (EventLoopThreadPool.loops_ p ≠ [] →
     EventLoopThreadPool.next_ p = zlen (conns s) mod zlen (EventLoopThreadPool.loops_ p)).

(** What never changes: the descriptors that have nothing to do with the server, its name
    and address, and its loops. *)
Record setting := mkSetting { others : gset Z; the_name : bytes; the_ipPort : bytes; the_base : Z; the_loops : list Z }.

Record inv (o : setting) (s : Server) : Prop := {
  i_alive : alive s = true;
  i_callback : Acceptor.hasCallback (acceptor_ s) = true;
  i_acceptor : Acceptor.acceptor_ok (acceptor_ s) (table s);
  i_pool : pool_ok s;
  i_next : nextConnId_ s = zlen (conns s) + 1;
  i_few : zlen (conns s) < 2 ^ 31 - 1;
  i_text : zlen (ipPort_ s) ≤ 50;
  i_names : ∀ i c, conns s !! i = Some c → c_name c = conn_name s i ∧ c_loop c = conn_loop s i;
  i_sorted : sorted (connections_ s);
  i_map : ∀ k v, find k (connections_ s) = Some v → ∃ i c, v = Some i ∧ conns s !! i = Some c ∧ c_name c = k;
  i_conns : ∀ i c, conns s !! i = Some c → conn_ok i c s;
  i_queue : ∀ l f, (l, f) ∈ queue s → ∃ c, conns s !! conn_of f = Some c ∧ (f = FForceClose (conn_of f) → l = c_loop c);
  i_held : ∀ i, i ∈ held s → ∃ c, conns s !! i = Some c;
  i_calls : ∀ i, i ∈ map call_conn (calls s) → ∃ c, conns s !! i = Some c;
  i_fds : ∀ fd, fd ∈ fds (table s) ∖ Acceptor.own (acceptor_ s) ↔
            fd ∈ others o ∨ ∃ i c, conns s !! i = Some c ∧ fd_open c = true ∧ c_fd c = fd;
  i_others : ∀ i c, conns s !! i = Some c → fd_open c = true → c_fd c ∉ others o;
  i_unique : ∀ i j c d, conns s !! i = Some c → conns s !! j = Some d → fd_open c = true → fd_open d = true →
            c_fd c = c_fd d → i = j;
  i_setting : name_ s = the_name o ∧ ipPort_ s = the_ipPort o ∧ loop_ s = the_base o ∧
              EventLoopThreadPool.loops_ (threadPool_ s) = the_loops o;
}.

(** Every connection that is not referenced is gone. *)
Definition settled (s : Server) : Prop :=
  ∀ i c, conns s !! i = Some c → c_gone c = false → referenced i s = true.

(** *** Names *)

Lemma dec_pos n : 0 ≤ n → dec n = udec 20 n.
Proof. intros Hn. unfold dec. by rewrite (proj2 (Z.ltb_ge _ _)). Qed.

Lemma conn_name_inj s i j : Z.of_nat i < 2 ^ 31 → Z.of_nat j < 2 ^ 31 → conn_name s i = conn_name s j → i = j.
Proof.
  intros Hi Hj E. unfold conn_name in E. do 4 apply app_inv_head in E. rewrite !dec_pos in E by lia.
  apply (f_equal udec_val) in E. rewrite !udec_val_udec in E by (change (10 ^ Z.of_nat 20) with 100000000000000000000; lia). lia.
Qed.

(** The buffer of 64 bytes is never too short. *)
Lemma connName_spec s :
  nextConnId_ s = zlen (conns s) + 1 → zlen (conns s) < 2 ^ 31 - 1 → zlen (ipPort_ s) ≤ 50 →
  connName s = conn_name s (length (conns s)).
Proof.
  intros Hn Hf Ht. unfold connName, conn_name. rewrite Hn, dec_pos by lia.
  pose proof (length_udec 20 (zlen (conns s) + 1) 10 ltac:(change (10 ^ Z.of_nat 10) with 10000000000; lia) ltac:(lia)).
  f_equal. rewrite ztake_all; [done|]. set (d := udec 20 _) in *. clearbody d. rewrite !length_app.
  change (length (str _)) with 1%nat. lia.
Qed.

(** *** The map *)

Lemma in_map_find (m : smap (option nat)) v : sorted m → v ∈ map snd m → ∃ k, find k m = Some v.
Proof.
  intros Hs Hv. apply list_elem_of_fmap in Hv as ([k v'] & -> & Hin). exists k. cbn.
  revert Hin. induction Hs as [|[k2 v2] m Hm IH Hx]; intros Hin; [by apply not_elem_of_nil in Hin|]. cbn.
  apply elem_of_cons in Hin as [E|Hin]; [simplify_eq; by rewrite bytes_lt_irrefl|].
  rewrite Forall_forall in Hx. pose proof (Hx _ Hin) as Hlt. cbn in Hlt.
  rewrite (bytes_lt_asym _ _ Hlt), Hlt. by apply IH.
Qed.

Lemma find_in_map (m : smap (option nat)) k v : find k m = Some v → v ∈ map snd m.
Proof.
  induction m as [|[k2 v2] m IH]; cbn; [done|]. destruct (bytes_lt k k2); [done|].
  destruct (bytes_lt k2 k); [intros H; right; by apply IH|]. intros [= ->]. by left.
Qed.

(** Connection [i] is in the map exactly under its own name. *)
Lemma in_map_iff o s i c :
  inv o s → conns s !! i = Some c → Some i ∈ map snd (connections_ s) ↔ find (c_name c) (connections_ s) = Some (Some i).
Proof.
  intros Hi Hc. split; [|apply find_in_map].
  intros (k & Hk)%(in_map_find _ _ (i_sorted _ _ Hi)).
  destruct (i_map _ _ Hi _ _ Hk) as (j & d & [= ->] & Hd & <-). by simplify_eq.
Qed.

Lemma jobs_queue i q x : x ∈ jobs i q → x ∈ q ∧ conn_of x.2 = i.
Proof.
  unfold jobs. rewrite list_elem_of_filter. intros [Hl Hq]. split; [done|]. destruct x as [l []]; cbn in *; try done; by apply Nat.eqb_eq.
Qed.

Lemma referenced_job i s : jobs i (queue s) ≠ [] → referenced i s = true.
Proof.
  intros Hj. destruct (jobs i (queue s)) as [|x l] eqn:E; [done|].
  destruct (jobs_queue i (queue s) x ltac:(rewrite E; left)) as [Hx <-].
  unfold referenced. rewrite (bool_decide_true (_ ∈ map _ (queue s))), orb_true_r; [done|]. apply list_elem_of_fmap. by exists x.
Qed.

Lemma referenced_map i s k : find k (connections_ s) = Some (Some i) → referenced i s = true.
Proof. intros H%find_in_map. unfold referenced. by rewrite bool_decide_true. Qed.

(** *** Changing one connection *)

(** [s] with connection [i], the queue, the map and the table replaced. *)
Definition upd (i : nat) (c : conn) (q : list (Z * functor)) (m : smap (option nat)) (t : Table) (s : Server) : Server :=
  mkServer (name_ s) (ipPort_ s) (acceptor_ s) (threadPool_ s) (started_ s) (nextConnId_ s) m (<[i := c]> (conns s)) q (held s) (calls s) t (alive s).

Lemma alter_some {A} (f : A → A) i (l : list A) x : l !! i = Some x → alter f i l = <[i := f x]> l.
Proof. revert i. induction l as [|y l IH]; intros [|i] H; cbn in *; simplify_eq; [done|]. f_equal. by apply IH. Qed.

(** The functors of the other connections stay, and what is new is [i]'s. *)
Definition queue_change (i : nat) (c : conn) (q q' : list (Z * functor)) : Prop :=
  (∀ j, j ≠ i → jobs j q' = jobs j q) ∧
  (∀ j, j ≠ i → j ∈ map (λ x, conn_of x.2) q' → j ∈ map (λ x, conn_of x.2) q) ∧
  (∀ l f, (l, f) ∈ q' → (l, f) ∈ q ∨ (conn_of f = i ∧ (f = FForceClose i → l = c_loop c))).

(** The entries of the other connections stay. *)
Definition map_change (i : nat) (c : conn) (m m' : smap (option nat)) : Prop :=
  sorted m' ∧ (∀ k, k ≠ c_name c → find k m' = find k m) ∧ (∀ v, find (c_name c) m' = Some v → v = Some i).

(** The descriptor is closed when it stops being open. *)
Definition table_change (c c' : conn) (t t' : Table) : Prop :=
  (fd_open c' = true → fd_open c = true) ∧
  t' = if fd_open c && negb (fd_open c') then close (c_fd c) t else t.

Lemma referenced_other i j s c c' q m t :
  i ≠ j → sorted m → sorted (connections_ s) →
  (∀ k, k ≠ c_name c → find k m = find k (connections_ s)) →
  (∀ v, find (c_name c) m = Some v → v = Some i) →
  (j ∈ map (λ x, conn_of x.2) q → j ∈ map (λ x, conn_of x.2) (queue s)) →
  referenced j s = false → referenced j (upd i c' q m t s) = false.
Proof.
  intros Hne Hm Hs Hf Hv Hq Hr. unfold referenced in *. cbn. bool_prop.
  rewrite !bool_decide_false; [done|done|done|auto|].
  intros (k & Hk)%(in_map_find _ _ Hm). destruct (decide (k = c_name c)) as [->|Hk'].
  - specialize (Hv _ Hk). congruence.
  - rewrite Hf in Hk by done. by apply find_in_map in Hk.
Qed.

(** Closing the descriptor of connection [i]. *)
Lemma upd_table o i c c' s t :
  inv o s → conns s !! i = Some c → c_fd c' = c_fd c → table_change c c' (table s) t →
  Acceptor.acceptor_ok (acceptor_ s) t ∧
  (∀ fd, fd ∈ fds t ∖ Acceptor.own (acceptor_ s) ↔
     fd ∈ others o ∨ ∃ j d, <[i := c']> (conns s) !! j = Some d ∧ fd_open d = true ∧ c_fd d = fd).
Proof.
  intros Hi Hc Hfd [Hopen ->]. pose proof (lookup_lt_Some _ _ _ Hc) as Hlt. pose proof (i_fds _ _ Hi) as Hfds.
  assert (∀ fd, (∃ j d, <[i := c']> (conns s) !! j = Some d ∧ fd_open d = true ∧ c_fd d = fd) ↔
                (fd_open c' = true ∧ c_fd c = fd) ∨ ∃ j d, j ≠ i ∧ conns s !! j = Some d ∧ fd_open d = true ∧ c_fd d = fd) as Hnew.
  { intros fd. split.
    - intros (j & d & Hj & Hd & <-). destruct (decide (j = i)) as [->|Hne].
      + rewrite list_lookup_insert_eq in Hj by done. simplify_eq. by left.
      + rewrite list_lookup_insert_ne in Hj by done. right. by exists j, d.
    - intros [[Ho <-]|(j & d & Hne & Hj & Hd & <-)].
      + exists i, c'. by rewrite list_lookup_insert_eq.
      + exists j, d. by rewrite list_lookup_insert_ne. }
  destruct (fd_open c) eqn:Ec, (fd_open c') eqn:Ec'; cbn [andb negb]; try (by specialize (Hopen eq_refl)).
  - split; [apply Hi|]. intros fd. rewrite Hfds, Hnew. split.
    + intros [?|(j & d & Hj & Hd & <-)]; [by left|]. right. destruct (decide (j = i)) as [->|]; [simplify_eq; by left|]. right. by exists j, d.
    + intros [?|[[_ <-]|(j & d & ? & ? & ? & <-)]]; [by left|right; by exists i, c|right; by exists j, d].
  - assert (c_fd c ∈ fds (table s) ∖ Acceptor.own (acceptor_ s)) as Hin by (apply Hfds; right; by exists i, c).
    apply elem_of_difference in Hin as [Hin Hown]. rewrite close_open by done. split.
    + destruct (i_acceptor _ _ Hi) as [H1 H2 H3 H4]. constructor; cbn; try done; set_solver.
    + intros fd. cbn. rewrite Hnew.
      replace (fds (table s) ∖ {[c_fd c]} ∖ Acceptor.own (acceptor_ s)) with
              (fds (table s) ∖ Acceptor.own (acceptor_ s) ∖ {[c_fd c]}) by set_solver.
      rewrite elem_of_difference, Hfds, elem_of_singleton. split.
      * intros [[?|(j & d & Hj & Hd & <-)] Hne]; [by left|]. right. right. exists j, d. split_and!; try done. intros ->. by simplify_eq.
      * intros [Ho|[[? _]|(j & d & Hne & Hj & Hd & <-)]]; [|done|].
        { split; [by left|]. intros ->. by apply (i_others _ _ Hi i c Hc Ec). }
        { split; [right; by exists j, d|]. intros F. apply Hne. by apply (i_unique _ _ Hi j i d c). }
  - split; [apply Hi|]. intros fd. rewrite Hfds, Hnew. split.
    + intros [?|(j & d & Hj & Hd & <-)]; [by left|]. right. destruct (decide (j = i)) as [->|]; [simplify_eq; congruence|]. right. by exists j, d.
    + intros [?|[[? _]|(j & d & ? & ? & ? & <-)]]; [by left|done|right; by exists j, d].
Qed.

(** A step that changes connection [i] and nothing of the others. *)
Lemma inv_upd o i c c' q m t s :
  inv o s → conns s !! i = Some c → c_name c' = c_name c → c_loop c' = c_loop c → c_fd c' = c_fd c →
  queue_change i c (queue s) q → map_change i c (connections_ s) m → table_change c c' (table s) t →
  conn_ok i c' (upd i c' q m t s) → inv o (upd i c' q m t s).
Proof.
  intros Hi Hc Hname Hloop Hfd (Hq1 & Hq2 & Hq3) (Hm1 & Hm2 & Hm3) Ht Hok.
  pose proof (lookup_lt_Some _ _ _ Hc) as Hlt. destruct (upd_table o i c c' s t Hi Hc Hfd Ht) as [Hacc Hfds].
  assert (∀ j d, <[i := c']> (conns s) !! j = Some d → (j = i ∧ d = c') ∨ (j ≠ i ∧ conns s !! j = Some d)) as Hget.
  { intros j d Hj. destruct (decide (j = i)) as [->|Hne].
    - rewrite list_lookup_insert_eq in Hj by done. by simplify_eq; left.
    - rewrite list_lookup_insert_ne in Hj by done. by right. }
  assert (∀ j d, <[i := c']> (conns s) !! j = Some d → fd_open d = true → ∃ d', conns s !! j = Some d' ∧ fd_open d' = true ∧ c_fd d' = c_fd d) as Hold.
  { intros j d [[-> ->]|[Hne Hj]]%Hget Ho; [|by exists d]. exists c. split_and!; [done|by apply Ht|done]. }
  assert (∀ j, (∃ d, conns s !! j = Some d) → ∃ d, <[i := c']> (conns s) !! j = Some d) as Hex.
  { intros j [d Hd]. apply lookup_lt_is_Some. rewrite length_insert. by apply lookup_lt_Some in Hd. }
  constructor; cbn; try apply Hi; try done.
  - destruct (i_pool _ _ Hi) as (H1 & H2 & H3). split_and!; [done..|]. intros Hne. cbn. rewrite length_insert. by apply H3.
  - rewrite length_insert. apply Hi.
  - rewrite length_insert. apply Hi.
  - intros j d [[-> ->]|[Hne Hj]]%Hget; [rewrite Hname, Hloop|]; by apply (i_names _ _ Hi).
  - intros k v Hk. destruct (decide (k = c_name c)) as [->|Hk'].
    + specialize (Hm3 _ Hk) as ->. exists i, c'. by rewrite list_lookup_insert_eq.
    + rewrite Hm2 in Hk by done. destruct (i_map _ _ Hi _ _ Hk) as (j & d & -> & Hj & <-).
      exists j, d. rewrite list_lookup_insert_ne; [done|]. intros ->. by simplify_eq.
  - intros j d [[-> ->]|[Hne Hj]]%Hget; [done|]. destruct (i_conns _ _ Hi j d Hj) as [H1 H2 H3 H4].
    assert (c_name d ≠ c_name c) as Hnn.
    { intros E. apply Hne. rewrite (proj1 (i_names _ _ Hi _ _ Hj)), (proj1 (i_names _ _ Hi _ _ Hc)) in E.
      pose proof (lookup_lt_Some _ _ _ Hj). pose proof (i_few _ _ Hi). apply conn_name_inj in E; lia. }
    constructor; [|intros Hg; destruct (H2 Hg) as [? Hr]; split; [done|]|done|done].
    + unfold stage in *. cbn. rewrite Hq1, Hm2 by done. exact H1.
    + apply (referenced_other i j s c c'); [congruence|done|apply Hi|done|done|by apply Hq2|done].
  - intros l f Hin. destruct (Hq3 _ _ Hin) as [Hin'|[<- Hlf]].
    + destruct (i_queue _ _ Hi _ _ Hin') as (d & Hd & Hlf). destruct (decide (conn_of f = i)) as [E|Hne].
      * rewrite E in *. simplify_eq. exists c'. by rewrite list_lookup_insert_eq, Hloop.
      * exists d. by rewrite list_lookup_insert_ne.
    + exists c'. rewrite list_lookup_insert_eq by done. by rewrite Hloop.
  - intros j Hj. apply Hex. by apply (i_held _ _ Hi).
  - intros j Hj. apply Hex. by apply (i_calls _ _ Hi).
  - intros j d Hj Ho. destruct (Hold _ _ Hj Ho) as (d' & Hd' & Ho' & <-). by apply (i_others _ _ Hi j).
  - intros j1 j2 d1 d2 Hj1 Hj2 Ho1 Ho2 E. destruct (Hold _ _ Hj1 Ho1) as (d1' & Hd1 & Ho1' & E1).
    destruct (Hold _ _ Hj2 Ho2) as (d2' & Hd2 & Ho2' & E2). by apply (i_unique _ _ Hi j1 j2 d1' d2'); try congruence.
Qed.

(** *** The operations on one connection *)

Lemma upd_self i c s : conns s !! i = Some c → s = upd i c (queue s) (connections_ s) (table s) s.
Proof. intros Hc. unfold upd. rewrite list_insert_id by done. by destruct s. Qed.

Section One.
Context (i : nat) (s : Server) (Hlt : (i < length (conns s))%nat).

Lemma lookup_upd c q m t : conns (upd i c q m t s) !! i = Some c.
Proof. cbn. by rewrite list_lookup_insert_eq. Qed.

Lemma on_conn_upd f c q m t : on_conn i f (upd i c q m t s) = upd i (f c) q m t s.
Proof.
  unfold on_conn. rewrite (alter_some f i _ c) by apply lookup_upd. unfold set_conns, upd. cbn. by rewrite list_insert_insert_eq.
Qed.

Lemma state_upd c q m t : state_of i (upd i c q m t s) = c_state c.
Proof. unfold state_of. by rewrite lookup_upd. Qed.

Lemma watched_upd c q m t : watched_of i (upd i c q m t s) = c_watched c.
Proof. unfold watched_of. by rewrite lookup_upd. Qed.

Lemma destroyed_upd c q m t : destroyed_of i (upd i c q m t s) = c_destroyed c.
Proof. unfold destroyed_of. by rewrite lookup_upd. Qed.

Lemma loop_upd c q m t : loop_of i (upd i c q m t s) = c_loop c.
Proof. unfold loop_of. by rewrite lookup_upd. Qed.

Lemma name_upd c q m t : name_of i (upd i c q m t s) = c_name c.
Proof. unfold name_of. by rewrite lookup_upd. Qed.

Lemma removeConnectionInLoop_upd c q m t :
  alive s = true → sorted m → find (c_name c) m = Some (Some i) →
  removeConnectionInLoop i (upd i c q m t s) =
    Ok (upd i c (q ++ [(c_loop c, FDestroy i)]) (erase (c_name c) m) t s).
Proof.
  intros Ha Hs Hm. unfold removeConnectionInLoop. rewrite name_upd. cbn [upd alive connections_]. rewrite Ha. cbn [negb].
  rewrite !Hm. cbn [Z.eqb]. change (set_connections ?m' (upd i c q m t s)) with (upd i c q m' t s).
  unfold loop_queue. by rewrite loop_upd.
Qed.

Lemma conn_close_upd cur c q m t :
  alive s = true → sorted m → find (c_name c) m = Some (Some i) →
  c_state c = kConnected ∨ c_state c = kDisconnecting →
  conn_close cur i (upd i c q m t s) =
    Ok (if cur =? loop_ s
        then upd i (set_closed c) (q ++ [(c_loop c, FDestroy i)]) (erase (c_name c) m) t s
        else upd i (set_closed c) (q ++ [(loop_ s, FRemove i)]) m t s).
Proof.
  intros Ha Hs Hm Hst. unfold conn_close. rewrite state_upd, on_conn_upd.
  assert (bool_decide (c_state c = kConnected) || bool_decide (c_state c = kDisconnecting) = true) as ->
    by (by destruct Hst as [-> | ->]).
  unfold removeConnection. cbn [upd alive]. rewrite Ha. cbn [negb].
  change (loop_ (upd i ?c' q m t s)) with (loop_ s). destruct (cur =? loop_ s); [|done].
  by rewrite removeConnectionInLoop_upd.
Qed.
Lemma conn_destroyed_upd c q m t :
  c_destroyed c = false →
  conn_destroyed i (upd i c q m t s) =
    (let c1 := if bool_decide (c_state c = kConnected) then set_closed c else c in
     if c_watched c1 then Err AssertFailed
     else Ok (upd i (set_destroyed c1) q m (if c_forced c then close (c_fd c) t else t) s)).
Proof.
  intros Hd. unfold conn_destroyed. rewrite state_upd. destruct (bool_decide (c_state c = kConnected)).
  - rewrite on_conn_upd, watched_upd, destroyed_upd. cbn [set_closed set_watched set_cstate c_watched c_destroyed negb].
    rewrite Hd, on_conn_upd, lookup_upd. cbn [negb set_destroyed c_forced c_fd set_closed set_watched set_cstate]. by destruct (c_forced c).
  - rewrite watched_upd, destroyed_upd, Hd, on_conn_upd, lookup_upd. cbn [negb set_destroyed c_forced c_fd].
    by destruct (c_watched c), (c_forced c).
Qed.
End One.

Lemma queue_change_refl i c q : queue_change i c q q.
Proof. split_and!; auto. Qed.

Lemma jobs_app i q q' : jobs i (q ++ q') = jobs i q ++ jobs i q'.
Proof. apply filter_app. Qed.

Lemma jobs_other i j l f : conn_of f = i → j ≠ i → jobs j [(l, f)] = [].
Proof.
  intros <- Hne. unfold jobs. rewrite filter_cons, filter_nil. rewrite decide_False; [done|].
  destruct f; cbn in *; try done; intros F%Nat.eqb_eq; congruence.
Qed.

Lemma queue_change_push i c q q' l f :
  queue_change i c q q' → conn_of f = i → (f = FForceClose i → l = c_loop c) → queue_change i c q (q' ++ [(l, f)]).
Proof.
  intros (H1 & H2 & H3) Hf Hl. split_and!.
  - intros j Hne. by rewrite jobs_app, (jobs_other i j l f), app_nil_r, H1.
  - intros j Hne. rewrite map_app, elem_of_app. intros [?|?]; [by apply H2|]. set_solver.
  - intros l' f' [?|?]%elem_of_app; [by apply H3|]. assert (l' = l ∧ f' = f) as [-> ->] by set_solver. by right.
Qed.

Lemma jobs_force i j q l : jobs i (q ++ [(l, FForceClose j)]) = jobs i q.
Proof. rewrite jobs_app. unfold jobs at 2. by rewrite filter_cons, filter_nil, decide_False, app_nil_r. Qed.

Lemma pop_split l q f q' : pop l q = Some (f, q') → ∃ q1 q2, q = q1 ++ (l, f) :: q2 ∧ q' = q1 ++ q2.
Proof.
  revert f q'. induction q as [|[l' g] q IH]; intros f q' H; cbn in H; [done|].
  destruct (Z.eqb_spec l' l) as [->|Hne]; [simplify_eq; by exists [], q'|].
  destruct (pop l q) as [[h r]|]; [|done]. simplify_eq. destruct (IH _ _ eq_refl) as (q1 & q2 & -> & ->).
  by exists ((l', g) :: q1), q2.
Qed.

Lemma queue_change_pop i c l q f q' : pop l q = Some (f, q') → conn_of f = i → queue_change i c q q'.
Proof.
  intros (q1 & q2 & -> & ->)%pop_split Hf. split_and!.
  - intros j Hne. change ((l, f) :: q2) with ([(l, f)] ++ q2). by rewrite !jobs_app, (jobs_other i j l f).
  - intros j Hne. rewrite !map_app. cbn. set_solver.
  - intros l' f' H. left. set_solver.
Qed.

(** The functor that a loop takes from the queue. *)
Lemma pop_jobs i l q f q' :
  pop l q = Some (f, q') → conn_of f = i → (l, f) ∈ q ∧
  match f with
  | FForceClose _ => jobs i q' = jobs i q
  | _ => ∀ x, jobs i q = [x] → x = (l, f) ∧ jobs i q' = []
  end ∧ (f ≠ FForceClose i → jobs i q ≠ []).
Proof.
  intros (q1 & q2 & -> & ->)%pop_split Hf. split; [set_solver|].
  assert (jobs i [(l, f)] = match f with FForceClose _ => [] | _ => [(l, f)] end) as Hj.
  { unfold jobs. rewrite filter_cons, filter_nil. destruct f; cbn in *; subst; try done; by rewrite decide_True by apply Nat.eqb_refl. }
  change ((l, f) :: q2) with ([(l, f)] ++ q2). rewrite !jobs_app, Hj.
  destruct f; (split; [try done|try (intros _ F; by destruct (jobs i q1))]); try (cbn in *; congruence).
  all: intros x Hx; destruct (jobs i q1) as [|y r]; cbn in *; [by simplify_eq|]; by destruct r.
Qed.

Lemma map_change_refl o i c s : inv o s → conns s !! i = Some c → map_change i c (connections_ s) (connections_ s).
Proof.
  intros Hi Hc. split_and!; [apply Hi|done|]. intros v Hv. destruct (i_map _ _ Hi _ _ Hv) as (j & d & -> & Hd & E).
  f_equal. rewrite (proj1 (i_names _ _ Hi _ _ Hd)), (proj1 (i_names _ _ Hi _ _ Hc)) in E.
  pose proof (lookup_lt_Some _ _ _ Hd). pose proof (lookup_lt_Some _ _ _ Hc). pose proof (i_few _ _ Hi).
  apply conn_name_inj in E; lia.
Qed.

Lemma map_change_erase i c m : sorted m → map_change i c m (erase (c_name c) m) ∧ find (c_name c) (erase (c_name c) m) = None.
Proof.
  intros Hs. split; [split_and!|].
  - by apply erase_sorted.
  - intros k Hk. rewrite find_erase by done. by rewrite decide_False.
  - intros v. rewrite find_erase by done. by rewrite decide_True.
  - rewrite find_erase by done. by rewrite decide_True.
Qed.

(** A connection of which something is queued, or that is watched, exists. *)
Lemma queued_exists o s l f :
  inv o s → (l, f) ∈ queue s → ∃ c, conns s !! conn_of f = Some c ∧ c_gone c = false ∧ (f = FForceClose (conn_of f) → l = c_loop c).
Proof.
  intros Hi Hin. destruct (i_queue _ _ Hi _ _ Hin) as (c & Hc & Hl). exists c. split_and!; [done| |done].
  destruct (c_gone c) eqn:E; [|done]. destruct (k_gone _ _ _ (i_conns _ _ Hi _ _ Hc) E) as [_ Hr].
  unfold referenced in Hr. bool_prop. exfalso.
  match goal with H : _ ∉ map _ (queue s) |- _ => apply H end. apply list_elem_of_fmap. by exists (l, f).
Qed.

Lemma jobs_self i l f : conn_of f = i → f ≠ FForceClose i → jobs i [(l, f)] = [(l, f)].
Proof.
  intros Hf Hne. unfold jobs. rewrite filter_cons, filter_nil. destruct f; cbn in *; subst; try done; by rewrite decide_True by apply Nat.eqb_refl.
Qed.

(** What is known of a connection that is watched. *)
Lemma open_facts o i c s :
  inv o s → conns s !! i = Some c → c_state c = kConnected ∨ c_state c = kDisconnecting →
  jobs i (queue s) = [] ∧ find (c_name c) (connections_ s) = Some (Some i) ∧
  c_destroyed c = false ∧ c_gone c = false ∧ c_forced c = false.
Proof.
  intros Hi Hc Hst. destruct (i_conns _ _ Hi _ _ Hc) as [H1 H2 H3]. unfold stage in H1.
  assert (jobs i (queue s) = [] ∧ find (c_name c) (connections_ s) = Some (Some i) ∧ c_destroyed c = false) as (E1 & E2 & E3)
    by (by destruct Hst as [E|E]; rewrite E in H1).
  split_and!; try done.
  - destruct (c_gone c); [|done]. destruct (H2 eq_refl). congruence.
  - destruct (c_forced c); [|done]. rewrite (H3 eq_refl) in Hst. by destruct Hst.
Qed.

Lemma conn_close_ok o i c c1 q s cur :
  inv o s → conns s !! i = Some c → c_state c = kConnected ∨ c_state c = kDisconnecting →
  c1 = c ∨ c1 = set_forced c → queue_change i c (queue s) q → jobs i q = [] →
  wp (conn_close cur i (upd i c1 q (connections_ s) (table s) s)) (inv o).
Proof.
  intros Hi Hc Hst Hc1 Hq Hj. destruct (open_facts o i c s Hi Hc Hst) as (E1 & E2 & E3 & E4 & E5).
  pose proof (lookup_lt_Some _ _ _ Hc) as Hlt.
  assert (c_name c1 = c_name c ∧ c_loop c1 = c_loop c ∧ c_fd c1 = c_fd c ∧ c_destroyed c1 = false ∧ c_gone c1 = false ∧
          c_state c1 = c_state c) as (N1 & N2 & N3 & N4 & N5 & N6) by (by destruct Hc1 as [-> | ->]).
  assert (table_change c (set_closed c1) (table s) (table s)) as Ht.
  { assert (fd_open c = true) as Ho by (unfold fd_open; by rewrite E5, E4).
    assert (fd_open (set_closed c1) = true) as Ho' by (unfold fd_open; cbn; rewrite N4, N5; by destruct (c_forced c1)).
    unfold table_change. by rewrite Ho, Ho'. }
  rewrite conn_close_upd; [|done|apply Hi|apply Hi|by rewrite N1|by rewrite N6].
  cbn [wp]. destruct (map_change_erase i c (connections_ s) (i_sorted _ _ Hi)) as [Hm Hn].
  destruct (Z.eqb_spec cur (loop_ s)) as [Ecur|Ecur]; eapply inv_upd; try done.
  - apply queue_change_push; [done|done|]. intros F. done.
  - by rewrite N1.
  - constructor; cbn; [|by rewrite N5|done|done]. unfold stage. cbn. rewrite jobs_app, Hj, jobs_self, N1, Hn by done. right. left. by rewrite N4.
  - apply queue_change_push; [done|done|]. intros F. done.
  - by apply (map_change_refl o).
  - constructor; cbn; [|by rewrite N5|done|done]. unfold stage. cbn. rewrite jobs_app, Hj, jobs_self, N1 by done. left. by rewrite N4.
Qed.

(** A loop runs its next functor. *)
Lemma exec_ok o l f q s : inv o s → pop l (queue s) = Some (f, q) → wp (exec l f (set_queue q s)) (inv o).
Proof.
  intros Hi Hp. set (i := conn_of f). destruct (pop_jobs i l (queue s) f q Hp eq_refl) as (Hin & Hj & Hne).
  destruct (queued_exists o s l f Hi Hin) as (c & Hc & Hg & _). fold i in Hc.
  pose proof (queue_change_pop i c l (queue s) f q Hp eq_refl) as Hq. pose proof (map_change_refl o i c s Hi Hc) as Hmr.
  destruct (i_conns _ _ Hi _ _ Hc) as [Hst _ Hfo Hwa]. unfold stage in Hst. pose proof (lookup_lt_Some _ _ _ Hc) as Hlt.
  rewrite (upd_self i c s Hc). change (set_queue q (upd i c ?q' ?m ?t s)) with (upd i c q m t s).
  assert (∀ c', c_forced c' = c_forced c → c_gone c' = false → c_destroyed c' = false → c_forced c = false ∨ c_destroyed c = false →
          table_change c c' (table s) (table s)) as Ht.
  { intros c' F1 F2 F3 F4. unfold table_change. assert (fd_open c' = true) as -> by (unfold fd_open; rewrite F2, F3; by destruct (c_forced c')).
    assert (fd_open c = true) as -> by (unfold fd_open; rewrite Hg; by destruct (c_forced c), (c_destroyed c), F4). done. }
  destruct f as [n|n|n|n]; cbn in i; subst i; cbn [exec].
  - (* FEstablish *) destruct (c_state c) eqn:Es.
    { exfalso. destruct Hst as [(H & _)|[(H & _)|(H & _)]]; [by destruct (Hj _ H)..|by apply Hne]. }
    2,3: by exfalso; destruct Hst as (H & _); apply Hne.
    destruct Hst as (H & Hm & Hd). destruct (Hj _ H) as [_ Hj'].
    unfold conn_established. rewrite state_upd, on_conn_upd, Es by done. cbn [wp bool_decide].
    eapply inv_upd; try done; [apply Ht; auto|]. constructor; cbn; [by unfold stage; cbn|congruence| |done].
    intros F. by specialize (Hfo F).
  - (* FForceClose *) unfold conn_forceClose. rewrite state_upd, on_conn_upd by done.
    destruct (bool_decide (c_state c = kConnected) || bool_decide (c_state c = kDisconnecting)) eqn:Eb.
    + assert (c_state c = kConnected ∨ c_state c = kDisconnecting) as Hop by (by destruct (c_state c); auto).
      destruct (open_facts _ _ _ _ Hi Hc Hop) as (E1 & _). eapply conn_close_ok; try done; [by right|by rewrite Hj].
    + cbn. eapply inv_upd; try done.
      * split; [done|]. by destruct (fd_open c).
      * constructor; cbn; [|congruence|done|congruence]. unfold stage. cbn. rewrite Hj. exact Hst.
  - (* FRemove *) destruct (c_state c) eqn:Es.
    2-4: exfalso; destruct Hst as (H & _); first [by destruct (Hj _ H)|by apply Hne].
    destruct Hst as [(H & Hm & Hd)|[(H & _)|(H & _)]]; [|by destruct (Hj _ H)|by exfalso; apply Hne].
    destruct (Hj _ H) as [_ Hj']. rewrite removeConnectionInLoop_upd; [|done|apply Hi|apply Hi|done]. cbn [wp].
    destruct (map_change_erase n c (connections_ s) (i_sorted _ _ Hi)) as [Hm' Hn].
    eapply inv_upd; try done; [by apply queue_change_push|by apply Ht; auto|].
    constructor; cbn; [|congruence|done|by rewrite Hwa, Es]. unfold stage. cbn. rewrite Es, jobs_app, Hj', jobs_self, Hn, Hd by done. auto.
  - (* FDestroy *) destruct (c_state c) eqn:Es.
    2-4: exfalso; destruct Hst as (H & _); first [by destruct (Hj _ H)|by apply Hne].
    destruct Hst as [(H & _)|[(H & Hm & Hd)|(H & _)]]; [by destruct (Hj _ H)| |by exfalso; apply Hne].
    destruct (Hj _ H) as [_ Hj']. assert (c_watched c = false) as Hw by (by rewrite Hwa).
    rewrite conn_destroyed_upd, Es by done. cbv zeta. rewrite (bool_decide_false (kDisconnected = kConnected)), Hw by done. cbn [wp].
    set (c' := set_destroyed c).
    assert (∀ t, conn_ok n c' (upd n c' q (connections_ s) t s)) as Hok.
    { intros t. constructor; cbn; [|congruence|done|by rewrite Hw, Es]. unfold stage. cbn. rewrite Es. auto. }
    destruct (c_forced c) eqn:Ef; eapply inv_upd; try done.
    + unfold table_change, fd_open. cbn. by rewrite Ef, Hd.
    + unfold table_change, fd_open. cbn. by rewrite Ef, Hg.
Qed.

(** The program copies and drops [shared_ptr]s of objects that exist; callers of
    [forceClose] come and go. *)
Lemma inv_held o v w s :
  inv o s → (∀ i, i ∈ v → i ∈ held s ∨ exists_ i s) →
  (∀ i, i ∈ map call_conn w → i ∈ map call_conn (calls s) ∨ exists_ i s) → inv o (set_calls w (set_held v s)).
Proof.
  intros Hi Hv Hw. pose proof Hi as [? ? ? ? ? ? ? ? ? ? Hco ? Hh Hcl ? ? ? ?]. constructor; cbn; try done.
  - intros j d Hd. destruct (Hco j d Hd) as [Hk1 Hk2 Hk3 Hk4]. constructor; [done| |done|done].
    intros F. destruct (Hk2 F) as [? ?]. split; [done|]. unfold referenced in *. cbn. bool_prop.
    rewrite !bool_decide_false; [done|intros [?|(c & Hc & Hg)]%Hw|intros [?|(c & Hc & Hg)]%Hv|done|done]; congruence.
  - intros j [Hj|(c & Hc & _)]%Hv; [by apply Hh|by exists c].
  - intros j [Hj|(c & Hc & _)]%Hw; [by apply Hcl|by exists c].
Qed.

Lemma elem_of_delete {A} (x : A) (k : nat) (l : list A) : x ∈ delete k l → x ∈ l.
Proof. rewrite delete_take_drop. intros [Hj|Hj]%elem_of_app; [by apply subseteq_take in Hj|by apply subseteq_drop in Hj]. Qed.

(** The state of an open connection becomes [kDisconnecting]. *)
Lemma mark_ok o i c s :
  inv o s → conns s !! i = Some c → c_state c = kConnected ∨ c_state c = kDisconnecting →
  inv o (on_conn i (set_cstate kDisconnecting) s).
Proof.
  intros Hi Hc Hop. destruct (open_facts o i c s Hi Hc Hop) as (E1 & E2 & E3 & E4 & E5). pose proof (lookup_lt_Some _ _ _ Hc).
  pose proof (k_watched _ _ _ (i_conns _ _ Hi _ _ Hc)) as Hw.
  rewrite (upd_self i c s Hc), on_conn_upd by done. eapply inv_upd; try done; [apply queue_change_refl|by apply (map_change_refl o)| |].
  - unfold table_change, fd_open. cbn. by rewrite E5, E4.
  - constructor; cbn; [by unfold stage; cbn|congruence|congruence|]. rewrite Hw. by destruct Hop as [-> | ->].
Qed.

Lemma open_state_spec i s :
  open_state i s = true ↔ ∃ c, conns s !! i = Some c ∧ (c_state c = kConnected ∨ c_state c = kDisconnecting).
Proof.
  unfold open_state, state_of. destruct (conns s !! i) as [c|]; [|split; [done|by intros (? & ? & _)]].
  rewrite orb_true_iff, !bool_decide_eq_true. split; [by exists c|]. by intros (? & [= <-] & ?).
Qed.

Lemma marked_conns k i l : l !! k = Some (Passed i) → map call_conn (<[k := Marked i]> l) = map call_conn l.
Proof.
  intros Hk. change (map call_conn) with (fmap (M := list) call_conn). rewrite list_fmap_insert.
  apply list_insert_id. by rewrite list_lookup_fmap, Hk.
Qed.

(** A thread inside [forceClose] goes on. *)
Lemma force_step_ok o k s : inv o s → enabled (ForceStep k) s → inv o (force_step k s).
Proof.
  intros Hi He. cbn in He. unfold force_step. destruct (calls s !! k) as [[i|i]|] eqn:Ek; [| |done].
  - apply open_state_spec in He as (c & Hc & Hop). apply (inv_held o (held s) _ _ (mark_ok o i c s Hi Hc Hop)); [auto|].
    intros j Hj. left. by rewrite (marked_conns _ _ _ Ek) in Hj.
  - assert (i ∈ map call_conn (calls s)) as Hin.
    { apply list_elem_of_fmap. exists (Marked i). split; [done|]. by apply list_elem_of_lookup_2 in Ek. }
    destruct (i_calls _ _ Hi i Hin) as [c Hc]. destruct (i_conns _ _ Hi _ _ Hc) as [H1 H2 H3 H4].
    assert (c_gone c = false) as Hg.
    { destruct (c_gone c); [|done]. destruct (H2 eq_refl) as [_ F]. unfold referenced in F.
      by rewrite (bool_decide_true (i ∈ map call_conn _)), orb_true_r in F. }
    assert (inv o (loop_queue (loop_of i s) (FForceClose i) s)) as Hi'.
    { replace (loop_of i s) with (c_loop c) by (unfold loop_of; by rewrite Hc). rewrite (upd_self i c s Hc).
      unfold loop_queue. change (set_queue ?q' (upd i ?c' ?q ?m ?t s)) with (upd i c' q' m t s). cbn [upd queue].
      eapply inv_upd; try done; [by apply queue_change_push; [apply queue_change_refl|..]|by apply (map_change_refl o)| |].
      - unfold table_change. split; [done|]. by destruct (fd_open c).
      - constructor; [|congruence|done|done]. unfold stage in *. cbn. by rewrite jobs_force. }
    apply (inv_held o (held s) _ _ Hi'); [auto|]. intros j (x & -> & Hx%elem_of_delete)%list_elem_of_fmap.
    left. apply list_elem_of_fmap. by exists x.
Qed.

(** An event of a connection. *)
Lemma conn_event_ok o e s :
  inv o s → enabled e s → match e with Acceptable _ _ _ | RunFunctor _ => False | _ => True end →
  wp (perform e s) (inv o).
Proof.
  intros Hi He Hkind. destruct e as [| |i|i|i|k|i|k|]; try done; cbn [perform wp].
  - cbn in He. unfold watched_of in He. destruct (conns s !! i) as [c|] eqn:Hc; [|done].
    assert (c_state c = kConnected ∨ c_state c = kDisconnecting) as Hop.
    { rewrite (k_watched _ _ _ (i_conns _ _ Hi _ _ Hc)), orb_true_iff, !bool_decide_eq_true in He. done. }
    destruct (open_facts o i c s Hi Hc Hop) as (E1 & _).
    rewrite (upd_self i c s Hc) at 2. eapply conn_close_ok; try done; [by left|apply queue_change_refl].
  - destruct He as (c & Hc & Hg). unfold state_of. rewrite Hc. destruct (bool_decide (c_state c = kConnected)) eqn:E; bool_prop; [|done].
    apply (mark_ok o i c); auto.
  - destruct (open_state i s); [|done]. apply (inv_held o (held s) (Passed i :: calls s)); [done|auto|].
    intros j [->|Hj]%elem_of_cons; [by right|by left].
  - by apply force_step_ok.
  - apply (inv_held o (i :: held s) (calls s)); [done| |auto]. intros j [->|Hj]%elem_of_cons; [by right|by left].
  - apply (inv_held o (delete k (held s)) (calls s)); [done| |auto]. intros j Hj%elem_of_delete. by left.
Qed.

(** *** A new connection *)

Lemma fresh_id o s : inv o s → jobs (length (conns s)) (queue s) = [] ∧ referenced (length (conns s)) s = false ∧
  find (conn_name s (length (conns s))) (connections_ s) = None.
Proof.
  intros Hi. pose proof (i_few _ _ Hi) as Hfew. set (n := length (conns s)).
  assert (∀ i c, conns s !! i = Some c → (i < n)%nat) as Hlt by (intros i c; apply lookup_lt_Some).
  split_and!.
  - destruct (jobs n (queue s)) as [|[l f] r] eqn:E; [done|].
    destruct (jobs_queue n (queue s) (l, f)) as [Hin Hf]; [rewrite E; left|]. cbn in Hf.
    destruct (i_queue _ _ Hi _ _ Hin) as (c & Hc & _). rewrite Hf in Hc. specialize (Hlt _ _ Hc). lia.
  - unfold referenced. rewrite !bool_decide_false; [done| | | |].
    + intros (c & Hc)%(i_calls _ _ Hi). specialize (Hlt _ _ Hc). lia.
    + intros (c & Hc)%(i_held _ _ Hi). specialize (Hlt _ _ Hc). lia.
    + intros ([l f] & E & Hin)%list_elem_of_fmap. cbn in E. destruct (i_queue _ _ Hi _ _ Hin) as (c & Hc & _).
      rewrite <- E in Hc. specialize (Hlt _ _ Hc). lia.
    + intros (k & Hk)%(in_map_find _ _ (i_sorted _ _ Hi)). destruct (i_map _ _ Hi _ _ Hk) as (i & c & [= <-] & Hc & _).
      specialize (Hlt _ _ Hc). lia.
  - destruct (find _ _) as [v|] eqn:E; [|done]. exfalso. destruct (i_map _ _ Hi _ _ E) as (i & c & -> & Hc & En).
    rewrite (proj1 (i_names _ _ Hi _ _ Hc)) in En. specialize (Hlt _ _ Hc). apply conn_name_inj in En; lia.
Qed.

(** [s] with a new connection. *)
Definition add (c : conn) (p : EventLoopThreadPool.EventLoopThreadPool) (q : list (Z * functor)) (t : Table) (s : Server) : Server :=
  mkServer (name_ s) (ipPort_ s) (acceptor_ s) p (started_ s) (nextConnId_ s + 1) (put (c_name c) (Some (length (conns s))) (connections_ s))
    (conns s ++ [c]) q (held s) (calls s) t (alive s).

Lemma inv_add o s c p q fd :
  inv o s → zlen (conns s) + 1 < 2 ^ 31 - 1 → 0 ≤ fd → fd ∉ fds (table s) →
  c_name c = conn_name s (length (conns s)) → c_loop c = conn_loop s (length (conns s)) → c_fd c = fd →
  c_forced c = false → c_destroyed c = false → c_gone c = false →
  c_state c = kConnecting ∧ c_watched c = false ∧ q = queue s ++ [(c_loop c, FEstablish (length (conns s)))] ∨
  c_state c = kConnected ∧ c_watched c = true ∧ q = queue s →
  EventLoopThreadPool.loops_ p = EventLoopThreadPool.loops_ (threadPool_ s) →
  EventLoopThreadPool.baseLoop_ p = EventLoopThreadPool.baseLoop_ (threadPool_ s) →
  pool_ok (add c p q (give fd (table s)) s) →
  inv o (add c p q (give fd (table s)) s).
Proof.
  intros Hi Hfew Hfd Hnew Hname Hloop Hcfd Hforced Hdest Hgone Hst Hpl Hpb Hpool.
  destruct (fresh_id o s Hi) as (Hj & Hr & Hm). set (n := length (conns s)) in *.
  assert (fd_open c = true) as Hopen by (unfold fd_open; by rewrite Hforced, Hgone).
  assert (∀ i d, (conns s ++ [c]) !! i = Some d ↔ conns s !! i = Some d ∨ (i = n ∧ d = c)) as Hget.
  { intros i d. rewrite lookup_app_Some, list_lookup_singleton_Some. split; [intros [?|[? [? ?]]]; [by left|right; split; [lia|done]]|].
    intros [?|[-> ->]]; [by left|]. right. split; [lia|]. split; [lia|done]. }
  assert (∀ l f, (l, f) ∈ q → (l, f) ∈ queue s ∨ (l = c_loop c ∧ f = FEstablish n)) as Hq.
  { intros l f Hin. destruct Hst as [(_ & _ & ->)|(_ & _ & ->)]; [|by left]. apply elem_of_app in Hin as [?|Hin]; [by left|].
    apply list_elem_of_singleton in Hin as [= -> ->]. by right. }
  assert (∀ i, i ≠ n → jobs i q = jobs i (queue s)) as Hjo.
  { intros i Hne. destruct Hst as [(_ & _ & ->)|(_ & _ & ->)]; [|done]. by rewrite jobs_app, (jobs_other n), app_nil_r. }
  assert (∀ i d, conns s !! i = Some d → i ≠ n ∧ c_name d ≠ c_name c) as Hold.
  { intros i d Hd. pose proof (lookup_lt_Some _ _ _ Hd). split; [lia|]. rewrite Hname, (proj1 (i_names _ _ Hi _ _ Hd)).
    intros E. apply conn_name_inj in E; lia. }
  assert (fd ∉ Acceptor.own (acceptor_ s)) as Hown by (pose proof (Acceptor.ao_own _ _ (i_acceptor _ _ Hi)); set_solver).
  assert (∀ i d, conns s !! i = Some d → fd_open d = true → c_fd d ≠ fd ∧ c_fd d ∉ others o) as Hfds.
  { intros i d Hd Ho. split; [|by apply (i_others _ _ Hi i)]. intros <-. apply Hnew.
    assert (c_fd d ∈ fds (table s) ∖ Acceptor.own (acceptor_ s)) as H by (apply (i_fds _ _ Hi); right; by exists i, d). set_solver. }
  constructor; cbn; try apply Hi; try done.
  - apply Acceptor.accepted_ok; [apply Hi|done|done].
  - rewrite length_app. cbn. rewrite (i_next _ _ Hi). lia.
  - rewrite length_app. cbn. lia.
  - unfold conn_loop, conn_name, loop_. cbn. rewrite Hpl, Hpb.
    intros i d [Hd|[-> ->]]%Hget; [by apply (i_names _ _ Hi)|by split; [rewrite Hname|rewrite Hloop]].
  - apply put_sorted, Hi.
  - intros k v. rewrite find_put by apply Hi. case_decide as Hk; [intros [= <-]; exists n, c|].
    + split_and!; [done|by apply Hget; right|done].
    + intros Hv. destruct (i_map _ _ Hi _ _ Hv) as (i & d & -> & Hd & <-). exists i, d. split_and!; [done|by apply Hget; left|done].
  - intros i d [Hd|[-> ->]]%Hget.
    + destruct (Hold _ _ Hd) as [Hne Hnn]. destruct (i_conns _ _ Hi _ _ Hd) as [Hk1 Hk2 Hk3 Hk4]. constructor; [| |done|done].
      * unfold stage in *. cbn. rewrite Hjo, find_put, decide_False by (done || apply Hi).
        change (loop_ (add c p q (give fd (table s)) s)) with (EventLoopThreadPool.baseLoop_ p). by rewrite Hpb.
      * intros F. destruct (Hk2 F) as [? ?]. split; [done|]. unfold referenced in *. cbn. bool_prop.
        rewrite !bool_decide_false; [done|done|done| |].
        { intros ([l f] & -> & Hin)%list_elem_of_fmap. cbn in *. destruct (Hq _ _ Hin) as [Hin'|[_ ->]]; [|done].
          match goal with H : _ ∉ map _ (queue s) |- _ => apply H end. apply list_elem_of_fmap. by exists (l, f). }
        { intros (k & Hk)%(in_map_find _ _ (put_sorted _ _ _ (i_sorted _ _ Hi))). rewrite find_put in Hk by apply Hi.
          case_decide; [by injection Hk as E; destruct Hne|]. by apply find_in_map in Hk. }
    + constructor; [|congruence|congruence|by destruct Hst as [(-> & -> & _)|(-> & -> & _)]].
      unfold stage. cbn. rewrite find_put, decide_True by (done || apply Hi).
      destruct Hst as [(-> & _ & ->)|(-> & _ & ->)]; [rewrite jobs_app, Hj, jobs_self by done|rewrite Hj]; done.
  - intros l f [Hin|[-> ->]]%Hq; cbn.
    + destruct (i_queue _ _ Hi _ _ Hin) as (d & Hd & Hl). exists d. split; [by apply Hget; left|done].
    + exists c. split; [by apply Hget; right|done].
  - intros i Hin. destruct (i_held _ _ Hi i Hin) as [d Hd]. exists d. apply Hget. by left.
  - intros i Hin. destruct (i_calls _ _ Hi i Hin) as [d Hd]. exists d. apply Hget. by left.
  - intros fd'. rewrite fds_give by done.
    replace (({[fd]} ∪ fds (table s)) ∖ Acceptor.own (acceptor_ s)) with ({[fd]} ∪ fds (table s) ∖ Acceptor.own (acceptor_ s)) by set_solver.
    rewrite elem_of_union, elem_of_singleton, (i_fds _ _ Hi). split.
    + intros [->|[?|(i & d & Hd & Ho & <-)]]; [right|by left|right].
      * exists n, c. split_and!; [by apply Hget; right|done|done].
      * exists i, d. split_and!; [by apply Hget; left|done|done].
    + intros [?|(i & d & [Hd|[-> ->]]%Hget & Ho & <-)]; [by right; left|right; right; by exists i, d|by left].
  - intros i d [Hd|[-> ->]]%Hget Ho; [by apply (Hfds i)|]. rewrite Hcfd. intros F. apply Hnew.
    assert (fd ∈ fds (table s) ∖ Acceptor.own (acceptor_ s)) as H by (apply (i_fds _ _ Hi); by left). set_solver.
  - intros i j d1 d2 [Hd1|[-> ->]]%Hget [Hd2|[-> ->]]%Hget Ho1 Ho2 E; [by apply (i_unique _ _ Hi i j d1 d2)| | |done].
    + destruct (Hfds _ _ Hd1 Ho1). congruence.
    + destruct (Hfds _ _ Hd2 Ho2). congruence.
  - unfold loop_. cbn. rewrite Hpl, Hpb. apply Hi.
Qed.

(** [getNextLoop()] gives the loop of the next connection. *)
Lemma next_loop o s :
  inv o s → ∃ p, EventLoopThreadPool.getNextLoop true (threadPool_ s) = Ok (conn_loop s (length (conns s)), p) ∧
    EventLoopThreadPool.loops_ p = EventLoopThreadPool.loops_ (threadPool_ s) ∧
    EventLoopThreadPool.baseLoop_ p = EventLoopThreadPool.baseLoop_ (threadPool_ s) ∧
    ∀ c q t, pool_ok (add c p q t s).
Proof.
  intros Hi. destruct (i_pool _ _ Hi) as (H1 & H2 & H3). unfold conn_loop. set (ls := EventLoopThreadPool.loops_ (threadPool_ s)) in *.
  destruct (decide (ls = [])) as [E|E].
  - exists (threadPool_ s). rewrite bool_decide_true by done. split_and!; try done.
    unfold EventLoopThreadPool.getNextLoop. cbn. rewrite H1. change (EventLoopThreadPool.loops_ (threadPool_ s)) with ls.
    by rewrite bool_decide_true.
  - rewrite bool_decide_false by done. assert (0 < zlen ls) as Hn by (destruct ls; [done|cbn; lia]).
    specialize (H3 E). pose proof (Z.mod_pos_bound (zlen (conns s)) (zlen ls) Hn) as Hb.
    eexists. rewrite EventLoopThreadPool.getNextLoop_spec; [|done|fold ls; lia|done]. fold ls. rewrite H3.
    split_and!; [done..|]. intros c q t. split_and!; [done..|]. intros _. cbn. fold ls. rewrite length_app. cbn.
    rewrite Zplus_mod_idemp_l. f_equal. lia.
Qed.

Lemma acceptable_ok o answer again reopen s :
  inv o s → enabled (Acceptable answer again reopen) s →
  match acceptable answer again reopen s with
  | Ok s' => inv o s'
  | Err f => f = FatalLog ∧ ∃ e, answer = Acceptor.Failed e ∧ Acceptor.expected e = false
  end.
Proof.
  intros Hi (_ & Hfew & Ha). unfold acceptable. pose proof (i_next _ _ Hi) as Hnx. destruct answer as [connfd peer|e].
  - destruct Ha as [Hp Hn]. unfold Acceptor.handleRead, Acceptor.accept. cbn [res_bind]. rewrite (i_callback _ _ Hi).
    cbn [res_bind]. unfold newConnection. cbn [set_table set_acceptor threadPool_].
    destruct (next_loop o s Hi) as (p & -> & Hpl & Hpb & Hpool). cbn [res_bind].
    set (n := length (conns s)). set (c := mkC (conn_name s n) connfd peer (conn_loop s n) kConnecting false false false false).
    match goal with |- context [connName ?x] => change (connName x) with (connName s) end.
    rewrite (connName_spec s) by (done || lia || apply Hi).
    match goal with |- context [nextConnId_ ?x +i 1] => change (nextConnId_ x) with (nextConnId_ s) end.
    rewrite i32_small by lia.
    match goal with |- context [loop_run _ _ _ ?s'] => change s' with (add c p (queue s) (give connfd (table s)) s) end.
    match goal with |- context [FEstablish ?k] => change k with n end.
    unfold loop_run. change (loop_ (add c p ?q ?t s)) with (EventLoopThreadPool.baseLoop_ p). cbn [c_loop].
    set (lp := conn_loop s n). destruct (EventLoopThreadPool.baseLoop_ p =? lp).
    + cbn [exec]. unfold conn_established, state_of, on_conn.
      assert (conns (add c p (queue s) (give connfd (table s)) s) !! n = Some c) as Hl by (cbn; by rewrite list_lookup_middle).
      rewrite Hl. cbn [bool_decide c_state c]. rewrite (alter_some _ n _ c) by done.
      match goal with |- match ?m with _ => _ end => assert (m = Ok (add (set_established c) p (queue s) (give connfd (table s)) s)) as -> end.
      { cbn. unfold set_conns, add. cbn. do 2 f_equal. rewrite insert_app_r_alt by done. by rewrite Nat.sub_diag. }
      apply (inv_add o s (set_established c) p (queue s) connfd); try done; [lia|by right].
    + unfold loop_queue. change (set_queue ?q' (add c p ?q ?t s)) with (add c p q' t s). cbn [queue add].
      apply (inv_add o s c p _ connfd); try done; [lia|by left].
  - pose proof (Acceptor.handleRead_failed e again reopen _ _ (i_acceptor _ _ Hi) Ha) as H.
    destruct (Acceptor.handleRead _ _ _ _ _) as [[[a' k'] handed]|f]; [|destruct H; split; [done|by exists e]].
    destruct H as (-> & _ & Hok & Hf & _ & [z ->]). cbn [res_bind].
    destruct Hi. constructor; cbn; try done.
    { intros i c Hc. destruct (i_conns0 i c Hc). by constructor. }
    intros fd.
    change (fd ∈ fds k' ∖ Acceptor.own (Acceptor.set_idleFd z (acceptor_ s)) ↔ fd ∈ others o ∨ ∃ i c, conns s !! i = Some c ∧ fd_open c = true ∧ c_fd c = fd).
    rewrite Hf. apply i_fds0.
Qed.

(** *** The destructors *)

(** A connection that nobody references has been destroyed by its loop. *)
Lemma unreferenced o i c s :
  inv o s → conns s !! i = Some c → referenced i s = false → c_state c = kDisconnected ∧ c_destroyed c = true.
Proof.
  intros Hi Hc Hr. destruct (i_conns _ _ Hi _ _ Hc) as [Hst _ _]. unfold stage in Hst.
  assert (∀ x, jobs i (queue s) = [x] → False) as Hj.
  { intros x E. assert (referenced i s = true); [|congruence]. apply referenced_job. by rewrite E. }
  assert (∀ k, find k (connections_ s) = Some (Some i) → False) as Hm.
  { intros k E%referenced_map. congruence. }
  destruct (c_state c).
  - split; [done|]. destruct Hst as [(H & _)|[(H & _)|(_ & _ & H)]]; [by apply Hj in H..|done].
  - by destruct Hst as (H & _); apply Hj in H.
  - by destruct Hst as (_ & H & _); apply Hm in H.
  - by destruct Hst as (_ & H & _); apply Hm in H.
Qed.

Lemma destruct_conn_ok o i c s :
  inv o s → conns s !! i = Some c → c_gone c = false → referenced i s = false →
  wp (destruct_conn i c s) (λ s', inv o s' ∧ ∃ t, s' = upd i (set_gone c) (queue s) (connections_ s) t s).
Proof.
  intros Hi Hc Hg Hr. destruct (unreferenced o i c s Hi Hc Hr) as [Hst Hd]. pose proof (lookup_lt_Some _ _ _ Hc) as Hlt.
  unfold destruct_conn. rewrite bool_decide_true, Hd by done.
  set (t := if c_forced c then table s else close (c_fd c) (table s)).
  assert (inv o (upd i (set_gone c) (queue s) (connections_ s) t s)) as Hinv.
  { apply (inv_upd o i c); try done; [apply queue_change_refl|by apply (map_change_refl o)| |].
    - unfold table_change, fd_open, t. cbn. rewrite Hg, Hd. by destruct (c_forced c).
    - destruct (i_conns _ _ Hi _ _ Hc) as [H1 H2 H3]. by constructor. }
  assert (∀ t', on_conn i set_gone s = upd i (set_gone c) (queue s) (connections_ s) (table s) s ∧
          set_table t' (on_conn i set_gone s) = upd i (set_gone c) (queue s) (connections_ s) t' s) as He.
  { intros t'. unfold on_conn, set_conns, upd, set_table. cbn. by rewrite (alter_some _ i _ c). }
  subst t. cbn [wp]. destruct (c_forced c); (split; [|eexists; by apply He]).
  - by rewrite (proj1 (He (table s))).
  - change (table (on_conn i set_gone s)) with (table s). by rewrite (proj2 (He _)).
Qed.

(** What destructors leave alone. *)
Definition only_gone (s s' : Server) : Prop :=
  connections_ s' = connections_ s ∧ queue s' = queue s ∧ held s' = held s ∧ calls s' = calls s ∧ length (conns s') = length (conns s) ∧
  ∀ i c', conns s' !! i = Some c' → ∃ c, conns s !! i = Some c ∧ (c' = c ∨ c' = set_gone c).

Lemma only_gone_referenced i s s' : only_gone s s' → referenced i s' = referenced i s.
Proof. intros (E1 & E2 & E3 & E4 & _). unfold referenced. by rewrite E1, E2, E3, E4. Qed.

Lemma only_gone_trans s1 s2 s3 : only_gone s1 s2 → only_gone s2 s3 → only_gone s1 s3.
Proof.
  intros (A1 & A2 & A3 & A4 & A5 & A6) (B1 & B2 & B3 & B4 & B5 & B6). split_and!; try congruence.
  intros i c3 Hc3. destruct (B6 i c3 Hc3) as (c2 & Hc2 & H2). destruct (A6 i c2 Hc2) as (c1 & Hc1 & H1). exists c1. split; [done|].
  destruct H2 as [->| ->], H1 as [->| ->]; auto.
Qed.

Lemma collect_ok o ids s :
  inv o s → wp (collect ids s) (λ s', inv o s' ∧ only_gone s s' ∧
    ∀ i c, i ∈ ids → conns s' !! i = Some c → c_gone c = false → referenced i s' = true).
Proof.
  revert s. induction ids as [|i ids IH]; intros s Hi; cbn [collect].
  { cbn. split_and!; [done|split_and!; eauto|]. intros i c H. by apply not_elem_of_nil in H. }
  apply (wp_bind _ _ (λ s', inv o s' ∧ only_gone s s' ∧ ∀ c, conns s' !! i = Some c → c_gone c = false → referenced i s' = true)).
  - assert (only_gone s s) as Hself by (split_and!; eauto).
    destruct (conns s !! i) as [c|] eqn:Hc; [|by cbn; split_and!; [..|congruence]].
    destruct (c_gone c || referenced i s) eqn:E.
    + cbn. split_and!; [done..|]. intros d Hd Hg. simplify_eq. by rewrite Hg in E.
    + bool_prop. eapply wp_mono; [by apply destruct_conn_ok|]. intros s' (Hi' & t & ->).
      pose proof (lookup_lt_Some _ _ _ Hc) as Hlt. split_and!; [done| |].
      * split_and!; [done|done|done|done|cbn; by rewrite length_insert|]. cbn. intros j d Hd.
        destruct (decide (j = i)) as [->|Hne].
        { rewrite list_lookup_insert_eq in Hd by done. simplify_eq. exists c. auto. }
        { rewrite list_lookup_insert_ne in Hd by done. exists d. auto. }
      * intros d Hd Hg. rewrite lookup_upd in Hd by done. by simplify_eq.
  - intros s1 (Hi1 & Ho1 & H1). eapply wp_mono; [by apply IH|]. intros s2 (Hi2 & Ho2 & H2).
    split_and!; [done|by eapply only_gone_trans|]. intros j c [->|Hj]%elem_of_cons Hc Hg; [|by eapply H2].
    rewrite (only_gone_referenced _ _ _ Ho2). destruct Ho2 as (_ & _ & _ & _ & _ & Ho2).
    destruct (Ho2 _ _ Hc) as (c1 & Hc1 & [->| ->]); [by eapply H1|done].
Qed.

(** *** Reachable states *)

Lemma step_ok o e s :
  inv o s → enabled e s →
  match step e s with
  | Ok s' => inv o s' ∧ settled s'
  | Err f => f = FatalLog ∧ ∃ e' again reopen, e = Acceptable (Acceptor.Failed e') again reopen ∧ Acceptor.expected e' = false
  end.
Proof.
  intros Hi He. unfold step.
  assert (match perform e s with
          | Ok s' => inv o s'
          | Err f => f = FatalLog ∧ ∃ e' again reopen, e = Acceptable (Acceptor.Failed e') again reopen ∧ Acceptor.expected e' = false
          end) as Hp.
  { destruct e as [answer again reopen|l|i|i|i|k|i|k|].
    { pose proof (acceptable_ok o answer again reopen s Hi He) as H. cbn [perform].
      destruct (acceptable _ _ _ _) as [s'|f]; [done|]. destruct H as (-> & e' & -> & ?). eauto 10. }
    { cbn in *. destruct (pop l (queue s)) as [[f q]|] eqn:Ep; [|done]. pose proof (exec_ok o l f q s Hi Ep) as H.
      by destruct (exec _ _ _). }
    all: pose proof (conn_event_ok o _ s Hi He I) as H; by destruct (perform _ _). }
  destruct (perform e s) as [s'|f]; [|done]. cbn [res_bind].
  pose proof (collect_ok o (seq 0 (length (conns s'))) s' Hp) as H. destruct (collect _ _) as [s2|]; [|done].
  destruct H as (H1 & H2 & H3). split; [done|]. intros i c Hc. eapply H3; [|done].
  apply elem_of_seq. apply lookup_lt_Some in Hc. destruct H2 as (_ & _ & _ & _ & E & _). lia.
Qed.

(** The kernel's table when the program starts the server. *)
Record start_ok (others : gset Z) (n : Z) (ipPort : bytes) (sock idle : Z) : Prop := {
  so_others : ∀ fd, fd ∈ others → 0 ≤ fd;
  so_sock : 0 ≤ sock ∧ sock ∉ others;
  so_idle : 0 ≤ idle ∧ idle ∉ others ∧ sock ≠ idle;
  so_threads : 0 ≤ n < 2 ^ 31 - 1;
  so_text : zlen ipPort ≤ 50;
}.

#[local] Arguments give : simpl never.

(** A server can be started, and then satisfies the invariant. *)
Lemma started_server_ok o n nameArg ipPort sock idle :
  start_ok o n ipPort sock idle →
  wp (started_server n nameArg ipPort sock idle (mkTable o []))
     (λ s, inv (mkSetting o nameArg ipPort 0 (map (λ k, Z.of_nat k + 1) (seq 0 (Z.to_nat n)))) s ∧ settled s).
Proof.
  intros [Ho [Hs1 Hs2] (Hi1 & Hi2 & Hne) Hn Ht]. unfold started_server, new_TcpServer, Acceptor.new_Acceptor, Acceptor.createNonblockingOrDie, Acceptor.bindOrDie.
  rewrite (proj2 (Z.ltb_ge sock 0)), (proj2 (Z.leb_le 0 idle)) by done. change (0 <? 0) with false. cbn [res_bind].
  unfold setThreadNum. rewrite (proj2 (Z.leb_le 0 n)) by lia. cbn [res_bind]. unfold start. cbn [started_ set_sstarted set_pool].
  set (p := EventLoopThreadPool.setThreadNum n (EventLoopThreadPool.new_EventLoopThreadPool 0 nameArg)).
  destruct (EventLoopThreadPool.start_spec (λ i, i + 1) false p) as (p' & E & H1 & H2 & H3 & H4 & H5); [done|done|cbn; lia|].
  change (0 =? 0) with true. cbn [res_bind threadPool_]. fold p.
  match goal with |- context [EventLoopThreadPool.start _ _ _ ?x] => change x with p end. rewrite E. cbn.
  change (EventLoopThreadPool.numThreads_ p) with n in H5. change (EventLoopThreadPool.next_ p) with 0 in H2.
  change (EventLoopThreadPool.baseLoop_ p) with 0 in H3. assert (zlen (EventLoopThreadPool.loops_ p') = n) as Hlen.
  { rewrite H5, length_map, length_seq. lia. }
  assert (fds (give idle (give sock (mkTable o []))) = {[idle]} ∪ ({[sock]} ∪ o)) as Hf by (by rewrite !fds_give).
  assert (failed_closes (give idle (give sock (mkTable o []))) = []) as Hfail by (by rewrite !failed_give).
  set (t := give idle (give sock (mkTable o []))) in *. clearbody t.
  split; [|intros i c Hc; by destruct i].
  constructor; cbn; try done; try (by intros i c Hc; by destruct i).
  - constructor; cbn.
    + unfold Acceptor.own. cbn. rewrite (proj2 (Z.leb_le 0 idle)), Hf by done. set_solver.
    + done.
    + intros fd. rewrite Hf. set_solver.
    + rewrite Hfail. set_solver.
  - unfold pool_ok. cbn. split_and!; [done|lia|]. intros Hne'. rewrite H2, Hlen. cbn. symmetry. apply Z.mod_0_l. intros F.
    apply Hne'. apply length_zero_iff_nil. lia.
  - constructor.
  - intros l f F. by apply not_elem_of_nil in F.
  - intros i F. by apply not_elem_of_nil in F.
  - intros i F. by apply not_elem_of_nil in F.
  - intros fd. rewrite Hf. unfold Acceptor.own. cbn. rewrite (proj2 (Z.leb_le 0 idle)) by done. split; [set_solver|].
    intros [?|(i & c & Hc & _)]; [set_solver|by destruct i].
Qed.

Lemma jobs_nil i q l f : jobs i q = [] → (l, f) ∈ q → conn_of f = i → f = FForceClose i.
Proof.
  intros Hj Hin <-. destruct f as [j|j|j|j]; [exfalso| done|exfalso|exfalso]; cbn in Hj;
    match type of Hin with (l, ?g) ∈ q => assert ((l, g) ∈ jobs j q) as H end.
  all: try (unfold jobs; apply list_elem_of_filter; split; [by apply Nat.eqb_refl|done]).
  all: rewrite Hj in H; by apply not_elem_of_nil in H.
Qed.

Section Reachable.
Context (o : gset Z) (n : Z) (nameArg ipPort : bytes) (sock idle : Z) (s0 : Server).
Context (Hstart : start_ok o n ipPort sock idle) (Hs0 : started_server n nameArg ipPort sock idle (mkTable o []) = Ok s0).

Lemma reach_inv s :
  reach s0 s → inv (mkSetting o nameArg ipPort 0 (map (λ k, Z.of_nat k + 1) (seq 0 (Z.to_nat n)))) s ∧ settled s.
Proof.
  induction 1 as [|s e s' Hr [Hi Hs] He Hst].
  - exact (wp_inv _ _ _ (started_server_ok o n nameArg ipPort sock idle Hstart) Hs0).
  - pose proof (step_ok _ e s Hi He) as H. by rewrite Hst in H.
Qed.

(** C9. A server that exists, its loops side by side in every order: connections arriving,
    being closed by peers, functors running, the program keeping and dropping references,
    [shutdown] called in the loop of its connection, and any number of threads going
    through [forceClose] step by step (reading [state_], writing it, queueing the functor).
    One order is assumed not to happen: that a connection closes between the reading and
    the writing of its [state_] by such a thread (it can, and [race_kills] shows the end
    of it).  Otherwise no assertion fails and nothing dangling is used; only an error of
    accept that the code calls fatal ends the process.  The map holds exactly the
    connections that are not being removed; an object is destroyed when its last reference
    goes and not before; once all functors have run, no call is under way and the program
    keeps nothing, every connection is watched or gone.  The process has open exactly the
    descriptors it had, the acceptor's and those of the connections, and none is closed
    twice.  The program's callbacks only do what these events do, and the server makes
    fewer than 2^31 - 1 connections. *)
Theorem tcp_server_safe s :
  reach s0 s →
  (∀ e, enabled e s →
     match step e s with
     | Ok _ => True
     | Err f => f = FatalLog ∧ ∃ e' again reopen, e = Acceptable (Acceptor.Failed e') again reopen ∧ Acceptor.expected e' = false
     end) ∧
  (∀ i c, conns s !! i = Some c →
     (c_gone c = true ↔ referenced i s = false) ∧
     (find (c_name c) (connections_ s) = Some (Some i) ↔
        c_state c ≠ kDisconnected ∨ (loop_ s, FRemove i) ∈ queue s) ∧
     (queue s = [] → held s = [] → calls s = [] →
        if c_gone c then c_state c = kDisconnected ∧ fd_open c = false
        else c_watched c = true ∧ (c_state c = kConnected ∨ c_state c = kDisconnecting) ∧ fd_open c = true)) ∧
  (∀ fd, fd ∈ fds (table s) ∖ Acceptor.own (acceptor_ s) ↔
     fd ∈ o ∨ ∃ i c, conns s !! i = Some c ∧ fd_open c = true ∧ c_fd c = fd) ∧
  (∀ fd, fd ∈ failed_closes (table s) → fd < 0).
Proof.
  intros Hr. destruct (reach_inv s Hr) as [Hi Hs]. split_and!.
  - intros e He. pose proof (step_ok _ e s Hi He) as H. by destruct (step e s).
  - intros i c Hc. destruct (i_conns _ _ Hi _ _ Hc) as [H1 H2 H3 H4]. split_and!.
    + split; [by intros [_ ?]%H2|]. intros Hf. destruct (c_gone c) eqn:E; [done|]. by rewrite (Hs i c Hc E) in Hf.
    + unfold stage in H1. destruct (c_state c) eqn:Es; [|by destruct H1 as (_ & -> & _); split; [left|]..].
      assert (∀ x, (loop_ s, FRemove i) ∈ queue s → jobs i (queue s) = [x] → x = (loop_ s, FRemove i)) as Hx.
      { intros x Hin E. assert ((loop_ s, FRemove i) ∈ jobs i (queue s)) as Hj.
        { unfold jobs. apply list_elem_of_filter. split; [by apply Nat.eqb_refl|done]. }
        rewrite E in Hj. by apply list_elem_of_singleton in Hj. }
      destruct H1 as [(E1 & E2 & _)|[(E1 & E2 & _)|(E1 & E2 & _)]]; rewrite E2.
      * split; [|done]. intros _. right. eapply jobs_queue. rewrite E1. by left.
      * split; [done|]. intros [?|Hin]; [done|]. by specialize (Hx _ Hin E1).
      * split; [done|]. intros [?|Hin]; [done|]. by pose proof (jobs_nil i (queue s) (loop_ s) (FRemove i) E1 Hin eq_refl).
    + intros Hq Hh Hcl. destruct (c_gone c) eqn:Eg.
      * destruct (H2 eq_refl) as [Hd _]. destruct (unreferenced _ _ _ _ Hi Hc) as [? _]; [by apply H2|]. split; [done|].
        unfold fd_open. rewrite Eg, Hd. by destruct (c_forced c).
      * pose proof (Hs i c Hc Eg) as Hf. unfold referenced in Hf. rewrite Hq, Hh, Hcl in Hf.
        unfold stage in H1. rewrite Hq in H1. unfold fd_open. rewrite Eg, H4.
        destruct (c_state c) eqn:Es.
        { exfalso. destruct H1 as [(E & _)|[(E & _)|(_ & E & _)]]; [done..|].
          rewrite !orb_true_iff, !bool_decide_eq_true in Hf. destruct Hf as [[[Hf|Hf]|Hf]|Hf]; [|by apply not_elem_of_nil in Hf..].
          apply (in_map_iff _ _ _ _ Hi Hc) in Hf. congruence. }
        { exfalso. by destruct H1 as (E & _). }
        all: destruct H1 as (_ & _ & Hd); split; [done|]; split; [auto|]; by destruct (c_forced c) eqn:Ef; [specialize (H3 eq_refl)|].
  - apply Hi.
  - apply (Acceptor.ao_closes _ _ (i_acceptor _ _ Hi)).
Qed.

(** The connections are numbered in the order of arrival, get distinct names and are
    dealt to the loops in turn: with [n] threads, connection [i] goes to the loop of
    thread [i mod n], without threads to the server's own. *)
Theorem tcp_server_deals s i c :
  reach s0 s → conns s !! i = Some c →
  c_name c = nameArg ++ str "-" ++ ipPort ++ str "#" ++ dec (Z.of_nat i + 1) ∧
  c_loop c = (if n =? 0 then 0 else Z.of_nat i mod n + 1) ∧
  (∀ j d, conns s !! j = Some d → c_name d = c_name c → j = i).
Proof.
  intros Hr Hc. destruct (reach_inv s Hr) as [Hi _]. destruct (i_names _ _ Hi _ _ Hc) as [Hn Hl].
  destruct (i_setting _ _ Hi) as (E1 & E2 & E3 & E4). cbn in E1, E2, E3, E4. destruct Hstart as [_ _ _ Hth _].
  split_and!.
  - rewrite Hn. unfold conn_name. by rewrite E1, E2.
  - rewrite Hl. unfold conn_loop. rewrite E3, E4, length_map, length_seq, Z2Nat.id by lia.
    destruct (Z.eqb_spec n 0) as [->|Hn0]; [done|]. pose proof (Z.mod_pos_bound (Z.of_nat i) n ltac:(lia)) as Hb.
    rewrite bool_decide_false.
    2: { intros F. apply (f_equal length) in F. rewrite length_map, length_seq in F. cbn in F. lia. }
    rewrite (nth_indep _ 0 (Z.of_nat 0 + 1)) by (rewrite length_map, length_seq; lia).
    rewrite (map_nth (λ k, Z.of_nat k + 1)), seq_nth by lia. lia.
  - intros j d Hd E. rewrite Hn, (proj1 (i_names _ _ Hi _ _ Hd)) in E. pose proof (i_few _ _ Hi).
    pose proof (lookup_lt_Some _ _ _ Hd). pose proof (lookup_lt_Some _ _ _ Hc). apply conn_name_inj in E; lia.
Qed.
End Reachable.

(** ** Runs *)

Fixpoint run (es : list event) (s : Server) : res Server :=
  match es with [] => Ok s | e :: es => let! s := step e s in run es s end.

Fixpoint allowed_run (es : list event) (s : Server) : Prop :=
  match es with
  | [] => True
  | e :: es => enabled e s ∧ match step e s with Ok s' => allowed_run es s' | Err _ => True end
  end.

Lemma server_run_reach s0 es s s' : reach s0 s → allowed_run es s → run es s = Ok s' → reach s0 s'.
Proof.
  revert s. induction es as [|e es IH]; intros s Hr Ha Hrun; cbn in *; [by simplify_eq|].
  destruct Ha as [He Ha]. destruct (step e s) as [s1|] eqn:E; [|done]. cbn in Hrun.
  apply (IH s1); [by eapply reach_step|done..].
Qed.

Definition or_else (m : res Server) : Server :=
  match m with
  | Ok s => s
  | Err _ => mkServer [] [] (Acceptor.mkAcceptor 0 false false false 0)
               (EventLoopThreadPool.new_EventLoopThreadPool 0 []) 0 0 [] [] [] [] [] (mkTable ∅ []) true
  end.

(** A server with two threads; descriptors 0 to 2 belong to the process. *)
Definition web : Server := or_else (started_server 2 (str "web") (str "10.0.0.1:80") 3 4 (mkTable {[0; 1; 2]} [])).

Lemma web_start : start_ok {[0; 1; 2]} 2 (str "10.0.0.1:80") 3 4.
Proof. constructor; [|split; [done|]|split_and!; try done|..]; try done; set_solver by lia. Qed.

(** Two connections; the first is closed by its peer and the descriptor is used again; a
    thread is inside [forceClose] on the second. *)
Definition web_events : list event :=
  [Acceptable (Acceptor.Accepted 5 (str "a")) 0 0; Acceptable (Acceptor.Accepted 6 (str "b")) 0 0;
   RunFunctor 1; RunFunctor 2; PeerClose 0; RunFunctor 0; RunFunctor 1;
   Acceptable (Acceptor.Accepted 5 (str "c")) 0 0; Shutdown 1; ForceClose 1; ForceStep 0].

Definition busy_web : Server := or_else (run web_events web).

Lemma web_started : started_server 2 (str "web") (str "10.0.0.1:80") 3 4 (mkTable {[0; 1; 2]} []) = Ok web.
Proof. by vm_compute. Qed.

(** Evaluate the steps of a run one by one. *)
Ltac run_steps :=
  repeat first
    [ exact I
    | split; [vm_compute; split_and?; first [done | by eexists | by left | by right]|
        match goal with |- context [step ?e ?s] =>
          let s' := eval vm_compute in (or_else (step e s)) in
          replace (step e s) with (Ok s') by (by vm_compute)
        end; cbv beta iota]].

Lemma busy_web_reach : reach web busy_web.
Proof.
  apply (server_run_reach web web_events web); [constructor| |by vm_compute]. unfold web_events. run_steps.
Qed.

(** A connection is gone and its descriptor serves another one. *)
Lemma tcp_server_safe_witness :
  match conns busy_web with
  | c0 :: c1 :: c2 :: _ => c_gone c0 = true ∧ c_fd c2 = c_fd c0 ∧ c_state c1 = kDisconnecting
  | _ => False
  end ∧ calls busy_web = [Marked 1] ∧ (∀ fd, fd ∈ failed_closes (table busy_web) → fd < 0).
Proof.
  split; [by vm_compute|]. split; [by vm_compute|].
  apply (tcp_server_safe {[0; 1; 2]} 2 (str "web") (str "10.0.0.1:80") 3 4 web web_start web_started busy_web busy_web_reach).
Defined.

Lemma tcp_server_deals_witness :
  match conns busy_web !! 2%nat with
  | Some c => c_name c = str "web-10.0.0.1:80#3" ∧ c_loop c = 1
  | None => False
  end.
Proof.
  destruct (conns busy_web !! 2%nat) as [c|] eqn:Hc; [|by vm_compute in Hc].
  destruct (tcp_server_deals {[0; 1; 2]} 2 (str "web") (str "10.0.0.1:80") 3 4 web web_start web_started busy_web 2 c
              busy_web_reach Hc) as (E1 & E2 & _).
  rewrite E1, E2. split; [vm_compute; reflexivity|vm_compute; reflexivity].
Defined.

(** With threads, a connection that closes between the destructor of the server and its
    own [connectDestroyed] calls the server that is gone ([removeConnection] holds a bare
    [this]). *)
Lemma close_after_server :
  run [Acceptable (Acceptor.Accepted 5 (str "a")) 0 0; RunFunctor 1; Delete; PeerClose 0] web = Err UseAfterFree.
Proof. by vm_compute. Qed.

(** Likewise a connection whose removal is on its way. *)
Lemma removal_after_server :
  run [Acceptable (Acceptor.Accepted 5 (str "a")) 0 0; RunFunctor 1; PeerClose 0; Delete; RunFunctor 0] web = Err UseAfterFree.
Proof. by vm_compute. Qed.

(** [forceClose] against a close: a thread reads [state_] while the connection is open, the
    peer closes it, and the thread writes [kDisconnecting] over [kDisconnected].  The
    connection closes a second time and is removed and destroyed twice; the second time
    the poller does not know its channel. *)
Lemma race_kills :
  let es := [Acceptable (Acceptor.Accepted 5 (str "a")) 0 0; RunFunctor 1; ForceClose 0; PeerClose 0; ForceStep 0; ForceStep 0;
             RunFunctor 1; RunFunctor 0; RunFunctor 0; RunFunctor 1] in
  (∃ s, run es web = Ok s ∧ pop 1 (queue s) ≠ None) ∧ run (es ++ [RunFunctor 1]) web = Err AssertFailed.
Proof. split; [eexists; split; [by vm_compute|by vm_compute]|by vm_compute]. Qed.

(** A server without threads ends cleanly, unless a connection is half closed. *)
Lemma end_of_single_server :
  let single := or_else (started_server 0 (str "web") (str "10.0.0.1:80") 3 4 (mkTable {[0; 1; 2]} [])) in
  (∃ s, run [Acceptable (Acceptor.Accepted 5 (str "a")) 0 0; Delete] single = Ok s ∧ fds (table s) = {[0; 1; 2]} ∧
     failed_closes (table s) = []) ∧
  run [Acceptable (Acceptor.Accepted 5 (str "a")) 0 0; Shutdown 0; Delete] single = Err AssertFailed.
Proof. split; [eexists; split; [by vm_compute|by vm_compute]|by vm_compute]. Qed.

(** ** The connection in detail *)

(** What the server's model keeps of a connection. *)
Definition agrees (c : conn) (d : TcpConnection.Conn) : Prop :=
  c_state c = TcpConnection.state_ d ∧ c_forced c = TcpConnection.forceFlag_ d ∧
  c_watched c = negb (Channel.isNoneEvent (TcpConnection.channel_ d)).

(** A program whose callbacks make no calls. *)
Definition quiet : TcpConnection.notice → TcpConnection.Conn → list TcpConnection.act := λ _ _, [].

(** [handleClose] in loop [cur] and the removal from the map, which waits in the queue of
    the server's loop when that is another one. *)
Definition close_and_remove (cur : Z) (i : nat) (s : Server) : res Server :=
  let! s1 := conn_close cur i s in
  if cur =? loop_ s then Ok s1 else removeConnectionInLoop i (set_queue (removelast (queue s1)) s1).

Lemma close_and_remove_spec cur s i c :
  alive s = true → sorted (connections_ s) → conns s !! i = Some c → find (c_name c) (connections_ s) = Some (Some i) →
  c_state c = kConnected ∨ c_state c = kDisconnecting →
  close_and_remove cur i s =
    Ok (upd i (set_closed c) (queue s ++ [(c_loop c, FDestroy i)]) (erase (c_name c) (connections_ s)) (table s) s).
Proof.
  intros Ha Hs Hc Hm Hst. pose proof (lookup_lt_Some _ _ _ Hc) as Hlt. unfold close_and_remove.
  rewrite (upd_self i c s Hc) at 1. rewrite conn_close_upd by done. cbn [res_bind]. destruct (cur =? loop_ s); [done|].
  change (queue (upd i ?c' ?q ?m ?t s)) with q. rewrite removelast_last.
  change (set_queue ?q' (upd i ?c' ?q ?m ?t s)) with (upd i c' q' m t s). by rewrite removeConnectionInLoop_upd.
Qed.

Lemma destroyed_agrees i s c d :
  conns s !! i = Some c → agrees c d → c_destroyed c = false →
  match TcpConnection.connectDestroyed quiet d with
  | Ok d' => ∃ s' c', conn_destroyed i s = Ok s' ∧ conns s' !! i = Some c' ∧ agrees c' d' ∧ c_destroyed c' = true ∧
      TcpConnection.closes (TcpConnection.sock d') = TcpConnection.closes (TcpConnection.sock d) + (if c_forced c then 1 else 0) ∧
      table s' = (if c_forced c then close (c_fd c) (table s) else table s)
  | Err e => conn_destroyed i s = Err e
  end.
Proof.
  intros Hc (Est & Ef & Ew) Hd. pose proof (lookup_lt_Some _ _ _ Hc) as Hlt. rewrite (upd_self i c s Hc).
  rewrite conn_destroyed_upd by done. unfold TcpConnection.connectDestroyed. rewrite <- Est. cbv zeta.
  destruct (bool_decide (c_state c = kConnected)) eqn:E.
  - cbn. rewrite <- Ef. destruct (c_forced c) eqn:Ef'; cbn; do 2 eexists;
      (split_and!; [done|by apply lookup_upd|split_and!; cbn; congruence|done|cbn; lia|done]).
  - cbn [res_bind]. rewrite Ew. destruct (Channel.isNoneEvent _) eqn:En; cbn; [|done]. rewrite <- Ef.
    destruct (c_forced c) eqn:Ef'; do 2 eexists;
      (split_and!; [done|by apply lookup_upd|split_and!; [done|cbn; congruence|]|done|cbn; lia|done]);
      change (c_watched (set_destroyed c)) with (c_watched c); rewrite Ew; unfold Channel.isNoneEvent in *; cbn; by rewrite En.
Qed.

(** C25. The server's model of a connection against the connection in detail
    ([TcpConnection]), for a program whose callbacks make no calls.  From states that
    agree in [state_], in [forceFlag_] and in whether the channel asks for events:
    establishing both succeeds or fails in both, and ends in states that agree; so does
    destroying a connection that was not destroyed before, in whatever state it is, and
    both close the descriptor the same number of times; closing one that is open, with
    [closeFlag_] set (the first half of a half close is not a step of the server's
    model), in whichever loop it happens, takes it out of the server's map, queues
    [connectDestroyed] and ends in states that agree, once the removal has run in the
    server's loop (the detailed model has the removal at once). *)
Theorem connection_life_agrees s i c d :
  alive s = true → sorted (connections_ s) → conns s !! i = Some c → agrees c d →
  match TcpConnection.connectEstablished quiet d with
  | Ok d' => ∃ s' c', conn_established i s = Ok s' ∧ conns s' !! i = Some c' ∧ agrees c' d'
  | Err e => conn_established i s = Err e
  end ∧
  (c_state c = kConnected ∨ c_state c = kDisconnecting → find (c_name c) (connections_ s) = Some (Some i) →
   TcpConnection.closeFlag_ d = true → TcpConnection.in_map (TcpConnection.env d) = true →
     ∀ cur, ∃ s' d' c', close_and_remove cur i s = Ok s' ∧ TcpConnection.close quiet d = Ok d' ∧
       conns s' !! i = Some c' ∧ agrees c' d' ∧
       find (c_name c) (connections_ s') = None ∧ TcpConnection.in_map (TcpConnection.env d') = false ∧
       queue s' = queue s ++ [(c_loop c, FDestroy i)] ∧
       TcpConnection.pending (TcpConnection.env d') = TcpConnection.pending (TcpConnection.env d) ++ [TcpConnection.FDestroy]) ∧
  (c_destroyed c = false →
     match TcpConnection.connectDestroyed quiet d with
     | Ok d' => ∃ s' c', conn_destroyed i s = Ok s' ∧ conns s' !! i = Some c' ∧ agrees c' d' ∧ c_destroyed c' = true ∧
         TcpConnection.closes (TcpConnection.sock d') = TcpConnection.closes (TcpConnection.sock d) + (if c_forced c then 1 else 0) ∧
         table s' = (if c_forced c then close (c_fd c) (table s) else table s)
     | Err e => conn_destroyed i s = Err e
     end).
Proof.
  intros Ha Hs Hc Hag. pose proof Hag as (Est & Ef & Ew). pose proof (lookup_lt_Some _ _ _ Hc) as Hlt. split_and!.
  - rewrite (upd_self i c s Hc). unfold conn_established, TcpConnection.connectEstablished. rewrite state_upd, <- Est by done.
    destruct (bool_decide (c_state c = kConnecting)); cbn; [|done]. rewrite on_conn_upd by done. do 2 eexists.
    split_and!; [done|by apply lookup_upd|]. split_and!; [done|done|]. cbn. symmetry. apply negb_true_iff. apply Z.eqb_neq.
    by intros [_ F]%Z.lor_eq_0_iff.
  - intros E Hm Hf Hin cur. rewrite (close_and_remove_spec cur s i c) by done.
    destruct (map_change_erase i c (connections_ s) Hs) as [_ Hn].
    assert (bool_decide (TcpConnection.state_ d = kConnected) || bool_decide (TcpConnection.state_ d = kDisconnecting) = true) as Hopen
      by (rewrite <- Est; by destruct E as [-> | ->]).
    unfold TcpConnection.close. cbn [TcpConnection.handleClose]. rewrite Hopen, Hf. cbn. unfold TcpConnection.closeCallback. cbn.
    rewrite Hin. do 3 eexists. split_and!; [done|done|by apply lookup_upd|done..].
  - intros Hd. by apply destroyed_agrees.
Qed.

(** The first connection of [busy_web] before its peer closed it, in detail. *)
Definition open_web : Server := or_else (run (take 4 web_events) web).
Definition detailed : TcpConnection.Conn :=
  let d := TcpConnection.new_TcpConnection 5 TcpConnection.empty_buffer TcpConnection.empty_buffer [] false false 0 in
  match TcpConnection.connectEstablished quiet d with
  | Ok d => TcpConnection.set_closeFlag true d
  | Err _ => d
  end.

Lemma connection_life_agrees_witness :
  match conns open_web !! 0%nat with
  | Some c => c_state c = kConnected ∧
      ∃ s' d', close_and_remove 1 0 open_web = Ok s' ∧ TcpConnection.close quiet detailed = Ok d' ∧
        find (c_name c) (connections_ s') = None ∧ TcpConnection.in_map (TcpConnection.env d') = false
  | None => False
  end.
Proof.
  destruct (conns open_web !! 0%nat) as [c|] eqn:Hc; [|by vm_compute in Hc].
  assert (c_state c = kConnected ∧ agrees c detailed ∧ find (c_name c) (connections_ open_web) = Some (Some 0%nat)) as (E & Hag & Hm)
    by (vm_compute in Hc; injection Hc as <-; by vm_compute).
  split; [done|].
  destruct (proj1 (proj2 (connection_life_agrees open_web 0 c detailed ltac:(by vm_compute)
    ltac:(vm_compute; repeat constructor) Hc Hag)) (or_introl E) Hm ltac:(by vm_compute) ltac:(by vm_compute) 1)
    as (s' & d' & c' & H1 & H2 & _ & _ & H3 & H4 & _).
  exists s', d'. exact (conj H1 (conj H2 (conj H3 H4))).
Defined.

End TcpServer.
