(* ===== verification/InetAddress.v ===== *)
(** Socket addresses ([netLayer/socket/InetAddress.h], [InetAddress.cpp] and the address
    functions of [SocketsOps.cpp]).

    An [InetAddress] is a union of [sockaddr_in] and [sockaddr_in6]; the model keeps its
    28 bytes, in the layout that the source's static assertions check.  inet_pton and
    inet_ntop are written out for IPv4; those for IPv6 are a parameter with its law. *)

From S2P Require Import Prelude Endian.

Module InetAddress.
Import Endian.

Definition AF_INET : Z := 2.
Definition AF_INET6 : Z := 10.

(** Members of the structures, as (offset, size). *)
Definition sin_family : Z * Z := (0, 2).
Definition sin_port : Z * Z := (2, 2).
Definition sin_addr : Z * Z := (4, 4).
Definition sin6_flowinfo : Z * Z := (4, 4).
Definition sin6_addr : Z * Z := (8, 16).
Definition sin6_scope_id : Z * Z := (24, 4).

Definition field (f : Z * Z) (a : bytes) : bytes := ztake f.2 (zdrop f.1 a).
Definition set_field (f : Z * Z) (v : bytes) (a : bytes) : bytes := write_at f.1 v a.

(** [memZero], which fills with -1. *)
Definition memZero (n : nat) : bytes := replicate n (byte_of_Z (-1)).

Definition family (a : bytes) : Z := le_val (field sin_family a).
Definition portNetEndian (a : bytes) : Z := le_val (field sin_port a).

(** ** The text of IPv4 addresses *)

(** inet_ntop for AF_INET. *)
Definition ntop4 (a : bytes) : bytes :=
  match a with
  | [b1; b2; b3; b4] => dec (ub b1) ++ str "." ++ dec (ub b2) ++ str "." ++ dec (ub b3) ++ str "." ++ dec (ub b4)
  | _ => []
  end.

Definition isdigit (c : byte) : bool := (48 <=? ub c) && (ub c <=? 57).

(** inet_pton for AF_INET: [saw] says whether the current octet has a digit, [octets]
    counts the octets that have begun, [cur] is the current one and [out] those before. *)
Fixpoint pton4_loop (src : bytes) (saw : bool) (octets cur : Z) (out : bytes) : option bytes :=
  match src with
  | [] => if octets <? 4 then None else Some (out ++ [byte_of_Z cur])
  | ch :: src =>
      if isdigit ch then
        let new := cur * 10 + (ub ch - 48) in
        if saw && (cur =? 0) then None
        else if 255 <? new then None
        else if saw then pton4_loop src true octets new out
        else if 4 <? octets + 1 then None
        else pton4_loop src true (octets + 1) new out
      else if (ub ch =? 46) && saw then
        if octets =? 4 then None else pton4_loop src false octets 0 (out ++ [byte_of_Z cur])
      else None
  end.

Definition pton4 (src : bytes) : option bytes := pton4_loop src false 0 0 [].

(** ** IPv6 *)

(** What the code relies on in inet_pton and inet_ntop for AF_INET6. *)
Class Inet6 := {
  ntop6 : bytes → bytes;
  pton6 : bytes → option bytes;
  ntop6_length a : zlen a = 16 → zlen (ntop6 a) ≤ 45;
  pton6_length s a : pton6 s = Some a → zlen a = 16;
  pton6_ntop6 a : zlen a = 16 → pton6 (ntop6 a) = Some a;
}.

Section Addresses.
Context `{Inet6}.

(** [sockets::fromIpPort]: a failure of inet_pton is only logged. *)
Definition fromIpPort (ip : bytes) (port : Z) (addr : bytes) : bytes :=
  let addr := set_field sin_family (le_bytes 2 AF_INET) addr in
  let addr := set_field sin_port (le_bytes 2 (hostToNetwork16 port)) addr in
  match pton4 ip with
  | Some b => set_field sin_addr b addr
  | None => addr
  end.

Definition fromIpPort6 (ip : bytes) (port : Z) (addr : bytes) : bytes :=
  let addr := set_field sin_family (le_bytes 2 AF_INET6) addr in
  let addr := set_field sin_port (le_bytes 2 (hostToNetwork16 port)) addr in
  match pton6 ip with
  | Some b => set_field sin6_addr b addr
  | None => addr
  end.

(** [InetAddress(ip, port, ipv6)]; what the union holds before is overwritten up to the
    structure's size, which is 16 for [sockaddr_in]. *)
Definition new_InetAddress (ip : bytes) (port : Z) (ipv6 : bool) (old : bytes) : bytes :=
  if ipv6 then fromIpPort6 ip port (memZero 28)
  else fromIpPort ip port (write_at 0 (memZero 16) old).

Definition in6addr_any : bytes := replicate 16 Byte.x00.
Definition in6addr_loopback : bytes := replicate 15 Byte.x00 ++ [Byte.x01].
Definition kInaddrAny : Z := 0.
Definition kInaddrLoopback : Z := 0x7f000001.

(** [InetAddress(port, loopbackOnly, ipv6)]. *)
Definition new_InetAddress_port (port : Z) (loopbackOnly ipv6 : bool) (old : bytes) : bytes :=
  if ipv6 then
    let a := memZero 28 in
    let a := set_field sin_family (le_bytes 2 AF_INET6) a in
    let ip := if loopbackOnly then in6addr_loopback else in6addr_any in
    let a := set_field sin6_addr ip a in
    set_field sin_port (le_bytes 2 (hostToNetwork16 port)) a
  else
    let a := write_at 0 (memZero 16) old in
    let a := set_field sin_family (le_bytes 2 AF_INET) a in
    let ip := if loopbackOnly then kInaddrLoopback else kInaddrAny in
    let a := set_field sin_addr (le_bytes 4 (hostToNetwork32 ip)) a in
    set_field sin_port (le_bytes 2 (hostToNetwork16 port)) a.

(** [sockets::toIp] into a buffer of [size] bytes that holds an empty string. *)
Definition toIp_buf (size : Z) (a : bytes) : res bytes :=
  if family a =? AF_INET then
    assert! 16 <=? size in
    Ok (ntop4 (field sin_addr a))
  else if family a =? AF_INET6 then
    assert! 46 <=? size in
    Ok (ntop6 (field sin6_addr a))
  else Ok [].

(** [sockets::toIpPort]. *)
Definition toIpPort_buf (size : Z) (a : bytes) : res bytes :=
  let! buf := toIp_buf size a in
  let end_ := zlen buf in
  let port := networkToHost16 (portNetEndian a) in
  assert! end_ <? size in
  Ok (buf ++ ztake (size - end_ - 1) (str ":" ++ dec port)).

Definition toIp (a : bytes) : res bytes := toIp_buf 64 a.
Definition toIpPort (a : bytes) : res bytes := toIpPort_buf 64 a.
Definition toPort (a : bytes) : Z := networkToHost16 (portNetEndian a).

Definition ipNetEndian (a : bytes) : res Z :=
  assert! family a =? AF_INET in
  Ok (le_val (field sin_addr a)).

Definition setScopeId (scope_id : Z) (a : bytes) : bytes :=
  if family a =? AF_INET6 then set_field sin6_scope_id (le_bytes 4 scope_id) a else a.

(** [resolve]: [answer] is what gethostbyname_r returns, the family with the address. *)
Definition resolve (answer : option (Z * bytes)) (out : bytes) : res (bool * bytes) :=
  match answer with
  | Some (fam, ip) =>
      assert! (fam =? AF_INET) && (zlen ip =? 4) in
      Ok (true, set_field sin_addr ip out)
  | None => Ok (false, out)
  end.

(** [getLocalAddr], [getPeerAddr]: the kernel writes the address it knows, if any. *)
Definition getAddr (answer : option bytes) : bytes :=
  match answer with
  | Some v => write_at 0 v (memZero 28)
  | None => memZero 28
  end.

(** [sockets::isSelfConnect], with the answers of getsockname and getpeername. *)
Definition isSelfConnect (local peer : option bytes) : bool :=
  let localaddr := getAddr local in
  let peeraddr := getAddr peer in
  if family localaddr =? AF_INET then
    bool_decide (field sin_port localaddr = field sin_port peeraddr) &&
    bool_decide (field sin_addr localaddr = field sin_addr peeraddr)
  else if family localaddr =? AF_INET6 then
    bool_decide (field sin_port localaddr = field sin_port peeraddr) &&
    bool_decide (field sin6_addr localaddr = field sin6_addr peeraddr)
  else false.

(** ** Fields *)

Lemma length_set_field f v (a : bytes) : 0 ≤ f.1 → f.1 + zlen v ≤ zlen a → zlen (set_field f v a) = zlen a.
Proof. intros. unfold set_field, write_at, ztake, zdrop. rewrite !length_app, length_take, length_drop. lia. Qed.

Lemma field_same f v (a : bytes) : 0 ≤ f.1 → zlen v = f.2 → f.1 + f.2 ≤ zlen a → field f (set_field f v a) = v.
Proof.
  intros H1 H2 H3. unfold field, set_field, write_at. rewrite zdrop_app_len by (rewrite length_ztake; lia).
  by rewrite ztake_app_len by lia.
Qed.

Lemma field_below f g v (a : bytes) :
  0 ≤ f.1 → 0 ≤ f.2 → f.1 + f.2 ≤ g.1 → g.1 ≤ zlen a → field f (set_field g v a) = field f a.
Proof.
  intros H1 H2 H3 H4. unfold field, set_field, write_at.
  assert (zlen (ztake g.1 a) = g.1) as Hl by (rewrite length_ztake; lia).
  rewrite zdrop_app_le, ztake_app_le by (rewrite ?length_zdrop; lia).
  rewrite <- (ztake_zdrop g.1 a) at 2. rewrite zdrop_app_le, ztake_app_le by (rewrite ?length_zdrop; lia). done.
Qed.

Lemma field_above f g v (a : bytes) :
  0 ≤ g.1 → 0 ≤ f.2 → g.1 + zlen v ≤ f.1 → f.1 + f.2 ≤ zlen a → field f (set_field g v a) = field f a.
Proof.
  intros H1 H2 H3 H4. unfold field, set_field, write_at, ztake, zdrop. f_equal.
  rewrite !drop_app, length_take, drop_ge by (rewrite length_take; lia). cbn.
  rewrite drop_ge by lia. cbn. rewrite drop_drop. f_equal. lia.
Qed.

End Addresses.

(** ** Text and back *)

Lemma ub_digit d : 0 ≤ d ≤ 9 → ub (byte_of_Z (48 + d)) = 48 + d.
Proof. intros. rewrite ub_byte_of_Z, Z.mod_small; lia. Qed.

Lemma dec_digits n :
  0 ≤ n ≤ 255 →
  dec n = (if n <? 10 then [] else (if n / 10 <? 10 then [] else [byte_of_Z (48 + n / 100)]) ++ [byte_of_Z (48 + n / 10 mod 10)])
          ++ [byte_of_Z (48 + n mod 10)].
Proof.
  intros Hn. unfold dec. rewrite (proj2 (Z.ltb_ge n 0)) by lia. cbn [udec]. destruct (n <? 10) eqn:E1; bool_prop; [done|].
  f_equal. f_equal. destruct (n / 10 <? 10) eqn:E2; bool_prop; [done|].
  rewrite Z.div_div by lia. change (10 * 10) with 100.
  assert (0 ≤ n / 100 < 10) by (split; [apply Z.div_pos; lia|apply Z.div_lt_upper_bound; lia]).
  rewrite (proj2 (Z.ltb_lt (n / 100) 10)) by lia. cbn. by rewrite Z.mod_small by lia.
Qed.

(** The first digit of an octet, and a further one. *)
Lemma pton4_first d rest k out :
  0 ≤ d ≤ 9 → 0 ≤ k < 4 → pton4_loop (byte_of_Z (48 + d) :: rest) false k 0 out = pton4_loop rest true (k + 1) d out.
Proof.
  intros Hd Hk. cbn [pton4_loop]. unfold isdigit. rewrite ub_digit by done.
  rewrite (proj2 (Z.leb_le 48 _)), (proj2 (Z.leb_le _ 57)) by lia. cbn [andb].
  rewrite (proj2 (Z.ltb_ge 255 _)), (proj2 (Z.ltb_ge 4 _)) by lia. f_equal. lia.
Qed.

Lemma pton4_more d rest k cur out :
  0 ≤ d ≤ 9 → 0 < cur → cur * 10 + d ≤ 255 →
  pton4_loop (byte_of_Z (48 + d) :: rest) true k cur out = pton4_loop rest true k (cur * 10 + d) out.
Proof.
  intros Hd Hc Hle. cbn [pton4_loop]. unfold isdigit. rewrite ub_digit by done.
  rewrite (proj2 (Z.leb_le 48 _)), (proj2 (Z.leb_le _ 57)) by lia. rewrite (proj2 (Z.eqb_neq cur 0)) by lia. cbn [andb].
  rewrite (proj2 (Z.ltb_ge 255 _)) by lia. f_equal. lia.
Qed.

Lemma pton4_octet n rest k out :
  0 ≤ n ≤ 255 → 0 ≤ k < 4 → pton4_loop (dec n ++ rest) false k 0 out = pton4_loop rest true (k + 1) n out.
Proof.
  intros Hn Hk. rewrite dec_digits by done.
  pose proof (Z.div_mod n 10 ltac:(lia)) as H1. pose proof (Z.mod_pos_bound n 10 ltac:(lia)) as H2.
  destruct (n <? 10) eqn:E1; bool_prop.
  - cbn [app]. rewrite Z.mod_small by lia. by apply pton4_first; lia.
  - assert (0 < n / 10) by (apply Z.div_str_pos; lia).
    pose proof (Z.div_mod (n / 10) 10 ltac:(lia)) as H3. pose proof (Z.mod_pos_bound (n / 10) 10 ltac:(lia)) as H4.
    destruct (n / 10 <? 10) eqn:E2; bool_prop; cbn [app].
    + rewrite pton4_first by (rewrite ?Z.mod_small; lia). rewrite (Z.mod_small (n / 10)) by lia.
      rewrite pton4_more by lia. f_equal. lia.
    + assert (n / 100 = n / 10 / 10) as E by (by rewrite Z.div_div by lia).
      assert (0 < n / 10 / 10) by (apply Z.div_str_pos; lia).
      rewrite E, pton4_first by lia. rewrite pton4_more by lia. rewrite pton4_more by lia. f_equal. lia.
Qed.

Lemma pton4_dot rest k cur out : k ≠ 4 → pton4_loop (str "." ++ rest) true k cur out = pton4_loop rest false k 0 (out ++ [byte_of_Z cur]).
Proof. intros Hk. change (str "." ++ rest) with (byte_of_Z 46 :: rest). cbn. by rewrite (proj2 (Z.eqb_neq k 4)). Qed.

Lemma pton4_ntop4 a : zlen a = 4 → pton4 (ntop4 a) = Some a.
Proof.
  intros Ha. destruct a as [|b1 [|b2 [|b3 [|b4 [|? ?]]]]]; try (cbn in Ha; lia). unfold pton4, ntop4.
  pose proof (ub_range b1). pose proof (ub_range b2). pose proof (ub_range b3). pose proof (ub_range b4).
  rewrite pton4_octet, pton4_dot, pton4_octet, pton4_dot, pton4_octet, pton4_dot by lia.
  rewrite <- (app_nil_r (dec (ub b4))), pton4_octet by lia. cbn. by rewrite !byte_of_ub.
Qed.

Lemma length_dec_octet b : 1 ≤ zlen (dec (ub b)) ≤ 3.
Proof.
  pose proof (ub_range b). rewrite dec_digits by lia.
  destruct (ub b <? 10), (ub b / 10 <? 10); rewrite !length_app; cbn; lia.
Qed.

Lemma length_ntop4 a : zlen (ntop4 a) ≤ 15.
Proof.
  destruct a as [|b1 [|b2 [|b3 [|b4 [|? ?]]]]]; try (cbn; lia). unfold ntop4. rewrite !length_app.
  pose proof (length_dec_octet b1). pose proof (length_dec_octet b2). pose proof (length_dec_octet b3). pose proof (length_dec_octet b4).
  change (length (str ".")) with 1%nat. lia.
Qed.

Section Roundtrip.
Context `{Inet6}.

Lemma port_back port : 0 ≤ port < 65536 → networkToHost16 (le_val (le_bytes 2 (hostToNetwork16 port))) = port.
Proof.
  intros Hp. unfold networkToHost16, hostToNetwork16. rewrite le_val_bytes. pose proof (bswap_range 2 (u16 port)) as Hb.
  change (256 ^ Z.of_nat 2) with 65536 in *. rewrite Z.mod_small by done. unfold u16. rewrite (uwrap_small 16 (bswap _ _)) by done.
  rewrite bswap_bswap. change (8 * Z.of_nat 2) with 16. rewrite (uwrap_small 16 port) by lia. by rewrite uwrap_small by lia.
Qed.

Lemma length_dec_port port : 0 ≤ port < 65536 → zlen (dec port) ≤ 5.
Proof.
  intros Hp. unfold dec. rewrite (proj2 (Z.ltb_ge _ _)) by lia.
  pose proof (length_udec 20 port 5 ltac:(change (10 ^ Z.of_nat 5) with 100000; lia) ltac:(lia)). lia.
Qed.

(** The text of an address with a family, an address text and a port. *)
Lemma toIpPort_text a ip port :
  toIp_buf 64 a = Ok ip → zlen ip ≤ 45 → toPort a = port → 0 ≤ port < 65536 → toIpPort a = Ok (ip ++ str ":" ++ dec port).
Proof.
  intros Hip Hl Hp Hr. unfold toIpPort, toIpPort_buf. rewrite Hip. cbn [res_bind]. rewrite (proj2 (Z.ltb_lt _ _)) by lia.
  unfold toPort in Hp. rewrite Hp. rewrite ztake_all; [done|]. rewrite length_app. pose proof (length_dec_port port Hr).
  change (length (str ":")) with 1%nat. lia.
Qed.

(** C33. An address built from the text of an IPv4 or IPv6 address and a port has that
    family, prints as that address and port (the fixed buffers are long enough), gives the
    port back, and the text parses to the same four or sixteen bytes. *)
Theorem address_roundtrip b port (ipv6 : bool) old :
  zlen b = (if ipv6 then 16 else 4) → 0 ≤ port < 65536 → zlen old = 28 →
  let ip := if ipv6 then ntop6 b else ntop4 b in
  let a := new_InetAddress ip port ipv6 old in
  zlen a = 28 ∧ family a = (if ipv6 then AF_INET6 else AF_INET) ∧
  field (if ipv6 then sin6_addr else sin_addr) a = b ∧
  toIp a = Ok ip ∧ toPort a = port ∧ toIpPort a = Ok (ip ++ str ":" ++ dec port) ∧
  (if ipv6 then pton6 ip else pton4 ip) = Some b.
Proof.
  intros Hb Hp Ho ip a. destruct ipv6; subst ip a.
  - unfold new_InetAddress, fromIpPort6. rewrite pton6_ntop6 by done.
    set (a1 := set_field sin_family _ _). set (a2 := set_field sin_port _ a1). set (a := set_field sin6_addr b a2).
    assert (zlen a1 = 28) as L1 by (unfold a1; by rewrite length_set_field by (cbn; lia)).
    assert (zlen a2 = 28) as L2 by (unfold a2; by rewrite length_set_field by (cbn; lia)).
    assert (zlen a = 28) as L3 by (unfold a; by rewrite length_set_field by (cbn; lia)).
    assert (family a = AF_INET6) as Hf.
    { unfold family, a. rewrite field_below by (cbn; lia). unfold a2. rewrite field_below by (cbn; lia).
      unfold a1. by rewrite field_same by (cbn; lia). }
    assert (field sin6_addr a = b) as Hab by (unfold a; by rewrite field_same by (cbn; lia)).
    assert (toPort a = port) as Hport.
    { unfold toPort, portNetEndian, a. rewrite field_below by (cbn; lia). unfold a2. rewrite field_same by (cbn; lia). by apply port_back. }
    assert (toIp_buf 64 a = Ok (ntop6 b)) as Hip by (unfold toIp_buf; rewrite Hf, Hab; done).
    split_and!; try done; try (by apply pton6_ntop6). apply toIpPort_text; try done. by apply ntop6_length.
  - unfold new_InetAddress, fromIpPort. rewrite pton4_ntop4 by done.
    set (a0 := write_at 0 (memZero 16) old). set (a1 := set_field sin_family _ _). set (a2 := set_field sin_port _ a1). set (a := set_field sin_addr b a2).
    assert (zlen a0 = 28) as L0 by (change a0 with (set_field (0, 0) (memZero 16) old); by rewrite length_set_field by (cbn; lia)).
    assert (zlen a1 = 28) as L1 by (unfold a1; by rewrite length_set_field by (cbn; lia)).
    assert (zlen a2 = 28) as L2 by (unfold a2; by rewrite length_set_field by (cbn; lia)).
    assert (zlen a = 28) as L3 by (unfold a; by rewrite length_set_field by (cbn; lia)).
    assert (family a = AF_INET) as Hf.
    { unfold family, a. rewrite field_below by (cbn; lia). unfold a2. rewrite field_below by (cbn; lia).
      unfold a1. by rewrite field_same by (cbn; lia). }
    assert (field sin_addr a = b) as Hab by (unfold a; by rewrite field_same by (cbn; lia)).
    assert (toPort a = port) as Hport.
    { unfold toPort, portNetEndian, a. rewrite field_below by (cbn; lia). unfold a2. rewrite field_same by (cbn; lia). by apply port_back. }
    assert (toIp_buf 64 a = Ok (ntop4 b)) as Hip by (unfold toIp_buf; rewrite Hf, Hab; done).
    split_and!; try done; try (by apply pton4_ntop4). apply toIpPort_text; try done. pose proof (length_ntop4 b). lia.
Qed.

(** The kernel's answers for the two ends of a socket. *)
Lemma getAddr_some v : zlen v ≤ 28 → zlen (getAddr (Some v)) = 28 ∧ ∀ f, 0 ≤ f.1 → 0 ≤ f.2 → f.1 + f.2 ≤ zlen v → field f (getAddr (Some v)) = field f v.
Proof.
  intros Hv. split.
  - change (zlen (set_field (0, 0) v (memZero 28)) = 28). rewrite length_set_field; [done|cbn; lia|].
    change (zlen (memZero 28)) with 28. cbn [fst]. lia.
  - intros f H1 H2 H3. unfold getAddr, write_at, field. change (ztake 0 (memZero 28)) with (@nil byte). cbn [app].
    rewrite zdrop_app_le by lia. rewrite ztake_app_le; [done|]. rewrite length_zdrop; lia.
Qed.

(** A socket counts as connected to itself exactly when the kernel names the same IPv4
    or IPv6 address and port for both ends; when the kernel does not answer it does not. *)
Theorem self_connect_exact local peer :
  zlen local = 16 ∨ zlen local = 28 → zlen peer = zlen local →
  family local = (if zlen local =? 16 then AF_INET else AF_INET6) →
  (isSelfConnect (Some local) (Some peer) = true ↔
     field sin_port local = field sin_port peer ∧
     field (if zlen local =? 16 then sin_addr else sin6_addr) local = field (if zlen local =? 16 then sin_addr else sin6_addr) peer) ∧
  isSelfConnect None (Some peer) = false.
Proof.
  intros Hl Hp Hf. split; [|done]. unfold isSelfConnect.
  destruct (getAddr_some local ltac:(lia)) as [_ H1]. destruct (getAddr_some peer ltac:(lia)) as [_ H2].
  unfold family. rewrite !(H1 sin_family) by (cbn; lia). fold (family local). rewrite Hf.
  destruct Hl as [Hl|Hl]; rewrite Hl.
  - change (16 =? 16) with true. cbn iota. change (AF_INET =? AF_INET) with true. cbn iota.
    rewrite !(H1 sin_port), !(H2 sin_port), !(H1 sin_addr), !(H2 sin_addr) by (cbn; lia).
    by rewrite andb_true_iff, !bool_decide_eq_true.
  - change (28 =? 16) with false. cbn iota. change (AF_INET6 =? AF_INET) with false. change (AF_INET6 =? AF_INET6) with true. cbn iota.
    rewrite !(H1 sin_port), !(H2 sin_port), !(H1 sin6_addr), !(H2 sin6_addr) by (cbn; lia).
    by rewrite andb_true_iff, !bool_decide_eq_true.
Qed.
End Roundtrip.

(** ** An instance for IPv6 *)

(** Every address in full hexadecimal, without separators: not what the library prints,
    but it satisfies the law. *)
Definition hex_digit (d : Z) : byte := byte_of_Z (if d <? 10 then 48 + d else 87 + d).
Definition hex_value (c : byte) : Z := if ub c <? 58 then ub c - 48 else ub c - 87.
Definition hex_text (a : bytes) : bytes := concat (map (λ b, [hex_digit (ub b / 16); hex_digit (ub b mod 16)]) a).
Fixpoint hex_bytes (s : bytes) : bytes :=
  match s with
  | c1 :: c2 :: s => byte_of_Z (hex_value c1 * 16 + hex_value c2) :: hex_bytes s
  | _ => []
  end.

Lemma hex_digit_value d : 0 ≤ d < 16 → hex_value (hex_digit d) = d.
Proof.
  intros Hd. unfold hex_value, hex_digit. destruct (d <? 10) eqn:E; bool_prop; rewrite ub_byte_of_Z, Z.mod_small by lia.
  - rewrite (proj2 (Z.ltb_lt _ _)) by lia. lia.
  - rewrite (proj2 (Z.ltb_ge _ _)) by lia. lia.
Qed.

Lemma hex_bytes_text a : hex_bytes (hex_text a) = a.
Proof.
  induction a as [|b a IH]; [done|]. unfold hex_text in *. cbn [map concat app hex_bytes]. rewrite IH. f_equal.
  pose proof (ub_range b) as Hb. pose proof (Z.mod_pos_bound (ub b) 16 ltac:(lia)). pose proof (Z.div_mod (ub b) 16 ltac:(lia)).
  assert (0 ≤ ub b / 16 < 16) by (split; [apply Z.div_pos; lia|apply Z.div_lt_upper_bound; lia]).
  rewrite !hex_digit_value by done. replace (ub b / 16 * 16 + ub b mod 16) with (ub b) by lia. apply byte_of_ub.
Qed.

Lemma length_hex_text a : zlen (hex_text a) = 2 * zlen a.
Proof. induction a as [|b a IH]; [done|]. unfold hex_text in *. cbn [map concat app length]. lia. Qed.

#[export] Program Instance hex_inet6 : Inet6 := {
  ntop6 := hex_text;
  pton6 s := if zlen (hex_bytes s) =? 16 then Some (hex_bytes s) else None;
}.
Next Obligation. intros a Ha. rewrite length_hex_text. lia. Qed.
Next Obligation. intros s a Ha. cbn in Ha. destruct (zlen (hex_bytes s) =? 16) eqn:E; bool_prop; by simplify_eq. Qed.
Next Obligation. intros a Ha. cbn. by rewrite hex_bytes_text, Ha. Qed.

Definition blank : bytes := replicate 28 Byte.x00.

Lemma address_roundtrip_witness :
  toIpPort (new_InetAddress (str "192.168.1.20") 8080 false blank) = Ok (str "192.168.1.20:8080") ∧
  zlen (new_InetAddress (str "192.168.1.20") 8080 false blank) = 28.
Proof.
  destruct (address_roundtrip [Byte.xc0; Byte.xa8; Byte.x01; Byte.x14] 8080 false blank eq_refl ltac:(lia) eq_refl)
    as (Hl & _ & _ & _ & _ & Ht & _).
  split; [exact Ht|exact Hl].
Defined.

Lemma self_connect_exact_witness :
  let a := ztake 16 (new_InetAddress (str "127.0.0.1") 9981 false blank) in
  isSelfConnect (Some a) (Some a) = true.
Proof. intros a. apply (self_connect_exact a a); [by left|done|by vm_compute|done]. Defined.

(** A text that is no address: the failure is only logged, and since [memZero] fills with
    ones the address is the broadcast address. *)
Lemma bad_text_is_broadcast :
  toIpPort (new_InetAddress (str "192.168.1.256") 80 false blank) = Ok (str "255.255.255.255:80").
Proof. by vm_compute. Qed.

(** For the same reason the flow label and the scope of an IPv6 address are all ones. *)
Lemma ipv6_scope_is_ones :
  let a := new_InetAddress_port 80 false true blank in
  field sin6_scope_id a = replicate 4 (byte_of_Z 255) ∧ field sin6_flowinfo a = replicate 4 (byte_of_Z 255).
Proof. by vm_compute. Qed.

(** The addresses of [InetAddress(port)]. *)
Lemma port_addresses :
  toIpPort (new_InetAddress_port 80 false false blank) = Ok (str "0.0.0.0:80") ∧
  toIpPort (new_InetAddress_port 8080 true false blank) = Ok (str "127.0.0.1:8080") ∧
  field sin6_addr (new_InetAddress_port 80 true true blank) = in6addr_loopback.
Proof. by vm_compute. Qed.

End InetAddress.
