(* ===== verification/StaticServer.v ===== *)
(** The web server's connection management ([webServer/staticServer.h],
    [staticServer.cpp]): the limit on connections, the wheels that close idle ones, and
    the streaming of large files.

    Each loop has a wheel, a circular buffer of buckets; a connection's entry is kept
    alive by the buckets that hold it, and its destructor closes the connection.  The
    circular buffer is boost's: a class with its laws.

    A handler is one step, run in the thread of its loop.  A timer works on the wheels of
    all loops without a lock, so with two loops or more two handlers can work on one wheel
    at a time ([conflict], [two_loops_race]), which has no meaning in C++; with one loop
    thread they cannot, and that is the server the refinement theorem is about. *)

From S2P Require Import Prelude Timestamp EventLoopThread.
From Stdlib Require Import SpecFloat.

Module StaticServer.

(** A bucket: the connections whose entries it holds. *)
Abbreviation Bucket := (gset Z).

(** boost::circular_buffer<Bucket> as the program uses it: [resize] of an empty buffer,
    [push_back] on a full one, which overwrites the oldest bucket, and assignment through
    [back()]. *)
Class CircularBuffer := {
  ring : Type;
  contents : ring → list Bucket;
  capacity : ring → nat;
  resized : nat → ring;
  push_back : Bucket → ring → ring;
  set_back : Bucket → ring → ring;
  contents_resized n : contents (resized n) = replicate n ∅;
  capacity_resized n : capacity (resized n) = n;
  contents_push b r : contents r ≠ [] → length (contents r) = capacity r → contents (push_back b r) = tail (contents r) ++ [b];
  capacity_push b r : capacity (push_back b r) = capacity r;
  contents_set_back b r : contents r ≠ [] → contents (set_back b r) = removelast (contents r) ++ [b];
  capacity_set_back b r : capacity (set_back b r) = capacity r;
}.

(** What [connected()] distinguishes: kConnected, kDisconnecting, kDisconnected. *)
Inductive status := Up | Closing | Down.

(** The [size_t] that a double is converted to, by truncation; what does not fit has no
    defined value, and becomes a size that [resize] refuses. *)
Definition size_of_double (x : Timestamp.double) : res nat :=
  match x with
  | S754_zero _ => Ok 0%nat
  | S754_finite sign m e =>
      let v := if 0 <=? e then Z.pos m * 2 ^ e else Z.pos m / 2 ^ (- e) in
      if v =? 0 then Ok 0%nat
      else if negb sign && (v <? 2 ^ 64) then Ok (Z.to_nat v) else Err LengthError
  | _ => Err LengthError
  end.

#[global] Instance status_eq_dec : EqDecision status.
Proof. solve_decision. Defined.

Section Server.
Context `{CircularBuffer}.

(** The server, with its connections (the loop and status of each), those with an entry
    in their context, those [forceClose()] was called for, and the loops with a timer. *)
Record StaticServer := mkStatic {
  numConnected_ : Z;
  kmaxConnections_ : Z;
  loopThreads_ : Z;
  idleExpiredTime_ : Timestamp.double;
  map_ : gmap Z ring;
  conns : gmap Z (Z * status);
  contexts : gset Z;
  forced : gset Z;
  timers : list Z;
  tasks : list Z;               (* the requests put into the thread pool *)
}.

Definition new_StaticServer (loopThreads maxConnections : Z) (idleDownLineTime : Timestamp.double) : StaticServer :=
  mkStatic 0 maxConnections loopThreads idleDownLineTime ∅ ∅ ∅ ∅ [] [].

Definition set_numConnected (v : Z) (s : StaticServer) : StaticServer :=
  mkStatic v (kmaxConnections_ s) (loopThreads_ s) (idleExpiredTime_ s) (map_ s) (conns s) (contexts s) (forced s) (timers s) (tasks s).
Definition set_map (v : gmap Z ring) (s : StaticServer) : StaticServer :=
  mkStatic (numConnected_ s) (kmaxConnections_ s) (loopThreads_ s) (idleExpiredTime_ s) v (conns s) (contexts s) (forced s) (timers s) (tasks s).
Definition set_conns (v : gmap Z (Z * status)) (s : StaticServer) : StaticServer :=
  mkStatic (numConnected_ s) (kmaxConnections_ s) (loopThreads_ s) (idleExpiredTime_ s) (map_ s) v (contexts s) (forced s) (timers s) (tasks s).
Definition set_contexts (v : gset Z) (s : StaticServer) : StaticServer :=
  mkStatic (numConnected_ s) (kmaxConnections_ s) (loopThreads_ s) (idleExpiredTime_ s) (map_ s) (conns s) v (forced s) (timers s) (tasks s).
Definition set_forced (v : gset Z) (s : StaticServer) : StaticServer :=
  mkStatic (numConnected_ s) (kmaxConnections_ s) (loopThreads_ s) (idleExpiredTime_ s) (map_ s) (conns s) (contexts s) v (timers s) (tasks s).
Definition add_timer (l : Z) (s : StaticServer) : StaticServer :=
  mkStatic (numConnected_ s) (kmaxConnections_ s) (loopThreads_ s) (idleExpiredTime_ s) (map_ s) (conns s) (contexts s) (forced s) (timers s ++ [l]) (tasks s).
Definition add_task (c : Z) (s : StaticServer) : StaticServer :=
  mkStatic (numConnected_ s) (kmaxConnections_ s) (loopThreads_ s) (idleExpiredTime_ s) (map_ s) (conns s) (contexts s) (forced s) (timers s) (tasks s ++ [c]).

Definition loop_of (c : Z) (s : StaticServer) : Z := match conns s !! c with Some (l, _) => l | None => 0 end.
Definition status_of (c : Z) (s : StaticServer) : status := match conns s !! c with Some (_, st) => st | None => Down end.
Definition set_status (c : Z) (st : status) (s : StaticServer) : StaticServer :=
  set_conns (<[c := (loop_of c s, st)]> (conns s)) s.

(** [TcpConnection::forceClose()]: a connection that is not down yet will be closed. *)
Definition forceClose (c : Z) (s : StaticServer) : StaticServer :=
  match status_of c s with
  | Down => s
  | _ => set_forced ({[c]} ∪ forced s) (set_status c Closing s)
  end.

(** [~Entry]: [connected()] is only true of an [Up] connection. *)
Definition delete_Entry (c : Z) (s : StaticServer) : StaticServer :=
  if bool_decide (status_of c s = Up) then forceClose c s else s.

(** The loop of [start()], [n] iterations before its end. *)
Fixpoint start_loops (n : nat) (loops : EventLoopThreadPool.EventLoopThreadPool) (s : StaticServer)
    : res (EventLoopThreadPool.EventLoopThreadPool * StaticServer) :=
  match n with
  | O => Ok (loops, s)
  | S n =>
      let! size := size_of_double (idleExpiredTime_ s) in
      let buket := resized size in
      let! (loop, loops) := EventLoopThreadPool.getNextLoop true loops in
      let s := set_map (match map_ s !! loop with Some _ => map_ s | None => <[loop := buket]> (map_ s) end) s in
      start_loops n loops (add_timer loop s)
  end.

Definition start (loops : EventLoopThreadPool.EventLoopThreadPool) (s : StaticServer)
    : res (EventLoopThreadPool.EventLoopThreadPool * StaticServer) :=
  start_loops (Z.to_nat (loopThreads_ s)) loops s.

(** [map_[conn->getLoop()]->back().insert(entry)]: a missing wheel is a null pointer, and
    an empty one has no last bucket. *)
Definition insert_back (c : Z) (s : StaticServer) : res StaticServer :=
  match map_ s !! loop_of c s with
  | None => Err UseAfterFree
  | Some r =>
      match last (contents r) with
      | None => Err OutOfRange
      | Some b => Ok (set_map (<[loop_of c s := set_back ({[c]} ∪ b) r]> (map_ s)) s)
      end
  end.

(** [onConnection], for a connection that has come up or gone down. *)
Definition onConnection (c : Z) (s : StaticServer) : res StaticServer :=
  if bool_decide (status_of c s = Up) then
    let s := set_numConnected (numConnected_ s +i 1) s in
    if kmaxConnections_ s <=? numConnected_ s then Ok (forceClose c s)
    else
      let! s := insert_back c s in
      Ok (set_contexts ({[c]} ∪ contexts s) s)
  else Ok (set_numConnected (numConnected_ s -i 1) s).

(** The entry of [c] is alive: some bucket holds it. *)
Definition entry_alive (c : Z) (s : StaticServer) : bool :=
  bool_decide (map_Exists (λ _ r, Exists (λ b : Bucket, c ∈ b) (contents r)) (map_ s)).

Definition onMessage (c : Z) (s : StaticServer) : res StaticServer :=
  let s := add_task c s in
  assert! bool_decide (c ∈ contexts s) in
  if entry_alive c s then insert_back c s else Ok s.

(** [onTimer()] pushes a bucket on every wheel, whatever loop's timer it is; the entries
    of the buckets that fall out are destroyed when no other bucket holds them. *)
Definition dropped (s : StaticServer) : gset Z :=
  map_fold (λ _ r acc, match contents r with b :: _ => b ∪ acc | [] => acc end) ∅ (map_ s).

Definition onTimer (s : StaticServer) : StaticServer :=
  let out := dropped s in
  let s := set_map (push_back ∅ <$> map_ s) s in
  foldl (λ s c, if entry_alive c s then s else delete_Entry c s) s (elements out).

(** ** Steps *)

Inductive event :=
| Connect (c l : Z)      (* connection [c] comes up in loop [l] *)
| Message (c : Z)
| Shutdown (c : Z)       (* the program shuts its write side *)
| Disconnect (c : Z)     (* it goes down *)
| Tick (l : Z).          (* the timer of loop [l] fires *)

Definition step (e : event) (s : StaticServer) : res StaticServer :=
  match e with
  | Connect c l => onConnection c (set_conns (<[c := (l, Up)]> (conns s)) s)
  | Message c => onMessage c s
  | Shutdown c => Ok (match status_of c s with Up => set_status c Closing s | _ => s end)
  | Disconnect c => onConnection c (set_status c Down s)
  | Tick _ => Ok (onTimer s)
  end.

(** Connections come up once, in a loop that has a wheel; only accepted connections have
    the message callback; what is down stays down. *)
Definition enabled (e : event) (s : StaticServer) : Prop :=
  match e with
  | Connect c l => conns s !! c = None ∧ is_Some (map_ s !! l) ∧ numConnected_ s < 2 ^ 31 - 1
  | Message c => c ∈ contexts s ∧ status_of c s ≠ Down
  | Shutdown c | Disconnect c => status_of c s ≠ Down
  | Tick l => l ∈ timers s
  end.

Inductive reach (s0 : StaticServer) : list event → StaticServer → Prop :=
| reach_start : reach s0 [] s0
| reach_step es s e s' : reach s0 es s → enabled e s → step e s = Ok s' → reach s0 (es ++ [e]) s'.

(** The loop whose thread runs a handler ([shutdown()] is called by any thread), and the
    wheels the handler works on. *)
Definition thread_of (e : event) (s : StaticServer) : option Z :=
  match e with
  | Connect _ l | Tick l => Some l
  | Message c | Disconnect c => Some (loop_of c s)
  | Shutdown _ => None
  end.

Definition works_on (e : event) (s : StaticServer) : gset Z :=
  match e with
  | Connect _ l => {[l]}
  | Message c => {[loop_of c s]}
  | Tick _ => dom (map_ s)
  | Shutdown _ | Disconnect _ => ∅
  end.

(** Two handlers that can run at the same time, in different threads, on one wheel. *)
Definition conflict (e1 e2 : event) (s : StaticServer) : Prop :=
  enabled e1 s ∧ enabled e2 s ∧ thread_of e1 s ≠ thread_of e2 s ∧ works_on e1 s ∩ works_on e2 s ≠ ∅.

(** ** Specification: countdowns *)

(** How many ticks each connection has left (0: none), which are up and which are not
    down, and which were closed by force. *)
Record Spec := mkSpec { remaining : Z → nat; up : gset Z; live : gset Z; closed : gset Z }.

Definition spec_step (maxConns : Z) (ticks : nat) (e : event) (m : Spec) : Spec :=
  match e with
  | Connect c _ =>
      if maxConns <=? Z.of_nat (size (live m)) + 1
      then mkSpec (remaining m) (up m) ({[c]} ∪ live m) ({[c]} ∪ closed m)
      else mkSpec (λ d, if decide (d = c) then ticks else remaining m d) ({[c]} ∪ up m) ({[c]} ∪ live m) (closed m)
  | Message c =>
      if decide (remaining m c = 0%nat) then m else mkSpec (λ d, if decide (d = c) then ticks else remaining m d) (up m) (live m) (closed m)
  | Shutdown c => mkSpec (remaining m) (up m ∖ {[c]}) (live m) (closed m)
  | Disconnect c => mkSpec (remaining m) (up m ∖ {[c]}) (live m ∖ {[c]}) (closed m)
  | Tick _ =>
      let out := filter (λ c, remaining m c = 1%nat) (up m) in
      mkSpec (λ d, pred (remaining m d)) (up m ∖ out) (live m) (out ∪ closed m)
  end.

Definition spec_run (maxConns : Z) (ticks : nat) (es : list event) : Spec :=
  foldl (λ m e, spec_step maxConns ticks e m) (mkSpec (λ _, 0%nat) ∅ ∅ ∅) es.

(** How many ticks the buckets give connection [c]: one more than the index of the last
    one that holds it. *)
Fixpoint latest (c : Z) (bs : list Bucket) : nat :=
  match bs with
  | [] => 0
  | b :: bs =>
      match latest c bs with
      | O => if bool_decide (c ∈ b) then 1 else 0
      | S k => S (S k)
      end
  end%nat.

Definition time_left (c : Z) (s : StaticServer) : nat :=
  match map_ s !! loop_of c s with Some r => latest c (contents r) | None => 0 end.

End Server.
(** ** The wheel *)

Lemma latest_0 c bs : latest c bs = 0%nat ↔ Forall (λ b : Bucket, c ∉ b) bs.
Proof.
  induction bs as [|b bs IH]; cbn; [by split|]. rewrite Forall_cons, <- IH. destruct (latest c bs) as [|k]; [|by split; [|intros []]].
  case_bool_decide; split; [done|by intros []|done|done].
Qed.

Lemma latest_alive c bs : Exists (λ b : Bucket, c ∈ b) bs ↔ latest c bs ≠ 0%nat.
Proof.
  rewrite latest_0. induction bs as [|b bs IH].
  - rewrite Exists_nil. split; [done|]. intros H. by apply H.
  - rewrite Exists_cons, Forall_cons, IH. destruct (decide (c ∈ b)); naive_solver.
Qed.

Lemma latest_snoc c bs b : latest c (bs ++ [b]) = if decide (c ∈ b) then S (length bs) else latest c bs.
Proof.
  induction bs as [|b' bs IH]; cbn.
  - by case_decide; [rewrite bool_decide_true|rewrite bool_decide_false].
  - rewrite IH. by case_decide.
Qed.

(** A tick: the oldest bucket falls out and an empty one comes in. *)
Lemma latest_tick c b bs : latest c (bs ++ [∅]) = pred (latest c (b :: bs)).
Proof.
  rewrite latest_snoc, decide_False by set_solver. cbn. destruct (latest c bs); [by case_bool_decide|done].
Qed.

(** An entry is put into the newest bucket. *)
Lemma latest_insert c d bs b :
  last bs = Some b →
  latest d (removelast bs ++ [{[c]} ∪ b]) = if decide (d = c) then length bs else latest d bs.
Proof.
  intros Hl. destruct bs as [|x bs _] using rev_ind; [done|]. rewrite last_snoc in Hl. simplify_eq.
  rewrite removelast_last, length_app, !latest_snoc. cbn. rewrite Nat.add_1_r.
  destruct (decide (d = c)) as [->|Hne]; [by rewrite decide_True by set_solver|].
  destruct (decide (d ∈ b)) as [Hd|Hd]; [by rewrite decide_True by set_solver|]. by rewrite decide_False by set_solver.
Qed.

Section Invariant.
Context `{CircularBuffer}.
Implicit Types (s : StaticServer) (c l : Z).

(** [N] buckets on every wheel. *)
Record inv (N : nat) (s : StaticServer) : Prop := {
  v_ticks : (0 < N)%nat;
  v_rings : ∀ l r, map_ s !! l = Some r → length (contents r) = N ∧ capacity r = N;
  v_members : ∀ l r b c, map_ s !! l = Some r → b ∈ contents r → c ∈ b → ∃ st, conns s !! c = Some (l, st);
  v_wheels : ∀ c l st, conns s !! c = Some (l, st) → is_Some (map_ s !! l);
  v_contexts : ∀ c, c ∈ contexts s → is_Some (conns s !! c);
}.

(** The countdowns describe the server. *)
Record rel (s : StaticServer) (m : Spec) : Prop := {
  r_left : ∀ c, remaining m c = time_left c s;
  r_up : ∀ c, c ∈ up m ↔ status_of c s = Up;
  r_live : ∀ c, c ∈ live m ↔ status_of c s ≠ Down;
  r_closed : closed m = forced s;
  r_count : numConnected_ s = Z.of_nat (size (live m));
}.

Lemma status_conns c s l st : conns s !! c = Some (l, st) → status_of c s = st ∧ loop_of c s = l.
Proof. intros E. unfold status_of, loop_of. by rewrite E. Qed.

Lemma entry_alive_left N c s : inv N s → entry_alive c s = true ↔ time_left c s ≠ 0%nat.
Proof.
  intros Hi. unfold entry_alive, time_left. rewrite bool_decide_eq_true, map_Exists_lookup. split.
  - intros (l & r & Hr & He). pose proof He as He'. apply Exists_exists in He' as (b & Hb & Hc).
    destruct (v_members _ _ Hi l r b c Hr Hb Hc) as [st Hst]. destruct (status_conns _ _ _ _ Hst) as [_ ->].
    rewrite Hr. by apply latest_alive.
  - destruct (map_ s !! loop_of c s) as [r|] eqn:Hr; [|done]. intros Hl. exists (loop_of c s), r. split; [done|]. by apply latest_alive.
Qed.

(** What an insertion into the newest bucket does. *)
Lemma insert_back_ok N c s :
  inv N s → is_Some (conns s !! c) →
  wp (insert_back c s) (λ s', inv N s' ∧ conns s' = conns s ∧ contexts s' = contexts s ∧ forced s' = forced s ∧
    numConnected_ s' = numConnected_ s ∧ kmaxConnections_ s' = kmaxConnections_ s ∧
    (∀ l, is_Some (map_ s' !! l) ↔ is_Some (map_ s !! l)) ∧
    ∀ d, time_left d s' = if decide (d = c) then N else time_left d s).
Proof.
  intros Hi [[l st] Hc]. destruct (status_conns _ _ _ _ Hc) as [Hst Hl]. unfold insert_back. rewrite Hl.
  destruct (v_wheels _ _ Hi c l st Hc) as [r Hr]. rewrite Hr. destruct (v_rings _ _ Hi l r Hr) as [Hlen Hcap].
  pose proof (v_ticks _ _ Hi) as HN. destruct (last (contents r)) as [b|] eqn:Hb.
  2: { apply last_None in Hb. rewrite Hb in Hlen. cbn in Hlen. lia. }
  assert (contents r ≠ []) as Hne by (intros F; by rewrite F in Hb).
  assert (contents (set_back ({[c]} ∪ b) r) = removelast (contents r) ++ [{[c]} ∪ b]) as E by by apply contents_set_back.
  assert (length (contents (set_back ({[c]} ∪ b) r)) = N) as Hlen'.
  { rewrite E, length_app. destruct (contents r) as [|x bs _] using rev_ind; [done|]. rewrite removelast_last.
    rewrite length_app in Hlen. cbn in *. lia. }
  cbn [wp]. split_and!; try done.
  - destruct Hi as [H1 H2 H3 H4 H5]. constructor; cbn; try done.
    + intros l' r'. rewrite lookup_insert. case_decide; [|by apply H2]. intros [= <-]. split; [done|]. by rewrite capacity_set_back.
    + intros l' r' b' d. rewrite lookup_insert. case_decide as El; [rewrite <- El|by apply H3]. intros [= <-] Hb' Hd.
      rewrite E in Hb'. destruct (contents r) as [|x bs _] eqn:Er using rev_ind; [done|]. rewrite removelast_last in Hb'.
      rewrite last_snoc in Hb. injection Hb as ->. apply elem_of_app in Hb' as [Hb'|Hb'].
      * apply (H3 l r b' d Hr); [rewrite Er; set_solver|done].
      * apply list_elem_of_singleton in Hb' as ->. apply elem_of_union in Hd as [->%elem_of_singleton|Hd]; [by exists st|].
        apply (H3 l r b d Hr); [rewrite Er; set_solver|done].
    + intros d l' st' Hd. rewrite lookup_insert. case_decide; [by eexists|by eapply H4].
  - intros l'. cbn. rewrite lookup_insert. case_decide as El; [rewrite <- El|done]. split; intros _; by eexists.
  - intros d. unfold time_left. change (loop_of d (set_map ?x s)) with (loop_of d s). cbn [map_ set_map]. rewrite lookup_insert.
    destruct (decide (l = loop_of d s)) as [El|El].
    + rewrite E, (latest_insert c d _ b Hb). rewrite <- El, Hr, Hlen. done.
    + rewrite decide_False; [done|]. intros ->. done.
Qed.


Lemma dropped_spec c s :
  c ∈ dropped s ↔ ∃ l r b bs, map_ s !! l = Some r ∧ contents r = b :: bs ∧ c ∈ b.
Proof.
  unfold dropped. generalize (map_ s) as m. intros m.
  induction m as [|l r m Hl Hf IH] using map_first_key_ind.
  { rewrite map_fold_empty. split; [set_solver|]. intros (l & r & b & bs & H1 & _). by rewrite lookup_empty in H1. }
  rewrite map_fold_insert_first_key by done. split.
  - intros Hc. assert (c ∈ match contents r with b :: _ => b | [] => ∅ end ∨
      c ∈ map_fold (λ (_ : Z) r acc, match contents r with [] => acc | b :: _ => b ∪ acc end) (∅ : gset Z) m) as [Hb|Hb].
    { destruct (contents r); [by right|]. apply elem_of_union in Hc. tauto. }
    + destruct (contents r) as [|b bs] eqn:E; [set_solver|]. exists l, r, b, bs. by rewrite lookup_insert_eq.
    + apply IH in Hb as (l' & r' & b & bs & H1 & H2 & H3). exists l', r', b, bs. split_and!; try done.
      rewrite lookup_insert_ne; [done|]. intros ->. congruence.
  - intros (l' & r' & b & bs & H1 & H2 & H3). rewrite lookup_insert in H1. case_decide as E.
    + simplify_eq. rewrite H2. set_solver.
    + assert (c ∈ map_fold (λ (_ : Z) r acc, match contents r with [] => acc | b :: _ => b ∪ acc end) (∅ : gset Z) m) as Hin
        by (apply IH; by exists l', r', b, bs).
      destruct (contents r); [done|]. set_solver.
Qed.

(** The destructors of some entries. *)
Definition collect (cs : list Z) (s : StaticServer) : StaticServer :=
  foldl (λ s c, if entry_alive c s then s else delete_Entry c s) s cs.

Lemma delete_Entry_spec c s :
  is_Some (conns s !! c) →
  let s' := delete_Entry c s in
  map_ s' = map_ s ∧ contexts s' = contexts s ∧ numConnected_ s' = numConnected_ s ∧ kmaxConnections_ s' = kmaxConnections_ s ∧
  (∀ d, loop_of d s' = loop_of d s) ∧ (∀ d, is_Some (conns s' !! d) ↔ is_Some (conns s !! d)) ∧
  (∀ d, status_of d s' = if decide (d = c ∧ status_of c s = Up) then Closing else status_of d s) ∧
  (∀ d, d ∈ forced s' ↔ d ∈ forced s ∨ (d = c ∧ status_of c s = Up)).
Proof.
  intros [[l st] Hc]. destruct (status_conns _ _ _ _ Hc) as [Hst Hl]. unfold delete_Entry, forceClose, set_status. rewrite !Hst.
  destruct (bool_decide (st = Up)) eqn:E; bool_prop.
  - rewrite E. cbn. rewrite Hl. rewrite E in Hc. split_and!; try done.
    + intros d. unfold loop_of. cbn. rewrite lookup_insert. case_decide; [subst d; by rewrite Hc|done].
    + intros d. rewrite lookup_insert. case_decide; [subst d; rewrite Hc; split; intros _; by eexists|done].
    + intros d. unfold status_of. cbn. rewrite lookup_insert. case_decide as H1.
      * subst d. by rewrite decide_True.
      * rewrite decide_False; [done|]. by intros [-> _].
    + intros d. set_solver.
  - cbn. split_and!; try done.
    + intros d. rewrite decide_False; [done|]. by intros [_ ?].
    + intros d. naive_solver.
Qed.

Lemma collect_spec cs s :
  (∀ c, c ∈ cs → is_Some (conns s !! c)) →
  let s' := collect cs s in
  map_ s' = map_ s ∧ contexts s' = contexts s ∧ numConnected_ s' = numConnected_ s ∧ kmaxConnections_ s' = kmaxConnections_ s ∧
  (∀ d, loop_of d s' = loop_of d s) ∧ (∀ d, is_Some (conns s' !! d) ↔ is_Some (conns s !! d)) ∧
  (∀ d, status_of d s' = if decide (d ∈ cs ∧ entry_alive d s = false ∧ status_of d s = Up) then Closing else status_of d s) ∧
  (∀ d, d ∈ forced s' ↔ d ∈ forced s ∨ (d ∈ cs ∧ entry_alive d s = false ∧ status_of d s = Up)).
Proof.
  revert s. induction cs as [|c cs IH]; intros s Hcs; cbn [collect foldl].
  { split_and!; try done.
    all: intros d; try (rewrite decide_False by set_solver; done); set_solver. }
  set (s1 := if entry_alive c s then s else delete_Entry c s).
  assert (map_ s1 = map_ s ∧ contexts s1 = contexts s ∧ numConnected_ s1 = numConnected_ s ∧ kmaxConnections_ s1 = kmaxConnections_ s ∧
    (∀ d, loop_of d s1 = loop_of d s) ∧ (∀ d, is_Some (conns s1 !! d) ↔ is_Some (conns s !! d)) ∧
    (∀ d, status_of d s1 = if decide (d = c ∧ entry_alive c s = false ∧ status_of c s = Up) then Closing else status_of d s) ∧
    (∀ d, d ∈ forced s1 ↔ d ∈ forced s ∨ (d = c ∧ entry_alive c s = false ∧ status_of c s = Up)))
    as (A1 & A2 & A3 & A4 & A5 & A6 & A7 & A8).
  { unfold s1. destruct (entry_alive c s).
    - split_and!; try done; [intros d; rewrite decide_False; [done|]; by intros (_ & ? & _)|]. intros d. naive_solver.
    - destruct (delete_Entry_spec c s) as (B1 & B2 & B3 & B4 & B5 & B6 & B7 & B8); [apply Hcs; by left|]. split_and!; try done.
      + intros d. rewrite B7. apply decide_ext. naive_solver.
      + intros d. rewrite B8. naive_solver. }
  assert (∀ d, entry_alive d s1 = entry_alive d s) as Ha by (intros d; unfold entry_alive; by rewrite A1).
  destruct (IH s1) as (B1 & B2 & B3 & B4 & B5 & B6 & B7 & B8); [intros d Hd; apply A6, Hcs; by right|].
  fold (collect cs s1). split_and!; try congruence.
  - intros d. by rewrite B6, A6.
  - intros d. rewrite B7, Ha, A7.
    destruct (decide (d = c ∧ entry_alive c s = false ∧ status_of c s = Up)) as [(-> & H1 & H2)|Hn].
    + rewrite decide_False by (by intros (_ & _ & ?)). rewrite decide_True; [done|]. split; [by left|done].
    + apply decide_ext. rewrite elem_of_cons. split; [tauto|]. intros ([->|?] & ? & ?); [tauto|done].
  - intros d. rewrite B8, A8, Ha, A7, elem_of_cons.
    destruct (decide (d = c ∧ entry_alive c s = false ∧ status_of c s = Up)) as [(-> & H1 & H2)|Hn].
    + split; [tauto|]. intros _. left. right. tauto.
    + split; [tauto|]. intros [?|([->|?] & ? & ?)]; tauto.
Qed.

(** A tick. *)
Lemma onTimer_ok N s :
  inv N s →
  let s' := onTimer s in
  inv N s' ∧ numConnected_ s' = numConnected_ s ∧ kmaxConnections_ s' = kmaxConnections_ s ∧
  (∀ d, time_left d s' = pred (time_left d s)) ∧
  (∀ d, status_of d s' = if decide (time_left d s = 1%nat ∧ status_of d s = Up) then Closing else status_of d s) ∧
  (∀ d, d ∈ forced s' ↔ d ∈ forced s ∨ (time_left d s = 1%nat ∧ status_of d s = Up)).
Proof.
  intros Hi. unfold onTimer. set (s1 := set_map (push_back ∅ <$> map_ s) s).
  pose proof (v_ticks _ _ Hi) as HN.
  assert (∀ l r, map_ s !! l = Some r → ∃ b bs, contents r = b :: bs ∧ contents (push_back ∅ r) = bs ++ [∅]) as Hpush.
  { intros l r Hr. destruct (v_rings _ _ Hi l r Hr) as [Hlen Hcap]. destruct (contents r) as [|b bs] eqn:E; [cbn in Hlen; lia|].
    exists b, bs. split; [done|]. rewrite contents_push; rewrite E; [done|done|congruence]. }
  assert (∀ d, time_left d s1 = pred (time_left d s)) as Hleft.
  { intros d. unfold time_left. change (loop_of d s1) with (loop_of d s). cbn. rewrite lookup_fmap.
    destruct (map_ s !! loop_of d s) as [r|] eqn:Hr; [|done]. cbn. destruct (Hpush _ _ Hr) as (b & bs & -> & ->). apply latest_tick. }
  assert (inv N s1) as Hi1.
  { destruct Hi as [H1 H2 H3 H4 H5]. constructor; cbn; try done.
    - intros l r. rewrite lookup_fmap. destruct (map_ s !! l) as [r0|] eqn:Hr; [|done]. cbn. intros [= <-].
      destruct (Hpush _ _ Hr) as (b & bs & E1 & E2). destruct (H2 l r0 Hr) as [Hlen Hcap]. rewrite E2, length_app, capacity_push.
      rewrite E1 in Hlen. cbn in *. lia.
    - intros l r b c. rewrite lookup_fmap. destruct (map_ s !! l) as [r0|] eqn:Hr; [|done]. cbn. intros [= <-] Hb Hc.
      destruct (Hpush _ _ Hr) as (b0 & bs & E1 & E2). rewrite E2 in Hb. apply elem_of_app in Hb as [Hb|Hb].
      + apply (H3 l r0 b c Hr); [|done]. rewrite E1. by right.
      + apply list_elem_of_singleton in Hb. subst b. by apply not_elem_of_empty in Hc.
    - intros c l st Hc. rewrite lookup_fmap. destruct (H4 c l st Hc) as [r ->]. by eexists. }
  assert (∀ d, d ∈ elements (dropped s) ∧ entry_alive d s1 = false ↔ time_left d s = 1%nat) as Hout.
  { intros d. rewrite <- not_true_iff_false, (entry_alive_left N) by done. rewrite Hleft, elem_of_elements, dropped_spec.
    unfold time_left. split.
    - intros [(l & r & b & bs & Hr & E & Hd) Hz]. destruct (v_members _ _ Hi l r b d Hr) as [st Hst]; [rewrite E; left|done|].
      destruct (status_conns _ _ _ _ Hst) as [_ Hl]. rewrite Hl, Hr, E in Hz |- *. cbn in *.
      destruct (latest d bs); [by rewrite bool_decide_true|]. cbn in Hz. exfalso. by apply Hz.
    - destruct (map_ s !! loop_of d s) as [r|] eqn:Hr; [|done]. intros E. split; [|by rewrite E; intros []].
      destruct (Hpush _ _ Hr) as (b & bs & E1 & _). exists (loop_of d s), r, b, bs. split_and!; [done|done|].
      rewrite E1 in E. cbn in E. destruct (latest d bs); [by case_bool_decide|done]. }
  destruct (collect_spec (elements (dropped s)) s1) as (B1 & B2 & B3 & B4 & B5 & B6 & B7 & B8).
  { intros c (l & r & b & bs & Hr & E & Hc)%elem_of_elements%dropped_spec.
    destruct (v_members _ _ Hi l r b c Hr) as [st Hst]; [rewrite E; left|done|]. by eexists. }
  cbv zeta. fold (collect (elements (dropped s)) s1). set (s2 := collect (elements (dropped s)) s1) in *. split_and!; try done.
  - destruct Hi1 as [H1 H2 H3 H4 H5]. constructor; try done.
    + intros l r. rewrite B1. apply H2.
    + intros l r b c. rewrite B1. intros Hr Hb Hc. destruct (H3 l r b c Hr Hb Hc) as [st Hst].
      destruct (proj2 (B6 c)) as [[l' st'] Hc']; [by eexists|]. exists st'. rewrite Hc'. do 2 f_equal.
      pose proof (B5 c) as E. unfold loop_of in E. by rewrite Hc', Hst in E.
    + intros c l st Hc. rewrite B1. destruct (proj1 (B6 c)) as [[l' st'] Hc']; [by eexists|].
      pose proof (B5 c) as E. unfold loop_of in E. rewrite Hc, Hc' in E. subst l'. by eapply H4.
    + intros c. rewrite B2. intros Hc. by apply B6, H5.
  - intros d. unfold time_left. rewrite B5, B1. apply Hleft.
  - intros d. rewrite B7. change (status_of d s1) with (status_of d s). apply decide_ext. rewrite <- Hout. tauto.
  - intros d. rewrite B8. change (status_of d s1) with (status_of d s). change (forced s1) with (forced s). rewrite <- Hout. tauto.
Qed.


(** A connection nobody knows is in no bucket. *)
Lemma latest_unknown N c l r s : inv N s → conns s !! c = None → map_ s !! l = Some r → latest c (contents r) = 0%nat.
Proof.
  intros Hi Hc Hr. apply latest_0, Forall_forall. intros b Hb Hin.
  destruct (v_members _ _ Hi l r b c Hr Hb Hin) as [st Hst]. congruence.
Qed.

Lemma inv_status N c l st s :
  inv N s → (conns s !! c = None ∨ loop_of c s = l) → is_Some (map_ s !! l) → inv N (set_conns (<[c := (l, st)]> (conns s)) s).
Proof.
  intros Hi Hc Hl. pose proof Hi as [H1 H2 H3 H4 H5]. constructor; cbn; try done.
  - intros l' r b d Hr Hb Hd. destruct (H3 l' r b d Hr Hb Hd) as [st' Hst]. rewrite lookup_insert. case_decide as E.
    + subst d. exists st. destruct Hc as [Hc|Hc]; [congruence|]. destruct (status_conns _ _ _ _ Hst) as [_ Hl']. congruence.
    + by exists st'.
  - intros d l' st'. rewrite lookup_insert. case_decide; [by intros [= <- _]|by apply H4].
  - intros d Hd. rewrite lookup_insert. case_decide; [by eexists|by apply H5].
Qed.

Lemma time_left_status N c l st d s :
  inv N s → (conns s !! c = None ∨ loop_of c s = l) → is_Some (map_ s !! l) →
  time_left d (set_conns (<[c := (l, st)]> (conns s)) s) = time_left d s.
Proof.
  intros Hi Hc [r Hr]. unfold time_left. cbn. assert (loop_of d (set_conns (<[c := (l, st)]> (conns s)) s) = if decide (d = c) then l else loop_of d s) as ->.
  { unfold loop_of. cbn. rewrite lookup_insert. destruct (decide (c = d)) as [->|]; [by rewrite decide_True|by rewrite decide_False]. }
  destruct (decide (d = c)) as [->|]; [|done]. destruct Hc as [Hc|Hc]; [|by rewrite Hc].
  rewrite Hr, (latest_unknown N c l r s) by done. destruct (map_ s !! loop_of c s) eqn:E; [|done]. by rewrite (latest_unknown N c _ _ s Hi Hc E).
Qed.

Lemma status_status c l st d s :
  status_of d (set_conns (<[c := (l, st)]> (conns s)) s) = if decide (d = c) then st else status_of d s.
Proof.
  unfold status_of. cbn. rewrite lookup_insert. destruct (decide (c = d)) as [->|]; [by rewrite decide_True|by rewrite decide_False].
Qed.

(** A status changes and nothing else. *)
Lemma rel_status N c st k s m m' :
  inv N s → rel (set_numConnected k s) m → is_Some (conns s !! c) →
  remaining m' = remaining m → closed m' = closed m → numConnected_ s = Z.of_nat (size (live m')) →
  (∀ d, d ∈ up m' ↔ if decide (d = c) then st = Up else d ∈ up m) →
  (∀ d, d ∈ live m' ↔ if decide (d = c) then st ≠ Down else d ∈ live m) →
  inv N (set_status c st s) ∧ rel (set_status c st s) m'.
Proof.
  intros Hi Hr [[l st0] Hc] E1 E2 E3 Hup Hlive. destruct (status_conns _ _ _ _ Hc) as [_ Hl]. unfold set_status. rewrite Hl.
  assert (is_Some (map_ s !! l)) as Hm by by apply (v_wheels _ _ Hi c l st0).
  split; [apply inv_status; auto|]. destruct Hr as [R1 R2 R3 R4 R5]. constructor; cbn.
  - intros d. change (time_left d (set_conns (<[c:=(l, st)]> (conns s)) s)) with (time_left d (set_conns (<[c:=(l, st)]> (conns s)) s)).
    rewrite (time_left_status N) by auto. by rewrite E1.
  - intros d. rewrite Hup, status_status. by case_decide.
  - intros d. rewrite Hlive, status_status. by case_decide.
  - by rewrite E2.
  - done.
Qed.

Lemma size_add c (X : gset Z) : c ∉ X → size ({[c]} ∪ X) = S (size X).
Proof. intros Hc. rewrite size_union by set_solver. by rewrite size_singleton. Qed.

Lemma size_del c (X : gset Z) : c ∈ X → size X = S (size (X ∖ {[c]})).
Proof. intros Hc. rewrite <- (size_add c) by set_solver. by rewrite <- union_difference_singleton_L by done. Qed.

(** Counting a connection that has come up. *)
Lemma static_connect_ok N c l s m :
  inv N s → rel s m → enabled (Connect c l) s →
  wp (step (Connect c l) s) (λ s', inv N s' ∧ rel s' (spec_step (kmaxConnections_ s) N (Connect c l) m) ∧
    kmaxConnections_ s' = kmaxConnections_ s).
Proof.
  intros Hi Hr (Hc & Hl & Hn). pose proof Hr as [R1 R2 R3 R4 R5]. cbn [step]. set (s1 := set_conns (<[c := (l, Up)]> (conns s)) s).
  assert (inv N s1) as Hi1 by (apply inv_status; auto).
  assert (∀ d, time_left d s1 = time_left d s) as Ht1 by (intros d; apply (time_left_status N); auto).
  assert (∀ d, status_of d s1 = if decide (d = c) then Up else status_of d s) as Hs1 by (intros d; apply status_status).
  assert (status_of c s = Down) as Hdown by (unfold status_of; by rewrite Hc).
  assert (c ∉ live m) as Hlive by (rewrite R3; by intros []).
  unfold onConnection. rewrite bool_decide_true by (by rewrite Hs1, decide_True).
  set (s2 := set_numConnected (numConnected_ s1 +i 1) s1).
  assert (numConnected_ s2 = Z.of_nat (size (live m)) + 1) as Hn2.
  { unfold s2. cbn. rewrite i32_small; [by rewrite R5|]. rewrite R5 in Hn |- *. lia. }
  assert (inv N s2) as Hi2 by (by destruct Hi1; constructor).
  rewrite Hn2. change (kmaxConnections_ s2) with (kmaxConnections_ s). cbn [spec_step].
  destruct (kmaxConnections_ s <=? Z.of_nat (size (live m)) + 1) eqn:Ek.
  - cbn [wp]. unfold forceClose. change (status_of c s2) with (status_of c s1). rewrite Hs1, decide_True by done.
    assert (loop_of c s2 = l) as Hl2 by (unfold loop_of, s2, s1; cbn; by rewrite lookup_insert_eq).
    unfold set_status. rewrite Hl2. set (s3 := set_conns (<[c := (l, Closing)]> (conns s2)) s2).
    assert (inv N s3) as Hi3 by (apply inv_status; auto).
    assert (∀ d, time_left d s3 = time_left d s) as Ht3.
    { intros d. unfold s3. rewrite (time_left_status N) by auto. apply Ht1. }
    assert (∀ d, status_of d s3 = if decide (d = c) then Closing else status_of d s) as Hs3.
    { intros d. unfold s3. rewrite status_status. change (status_of d s2) with (status_of d s1). rewrite Hs1. by case_decide. }
    split_and!; [by destruct Hi3; constructor| |done]. constructor; cbn.
    + intros d. rewrite R1. symmetry. apply Ht3.
    + intros d. rewrite R2. change (status_of d (set_forced ({[c]} ∪ forced s) s3)) with (status_of d s3).
      rewrite Hs3. case_decide; [subst d; by rewrite Hdown|done].
    + intros d. rewrite elem_of_union, elem_of_singleton, R3. change (status_of d (set_forced ({[c]} ∪ forced s) s3)) with (status_of d s3).
      rewrite Hs3. case_decide; [subst d; split; [done|by left]|naive_solver].
    + by rewrite R4.
    + change (numConnected_ s2 = Z.of_nat (size ({[c]} ∪ live m))). rewrite Hn2, size_add by done. lia.
  - assert (is_Some (conns s2 !! c)) as Hc2 by (unfold s2, s1; cbn; rewrite lookup_insert_eq; by eexists).
    eapply wp_bind; [by apply (insert_back_ok N)|]. intros s' (I1 & I2 & I3 & I4 & I5 & I6 & I7 & I8). cbn [wp].
    assert (∀ d, status_of d s' = status_of d s1) as Hs' by (intros d; unfold status_of; by rewrite I2).
    split_and!; [|constructor; cbn|exact I6].
    + destruct I1 as [J1 J2 J3 J4 J5]. constructor; cbn; try done. intros d [->%elem_of_singleton|Hd]%elem_of_union; [by rewrite I2|by apply J5].
    + intros d. change (time_left d (set_contexts ({[c]} ∪ contexts s') s')) with (time_left d s'). rewrite I8.
      case_decide; [done|]. rewrite R1. symmetry. apply Ht1.
    + intros d. change (status_of d (set_contexts ?x s')) with (status_of d s'). rewrite Hs', Hs1, elem_of_union, elem_of_singleton, R2.
      case_decide; [subst d; split; [done|by left]|naive_solver].
    + intros d. change (status_of d (set_contexts ?x s')) with (status_of d s'). rewrite Hs', Hs1, elem_of_union, elem_of_singleton, R3.
      case_decide; [subst d; split; [done|by left]|naive_solver].
    + rewrite R4, I4. done.
    + rewrite I5, Hn2, size_add by done. lia.
Qed.

Lemma wheel_step_ok N e s m :
  inv N s → rel s m → enabled e s → numConnected_ s < 2 ^ 31 →
  wp (step e s) (λ s', inv N s' ∧ rel s' (spec_step (kmaxConnections_ s) N e m) ∧ kmaxConnections_ s' = kmaxConnections_ s).
Proof.
  intros Hi Hr He Hbound. pose proof Hr as [R1 R2 R3 R4 R5]. destruct e as [c l|c|c|c|l].
  - by apply static_connect_ok.
  - destruct He as [Hctx Hst]. cbn [step]. unfold onMessage. change (contexts (add_task c s)) with (contexts s).
    rewrite bool_decide_true by done. change (entry_alive c (add_task c s)) with (entry_alive c s).
    assert (inv N (add_task c s)) as Hi' by (by destruct Hi; constructor).
    pose proof (entry_alive_left N c s Hi) as Ha. cbn [spec_step]. rewrite <- (R1 c) in Ha.
    destruct (entry_alive c s).
    + rewrite decide_False by (by apply Ha). eapply wp_mono; [apply (insert_back_ok N); [done|by apply (v_contexts _ _ Hi)]|].
      intros s' (I1 & I2 & I3 & I4 & I5 & I6 & I7 & I8). split_and!; [done| |done].
      assert (∀ d, status_of d s' = status_of d s) as Hs' by (intros d; unfold status_of; by rewrite I2).
      constructor; cbn.
      * intros d. rewrite I8. case_decide; [done|]. apply R1.
      * intros d. by rewrite Hs'.
      * intros d. by rewrite Hs'.
      * by rewrite R4, I4.
      * by rewrite I5.
    + destruct (decide (remaining m c = 0%nat)) as [E|E]; [|by apply Ha in E]. cbn. split_and!; [done| |done]. by constructor.
  - cbn in He. assert (is_Some (conns s !! c)) as Hc by (unfold status_of in He; destruct (conns s !! c); [by eexists|done]).
    cbn [step spec_step wp]. destruct (status_of c s) eqn:Es; [| |done].
    + destruct (rel_status N c Closing (numConnected_ s) s m (mkSpec (remaining m) (up m ∖ {[c]}) (live m) (closed m))) as [H1 H2]; try done.
      * intros d. cbn. case_decide; set_solver.
      * intros d. cbn. case_decide; [subst d; rewrite R3, Es; done|done].
    + split_and!; [done| |done]. constructor; cbn; try done. intros d. rewrite elem_of_difference, R2, elem_of_singleton.
      split; [by intros [? _]|]. intros Hu. split; [done|]. intros ->. congruence.
  - cbn in He. assert (is_Some (conns s !! c)) as Hc by (unfold status_of in He; destruct (conns s !! c); [by eexists|done]).
    assert (c ∈ live m) as Hlive by by apply R3.
    cbn [step]. unfold onConnection. pose proof (size_del c (live m) Hlive) as Hsz.
    assert (status_of c (set_status c Down s) = Down) as Hd.
    { unfold set_status. rewrite status_status. by rewrite decide_True. }
    rewrite bool_decide_false by (by rewrite Hd). cbn [wp].
    set (s1 := set_numConnected (numConnected_ s -i 1) s).
    assert (numConnected_ s1 = Z.of_nat (size (live m ∖ {[c]}))) as Hn1.
    { unfold s1. cbn. rewrite i32_small; [lia|]. rewrite R5 in Hbound |- *. lia. }
    destruct (rel_status N c Down (numConnected_ s) s1 m (spec_step (kmaxConnections_ s) N (Disconnect c) m)) as [H1 H2]; try done.
    + by destruct Hi; constructor.
    + intros d. cbn. case_decide; set_solver.
    + intros d. cbn. case_decide; set_solver.
  - cbn [step wp]. destruct (onTimer_ok N s Hi) as (I1 & I2 & I3 & I4 & I5 & I6). split_and!; [done| |done]. constructor; cbn [spec_step remaining up live closed].
    + intros d. rewrite I4. by rewrite R1.
    + intros d. rewrite I5, elem_of_difference, elem_of_filter, R1, R2. case_decide; naive_solver.
    + intros d. rewrite I5, R3. case_decide as Hdd; [|done]. destruct Hdd as [_ ->]. split; done.
    + apply set_eq. intros d. rewrite I6, elem_of_union, elem_of_filter, R1, R2, R4. tauto.
    + by rewrite I2.
Qed.


(** *** Start *)

Lemma start_loops_spec N n p s :
  size_of_double (idleExpiredTime_ s) = Ok N →
  EventLoopThreadPool.started_ p = true → 0 ≤ EventLoopThreadPool.next_ p →
  EventLoopThreadPool.next_ p + Z.of_nat n ≤ zlen (EventLoopThreadPool.loops_ p) < 2 ^ 31 →
  ∃ p' s', start_loops n p s = Ok (p', s') ∧
    numConnected_ s' = numConnected_ s ∧ kmaxConnections_ s' = kmaxConnections_ s ∧ conns s' = conns s ∧
    contexts s' = contexts s ∧ forced s' = forced s ∧
    timers s' = timers s ++ ztake (Z.of_nat n) (zdrop (EventLoopThreadPool.next_ p) (EventLoopThreadPool.loops_ p)) ∧
    (∀ l r, map_ s' !! l = Some r → map_ s !! l = Some r ∨ r = resized N) ∧
    (∀ l, is_Some (map_ s' !! l) ↔ is_Some (map_ s !! l) ∨ l ∈ ztake (Z.of_nat n) (zdrop (EventLoopThreadPool.next_ p) (EventLoopThreadPool.loops_ p))).
Proof.
  revert p s. induction n as [|n IH]; intros p s HN Hs H0 Hle.
  { exists p, s. cbn. split_and!; try done; [by rewrite app_nil_r|auto|]. intros l. split; [by left|]. intros [?|F]; [done|]. by apply not_elem_of_nil in F. }
  cbn [start_loops]. rewrite HN, EventLoopThreadPool.getNextLoop_spec by (done || lia). cbn [res_bind].
  set (ls := EventLoopThreadPool.loops_ p) in *. set (i := EventLoopThreadPool.next_ p) in *. set (loop := nth (Z.to_nat i) ls 0).
  assert (zdrop i ls = loop :: zdrop (i + 1) ls) as Hdrop.
  { unfold zdrop. replace (Z.to_nat (i + 1)) with (S (Z.to_nat i)) by lia. apply drop_S. unfold loop.
    rewrite <- (nth_lookup_or_length ls (Z.to_nat i) 0) at 2 || idtac. destruct (nth_lookup_or_length ls (Z.to_nat i) 0); [done|lia]. }
  assert (ztake (Z.of_nat (S n)) (zdrop i ls) = loop :: ztake (Z.of_nat n) (zdrop (i + 1) ls)) as Htake.
  { rewrite Hdrop. unfold ztake. by rewrite !Nat2Z.id. }
  set (s1 := add_timer loop (set_map _ s)).
  assert ((i + 1) mod zlen ls = i + 1 ∨ n = 0%nat) as Hmod by (destruct (decide (n = 0%nat)); [by right|left; apply Z.mod_small; lia]).
  assert (∀ l, is_Some (map_ s1 !! l) ↔ is_Some (map_ s !! l) ∨ l = loop) as Hdom.
  { intros l. unfold s1. cbn. destruct (map_ s !! loop) eqn:E.
    - split; [by left|]. intros [?| ->]; [done|by eexists].
    - rewrite lookup_insert. case_decide as El; [|split; [by left|by intros [?|?]; [|congruence]]]. subst l. split; [by right|by eexists]. }
  assert (∀ l r, map_ s1 !! l = Some r → map_ s !! l = Some r ∨ r = resized N) as Hnew.
  { intros l r. unfold s1. cbn. destruct (map_ s !! loop) eqn:E; [by left|]. rewrite lookup_insert. case_decide; [intros [= <-]; by right|by left]. }
  destruct Hmod as [Hmod| ->].
  - rewrite Hmod. destruct (IH (EventLoopThreadPool.set_next (i + 1) p) s1) as (p' & s' & E & F1 & F2 & F3 & F4 & F5 & F6 & F7 & F8); [done|done|cbn; lia|cbn; fold ls; lia|].
    change (EventLoopThreadPool.next_ (EventLoopThreadPool.set_next (i + 1) p)) with (i + 1) in F6, F8.
    change (EventLoopThreadPool.loops_ (EventLoopThreadPool.set_next (i + 1) p)) with ls in F6, F8. exists p', s'. split_and!; try done.
    + rewrite F6, Htake. change (timers s1) with (timers s ++ [loop]). by rewrite <- app_assoc.
    + intros l r [Hr|Hr]%F7; [by apply Hnew|by right].
    + intros l. rewrite F8, Hdom, Htake, elem_of_cons. tauto.
  - cbn [start_loops]. do 2 eexists. split; [done|]. rewrite Htake. unfold ztake. cbn. split_and!; try done.
    intros l. transitivity (is_Some (map_ s !! l) ∨ l = loop); [apply Hdom|]. rewrite elem_of_cons. split; [tauto|]. intros [?|[?|F]]; [by left|by right|by apply not_elem_of_nil in F].
Qed.

(** A started server: a wheel of [idle] buckets and a timer for every loop. *)
Lemma start_static n max expire idle p :
  EventLoopThreadPool.started_ p = true → EventLoopThreadPool.next_ p = 0 →
  zlen (EventLoopThreadPool.loops_ p) = n → 0 < n < 2 ^ 31 → size_of_double expire = Ok idle → (0 < idle)%nat →
  ∃ p' s0, start p (new_StaticServer n max expire) = Ok (p', s0) ∧ inv idle s0 ∧
    rel s0 (mkSpec (λ _, 0%nat) ∅ ∅ ∅) ∧ kmaxConnections_ s0 = max ∧ timers s0 = EventLoopThreadPool.loops_ p ∧
    conns s0 = ∅ ∧ ∀ l, is_Some (map_ s0 !! l) ↔ l ∈ EventLoopThreadPool.loops_ p.
Proof.
  intros Hs Hx Hl Hn Hsz Hi. unfold start. cbn [loopThreads_ new_StaticServer].
  destruct (start_loops_spec idle (Z.to_nat n) p (new_StaticServer n max expire)) as (p' & s0 & E & F1 & F2 & F3 & F4 & F5 & F6 & F7 & F8);
    [done|done|lia|rewrite Hx, Hl; lia|].
  rewrite Hx in F6, F8. rewrite zdrop_0, ztake_all in F6, F8 by lia. cbn in *. exists p', s0.
  assert (∀ l r, map_ s0 !! l = Some r → r = resized idle) as Hr.
  { intros l r [Hr|Hr]%F7; [by rewrite lookup_empty in Hr|done]. }
  split_and!; try done.
  - constructor; [lia| | | |].
    + intros l r ->%Hr. by rewrite contents_resized, length_replicate, capacity_resized.
    + intros l r b c ->%Hr. rewrite contents_resized. intros [-> _]%elem_of_replicate. by intros ?%not_elem_of_empty.
    + intros c l st. by rewrite F3, lookup_empty.
    + intros c. rewrite F4. by intros ?%not_elem_of_empty.
  - constructor; cbn; try done.
    + intros c. unfold time_left. destruct (map_ s0 !! loop_of c s0) as [r|] eqn:E'; [|done]. apply Hr in E' as ->.
      symmetry. apply latest_0. rewrite contents_resized. apply Forall_replicate. set_solver.
    + intros c. unfold status_of. rewrite F3, lookup_empty. split; [by intros ?%not_elem_of_empty|done].
    + intros c. unfold status_of. rewrite F3, lookup_empty. split; [by intros ?%not_elem_of_empty|by intros []].
  - intros l. rewrite F8, lookup_empty. split; [by intros [[]|?]|by right].
Qed.
End Invariant.

(** *** The countdowns *)

Lemma spec_live_size k N e m :
  (size (live (spec_step k N e m)) ≤ size (live m) + match e with Connect _ _ => 1 | _ => 0 end)%nat.
Proof.
  destruct e as [c l|c|c|c|l]; cbn [spec_step]; try (cbn; lia).
  - assert (size ({[c]} ∪ live m) ≤ size (live m) + 1)%nat as Hs.
    { rewrite (union_comm_L {[c]}), size_union_alt. pose proof (subseteq_size ({[c]} ∖ live m) {[c]}) as Hle.
      rewrite size_singleton in Hle. specialize (Hle ltac:(set_solver)). lia. }
    by destruct (k <=? _).
  - destruct (decide _); cbn; lia.
  - cbn. pose proof (subseteq_size (live m ∖ {[c]}) (live m)) as Hle. specialize (Hle ltac:(set_solver)). lia.
Qed.

Fixpoint ticks (es : list event) : Z :=
  match es with [] => 0 | Tick _ :: es => 1 + ticks es | _ :: es => ticks es end.

Definition concerns (c : Z) (e : event) : bool :=
  match e with Connect d _ | Message d | Shutdown d | Disconnect d => d =? c | Tick _ => false end.

Lemma ticks_nonneg es : 0 ≤ ticks es.
Proof. induction es as [|[] es IH]; cbn; lia. Qed.

(** What is closed stays closed, and down unless it connects again. *)
Lemma spec_closed_stays k N c es m :
  c ∈ closed m → c ∉ up m → Forall (λ e, concerns c e = false) es →
  let m' := foldl (λ m e, spec_step k N e m) m es in c ∈ closed m' ∧ c ∉ up m'.
Proof.
  revert m. induction es as [|e es IH]; intros m Hc Hu Hes; [done|]. apply Forall_cons in Hes as [He Hes]. cbn [foldl].
  apply IH; [| |done].
  - destruct e as [d l|d|d|d|l]; cbn [spec_step]; try done; try (by destruct (k <=? _); set_solver); try (by destruct (decide _)). cbn. set_solver.
  - destruct e as [d l|d|d|d|l]; cbn [spec_step concerns] in *; bool_prop; try (by destruct (decide _)); cbn; try set_solver.
    destruct (k <=? _); cbn; set_solver.
Qed.

(** A connection nothing is heard of. *)
Lemma spec_idle k N c es m :
  c ∈ up m → c ∉ closed m → remaining m c ≠ 0%nat → Forall (λ e, concerns c e = false) es →
  let m' := foldl (λ m e, spec_step k N e m) m es in
  (c ∈ closed m' ↔ Z.of_nat (remaining m c) ≤ ticks es) ∧ (c ∈ up m' ↔ ticks es < Z.of_nat (remaining m c)) ∧ True.
Proof.
  revert m. induction es as [|e es IH]; intros m Hu Hc Hr Hes; [cbn; split_and!; [split; [done|lia]|split; [lia|done]|done]|].
  apply Forall_cons in Hes as [He Hes]. cbn [foldl].
  assert ((∃ l, e = Tick l) ∨ (c ∈ up (spec_step k N e m) ∧ c ∉ closed (spec_step k N e m) ∧ remaining (spec_step k N e m) c = remaining m c ∧
    ticks (e :: es) = ticks es)) as [[l ->]|(H1 & H2 & H3 & H4)].
  { destruct e as [d l|d|d|d|l]; cbn [concerns] in He; bool_prop; [right|right|right|right|by left; exists l]; cbn [spec_step].
    - destruct (k <=? _); cbn; [|rewrite decide_False by congruence]; set_solver.
    - destruct (decide (remaining m d = 0%nat)); cbn; [done|]. by rewrite decide_False by congruence.
    - cbn. set_solver.
    - cbn. set_solver. }
  2: { rewrite H4, <- H3. apply IH; [done|done|by rewrite H3|done]. }
  pose proof (ticks_nonneg es). cbn [ticks]. destruct (decide (remaining m c = 1%nat)) as [E|E].
  - destruct (spec_closed_stays k N c es (spec_step k N (Tick l) m)) as [H1 H2]; [cbn; set_solver|cbn; set_solver|done|].
    rewrite E. split_and!; [split; [lia|done]|split; [done|lia]|done].
  - destruct (IH (spec_step k N (Tick l) m)) as (H1 & H2 & _); [cbn; set_solver|cbn; set_solver|cbn; lia|done|].
    change (remaining (spec_step k N (Tick l) m) c) with (pred (remaining m c)) in H1, H2. rewrite H1, H2. split_and!; [lia|lia|done].
Qed.

(** *** The loops stay *)

Lemma forceClose_loops `{CircularBuffer} c s : timers (forceClose c s) = timers s ∧ map_ (forceClose c s) = map_ s.
Proof. unfold forceClose. by destruct (status_of c s). Qed.

Lemma insert_back_loops `{CircularBuffer} c s s' : insert_back c s = Ok s' → timers s' = timers s ∧ dom (map_ s') = dom (map_ s).
Proof.
  unfold insert_back. destruct (map_ s !! loop_of c s) as [r|] eqn:E; [|done]. destruct (last (contents r)); [|done].
  intros [= <-]. cbn. split; [done|]. apply dom_insert_lookup_L. by eexists.
Qed.

Lemma onTimer_loops `{CircularBuffer} s : timers (onTimer s) = timers s ∧ dom (map_ (onTimer s)) = dom (map_ s).
Proof.
  unfold onTimer. set (f := λ s c, if entry_alive c s then s else delete_Entry c s).
  assert (∀ cs s1, timers (foldl f s1 cs) = timers s1 ∧ map_ (foldl f s1 cs) = map_ s1) as Hf.
  { induction cs as [|c cs IH]; intros s1; [done|]. cbn [foldl]. destruct (IH (f s1 c)) as [-> ->]. unfold f, delete_Entry.
    destruct (entry_alive c s1); [done|]. destruct (bool_decide _); [apply forceClose_loops|done]. }
  destruct (Hf (elements (dropped s)) (set_map (push_back ∅ <$> map_ s) s)) as [-> ->]. cbn. by rewrite dom_fmap_L.
Qed.

Lemma onConnection_loops `{CircularBuffer} c s s' :
  onConnection c s = Ok s' → timers s' = timers s ∧ dom (map_ s') = dom (map_ s).
Proof.
  unfold onConnection. destruct (bool_decide _); [|by intros [= <-]]. destruct (_ <=? _).
  - intros [= <-]. by destruct (forceClose_loops c (set_numConnected (numConnected_ s +i 1) s)) as [-> ->].
  - intros Hst. destruct (insert_back c _) as [s1|] eqn:E; [|done]. injection Hst as <-.
    by destruct (insert_back_loops _ _ _ E) as [E1 E2].
Qed.

Lemma step_loops `{CircularBuffer} e s s' : step e s = Ok s' → timers s' = timers s ∧ dom (map_ s') = dom (map_ s).
Proof.
  destruct e as [c l|c|c|c|l]; cbn [step].
  - intros Hst. by apply onConnection_loops in Hst.
  - unfold onMessage. destruct (bool_decide _); [|done]. destruct (entry_alive c _); [|by intros [= <-]].
    intros Hst. by apply insert_back_loops in Hst.
  - intros [= <-]. by destruct (status_of c s).
  - intros Hst. by apply onConnection_loops in Hst.
  - intros [= <-]. apply onTimer_loops.
Qed.

(** ** The theorems *)

Section Reachable.
Context `{CircularBuffer} (n max : Z) (expire : Timestamp.double) (idle : nat) (p : EventLoopThreadPool.EventLoopThreadPool).
Context (Hpool : EventLoopThreadPool.started_ p = true ∧ EventLoopThreadPool.next_ p = 0 ∧ zlen (EventLoopThreadPool.loops_ p) = n).
Context (Hn : 0 < n < 2 ^ 31) (Hidle : size_of_double expire = Ok idle ∧ (0 < idle)%nat).

(** Starting succeeds. *)
Definition first_state : StaticServer :=
  match start p (new_StaticServer n max expire) with Ok (_, s) => s | Err _ => new_StaticServer n max expire end.

Lemma first_state_ok :
  inv idle first_state ∧ rel first_state (mkSpec (λ _, 0%nat) ∅ ∅ ∅) ∧ kmaxConnections_ first_state = max ∧
  timers first_state = EventLoopThreadPool.loops_ p ∧ conns first_state = ∅ ∧
  ∀ l, is_Some (map_ first_state !! l) ↔ l ∈ EventLoopThreadPool.loops_ p.
Proof using Hpool Hn Hidle.
  destruct Hpool as (H1 & H2 & H3), Hidle as [Hi1 Hi2].
  destruct (start_static n max expire idle p H1 H2 H3 Hn Hi1 Hi2) as (p' & s0 & E & F1 & F2 & F3 & F4 & F5 & F6).
  unfold first_state. by rewrite E.
Qed.

Lemma reach_rel es s :
  reach first_state es s →
  inv idle s ∧ rel s (spec_run max idle es) ∧ kmaxConnections_ s = max ∧ numConnected_ s < 2 ^ 31.
Proof using Hpool Hn Hidle.
  induction 1 as [|es s e s' Hr (Hi & Hrel & Hk & Hb) He Hst].
  - destruct first_state_ok as (F1 & F2 & F3 & _). split_and!; try done. rewrite (r_count _ _ F2). cbn. rewrite size_empty. lia.
  - destruct (wp_elim _ _ (wheel_step_ok _ e s _ Hi Hrel He Hb)) as (s'' & E & F1 & F2 & F3). rewrite E in Hst. simplify_eq.
    rewrite Hk in F2. unfold spec_run. rewrite foldl_snoc. split_and!; [done|done|congruence|].
    rewrite (r_count _ _ F2). pose proof (r_count _ _ Hrel) as Hc. pose proof (spec_live_size max idle e (spec_run max idle es)) as Hsz.
    unfold spec_run in *. destruct e; [destruct He as (_ & _ & Hlt)|..]; lia.
Qed.

(** Whatever the number of loops: as long as handlers run one after the other, the wheels
    are the countdowns. *)
Theorem idle_wheels_serial es s :
  reach first_state es s →
  let m := spec_run max idle es in
  (∃ p', start p (new_StaticServer n max expire) = Ok (p', first_state)) ∧
  (∀ e, enabled e s → ∃ s', step e s = Ok s') ∧
  (∀ c, time_left c s = remaining m c) ∧ (∀ c, status_of c s = Up ↔ c ∈ up m) ∧ forced s = closed m ∧
  (∀ c, status_of c s ≠ Down ↔ c ∈ live m) ∧ numConnected_ s = Z.of_nat (size (live m)).
Proof using Hpool Hn Hidle.
  intros Hr m. destruct (reach_rel es s Hr) as (Hi & Hrel & Hk & Hb). split_and!.
  - destruct Hpool as (H1 & H2 & H3), Hidle as [Hi1 Hi2].
    destruct (start_static n max expire idle p H1 H2 H3 Hn Hi1 Hi2) as (p' & s0 & E & _).
    exists p'. unfold first_state. by rewrite E.
  - intros e He. destruct (wp_elim _ _ (wheel_step_ok _ e s _ Hi Hrel He Hb)) as (s' & E & _). by exists s'.
  - intros c. symmetry. by apply Hrel.
  - intros c. symmetry. by apply Hrel.
  - symmetry. by apply Hrel.
  - intros c. symmetry. by apply Hrel.
  - by apply Hrel.
Qed.

(** The loops with a wheel and those with a timer are the pool's. *)
Lemma reach_loops es s :
  reach first_state es s →
  timers s = EventLoopThreadPool.loops_ p ∧ ∀ l, is_Some (map_ s !! l) ↔ l ∈ EventLoopThreadPool.loops_ p.
Proof using Hpool Hn Hidle.
  induction 1 as [|es s e s' Hr [IH1 IH2] He Hst].
  - destruct first_state_ok as (_ & _ & _ & F4 & _ & F6). done.
  - destruct (step_loops _ _ _ Hst) as [E1 E2]. split; [congruence|]. intros l.
    rewrite <- IH2, <- !elem_of_dom. by rewrite E2.
Qed.


(** With two loops or more a timer and the connection callback of another loop work on one
    wheel in two threads. *)
Theorem two_loops_race c l1 l2 ls :
  EventLoopThreadPool.loops_ p = l1 :: l2 :: ls → l1 ≠ l2 → conflict (Tick l1) (Connect c l2) first_state.
Proof using Hpool Hn Hidle.
  intros E Hne. destruct first_state_ok as (_ & F2 & _ & F4 & F5 & F6). rewrite E in F4, F6.
  assert (is_Some (map_ first_state !! l2)) as Hl by (apply F6; set_solver).
  split_and!; cbn [enabled thread_of works_on].
  - rewrite F4. set_solver.
  - rewrite F5, lookup_empty. split_and!; [done|done|]. rewrite (r_count _ _ F2). cbn. rewrite size_empty. lia.
  - congruence.
  - apply elem_of_dom in Hl. set_solver.
Qed.

(** A connection that has just been heard of, and of which nothing more is heard, is
    closed by force by the [idle]-th tick and not before.  There is a timer per loop, and
    each of them ticks for all wheels: with [n] loops [n] ticks come per second. *)
Theorem idle_exact c es e0 es2 s :
  reach first_state (es ++ e0 :: es2) s → (e0 = Message c ∨ ∃ l, e0 = Connect c l) →
  let m0 := spec_run max idle (es ++ [e0]) in
  c ∈ up m0 → c ∉ closed m0 → remaining m0 c ≠ 0%nat →
  Forall (λ e, concerns c e = false) es2 →
  (c ∈ forced s ↔ Z.of_nat idle ≤ ticks es2) ∧ (status_of c s = Up ↔ ticks es2 < Z.of_nat idle) ∧
  zlen (timers first_state) = n.
Proof using Hpool Hn Hidle.
  intros Hr He0 m0 Hup Hcl Hrem Hes2. destruct (reach_rel _ s Hr) as (_ & Hrel & _ & _).
  assert (remaining m0 c = idle) as Hfull.
  { unfold m0, spec_run in *. rewrite foldl_snoc in Hrem |- *. destruct He0 as [->|[l ->]]; cbn [spec_step] in *.
    - destruct (decide (_ = 0%nat)) as [E|E]; [by rewrite E in Hrem|]. cbn. by rewrite decide_True.
    - destruct (max <=? _) eqn:E; cbn in *; [|by rewrite decide_True].
      exfalso. apply Hcl. unfold m0, spec_run. rewrite foldl_snoc. cbn [spec_step]. rewrite E. cbn. set_solver. }
  assert (spec_run max idle (es ++ e0 :: es2) = foldl (λ m e, spec_step max idle e m) m0 es2) as Hm.
  { unfold m0, spec_run. replace (es ++ e0 :: es2) with ((es ++ [e0]) ++ es2) by by rewrite <- app_assoc. by rewrite foldl_app. }
  destruct (spec_idle max idle c es2 m0 Hup Hcl Hrem Hes2) as (H1 & H2 & _). rewrite <- Hm in H1, H2.
  rewrite Hfull in H1, H2. split_and!.
  - rewrite <- (r_closed _ _ Hrel), H1. lia.
  - rewrite <- (r_up _ _ Hrel), H2. lia.
  - destruct first_state_ok as (_ & _ & _ & -> & _). by apply Hpool.
Qed.
End Reachable.


(** ** A concrete server *)

(** A circular buffer as a list and a capacity. *)
Definition list_ring : Type := list Bucket * nat.

Definition ring_push (b : Bucket) (r : list_ring) : list_ring :=
  if decide (length r.1 = r.2) then (match r.1 with [] => [] | _ :: bs => bs ++ [b] end, r.2) else (r.1 ++ [b], r.2).

Definition ring_set_back (b : Bucket) (r : list_ring) : list_ring := (removelast r.1 ++ [b], r.2).

Lemma ring_push_full b (r : list_ring) : r.1 ≠ [] → length r.1 = r.2 → (ring_push b r).1 = tail r.1 ++ [b].
Proof. intros Hne Hl. unfold ring_push. rewrite decide_True by done. by destruct r.1. Qed.

Lemma ring_push_capacity b (r : list_ring) : (ring_push b r).2 = r.2.
Proof. unfold ring_push. by case_decide. Qed.

#[export] Instance list_buffer : CircularBuffer := {
  ring := list_ring;
  contents := fst;
  capacity := snd;
  resized n := (replicate n ∅, n);
  push_back := ring_push;
  set_back := ring_set_back;
  contents_resized n := eq_refl;
  capacity_resized n := eq_refl;
  contents_push := ring_push_full;
  capacity_push := ring_push_capacity;
  contents_set_back b r _ := eq_refl;
  capacity_set_back b r := eq_refl;
}.

(** Two loops; at most two connections are served; three ticks. *)
Definition demo_pool : EventLoopThreadPool.EventLoopThreadPool :=
  EventLoopThreadPool.mkLoops 0 (str "s") true 2 0 [str "s0"; str "s1"] [10; 11] [].

Definition seconds (z : Z) : Timestamp.double := Timestamp.double_of_Z z.
Definition demo_state : StaticServer := first_state 2 3 (seconds 3) demo_pool.

(** The same with one loop, and an idle time of 3.5 seconds. *)
Definition single_pool : EventLoopThreadPool.EventLoopThreadPool :=
  EventLoopThreadPool.mkLoops 0 (str "s") true 1 0 [str "s0"] [10] [].
Definition three_and_a_half : Timestamp.double := S754_finite false 7 (-1).
Definition single_state : StaticServer := first_state 1 3 three_and_a_half single_pool.

Fixpoint run (es : list event) (s : StaticServer) : res StaticServer :=
  match es with
  | [] => Ok s
  | e :: es => let! s := step e s in run es s
  end.

(** What is enabled, decided. *)
Definition enabled_b (e : event) (s : StaticServer) : bool :=
  match e with
  | Connect c l => bool_decide (conns s !! c = None) && bool_decide (is_Some (map_ s !! l)) && (numConnected_ s <? 2 ^ 31 - 1)
  | Message c => bool_decide (c ∈ contexts s) && negb (bool_decide (status_of c s = Down))
  | Shutdown c | Disconnect c => negb (bool_decide (status_of c s = Down))
  | Tick l => bool_decide (l ∈ timers s)
  end.

Fixpoint run_enabled (es : list event) (s : StaticServer) : option StaticServer :=
  match es with
  | [] => Some s
  | e :: es => if enabled_b e s then match step e s with Ok s => run_enabled es s | Err _ => None end else None
  end.

Lemma enabled_b_ok e s : enabled_b e s = true → enabled e s.
Proof. destruct e; cbn; intros H; bool_prop; try done; split_and?; try done; by eapply bool_decide_eq_true. Qed.

Lemma static_run_reach s0 es1 es2 s1 s2 : reach s0 es1 s1 → run_enabled es2 s1 = Some s2 → reach s0 (es1 ++ es2) s2.
Proof.
  revert es1 s1. induction es2 as [|e es2 IH]; intros es1 s1 Hr H; cbn in H; [by rewrite app_nil_r; simplify_eq|].
  destruct (enabled_b e s1) eqn:He; [|done]. destruct (step e s1) as [s|] eqn:Hs; [|done].
  replace (es1 ++ e :: es2) with ((es1 ++ [e]) ++ es2) by by rewrite <- app_assoc.
  eapply IH; [|done]. eapply reach_step; [done|by apply enabled_b_ok|done].
Qed.

Lemma demo_pool_ok :
  EventLoopThreadPool.started_ demo_pool = true ∧ EventLoopThreadPool.next_ demo_pool = 0 ∧
  zlen (EventLoopThreadPool.loops_ demo_pool) = 2.
Proof. done. Qed.

Lemma single_pool_ok :
  EventLoopThreadPool.started_ single_pool = true ∧ EventLoopThreadPool.next_ single_pool = 0 ∧
  zlen (EventLoopThreadPool.loops_ single_pool) = 1.
Proof. done. Qed.

(** A third connection is refused; of the others, the one that speaks outlives the
    silent one. *)
Definition demo_events : list event :=
  [Connect 1 10; Connect 2 10; Connect 3 10; Tick 10; Tick 10; Message 1; Tick 10; Disconnect 3; Disconnect 2; Tick 10].


Lemma two_loops_race_witness : conflict (Tick 10) (Connect 1 11) demo_state.
Proof.
  assert (size_of_double (seconds 3) = Ok 3%nat) as Hs by by vm_compute. unfold demo_state.
  assert (0 < 2 < 2 ^ 31) as Hn by lia. assert (0 < 3)%nat as Hi by lia.
  apply (two_loops_race 2 3 (seconds 3) 3 demo_pool demo_pool_ok Hn (conj Hs Hi) 1 10 11 []); [reflexivity|lia].
Defined.

Definition demo_silence : list event :=
  [Connect 2 11; Connect 1 10; Tick 10] ++ Message 2 :: [Tick 11; Message 1; Tick 10; Tick 11].

Lemma idle_exact_witness :
  match run_enabled demo_silence demo_state with
  | Some s => 2 ∈ forced s ↔ 3 ≤ 3
  | None => False
  end.
Proof.
  assert (match run_enabled demo_silence demo_state with Some _ => True | None => False end) as H by by vm_compute.
  destruct (run_enabled demo_silence demo_state) as [s|] eqn:E; [|done].
  unfold demo_state in E. pose proof (static_run_reach _ [] demo_silence _ s (reach_start _) E) as Hr.
  assert (size_of_double (seconds 3) = Ok 3%nat) as Hs by by vm_compute.
  assert (0 < 2 < 2 ^ 31) as Hn by lia. assert (0 < 3)%nat as Hi by lia.
  destruct (idle_exact 2 3 (seconds 3) 3 demo_pool demo_pool_ok Hn (conj Hs Hi) 2
    [Connect 2 11; Connect 1 10; Tick 10] (Message 2) [Tick 11; Message 1; Tick 10; Tick 11] s Hr) as [T _].
  - by left.
  - by vm_compute.
  - vm_compute. intros F. inversion F.
  - by vm_compute.
  - repeat constructor.
  - exact T.
Defined.

(** ** Edges *)

(** Without loop threads there is no wheel: the first connection dereferences a null
    pointer. *)
Lemma no_loops_null_wheel c max idle p :
  1 < max → ∃ s, start p (new_StaticServer 0 max idle) = Ok (p, s) ∧ step (Connect c 0) s = Err UseAfterFree.
Proof.
  intros Hm. eexists. split; [done|]. unfold step, onConnection, status_of. cbn. rewrite lookup_insert_eq, bool_decide_true by done.
  rewrite (proj2 (Z.leb_gt _ _)) by done. unfold insert_back, loop_of. cbn. by rewrite lookup_insert_eq, lookup_empty.
Qed.

(** An idle time below one second gives wheels without buckets: [back()] of an empty
    buffer. *)
Lemma no_buckets :
  match start demo_pool (new_StaticServer 2 3 (S754_finite false 1 (-1))) with Ok (_, s) => step (Connect 1 10) s = Err OutOfRange | Err _ => False end.
Proof. by vm_compute. Qed.

(** With two loops the two timers of one second both tick for every wheel: a connection
    with an idle time of three seconds is closed in the second one. *)
Lemma idle_time_is_divided :
  match run_enabled [Connect 1 10; Tick 10; Tick 11; Tick 10] demo_state with
  | Some s => zlen (timers s) = 2 ∧ elements (forced s) = [1]
  | None => False
  end.
Proof. by vm_compute. Qed.

(** A connection whose write side the program has shut is not [connected()]: no tick
    closes it when its peer never does. *)
Lemma half_closed_never_reaped :
  match run_enabled [Connect 1 10; Shutdown 1; Tick 10; Tick 11; Tick 10; Tick 11] demo_state with
  | Some s => elements (forced s) = [] ∧ status_of 1 s = Closing ∧ numConnected_ s = 1
  | None => False
  end.
Proof. by vm_compute. Qed.

End StaticServer.
