(* ===== verification/HeartBeat.v ===== *)
(** Heartbeats: the monitor ([monitor/heartBeatMonitor.cpp]) and what the two programs do to
    be seen by it ([webServer/start_up.cpp], [cgiServer/start_up.cpp]).

    A program keeps a connection to the monitor through a [TcpClient] and sends its
    identification from time to time; the monitor shows who has been heard lately. *)

From S2P Require Import Prelude TcpConnection Connector TcpClient RequestParser.

Module HeartBeat.

(** ** The monitor *)

Inductive status := ON | OFF.

#[global] Instance status_eq_dec : EqDecision status.
Proof. solve_decision. Defined.

(** The globals; a connection is a number, and [vec] keeps every one for ever. *)
Record Monitor := mkMonitor {
  map_ : gmap bytes status;
  vec : list nat;
  identityMap : gmap nat bytes;
  timeMap : gmap bytes Z;
}.

Definition new_Monitor : Monitor := mkMonitor ∅ [] ∅ ∅.

(** Called when a connection comes up and when it goes down. *)
Definition onConnection (conn : nat) (m : Monitor) : Monitor :=
  mkMonitor (map_ m) (vec m ++ [conn]) (identityMap m) (timeMap m).

Definition onMessage (conn : nat) (identity : bytes) (now : Z) (m : Monitor) : Monitor :=
  mkMonitor (<[identity := ON]> (map_ m)) (vec m) (<[conn := identity]> (identityMap m)) (<[identity := now]> (timeMap m)).

(** [operator[]] inserts what is missing. *)
Definition check_conn (now : Z) (m : Monitor) (conn : nat) : Monitor :=
  let identity := default [] (identityMap m !! conn) in
  let last_time := default 0 (timeMap m !! identity) in
  let diff := i32 (now - last_time) in
  mkMonitor (if 10 + 2 <=? diff then <[identity := OFF]> (map_ m) else map_ m) (vec m)
    (<[conn := identity]> (identityMap m)) (<[identity := last_time]> (timeMap m)).

Definition displayStatus (now : Z) (m : Monitor) : Monitor := foldl (check_conn now) m (vec m).

(** The lines on the screen, in the order of the hash table. *)
Definition screen (m : Monitor) : list (bytes * status * Z) :=
  omap (λ '(identity, st), match st with
                           | ON => Some (identity, ON, default 0 (timeMap m !! identity))
                           | OFF => if bool_decide (identity = []) then None else Some (identity, OFF, default 0 (timeMap m !! identity))
                           end) (map_to_list (map_ m)).

Inductive event :=
| Connection (conn : nat)
| Message (conn : nat) (identity : bytes) (now : Z)
| Display (now : Z).

Definition step (e : event) (m : Monitor) : Monitor :=
  match e with
  | Connection conn => onConnection conn m
  | Message conn identity now => onMessage conn identity now m
  | Display now => displayStatus now m
  end.

Definition time_of (e : event) : option Z := match e with Connection _ => None | Message _ _ now | Display now => Some now end.

(** Times do not decrease; a message has at least one byte. *)
Inductive reach : list event → Z → Monitor → Prop :=
| reach_new : reach [] 0 new_Monitor
| reach_step es t m e :
    reach es t m → (∀ now, time_of e = Some now → t ≤ now < 2 ^ 31) → (∀ c now, e ≠ Message c [] now) →
    reach (es ++ [e]) (default t (time_of e)) (step e m).

(** When [identity] was heard last. *)
Definition heard (identity : bytes) (es : list event) : option Z :=
  foldl (λ o e, match e with
                | Message _ x now => if bool_decide (x = identity) then Some now else o
                | _ => o
                end) None es.

(** ** The programs *)

(** [count] of [loopSendHeartBeat]; its loop is [loop[count]]. *)
Definition web_next (N count : Z) : Z := Z.rem (count +i 1) N.

(** [count = (count++) % N]: the old value is stored again, after the increment (before C++17
    the order of the two is not defined, and the program is compiled as C++11). *)
Definition cgi_next (N count : Z) : Z := Z.rem count N.

(** The choice of the log level; [boost::algorithm::to_lower] comes first. *)
Definition log_levels : list bytes := map str ["trace"; "debug"; "info"; "warn"; "error"; "fatal"]%string.
Definition level_ok (g_log_level : bytes) : bool := bool_decide (map RequestParser.to_lower g_log_level ∈ log_levels).

(** [while (exe_path[i] != '/')], from the end; [exe_path[-1]] is out of range. *)
Fixpoint base_name_loop (reversed logBaseName : bytes) : res bytes :=
  match reversed with
  | [] => Err OutOfRange
  | c :: l => if Byte.eqb c Byte.x2f then Ok logBaseName else base_name_loop l (logBaseName ++ [c])
  end.

Definition logBaseName (exe_path : bytes) : res bytes :=
  let! b := base_name_loop (rev exe_path) [] in Ok (rev b).

(** [SendHeartBeatInWorkThread]: between [expired()] and [lock()] the loop's thread may drop
    the last reference; [references] are those to the connection. *)
Definition expired (references : nat) : bool := (references =? 0)%nat.
Definition lock_and_send (references : nat) : res unit := if (references =? 0)%nat then Err UseAfterFree else Ok tt.

(** The client of the web server: [onConnectionHeartBeat] calls [connect()] when the
    connection goes down, unless [stop] has deleted the client; [main()] calls it once. *)
Definition web_event (ev : TcpClient.event) (s : TcpClient.TcpClient) : Prop :=
  match ev with
  | TcpClient.ConnectorReady _ _ _ _ _ | TcpClient.ConnectorTimer _ => TcpClient.enabled ev s
  | TcpClient.RunFunctor again _ => is_Some again ↔ TcpClient.alive s = true
  | TcpClient.PeerClose i again _ =>
      TcpClient.up i s ∧ (is_Some again ↔ TcpClient.alive s = true) ∧
      ∀ c, TcpClient.connector_ s = Some c → Connector.FReset ∉ Connector.pending c
  | TcpClient.Delete =>
      TcpClient.alive s = true ∧ ∀ c, TcpClient.connector_ s = Some c → Connector.FReset ∉ Connector.pending c
  | _ => False
  end.

Inductive web_reach (name : bytes) : TcpClient.TcpClient → Prop :=
| web_start e s :
    TcpClient.step (TcpClient.Connect false e) (TcpClient.new_TcpClient name) = Ok s → web_reach name s
| web_step s ev s' : web_reach name s → web_event ev s → TcpClient.step ev s = Ok s' → web_reach name s'.

(** ** What the monitor shows *)

Lemma heard_snoc identity es e :
  heard identity (es ++ [e]) = match e with
                               | Message _ x now => if bool_decide (x = identity) then Some now else heard identity es
                               | _ => heard identity es
                               end.
Proof. unfold heard. by rewrite foldl_app. Qed.

(** The tables agree with what was heard; nobody is shown as off too early. *)
Record inv (es : list event) (t : Z) (m : Monitor) : Prop := {
  m_time : ∀ id, id ≠ [] → timeMap m !! id = heard id es;
  m_past : ∀ id t0, heard id es = Some t0 → 0 ≤ t0 ≤ t;
  m_map : ∀ id t0, id ≠ [] → heard id es = Some t0 → map_ m !! id = Some ON ∨ map_ m !! id = Some OFF ∧ 12 ≤ t - t0;
  m_known : ∀ c id, identityMap m !! c = Some id → id ≠ [] → is_Some (heard id es);
}.

Lemma later es t t' m : inv es t m → t ≤ t' → inv es t' m.
Proof.
  intros [H1 H2 H3 H4] Ht. constructor; try done.
  - intros id t0 E. specialize (H2 id t0 E). lia.
  - intros id t0 Hn E. destruct (H3 id t0 Hn E) as [?|[? ?]]; [by left|right]. split; [done|lia].
Qed.

Lemma check_inv es now m c : inv es now m → 0 ≤ now < 2 ^ 31 → inv es now (check_conn now m c).
Proof.
  intros [H1 H2 H3 H4] Hnow. unfold check_conn. set (id := default [] (identityMap m !! c)).
  assert (id ≠ [] → is_Some (heard id es)) as Hid.
  { unfold id. destruct (identityMap m !! c) as [x|] eqn:E; [|done]. by apply (H4 c). }
  constructor; cbn.
  - intros x Hx. destruct (decide (id = x)) as [<-|Hne]; [|by rewrite lookup_insert_ne; [apply H1|]].
    rewrite lookup_insert_eq, H1 by done. by destruct (Hid Hx) as [t0 ->].
  - done.
  - intros x t0 Hx Et. destruct (Z.leb_spec (10 + 2) (i32 (now - default 0 (timeMap m !! id)))) as [Hoff|_]; [|by apply H3].
    destruct (decide (id = x)) as [<-|Hne]; [|rewrite lookup_insert_ne by done; by apply H3].
    rewrite lookup_insert_eq. right. split; [done|]. rewrite H1, Et in Hoff by done. cbn in Hoff.
    specialize (H2 id t0 Et). rewrite i32_small in Hoff by lia. lia.
  - intros x y [[<- <-]|[_ Hy]]%lookup_insert_Some; [done|]. by eapply H4.
Qed.

Lemma checks_inv es now l m : inv es now m → 0 ≤ now < 2 ^ 31 → inv es now (foldl (check_conn now) m l).
Proof. intros Hi Hnow. revert m Hi. induction l as [|c l IH]; intros m Hi; [done|]. cbn. by apply IH, check_inv. Qed.

Lemma monitor_reach_inv es t m : reach es t m → inv es t m ∧ 0 ≤ t < 2 ^ 31.
Proof.
  induction 1 as [|es t m e _ [Hi Ht] Htime Hmsg].
  { split; [|lia]. by constructor. }
  destruct e as [c|c id now|now]; cbn [time_of default step] in *.
  - split; [|done]. destruct Hi as [H1 H2 H3 H4]. constructor; cbn; setoid_rewrite heard_snoc; done.
  - specialize (Htime now eq_refl). split; [|cbn; lia]. assert (id ≠ []) as Hne by (intros ->; by apply (Hmsg c now)).
    destruct (later es t now m Hi ltac:(lia)) as [H1 H2 H3 H4]. constructor; cbn; intros x; try rewrite heard_snoc.
    + intros Hx. case_bool_decide as E; [subst; by rewrite lookup_insert_eq|]. rewrite lookup_insert_ne by done. by apply H1.
    + intros t0. case_bool_decide; [intros [= <-]; lia|apply H2].
    + intros t0 Hx. case_bool_decide as E; [subst; rewrite lookup_insert_eq; by left|]. rewrite lookup_insert_ne by done. by apply H3.
    + intros y. rewrite heard_snoc. intros [[<- <-]|[_ Hy]]%lookup_insert_Some Hn; [by rewrite bool_decide_true|].
      case_bool_decide; [done|]. by eapply H4.
  - specialize (Htime now eq_refl). split; [|cbn; lia]. cbn. unfold displayStatus.
    pose proof (checks_inv es now (vec m) m (later es t now m Hi ltac:(lia)) ltac:(lia)) as [H1 H2 H3 H4].
    constructor; setoid_rewrite heard_snoc; done.
Qed.

Lemma check_identity now m c d id : identityMap m !! d = Some id → identityMap (check_conn now m c) !! d = Some id.
Proof.
  intros Hd. cbn. destruct (decide (c = d)) as [->|]; [by rewrite lookup_insert_eq, Hd|by rewrite lookup_insert_ne].
Qed.

Lemma checks_off now l m id : map_ m !! id = Some OFF → map_ (foldl (check_conn now) m l) !! id = Some OFF.
Proof.
  revert m. induction l as [|c l IH]; intros m Hm; [done|]. cbn. apply IH. cbn. case_match; [|done].
  destruct (decide (default [] (identityMap m !! c) = id)) as [->|]; [by rewrite lookup_insert_eq|by rewrite lookup_insert_ne].
Qed.

(** An identity that was not heard for twelve seconds is off when its connection has been
    looked at. *)
Lemma checks_late es now l m c id t0 :
  inv es now m → 0 ≤ now < 2 ^ 31 → c ∈ l → identityMap m !! c = Some id → id ≠ [] → heard id es = Some t0 →
  12 ≤ now - t0 → map_ (foldl (check_conn now) m l) !! id = Some OFF.
Proof.
  intros Hi Hnow Hin Hc Hn Ht Hlate. revert m Hi Hc. induction l as [|d l IH]; intros m Hi Hc; [by apply elem_of_nil in Hin|].
  cbn. destruct (decide (c = d)) as [<-|Hne].
  - apply checks_off. cbn. rewrite Hc. cbn. rewrite (m_time _ _ _ Hi id Hn), Ht. cbn. pose proof (m_past _ _ _ Hi id t0 Ht).
    rewrite i32_small by lia. rewrite (proj2 (Z.leb_le _ _)) by lia. by rewrite lookup_insert_eq.
  - apply elem_of_cons in Hin as [?|Hin]; [done|]. apply IH; [done|by apply check_inv|by apply check_identity].
Qed.

(** C30. What the monitor shows: for every connection it has seen, the identity it sent last
    is on if and only if it was heard within the last twelve seconds, by whatever
    connection; and nobody who was is ever shown as off. *)
Theorem monitor_shows es t m now :
  reach es t m → t ≤ now < 2 ^ 31 →
  (∀ c id, c ∈ vec m → identityMap m !! c = Some id → id ≠ [] →
     ∃ t0, heard id es = Some t0 ∧ map_ (displayStatus now m) !! id = Some (if decide (now - t0 < 12) then ON else OFF)) ∧
  (∀ id t0, id ≠ [] → heard id es = Some t0 → now - t0 < 12 → map_ (displayStatus now m) !! id = Some ON).
Proof.
  intros [Hi Ht]%monitor_reach_inv Hnow. pose proof (later es t now m Hi ltac:(lia)) as Hl.
  assert (∀ id t0, id ≠ [] → heard id es = Some t0 → now - t0 < 12 → map_ (displayStatus now m) !! id = Some ON) as Hon.
  { intros id t0 Hn E Hd. destruct (m_map _ _ _ (checks_inv es now (vec m) m Hl ltac:(lia)) id t0 Hn E) as [?|[_ ?]]; [done|lia]. }
  split; [|done]. intros c id Hc Hid Hn. destruct (m_known _ _ _ Hi c id Hid Hn) as [t0 E]. exists t0. split; [done|].
  case_decide; [by apply (Hon id t0)|]. eapply (checks_late es now); try done; lia.
Qed.

(** Two senders; the second falls silent. *)
Definition two_senders : list event :=
  [Connection 0; Connection 1; Message 0 (str "a") 100; Message 1 (str "b") 100; Display 105; Message 0 (str "a") 110].

Definition seen : Monitor := foldl (λ m e, step e m) new_Monitor two_senders.

Lemma seen_reach : reach two_senders 110 seen.
Proof.
  pose proof (reach_step [] 0 _ (Connection 0) reach_new ltac:(done) ltac:(done)) as H1.
  pose proof (reach_step _ _ _ (Connection 1) H1 ltac:(done) ltac:(done)) as H2.
  pose proof (reach_step _ _ _ (Message 0 (str "a") 100) H2 ltac:(intros ? [= <-]; cbn; lia) ltac:(done)) as H3.
  pose proof (reach_step _ _ _ (Message 1 (str "b") 100) H3 ltac:(intros ? [= <-]; cbn; lia) ltac:(done)) as H4.
  pose proof (reach_step _ _ _ (Display 105) H4 ltac:(intros ? [= <-]; cbn; lia) ltac:(done)) as H5.
  exact (reach_step _ _ _ (Message 0 (str "a") 110) H5 ltac:(intros ? [= <-]; cbn; lia) ltac:(done)).
Qed.

Lemma monitor_shows_witness :
  map_ (displayStatus 115 seen) !! str "a" = Some ON ∧ map_ (displayStatus 115 seen) !! str "b" = Some OFF.
Proof.
  destruct (monitor_shows two_senders 110 seen 115 seen_reach ltac:(lia)) as [H1 H2]. split.
  - apply (H2 (str "a") 110); [done|by vm_compute|lia].
  - destruct (H1 1%nat (str "b") ltac:(right; left) ltac:(by vm_compute) ltac:(done)) as (t0 & E & Hb).
    vm_compute in E. injection E as <-. rewrite Hb. done.
Defined.

(** Two heartbeats that arrive together make one identity that nobody has; the connection's
    own is not looked at any more and stays on for ever. *)
Lemma glued_stays_on :
  let m := foldl (λ m e, step e m) new_Monitor
    [Connection 0; Message 0 (str "a") 100; Message 0 (str "aa") 110; Display 2000] in
  map_ m !! str "a" = Some ON ∧ map_ m !! str "aa" = Some OFF.
Proof. split; by vm_compute. Qed.

Lemma checks_vec now l m : vec (foldl (check_conn now) m l) = vec m.
Proof. revert m. induction l as [|c l IH]; intros m; [done|]. cbn [foldl]. by rewrite IH. Qed.

(** Every connection that ever came up or went down stays in [vec], and with it its
    descriptor. *)
Lemma vec_grows e m : ∃ l, vec (step e m) = vec m ++ l.
Proof.
  destruct e as [c|c id now|now]; cbn [step]; [by exists [c]|exists []; by rewrite app_nil_r|].
  exists []. rewrite app_nil_r. apply checks_vec.
Qed.

(** The lines on the screen are the entries of [map], without an empty identity that is
    off. *)
Lemma screen_lines m id st t0 :
  (id, st, t0) ∈ screen m ↔ map_ m !! id = Some st ∧ t0 = default 0 (timeMap m !! id) ∧ (st = OFF → id ≠ []).
Proof.
  unfold screen. rewrite list_elem_of_omap. split.
  - intros ([x y] & Hx%elem_of_map_to_list & E). destruct y; [|destruct (bool_decide (x = [])) eqn:Ex; [done|]]; simplify_eq; [done|].
    apply bool_decide_eq_false in Ex. done.
  - intros (Hm & -> & Hn). exists (id, st). split; [by apply elem_of_map_to_list|]. destruct st; [done|].
    by rewrite bool_decide_false by auto.
Qed.

(** ** The programs *)

Fixpoint counts (next : Z → Z) (n : nat) (count : Z) : list Z :=
  match n with O => [] | S n => count :: counts next n (next count) end.

(** The web server's heartbeats take turns on its loops. *)
Lemma web_turns N n k :
  0 < N < 2 ^ 31 - 1 → 0 ≤ k < N → counts (web_next N) n k = map (λ i, (k + Z.of_nat i) mod N) (seq 0 n).
Proof.
  intros HN. revert k. induction n as [|n IH]; intros k Hk; [done|]. cbn [counts seq map]. rewrite Z.add_0_r, Z.mod_small by lia. f_equal.
  unfold web_next. rewrite i32_small, Z.rem_mod_nonneg by lia. rewrite IH by (apply Z.mod_pos_bound; lia).
  rewrite <- seq_shift, map_map. apply map_ext. intros i. rewrite Zplus_mod_idemp_l. f_equal. lia.
Qed.

(** The CGI server's are always sent by its first loop. *)
Lemma cgi_no_turns N n : 0 < N → counts (cgi_next N) n 0 = replicate n 0.
Proof.
  intros HN. induction n as [|n IH]; [done|]. cbn [counts replicate]. unfold cgi_next at 2. rewrite Z.rem_0_l by lia. by rewrite IH.
Qed.

Lemma base_name_loop_app l acc :
  base_name_loop l acc =
  if decide (Byte.x2f ∈ l) then Ok (acc ++ take (find_byte Byte.x2f l) l) else Err OutOfRange.
Proof.
  revert acc. induction l as [|c l IH]; intros acc; cbn [base_name_loop find_byte]; [by rewrite decide_False by apply not_elem_of_nil|].
  destruct (byte_eqb_spec c Byte.x2f) as [->|Hne].
  - rewrite decide_True by left. cbn. by rewrite app_nil_r.
  - rewrite IH. destruct (decide (Byte.x2f ∈ l)).
    + rewrite decide_True by (by right). cbn. by rewrite <- app_assoc.
    + rewrite decide_False; [done|]. by intros [?|?]%elem_of_cons.
Qed.

(** The log files are named after the program, the part of [argv[0]] after its last slash;
    without a slash the loop leaves the string. *)
Lemma logBaseName_ok dir name :
  (Byte.x2f ∉ name → logBaseName (dir ++ Byte.x2f :: name) = Ok name ∧ logBaseName name = Err OutOfRange).
Proof.
  intros Hn. assert (Byte.x2f ∉ rev name) as Hr by (intros H; apply list_elem_of_In, in_rev, list_elem_of_In in H; done).
  unfold logBaseName. rewrite !base_name_loop_app. split.
  - rewrite rev_app_distr. cbn [rev]. rewrite <- app_assoc. rewrite decide_True by set_solver. cbn [app res_bind].
    rewrite find_byte_notin, take_app_length by done. cbn. by rewrite rev_involutive.
  - by rewrite decide_False.
Qed.

Lemma levels : level_ok (str "Info") = true ∧ level_ok (str "verbose") = false.
Proof. split; by vm_compute. Qed.

(** The thread has seen the connection, the loop drops it, the thread uses it. *)
Lemma heartbeat_race : expired 1 = false ∧ lock_and_send 0 = Err UseAfterFree.
Proof. done. Qed.

(** ** The client of the web server *)

Import TcpClient.

(** What a step leaves alone, and what it may add to the queue. *)
Definition keeps (s s' : TcpClient) : Prop :=
  alive s' = alive s ∧ retry_ s' = retry_ s ∧
  ∀ f, f ∈ queue s' → f ∈ queue s ∨ f = FC Connector.FReset ∨ ∃ i, f = FDestroy i.

Lemma keeps_refl s : keeps s s.
Proof. split_and!; auto. Qed.

Lemma keeps_trans s1 s2 s3 : keeps s1 s2 → keeps s2 s3 → keeps s1 s3.
Proof.
  intros (A1 & A2 & A3) (B1 & B2 & B3). split_and!; [congruence..|]. intros f [Hf|Hf]%B3; auto.
Qed.

Lemma keeps_conns l s : keeps s (set_conns l s).
Proof. split_and!; auto. Qed.

(** What a call of the connector may queue. *)
Definition calm (op : Connector.Connector → res Connector.Connector) (c : Connector.Connector) : Prop :=
  ∀ c', op c = Ok c' → Connector.pending c' = Connector.pending c ∨ Connector.pending c' = Connector.pending c ++ [Connector.FReset].

Lemma framed_calm op c : (∀ c', op c = Ok c' → framed c c') → calm op c.
Proof. intros H c' E. destruct (H c' E) as (_ & [?|[? _]] & _); auto. Qed.

Lemma newConnection_keeps fd peer s s' : newConnection fd peer s = Ok s' → keeps s s'.
Proof.
  unfold newConnection, connectEstablished. destruct (negb (alive s)); [done|]. cbv zeta.
  destruct (bool_decide _); [|done]. intros [= <-]. split_and!; auto.
Qed.

Lemma on_connector_keeps op peer s s' :
  (∀ c, connector_ s = Some c → calm op c) → on_connector op peer s = Ok s' → keeps s s'.
Proof.
  intros Hop. unfold on_connector. destruct (connector_ s) as [c|] eqn:Hc; [|done].
  destruct (op c) as [c'|] eqn:E; [|done]. cbn [res_bind]. set (s1 := set_connector _ _).
  assert (keeps s s1) as Hk.
  { split_and!; [done..|]. intros f. unfold s1. cbn. intros [Hf|Hf]%elem_of_app; [by left|]. right; left.
    destruct (Hop c eq_refl c' E) as [Hp|Hp]; rewrite Hp in Hf; [rewrite drop_all in Hf; by apply elem_of_nil in Hf|].
    rewrite drop_app_length in Hf. cbn in Hf. by apply list_elem_of_singleton in Hf. }
  destruct (drop _ (Connector.handed c')) as [|fd l]; [by intros [= <-]|].
  intros H%newConnection_keeps. by eapply keeps_trans.
Qed.

Lemma start_calm e c : calm (Connector.start e) c.
Proof. intros c' (_ & Hp & _)%startInLoop_same. by left. Qed.

Lemma restart_calm e c : calm (Connector.restart e) c.
Proof. intros c' (_ & Hp & _)%startInLoop_same. by left. Qed.

Lemma connect_keeps e s s' : connect e s = Ok s' → keeps s s'.
Proof.
  unfold connect. destruct (negb (alive s)); [done|]. intros H%on_connector_keeps; [exact H|]. intros c _. apply start_calm.
Qed.

Lemma enqueue_destroy_keeps i s : keeps s (enqueue (FDestroy i) s).
Proof. split_and!; [done..|]. cbn. intros f [?|Hf%list_elem_of_singleton]%elem_of_app; [by left|]. right; right. by exists i. Qed.

Lemma removeConnection_keeps e i s s' : removeConnection e i s = Ok s' → keeps s s'.
Proof.
  unfold removeConnection. destruct (negb (alive s)); [done|]. destruct (bool_decide _); [|done]. cbv zeta.
  assert (keeps s (enqueue (FDestroy i) (set_connection None s))) as Hk by apply (enqueue_destroy_keeps i (set_connection None s)).
  destruct (_ && _); [|by intros [= <-]]. intros H%on_connector_keeps; [by eapply keeps_trans|]. intros c _. apply restart_calm.
Qed.

Lemma handleClose_keeps again e i s s' : handleClose again e i s = Ok s' → keeps s s'.
Proof.
  unfold handleClose. destruct (is_up _); [|done]. cbv zeta. set (s1 := on_conn _ _ _). intros H.
  assert (∃ s2, keeps s s2 ∧ match conns s2 !! i with
    | Some x => if c_detached x then Ok (enqueue (FDestroy i) s2) else removeConnection e i s2 | None => Ok s2 end = Ok s') as (s2 & Hk & H2).
  { destruct again as [e'|]; cbn [res_bind] in H; [|exists s1; split; [apply keeps_conns|done]].
    destruct (connect e' s1) as [s2|] eqn:E; [|done]. exists s2. split; [|done].
    eapply keeps_trans; [apply keeps_conns|by eapply connect_keeps]. }
  eapply keeps_trans; [exact Hk|]. destruct (conns s2 !! i) as [x|]; [|simplify_eq; apply keeps_refl].
  destruct (c_detached x); [simplify_eq; apply enqueue_destroy_keeps|by eapply removeConnection_keeps].
Qed.

Lemma pop_keeps q f s : queue s = f :: q → keeps s (set_queue q s).
Proof. intros E. split_and!; [done..|]. intros g Hg. left. rewrite E. by right. Qed.

Lemma perform_keeps ev s s' :
  inv s → web_event ev s → ev ≠ Delete → perform ev s = Ok s' → keeps s s'.
Proof.
  intros Hi He Hd H. destruct ev as [other e| | | |error write err self peer|e|again e|i again e|i|i|i|k|]; try done; cbn [perform] in H.
  - destruct He as (c & fd & Hc & Hch). eapply on_connector_keeps; [|exact H]. intros c' Hc'. rewrite Hc in Hc'. simplify_eq.
    apply framed_calm. intros c2 E. destruct (k_conn _ _ Hi c' Hc) as [Hic _]. by eapply ready_frame.
  - eapply on_connector_keeps; [|exact H]. intros c Hc. apply framed_calm. intros c' E. cbn in E.
    destruct (Connector.timers c) as [|d ts]; [simplify_eq; by apply framed_same|].
    apply startInLoop_same in E as (? & ? & ?). by apply framed_same.
  - destruct (queue s) as [|[f|i|i] q] eqn:Hq; [simplify_eq; apply keeps_refl| | |].
    + apply on_connector_keeps in H; [|intros c _; apply framed_calm; intros c'; apply run_functor_frame].
      eapply keeps_trans; [by apply (pop_keeps q (FC f) s)|]. exact H.
    + eapply keeps_trans; [by apply (pop_keeps q (FForceClose i) s)|]. unfold forceCloseInLoop in H.
      destruct (is_up _); [by eapply handleClose_keeps|]. simplify_eq. apply keeps_refl.
    + eapply keeps_trans; [by apply (pop_keeps q (FDestroy i) s)|]. unfold connectDestroyed in H.
      destruct (_ || _); [|done]. simplify_eq. apply keeps_conns.
  - by eapply handleClose_keeps.
Qed.

Lemma delete_dead s s' : delete_TcpClient s = Ok s' → alive s' = false.
Proof.
  unfold delete_TcpClient. destruct (connection_ s).
  - cbv zeta. destruct (connector_ _); [|done]. destruct (bool_decide _); [|done]. by intros [= <-].
  - destruct (on_connector _ _ _); [|done]. by intros [= <-].
Qed.

(** While the client exists: no retries, nothing of its destructor in the queue, and of the
    connector only resets of its channel. *)
Definition calm_queue (s : TcpClient) : Prop :=
  alive s = true → retry_ s = false ∧ ∀ f, f ∈ queue s → f = FC Connector.FReset ∨ ∃ i, f = FDestroy i.

Lemma calm_rest s c :
  inv s → calm_queue s → alive s = true → connector_ s = Some c → Connector.FReset ∉ Connector.pending c → Connector.pending c = [].
Proof.
  intros Hi Hq Ha Hc Hr. destruct (k_conn _ _ Hi c Hc) as [_ Hp]. destruct (Hq Ha) as [_ Hf].
  destruct (Connector.pending c) as [|f l] eqn:E; [done|]. destruct Hr. assert (f ∈ cfs (queue s)) as Hin by (rewrite <- Hp; left).
  apply cfs_elem, Hf in Hin as [[= ->]|[i ?]]; [left|done].
Qed.

(** What the program does satisfies the conditions of the client's model. *)
Lemma web_enabled ev s : inv s → calm_queue s → web_event ev s → enabled ev s.
Proof.
  intros Hi Hq He. destruct ev as [other e| | | |error write err self peer|e|again e|i again e|i|i|i|k|]; try done; cbn [web_event enabled] in *.
  - destruct (alive s) eqn:Ha.
    + right. intros i q E. destruct (Hq Ha) as [_ Hf]. destruct (Hf (FForceClose i)) as [?|[? ?]]; [rewrite E; left|done..].
    + left. left. destruct again as [x|]; [|done]. destruct He as [He _]. by specialize (He (ex_intro _ x eq_refl)).
  - destruct He as (Hup & Hag & Hr). split_and!; [done| |done]. destruct (alive s) eqn:Ha.
    + right. split_and!; [done|by apply Hq|]. intros c Hc. pose proof (calm_rest s c Hi Hq Ha Hc (Hr c Hc)) as Hp.
      destruct (up_some i s Hup) as [x Hx]. pose proof (k_phase _ _ Hi i x Hx) as Hph. unfold phase in Hph.
      rewrite (k_attached _ _ Hi Ha i x Hx) in Hph. unfold up, state_of in Hup. rewrite Hx in Hup.
      assert (connection_ s = Some i) as Hn by (destruct (c_state x); try done; by destruct Hph as (_ & _ & ?)).
      destruct (k_cur _ _ Hi i Hn) as (_ & _ & Hquiet). destruct (k_conn _ _ Hi c Hc) as [Hic _]. specialize (Hquiet c Hc).
      split_and!; [by apply quiet_channel; [| |rewrite Hp; apply not_elem_of_nil]|done|by destruct Hquiet].
    + left. destruct again as [x|]; [|done]. destruct Hag as [Hag _]. by specialize (Hag (ex_intro _ x eq_refl)).
  - destruct He as [Ha Hr]. split; [done|]. intros Hn c Hc. pose proof (calm_rest s c Hi Hq Ha Hc (Hr c Hc)) as Hp. split; [|done].
    destruct (connection_ s) as [i|] eqn:E; [|done]. destruct (k_cur _ _ Hi i E) as (_ & _ & Hquiet).
    apply quiet_channel; [by apply (k_conn _ _ Hi)|by apply Hquiet|by apply Hr].
Qed.

Lemma web_inv name s : web_reach name s → reach name s ∧ calm_queue s.
Proof.
  induction 1 as [e s H|s ev s' _ [Hr Hq] He H].
  - split.
    + eapply reach_step; [apply reach_new| |exact H]. split_and!; [done..|]. by intros c [= <-].
    + unfold step, perform in H. cbn [res_bind] in H. destruct (connect e _) as [s1|] eqn:E; [|done]. cbn in H.
      destruct (dtors_ok s1); [|done]. simplify_eq. apply connect_keeps in E as (_ & E1 & E2). intros _. split; [done|].
      intros f [Hf|[?|?]]%E2; [by apply elem_of_nil in Hf|auto..].
  - pose proof (client_reach_inv _ _ Hr) as Hi. pose proof (web_enabled ev s Hi Hq He) as Hen. split; [by eapply reach_step|].
    unfold step in H. destruct (perform ev s) as [s1|] eqn:E; [|done]. cbn in H. destruct (dtors_ok s1); [|done]. simplify_eq.
    intros Ha. destruct (decide (alive s = true)) as [Has|Has].
    + destruct (Hq Has) as [Q1 Q2]. assert (ev ≠ Delete) as Hd by (intros ->; by rewrite (delete_dead s s' E) in Ha).
      destruct (perform_keeps ev s s' Hi He Hd E) as (_ & K2 & K3). split; [congruence|]. intros f [Hf|[?|?]]%K3; auto.
    + assert (ev = Delete ∨ ev ≠ Delete) as [->|Hd] by (destruct ev; by (left + right)); [by rewrite (delete_dead s s' E) in Ha|].
      destruct (perform_keeps ev s s' Hi He Hd E) as (K1 & _). congruence.
Qed.


(** The monitor closes the connection and the callback makes another one. *)
Definition web_again : Connector.errno := Connector.EINPROGRESS.
Definition web_first : TcpClient := or_else (step (Connect false web_again) (new_TcpClient (str "HeartBeatChecker"))).

Definition web_events : list TcpClient.event :=
  [connected; RunFunctor (Some web_again) Connector.E0; PeerClose 0 (Some web_again) Connector.E0;
   RunFunctor (Some web_again) Connector.E0; connected; RunFunctor (Some web_again) Connector.E0].

Definition web_again_up : TcpClient := or_else (run web_events web_first).

Fixpoint web_allowed (es : list TcpClient.event) (s : TcpClient) : Prop :=
  match es with
  | [] => True
  | e :: es => web_event e s ∧ match step e s with Ok s => web_allowed es s | Err _ => False end
  end.

Lemma web_run_reach name es s s' : web_reach name s → web_allowed es s → run es s = Ok s' → web_reach name s'.
Proof.
  revert s. induction es as [|e es IH]; intros s Hr Ha Hrun; cbn in *; [by simplify_eq|].
  destruct Ha as [He Ha]. destruct (step e s) as [s1|] eqn:E; [|done]. cbn in Hrun.
  apply (IH s1); [by eapply web_step|done..].
Qed.

Lemma web_again_reach : web_reach (str "HeartBeatChecker") web_again_up.
Proof.
  apply (web_run_reach _ web_events web_first); [apply (web_start _ web_again); vm_compute; reflexivity| |vm_compute; reflexivity]. unfold web_events.
  client_run_steps.
Qed.


End HeartBeat.
