(* ===== verification/Servers.v ===== *)
(** The servers put together ([cgiServer/cgiserver.cpp], [webServer/staticServer.cpp],
    [netLayer/http/HttpServer.cpp]): their constructors, [start()] and [stop()], over the
    thread pool, the TCP server with its event-loop threads, and the idle wheels, each a
    component with a model of its own. *)

From S2P Require Import Prelude Timestamp EventLoopThread Acceptor TcpServer ThreadPool StaticServer.

Module Servers.

(** ** The thread pool of a server *)

Definition new_ThreadPool : ThreadPool.ThreadPool := ThreadPool.mkPool [] false 0 0 0 0 0 0 [] 0 [] [] [] [] [].

(** [ThreadPool::start(int)]; [reserve] of a negative number throws. *)
Definition pool_start (numThreads : Z) (p : ThreadPool.ThreadPool) : res ThreadPool.ThreadPool :=
  assert! bool_decide (ThreadPool.threads p = 0%nat) in
  if numThreads <? 0 then Err LengthError
  else Ok (ThreadPool.start (Z.to_nat numThreads) (ThreadPool.maxQueueSize_ p)).

(** ** HttpServer *)

(** [HttpServer::HttpServer] and [start()]: the TCP server's, with its callbacks replaced. *)
Definition new_HttpServer : Z → bytes → bytes → Z → Z → Z → Descriptors.Table → res TcpServer.Server := TcpServer.new_TcpServer.
Definition HttpServer_start : Z → TcpServer.Server → res TcpServer.Server := TcpServer.start.

(** ** The CGI server *)

Record CgiServer := mkCgiServer {
  server_ : TcpServer.Server;
  poolThreads_ : Z;
  loopThreads_ : Z;
  threadPool_ : ThreadPool.ThreadPool;
}.

(** [sock], [idle] and [bound]: the answers of the kernel for the listening socket. *)
Definition new_CgiServer (ipPort : bytes) (sock idle bound : Z) (k : Descriptors.Table) (poolThreads loopThreads : Z) : res CgiServer :=
  let! s := TcpServer.new_TcpServer 0 ipPort (str "CGIServer") sock idle bound k in
  Ok (mkCgiServer s poolThreads loopThreads new_ThreadPool).

(** [start()]; [answer] is listen's. *)
Definition CgiServer_start (answer : Z) (s : CgiServer) : res CgiServer :=
  let! pool := pool_start (poolThreads_ s) (threadPool_ s) in
  let! server := TcpServer.setThreadNum (loopThreads_ s) (server_ s) in
  let! server := TcpServer.start answer server in
  Ok (mkCgiServer server (poolThreads_ s) (loopThreads_ s) pool).

(** ** The web server *)

Section web.
Context `{!StaticServer.CircularBuffer}.

(** The part of [StaticServer] that keeps the connections is a model of its own; [quits]
    are the loops that [stop()] has told to quit. *)
Record WebServer := mkWeb {
  base : CgiServer;
  static_ : StaticServer.StaticServer;
  quits : list Z;
}.

Definition new_StaticServer (ipPort : bytes) (sock idle bound : Z) (k : Descriptors.Table)
    (poolThreads loopThreads maxConnections : Z) (idleDownLineTime : Timestamp.double) : res WebServer :=
  let! s := TcpServer.new_TcpServer 0 ipPort (str "StaticServer") sock idle bound k in
  Ok (mkWeb (mkCgiServer s poolThreads loopThreads new_ThreadPool)
        (StaticServer.new_StaticServer loopThreads maxConnections idleDownLineTime) []).

(** [start()]: as the CGI server's, and then a wheel and a timer for each loop. *)
Definition StaticServer_start (answer : Z) (s : WebServer) : res WebServer :=
  let! b := CgiServer_start answer (base s) in
  let! (loops, st) := StaticServer.start (TcpServer.threadPool_ (server_ b)) (static_ s) in
  Ok (mkWeb (mkCgiServer (TcpServer.set_pool loops (server_ b)) (poolThreads_ b) (loopThreads_ b) (threadPool_ b)) st (quits s)).

(** [stop()], up to the joins of the thread pool and after them. *)
Definition StaticServer_stop (s : WebServer) : res WebServer :=
  let b := base s in
  let pool := ThreadPool.stop (threadPool_ b) in
  let! (ls, loops) := EventLoopThreadPool.getNextLoops true (Z.to_nat (loopThreads_ b)) (TcpServer.threadPool_ (server_ b)) in
  Ok (mkWeb (mkCgiServer (TcpServer.set_pool loops (server_ b)) (poolThreads_ b) (loopThreads_ b) pool) (static_ s) (quits s ++ ls)).

End web.

(** ** Properties *)

(** The TCP server inside, at the values the servers give it. *)
Lemma tcp_started o n nameArg ipPort sock idle :
  TcpServer.start_ok o n ipPort sock idle →
  ∃ s0 s1 s2, TcpServer.new_TcpServer 0 ipPort nameArg sock idle 0 (Descriptors.mkTable o []) = Ok s0 ∧
    TcpServer.setThreadNum n s0 = Ok s1 ∧ TcpServer.start 0 s1 = Ok s2 ∧
    TcpServer.inv (TcpServer.mkSetting o nameArg ipPort 0 (map (λ k, Z.of_nat k + 1) (seq 0 (Z.to_nat n)))) s2.
Proof.
  intros Hok. pose proof (TcpServer.started_server_ok o n nameArg ipPort sock idle Hok) as W. unfold TcpServer.started_server in W.
  destruct (TcpServer.new_TcpServer _ _ _ _ _ _ _) as [s0|] eqn:E0; [|done]. cbn [res_bind] in W.
  destruct (TcpServer.setThreadNum n s0) as [s1|] eqn:E1; [|done]. cbn [res_bind] in W.
  destruct (TcpServer.start 0 s1) as [s2|] eqn:E2; [|done]. destruct W as [Hi _]. by exists s0, s1, s2.
Qed.

Lemma tcp_fresh n nameArg ipPort sock idle k s0 s1 s2 :
  TcpServer.new_TcpServer 0 ipPort nameArg sock idle 0 k = Ok s0 → TcpServer.setThreadNum n s0 = Ok s1 →
  TcpServer.start 0 s1 = Ok s2 → TcpServer.conns s2 = [].
Proof.
  unfold TcpServer.new_TcpServer, TcpServer.setThreadNum, TcpServer.start. intros E0 E1 E2.
  destruct (Acceptor.new_Acceptor _ _ _ _) as [[a t]|]; [|done]. injection E0 as <-.
  destruct (0 <=? n); [|done]. injection E1 as <-. cbn in E2.
  destruct (negb _); [|done]. by injection E2 as <-.
Qed.

(** The CGI server starts: the pool has its workers, none of them with a task, and the TCP
    server satisfies its invariant, so that every theorem about it holds from here. *)
Theorem cgi_server_starts o poolThreads loopThreads ipPort sock idle :
  TcpServer.start_ok o loopThreads ipPort sock idle → 0 ≤ poolThreads →
  wp (let! s := new_CgiServer ipPort sock idle 0 (Descriptors.mkTable o []) poolThreads loopThreads in CgiServer_start 0 s)
    (λ s, threadPool_ s = ThreadPool.start (Z.to_nat poolThreads) 0 ∧
      TcpServer.inv (TcpServer.mkSetting o (str "CGIServer") ipPort 0 (map (λ k, Z.of_nat k + 1) (seq 0 (Z.to_nat loopThreads)))) (server_ s) ∧
      TcpServer.conns (server_ s) = []).
Proof.
  intros Hok Hp. destruct (tcp_started o loopThreads (str "CGIServer") ipPort sock idle Hok) as (s0 & s1 & s2 & E0 & E1 & E2 & Hinv).
  unfold new_CgiServer. rewrite E0. cbn [res_bind]. unfold CgiServer_start, pool_start.
  cbn [poolThreads_ loopThreads_ server_ threadPool_ new_ThreadPool ThreadPool.threads ThreadPool.maxQueueSize_].
  rewrite bool_decide_true, (proj2 (Z.ltb_ge _ _)) by done. cbn [res_bind]. rewrite E1. cbn [res_bind]. rewrite E2.
  cbn [res_bind wp threadPool_ server_]. split_and!; [done|exact Hinv|]. by apply (tcp_fresh _ _ _ _ _ _ _ _ _ E0 E1 E2).
Qed.

(** A negative number of threads is not refused: it ends the start with an exception. *)
Lemma negative_pool n : n < 0 → pool_start n new_ThreadPool = Err LengthError.
Proof. intros Hn. unfold pool_start. cbn. by rewrite (proj2 (Z.ltb_lt _ _)). Qed.

(** Starting a server twice fails the assertion of the pool, unless the pool has no threads. *)
Lemma start_twice n p : 0 < n → pool_start n new_ThreadPool = Ok p → pool_start n p = Err AssertFailed.
Proof.
  intros Hn. unfold pool_start at 1. cbn. rewrite (proj2 (Z.ltb_ge _ _)) by lia. intros [= <-].
  unfold pool_start. cbn. by rewrite bool_decide_false by lia.
Qed.

(** The calls of [getNextLoop] that [start()] makes. *)
Lemma start_loops_deals `{!StaticServer.CircularBuffer} n p st p' st' :
  StaticServer.start_loops n p st = Ok (p', st') → ∃ ls, EventLoopThreadPool.getNextLoops true n p = Ok (ls, p').
Proof.
  revert p st. induction n as [|n IH]; intros p st; cbn [StaticServer.start_loops EventLoopThreadPool.getNextLoops].
  { intros [= <- _]. by eexists. }
  destruct (StaticServer.size_of_double _); [|done]. cbn [res_bind].
  destruct (EventLoopThreadPool.getNextLoop true p) as [[l q]|]; [|done]. cbn [res_bind]. intros E.
  destruct (IH _ _ E) as [ls ->]. by eexists.
Qed.

Lemma nth_all (l : list Z) : map (λ i, nth i l 0) (seq 0 (length l)) = l.
Proof.
  induction l as [|x l IH]; [done|]. cbn [length seq map nth]. f_equal. rewrite <- (seq_shift (length l) 0), map_map.
  rewrite <- IH at 2. done.
Qed.

(** As many calls as there are loops give each of them once and leave the pool as it was. *)
Lemma deal_all p :
  EventLoopThreadPool.started_ p = true → EventLoopThreadPool.next_ p = 0 →
  0 < zlen (EventLoopThreadPool.loops_ p) < 2 ^ 31 →
  EventLoopThreadPool.getNextLoops true (length (EventLoopThreadPool.loops_ p)) p = Ok (EventLoopThreadPool.loops_ p, p).
Proof.
  intros Hs Hn Hl. rewrite EventLoopThreadPool.getNextLoops_spec by (done || lia). rewrite Hn. f_equal. f_equal.
  - etransitivity; [|apply nth_all]. apply map_ext_in. intros i Hi%in_seq. rewrite Z.mod_small by lia. f_equal. lia.
  - rewrite Z.add_0_l, Z.mod_same by lia. destruct p; cbn in *. by subst.
Qed.

(** The web server starts when the idle time is a second or more: the pool has its workers, the TCP server satisfies its invariant,
    every loop has one wheel and one timer; and [stop()] stops the pool and tells every loop
    once to quit. *)
Theorem web_server_starts `{!StaticServer.CircularBuffer} o poolThreads loopThreads maxConnections idleTime secs ipPort sock idle :
  TcpServer.start_ok o loopThreads ipPort sock idle → 0 ≤ poolThreads → 0 < loopThreads →
  StaticServer.size_of_double idleTime = Ok secs → (0 < secs)%nat →
  let loops := map (λ k, Z.of_nat k + 1) (seq 0 (Z.to_nat loopThreads)) in
  wp (let! s := new_StaticServer ipPort sock idle 0 (Descriptors.mkTable o []) poolThreads loopThreads maxConnections idleTime in
      StaticServer_start 0 s)
    (λ s, threadPool_ (base s) = ThreadPool.start (Z.to_nat poolThreads) 0 ∧
      TcpServer.inv (TcpServer.mkSetting o (str "StaticServer") ipPort 0 loops) (server_ (base s)) ∧
      TcpServer.conns (server_ (base s)) = [] ∧
      StaticServer.timers (static_ s) = loops ∧
      (∀ l, is_Some (StaticServer.map_ (static_ s) !! l) ↔ l ∈ loops) ∧
      wp (StaticServer_stop s) (λ s', quits s' = loops ∧ ThreadPool.isRunning_ (threadPool_ (base s')) = false)).
Proof.
  intros Hok Hp Hn Hsz Hi loops. pose proof (TcpServer.so_threads _ _ _ _ _ Hok) as Hb.
  destruct (tcp_started o loopThreads (str "StaticServer") ipPort sock idle Hok) as (s0 & s1 & s2 & E0 & E1 & E2 & Hinv).
  pose proof (tcp_fresh _ _ _ _ _ _ _ _ _ E0 E1 E2) as Hc.
  pose proof (TcpServer.i_pool _ _ Hinv) as (Hst & Hlen & Hnext).
  pose proof (TcpServer.i_setting _ _ Hinv) as (_ & _ & _ & Hloops). cbn in Hloops. fold loops in Hloops.
  unfold new_StaticServer. rewrite E0. cbn [res_bind]. unfold StaticServer_start, CgiServer_start, pool_start.
  cbn [base static_ poolThreads_ loopThreads_ server_ threadPool_ new_ThreadPool ThreadPool.threads ThreadPool.maxQueueSize_].
  rewrite bool_decide_true, (proj2 (Z.ltb_ge _ _)) by done. cbn [res_bind]. rewrite E1. cbn [res_bind]. rewrite E2. cbn [res_bind server_].
  set (p := TcpServer.threadPool_ s2) in *.
  assert (zlen (EventLoopThreadPool.loops_ p) = loopThreads) as Hl.
  { rewrite Hloops. unfold loops. rewrite length_map, length_seq. lia. }
  assert (EventLoopThreadPool.next_ p = 0) as Hx.
  { rewrite Hnext, Hc; [by apply Z.mod_0_l; lia|]. intros F. rewrite F in Hl. cbn in Hl. lia. }
  destruct (StaticServer.start_static loopThreads maxConnections idleTime secs p Hst Hx Hl ltac:(lia) Hsz Hi)
    as (p' & st & Es & Hsi & _ & _ & Ht & _ & Hm).
  pose proof Es as Es'. unfold StaticServer.start in Es'. cbn [StaticServer.loopThreads_ StaticServer.new_StaticServer] in Es'.
  apply start_loops_deals in Es' as [ls Ed].
  assert (Z.to_nat loopThreads = length (EventLoopThreadPool.loops_ p)) as Hk by lia.
  rewrite Hk, (deal_all p Hst Hx) in Ed by lia. injection Ed as _ <-. rewrite Es. cbn [res_bind].
  assert (TcpServer.set_pool p s2 = s2) as -> by (unfold p; by destruct s2).
  cbn [wp base server_ threadPool_ static_]. split_and!; [done|exact Hinv|exact Hc|by rewrite Ht, Hloops|by intros l; rewrite Hm, Hloops|].
  unfold StaticServer_stop. cbn [base loopThreads_ server_ threadPool_ quits]. fold p. rewrite Hk, (deal_all p Hst Hx) by lia.
  cbn [res_bind wp quits base threadPool_]. by rewrite Hloops.
Qed.

End Servers.
