(* ===== verification/Programs.v ===== *)
(** The [main()] functions of the web server and of the FastCGI server
    ([webServer/start_up.cpp], [cgiServer/start_up.cpp]): what they check before anything
    starts, and how they put the server, its loops and the heartbeat together.

    The settings are those that [ConfigLoad] reads; only the ones used here are listed. *)

From S2P Require Import Prelude Timestamp EventLoopThread Acceptor TcpServer ThreadPool RequestParser StaticServer HeartBeat Servers.

Module Programs.
Import Servers.

Record Settings := mkSettings {
  g_log_level : bytes;
  g_log_path : bytes;
  g_poolThreads : Z;
  g_loopThreads : Z;
  g_maxConnections : Z;
  g_conn_expire : Timestamp.double;
  g_heartBeat_switch : bytes;
}.

(** Ways to end before the server starts. *)
Inductive refusal := Usage | ConfigurationError | LevelError.

(** What [main()] has when it enters [loop.loop()]: the base name of the log files, the
    server, and the loops that send heartbeats in turn, with the number they are counted
    by. *)
Record Running (S : Type) := mkRunning {
  log_name : bytes;
  server : S;
  loopVector : list Z;
  turns : Z;
}.
Arguments mkRunning {S}.
Arguments log_name {S}.
Arguments server {S}.
Arguments loopVector {S}.
Arguments turns {S}.

(** The checks, in their order. *)
Definition prepare (argv : list bytes) (init : bytes → option Settings) : res (refusal + bytes * Settings) :=
  match argv with
  | exe_path :: conf_path :: _ =>
      match init conf_path with
      | None => Ok (inl ConfigurationError)
      | Some g =>
          if HeartBeat.level_ok (g_log_level g)
          then let! base := HeartBeat.logBaseName exe_path in Ok (inr (g_log_path g ++ base, g))
          else Ok (inl LevelError)
      end
  | _ => Ok (inl Usage)
  end.

(** [loopVector], with the loop of [main()] first. *)
Definition heartbeat_loops (loopThreads : Z) (s : TcpServer.Server) : res (list Z * TcpServer.Server) :=
  let! (ls, pool) := EventLoopThreadPool.getNextLoops true (Z.to_nat loopThreads) (TcpServer.threadPool_ s) in
  Ok (TcpServer.loop_ s :: ls, TcpServer.set_pool pool s).

Definition set_server (s : TcpServer.Server) (c : CgiServer) : CgiServer :=
  mkCgiServer s (poolThreads_ c) (loopThreads_ c) (threadPool_ c).

Section mains.
Context (ipPort : bytes) (sock idle : Z) (k : Descriptors.Table).

Definition cgi_main (argv : list bytes) (init : bytes → option Settings) : res (refusal + Running CgiServer) :=
  let! r := prepare argv init in
  match r with
  | inl e => Ok (inl e)
  | inr (name, g) =>
      let! s := new_CgiServer ipPort sock idle 0 k (g_poolThreads g) (g_loopThreads g) in
      let! s := CgiServer_start 0 s in
      let! (v, t) := heartbeat_loops (g_loopThreads g) (server_ s) in
      Ok (inr (mkRunning name (set_server t s) v (g_loopThreads g +i 1)))
  end.

Context `{!StaticServer.CircularBuffer}.

Definition web_main (argv : list bytes) (init : bytes → option Settings) : res (refusal + Running WebServer) :=
  let! r := prepare argv init in
  match r with
  | inl e => Ok (inl e)
  | inr (name, g) =>
      let! s := new_StaticServer ipPort sock idle 0 k (g_poolThreads g) (g_loopThreads g) (g_maxConnections g) (g_conn_expire g) in
      let! s := StaticServer_start 0 s in
      if bool_decide (map RequestParser.RequestParser.to_lower (g_heartBeat_switch g) = str "on") then
        let! (v, t) := heartbeat_loops (g_loopThreads g) (server_ (base s)) in
        Ok (inr (mkRunning name (mkWeb (set_server t (base s)) (static_ s) (quits s)) v (g_loopThreads g +i 1)))
      else Ok (inr (mkRunning name s [] (g_loopThreads g +i 1)))
  end.

End mains.

(** ** Properties *)

(** The program is not started at all without its arguments, a readable configuration and a
    known level of the log; nothing else refuses. *)
Lemma prepare_ok dir name conf rest init :
  Byte.x2f ∉ name →
  prepare ((dir ++ Byte.x2f :: name) :: conf :: rest) init =
    Ok match init conf with
       | None => inl ConfigurationError
       | Some g => if HeartBeat.level_ok (g_log_level g) then inr (g_log_path g ++ name, g) else inl LevelError
       end.
Proof.
  intros Hn. unfold prepare. destruct (init conf) as [g|]; [|done]. destruct (HeartBeat.level_ok _); [|done].
  destruct (HeartBeat.logBaseName_ok dir name) as [E _]; [done|]. by rewrite E.
Qed.

(** The loops of a server that has just been started, each once. *)
Lemma heartbeat_loops_ok o n nameArg ipPort s :
  0 ≤ n < 2 ^ 31 - 1 →
  TcpServer.inv (TcpServer.mkSetting o nameArg ipPort 0 (map (λ k, Z.of_nat k + 1) (seq 0 (Z.to_nat n)))) s →
  TcpServer.conns s = [] →
  heartbeat_loops n s = Ok (map Z.of_nat (seq 0 (S (Z.to_nat n))), s).
Proof.
  intros Hn Hi Hc. pose proof (TcpServer.i_pool _ _ Hi) as (Hst & Hlen & Hnext).
  pose proof (TcpServer.i_setting _ _ Hi) as (_ & _ & Hb & Hl). cbn in Hb, Hl. unfold heartbeat_loops.
  set (p := TcpServer.threadPool_ s) in *.
  assert (length (EventLoopThreadPool.loops_ p) = Z.to_nat n) as Hk by (rewrite Hl, length_map, length_seq; done).
  assert (EventLoopThreadPool.getNextLoops true (Z.to_nat n) p = Ok (EventLoopThreadPool.loops_ p, p)) as E.
  { destruct (decide (n = 0)) as [->|Hne].
    - cbn. by rewrite (nil_length_inv (EventLoopThreadPool.loops_ p)).
    - rewrite <- Hk. apply deal_all; [done| |lia]. rewrite Hnext, Hc; [by apply Z.mod_0_l; lia|].
      intros F. rewrite F in Hk. cbn in Hk. lia. }
  rewrite E. cbn [res_bind]. rewrite Hb, Hl. assert (TcpServer.set_pool p s = s) as -> by (unfold p; by destruct s).
  do 2 f_equal. cbn [seq map]. f_equal. rewrite <- (seq_shift (Z.to_nat n) 0), map_map. apply map_ext. lia.
Qed.

(** The turn of the web server's heartbeats goes through the vector. *)
Lemma turns_in_range N count : 0 < N < 2 ^ 31 → 0 ≤ count < N → 0 ≤ HeartBeat.web_next N count < N.
Proof. intros HN Hc. unfold HeartBeat.web_next. rewrite i32_small by lia. apply Z.rem_bound_pos; lia. Qed.

Lemma length_turns n : 0 ≤ n < 2 ^ 31 - 1 → zlen (map Z.of_nat (seq 0 (S (Z.to_nat n)))) = n +i 1.
Proof. intros Hn. rewrite length_map, length_seq, i32_small; lia. Qed.

(** What the TCP server of a program is started with. *)
Definition tcp_setting (o : gset Z) (name ipPort : bytes) (g : Settings) : TcpServer.setting :=
  TcpServer.mkSetting o name ipPort 0 (map (λ k, Z.of_nat k + 1) (seq 0 (Z.to_nat (g_loopThreads g)))).

(** The switch of the heartbeat, in any case of its letters. *)
Definition switched_on (g : Settings) : Prop := map RequestParser.RequestParser.to_lower (g_heartBeat_switch g) = str "on".


(** Two threads in the pool and two loops; wheels of three seconds. *)
Definition sample_settings : Settings := mkSettings (str "Info") (str "/var/log/") 2 2 100 (Timestamp.double_of_Z 3) (str "ON").


End Programs.
