(* ===== verification/FileStream.v ===== *)
(** The streaming of a file that is larger than one read ([webServer/staticServer.cpp],
    [StaticServer::writeComplete]): the request parser answers with the head and the first
    megabyte and leaves the open file in the connection; whenever everything has been
    written the connection calls [writeComplete], which sends the next megabyte and at the
    end of the file closes it.

    The parser gives the stream an array of its own frame as buffer ([setbuffer]).  When
    [writeComplete] reads, that frame is gone: any use of the stream but closing it is undefined then, here
    [UseAfterFree].  (The C library of the machine may read past the buffer when it is
    asked for as much as the buffer holds; nothing documents that.) *)

From S2P Require Import Prelude RequestParser.

Module FileStream.

Abbreviation kBufSize := RequestParser.kBufSize.

(** A stream: what it still has to give, and whether its buffer is alive. *)
Record Stream := mkStream { remaining : bytes; buffer_alive : bool }.

(** The part of the connection's context the callback uses: the stream [getContextfp()],
    and the value of ["connectionFlag"]. *)
Record Context := mkContext { contextfp : option Stream; connectionFlag : bytes }.

(** What it does to the connection and to the file. *)
Inductive act :=
| StopWrite                    (* conn->stopWrite() *)
| Send (chunk : bytes)         (* conn->send(buf, nread) *)
| Fclose
| Shutdown.

(** [room] is how much fread(3) gives at most: the buffer's size, or less on an error. *)
Definition writeComplete (room : Z) (conn : Context) : res (Context * list act) :=
  match contextfp conn with
  | None => Ok (conn, [StopWrite])
  | Some fp =>
      if negb (buffer_alive fp) then Err UseAfterFree
      else
        let buf := ztake (Z.min room kBufSize) (remaining fp) in
        if 0 <? zlen buf then
          Ok (mkContext (Some (mkStream (zdrop (zlen buf) (remaining fp)) (buffer_alive fp))) (connectionFlag conn), [Send buf])
        else
          Ok (mkContext None (connectionFlag conn),
            [Fclose; StopWrite] ++ (if bool_decide (connectionFlag conn = str "close") then [Shutdown] else []))
  end.

(** One call per element. *)
Fixpoint writeCompletes (rooms : list Z) (conn : Context) : res (Context * list act) :=
  match rooms with
  | [] => Ok (conn, [])
  | room :: rooms =>
      let! (conn, acts) := writeComplete room conn in
      let! (conn, acts') := writeCompletes rooms conn in
      Ok (conn, acts ++ acts')
  end.

(** The bytes given to the connection. *)
Definition sent (acts : list act) : bytes := concat (map (λ a, match a with Send c => c | _ => [] end) acts).

(** The bytes the request parser gives to it, and the stream it leaves, in the order of
    its actions. *)
Definition answered (acts : list RequestParser.act) : bytes :=
  concat (map (λ a, match a with RequestParser.Send c => c | _ => [] end) acts).

Definition left_open (fopen : bytes → option bytes) (acts : list RequestParser.act) : option Stream :=
  foldl (λ fp a, match a with
                 | RequestParser.SetFp file position => option_map (λ l, mkStream (zdrop position l) true) (fopen file)
                 | RequestParser.SetBuffer => option_map (λ s, mkStream (remaining s) false) fp
                 | _ => fp
                 end) None acts.

(** ** Properties *)

Lemma zlen_ztake {A} n (l : list A) : 0 ≤ n → zlen (ztake n l) = Z.min n (zlen l).
Proof. intros Hn. unfold ztake. rewrite length_take. lia. Qed.

(** How many calls a stream needs before the one that closes it. *)
Definition chunks (n : Z) : Z := (n + kBufSize - 1) / kBufSize.

Lemma chunks_0 : chunks 0 = 0.
Proof. done. Qed.

Lemma chunks_pos n : 0 < n → chunks n = chunks (n - Z.min kBufSize n) + 1.
Proof.
  intros Hn. unfold chunks. change kBufSize with 1048576. destruct (Z.le_gt_cases 1048576 n).
  - replace (n + 1048576 - 1) with ((n - Z.min 1048576 n + 1048576 - 1) + 1 * 1048576) by lia. rewrite Z.div_add by lia. lia.
  - rewrite Z.min_r by lia. replace (n - n + 1048576 - 1) with 1048575 by lia. change (1048575 / 1048576) with 0.
    symmetry. apply (Z.div_unique _ _ _ (n - 1)); lia.
Qed.

Lemma chunks_nonneg n : 0 ≤ n → 0 ≤ chunks n.
Proof. intros Hn. apply Z.div_pos; change kBufSize with 1048576; lia. Qed.

Lemma sent_app a1 a2 : sent (a1 ++ a2) = sent a1 ++ sent a2.
Proof. unfold sent. by rewrite map_app, concat_app. Qed.

(** When the file is closed. *)
Definition ending (flag : bytes) : list act :=
  [Fclose; StopWrite] ++ (if bool_decide (flag = str "close") then [Shutdown] else []).

Lemma sent_ending flag : sent (ending flag) = [].
Proof. unfold ending. by case_bool_decide. Qed.

(** Afterwards every call only stops the writing. *)
Lemma closed_stream rooms flag :
  writeCompletes rooms (mkContext None flag) = Ok (mkContext None flag, replicate (length rooms) StopWrite).
Proof. induction rooms as [|r rooms IH]; cbn; [done|]. by rewrite IH. Qed.

(** Reads that fill the buffer, of a stream whose buffer is alive. *)
Lemma full_stream rooms rest flag :
  Forall (λ r, kBufSize ≤ r) rooms → chunks (zlen rest) < Z.of_nat (length rooms) →
  ∃ cs, writeCompletes rooms (mkContext (Some (mkStream rest true)) flag) =
      Ok (mkContext None flag, map Send cs ++ ending flag ++ replicate (length rooms - S (length cs)) StopWrite) ∧
    concat cs = rest ∧ Forall (λ c, 0 < zlen c ≤ kBufSize) cs ∧ zlen cs = chunks (zlen rest).
Proof.
  revert rest. induction rooms as [|room rooms IH]; intros rest Hr Hn.
  { pose proof (chunks_nonneg (zlen rest)). cbn in Hn. lia. }
  apply Forall_cons in Hr as [Hroom Hr]. cbn [writeCompletes]. unfold writeComplete. cbn [contextfp connectionFlag remaining buffer_alive negb].
  rewrite Z.min_r by done. assert (0 < kBufSize) as Hk by done.
  assert (zlen (ztake kBufSize rest) = Z.min kBufSize (zlen rest)) as El by (rewrite zlen_ztake; lia).
  rewrite El. destruct (Z.ltb_spec 0 (Z.min kBufSize (zlen rest))) as [Hp|Hp].
  - rewrite chunks_pos in Hn by lia.
    assert (zlen (zdrop (Z.min kBufSize (zlen rest)) rest) = zlen rest - Z.min kBufSize (zlen rest)) as Ed by (rewrite length_zdrop; lia).
    destruct (IH (zdrop (Z.min kBufSize (zlen rest)) rest)) as (cs & E & Hc & Hf & Hl); [done|rewrite Ed; cbn [length] in Hn; lia|].
    cbn [res_bind]. rewrite E. exists (ztake kBufSize rest :: cs). split_and!.
    + done.
    + cbn. rewrite Hc. destruct (Z.le_gt_cases kBufSize (zlen rest)).
      * rewrite Z.min_l by lia. apply ztake_zdrop.
      * rewrite Z.min_r by lia. rewrite ztake_all, zdrop_all by lia. by rewrite app_nil_r.
    + constructor; [rewrite El; lia|done].
    + rewrite (chunks_pos (zlen rest)) by lia. rewrite <- Ed, <- Hl. cbn [length]. lia.
  - destruct rest; [|cbn in Hp; lia]. exists []. cbn. rewrite closed_stream. cbn. split_and!; try done.
    do 2 f_equal. unfold ending. by rewrite Nat.sub_0_r.
Qed.


(** ** A page of two and a half megabytes *)

Definition demo_conf : RequestParser.Config := RequestParser.mkConfig (str "/srv") (str "/srv/index.html") ∅ [] ∅ (λ n, n).
Definition demo_world (file : bytes) : RequestParser.World :=
  RequestParser.mkWorld true (λ _, Some 256) (λ _, Some file) (λ _, kBufSize) (λ _, None) (λ _, None) (λ _ _, None).
Definition demo_parser : RequestParser.Parser :=
  RequestParser.mkParser {[str "version" := str "1.1"; str "Connection" := str "close"]} [] false false 0 ∅ [].

Definition demo_file : bytes := replicate (Z.to_nat 2500000) Byte.x61.

Lemma demo_file_length : zlen demo_file = 2500000.
Proof. unfold demo_file. rewrite length_replicate. lia. Qed.


(** ** Edges *)

(** A read that fails looks like the end of the file: the client of a kept connection gets
    fewer bytes than the head promised. *)
Lemma read_error_truncates rest flag :
  writeComplete 0 (mkContext (Some (mkStream rest true)) flag) = Ok (mkContext None flag, ending flag).
Proof. unfold writeComplete. cbn [contextfp]. change (Z.min 0 kBufSize) with 0. done. Qed.

End FileStream.
