(* ===== verification/CgiRequest.v ===== *)
(** The request handler of the CGI server ([cgiServer/parseRequest.h], [parseRequest.cpp]):
    a request of the FastCGI codec is answered by a program that the handler starts in a
    child process, with a pipe to its standard input and a pipe from its standard output.

    The two processes are interleaved step by step, a byte at a time; the program that runs
    in the child is an argument, a tree of reads and writes that ends whatever it reads. *)

From S2P Require Import Prelude Buffer FastCgi Http TimeZone RequestParser.

Module CgiRequest.
Import Buffer FastCgi.

(** A program as its environment sees it: what it writes to its standard output, and what
    it does with the next byte of its standard input, [None] at the end. *)
Inductive prog :=
| Exit
| Write (b : byte) (k : prog)
| Read (k : option byte → prog).

(** The ends of [cgi_output] and [cgi_input]. *)
Inductive pipe_end := OutR | OutW | InR | InW.

#[global] Instance pipe_end_eq_dec : EqDecision pipe_end.
Proof. solve_decision. Defined.

Abbreviation fds := (list pipe_end).

Definition close (e : pipe_end) (l : fds) : fds := filter (λ x, x ≠ e) l.

(** What the system answers: stat(2) (the mode), pipe(2) twice, fork(2), and the program at a
    path in an environment; execl(3) that fails gives [Exit]. *)
Record World := mkWorld {
  stat : bytes → option Z;
  pipe1 : bool;
  pipe2 : bool;
  fork : bool;
  execl : bytes → list bytes → prog;
}.

Record Parser := mkParser {
  params_ : gmap bytes bytes;
  postData_ : bytes;
}.

Definition param (key : bytes) (p : Parser) : bytes := default [] (params_ p !! key).

(** ** Pages *)

Definition bad_request : bytes :=
  str "HTTP/1.0 400 BAD REQUEST" ++ RequestParser.CRLF ++
  str "Content-type: text/html" ++ RequestParser.CRLF ++ RequestParser.CRLF ++
  str "<P>Your browser sent a bad request, " ++
  str "such as a POST without a Content-Length." ++ RequestParser.CRLF.

Definition not_found : bytes :=
  str "HTTP/1.0 404 NOT FOUND" ++ RequestParser.CRLF ++
  str "Content-Type: text/html" ++ RequestParser.CRLF ++ RequestParser.CRLF ++
  str "<HTML><TITLE>404 Not Found</TITLE>" ++ RequestParser.CRLF ++
  str "<BODY><P>The server could not fulfill" ++ RequestParser.CRLF ++
  str "your request because the resource specified" ++ RequestParser.CRLF ++
  str "is unavailable or nonexistent." ++ RequestParser.CRLF ++
  str "</BODY></HTML>" ++ RequestParser.CRLF.

Definition not_autho : bytes :=
  str "HTTP/1.0 403 Forbidden" ++ RequestParser.CRLF ++
  str "Content-Type: text/html" ++ RequestParser.CRLF ++ RequestParser.CRLF ++
  str "<HTML><TITLE> 403 Forbidden </TITLE>" ++ RequestParser.CRLF ++
  str "<BODY><P> 403 Forbidden " ++ RequestParser.CRLF ++
  str "the resource you accessed you have no permission for it " ++ RequestParser.CRLF ++
  str "</BODY></HTML>" ++ RequestParser.CRLF.

Definition internal_error : bytes :=
  str "HTTP/1.0 500 Internal Server Error" ++ RequestParser.CRLF ++
  str "Content-type: text/html" ++ RequestParser.CRLF ++ RequestParser.CRLF ++ RequestParser.CRLF ++
  str "<P>Error prohibited CGI execution." ++ RequestParser.CRLF.

Definition unimplemented : bytes :=
  str "HTTP/1.0 501 Method Not Implemented" ++ RequestParser.CRLF ++
  str "Content-Type: text/html" ++ RequestParser.CRLF ++ RequestParser.CRLF ++
  str "<HTML><HEAD><TITLE>Method Not Implemented" ++ RequestParser.CRLF ++
  str "</TITLE></HEAD>" ++ RequestParser.CRLF ++
  str "<BODY><P>HTTP request method not supported." ++ RequestParser.CRLF ++
  str "</BODY></HTML>" ++ RequestParser.CRLF.

(** [FastCgiCodec::respond(res, &response_); conn_->send(&response_)]: what is sent.  A
    [Parser] handles one request, so that [response_] is new. *)
Definition answer (page : bytes) : res bytes :=
  let! response := new_Buffer kInitialSize in
  let! (_, response) := respond page response in
  Ok (content response).

(** ** The two processes *)

(** Where the handler stands in [execute_cgi]. *)
Inductive handler_place :=
| CloseOutW
| CloseInR
| WriteInput (rest : bytes)
| ReadOutput
| Respond
| CloseOutR
| CloseInW
| WaitPid
| Returned.

(** Where the child does. *)
Inductive child_place :=
| ChildCloseOutR
| ChildCloseInW
| Running (k : prog)
| Exited.

Record Cgi := mkCgi {
  parent_fds : fds;
  child_fds : fds;
  other_fds : fds;              (* of a child another thread forked in between *)
  program : prog;               (* what execl will run *)
  body : bytes;                 (* what the handler will write to it *)
  child : child_place;
  cgi_input : bytes;            (* in the pipes *)
  cgi_output : bytes;
  pc : handler_place;
  output : bytes;               (* the variable [res] *)
  sent : bytes;                 (* what was given to the connection *)
  reaped : bool;
  connected : bool;             (* the connection's state_ is kConnected *)
}.

Definition set_pc (v : handler_place) (s : Cgi) : Cgi :=
  mkCgi (parent_fds s) (child_fds s) (other_fds s) (program s) (body s) (child s) (cgi_input s) (cgi_output s) v (output s) (sent s) (reaped s) (connected s).
Definition set_child (v : child_place) (s : Cgi) : Cgi :=
  mkCgi (parent_fds s) (child_fds s) (other_fds s) (program s) (body s) v (cgi_input s) (cgi_output s) (pc s) (output s) (sent s) (reaped s) (connected s).
Definition set_parent_fds (v : fds) (s : Cgi) : Cgi :=
  mkCgi v (child_fds s) (other_fds s) (program s) (body s) (child s) (cgi_input s) (cgi_output s) (pc s) (output s) (sent s) (reaped s) (connected s).
Definition set_child_fds (v : fds) (s : Cgi) : Cgi :=
  mkCgi (parent_fds s) v (other_fds s) (program s) (body s) (child s) (cgi_input s) (cgi_output s) (pc s) (output s) (sent s) (reaped s) (connected s).
Definition set_other_fds (v : fds) (s : Cgi) : Cgi :=
  mkCgi (parent_fds s) (child_fds s) v (program s) (body s) (child s) (cgi_input s) (cgi_output s) (pc s) (output s) (sent s) (reaped s) (connected s).
Definition set_input (v : bytes) (s : Cgi) : Cgi :=
  mkCgi (parent_fds s) (child_fds s) (other_fds s) (program s) (body s) (child s) v (cgi_output s) (pc s) (output s) (sent s) (reaped s) (connected s).
Definition set_output (v : bytes) (s : Cgi) : Cgi :=
  mkCgi (parent_fds s) (child_fds s) (other_fds s) (program s) (body s) (child s) (cgi_input s) v (pc s) (output s) (sent s) (reaped s) (connected s).
Definition add_res (c : byte) (s : Cgi) : Cgi :=
  mkCgi (parent_fds s) (child_fds s) (other_fds s) (program s) (body s) (child s) (cgi_input s) (cgi_output s) (pc s) (output s ++ [c]) (sent s) (reaped s) (connected s).
Definition set_sent (v : bytes) (s : Cgi) : Cgi :=
  mkCgi (parent_fds s) (child_fds s) (other_fds s) (program s) (body s) (child s) (cgi_input s) (cgi_output s) (pc s) (output s) v (reaped s) (connected s).
Definition set_reaped (s : Cgi) : Cgi :=
  mkCgi (parent_fds s) (child_fds s) (other_fds s) (program s) (body s) (child s) (cgi_input s) (cgi_output s) (pc s) (output s) (sent s) true (connected s).

Definition set_disconnected (s : Cgi) : Cgi :=
  mkCgi (parent_fds s) (child_fds s) (other_fds s) (program s) (body s) (child s) (cgi_input s) (cgi_output s) (pc s) (output s) (sent s) (reaped s) false.

(** [conn_->send(&response_)]: without effect on a connection that is not connected. *)
Definition conn_send (w : bytes) (s : Cgi) : Cgi := if connected s then set_sent w s else s.

(** Some process has the end open. *)
Definition open_end (e : pipe_end) (s : Cgi) : bool :=
  bool_decide (e ∈ parent_fds s ++ child_fds s ++ other_fds s).

Section Run.
(** The capacity of a pipe. *)
Context (capacity : Z).

(** The next step of the handler: [None] while a system call blocks it.  SIGPIPE is ignored
    (EventLoop.cpp), so that a write without a reader fails, and nobody looks at its result;
    read(2) gives 0, the loop's end, when the pipe is empty and nobody can write. *)
Definition parent_step (s : Cgi) : option (res Cgi) :=
  match pc s with
  | CloseOutW => Some (Ok (set_pc CloseInR (set_parent_fds (close OutW (parent_fds s)) s)))
  | CloseInR => Some (Ok (set_pc (WriteInput (body s)) (set_parent_fds (close InR (parent_fds s)) s)))
  | WriteInput [] => Some (Ok (set_pc ReadOutput s))
  | WriteInput (b :: rest) =>
      if open_end InR s then
        if zlen (cgi_input s) <? capacity then Some (Ok (set_pc (WriteInput rest) (set_input (cgi_input s ++ [b]) s))) else None
      else Some (Ok (set_pc ReadOutput s))
  | ReadOutput =>
      match cgi_output s with
      | c :: rest => Some (Ok (add_res c (set_output rest s)))
      | [] => if open_end OutW s then None else Some (Ok (set_pc Respond s))
      end
  | Respond => Some (let! w := answer (output s) in Ok (set_pc CloseOutR (conn_send w s)))
  | CloseOutR => Some (Ok (set_pc CloseInW (set_parent_fds (close OutR (parent_fds s)) s)))
  | CloseInW => Some (Ok (set_pc WaitPid (set_parent_fds (close InW (parent_fds s)) s)))
  | WaitPid => match child s with Exited => Some (Ok (set_pc Returned (set_reaped s))) | _ => None end
  | Returned => None
  end.

Definition child_step (s : Cgi) : option Cgi :=
  match child s with
  | ChildCloseOutR => Some (set_child ChildCloseInW (set_child_fds (close OutR (child_fds s)) s))
  | ChildCloseInW => Some (set_child (Running (program s)) (set_child_fds (close InW (child_fds s)) s))
  | Running Exit => Some (set_child Exited (set_child_fds [] s))
  | Running (Write b k) =>
      if open_end OutR s then
        if zlen (cgi_output s) <? capacity then Some (set_child (Running k) (set_output (cgi_output s ++ [b]) s)) else None
      else Some (set_child (Running k) s)
  | Running (Read k) =>
      match cgi_input s with
      | b :: rest => Some (set_child (Running (k (Some b))) (set_input rest s))
      | [] => if open_end InW s then None else Some (set_child (Running (k None)) s)
      end
  | Exited => None
  end.

(** The other thread's child exits. *)
Definition others_step (s : Cgi) : option Cgi :=
  if bool_decide (other_fds s = []) then None else Some (set_other_fds [] s).

(** The connection closes, or its write side is shut (by the peer, the loop or the codec). *)
Definition connection_step (s : Cgi) : option Cgi := if connected s then Some (set_disconnected s) else None.

Inductive step : Cgi → res Cgi → Prop :=
| step_parent s r : parent_step s = Some r → step s r
| step_child s s' : child_step s = Some s' → step s (Ok s')
| step_others s s' : others_step s = Some s' → step s (Ok s')
| step_connection s s' : connection_step s = Some s' → step s (Ok s').

(** [n] steps without a fault. *)
Inductive steps : nat → Cgi → Cgi → Prop :=
| steps_0 s : steps 0 s s
| steps_S n s s1 s' : steps n s s1 → step s1 (Ok s') → steps (S n) s s'.
End Run.

(** ** The request *)

(** atol(3), which is strtol(3), and atoi(3), which cuts it to an [int]. *)
Fixpoint atoi_digits (l : bytes) (acc : Z) : Z :=
  match l with
  | c :: l => if (48 <=? ub c) && (ub c <=? 57) then atoi_digits l (10 * acc + (ub c - 48)) else acc
  | [] => acc
  end.

Definition strtol (s : bytes) : Z :=
  match Http.skip_space (TimeZone.c_string s) with
  | c :: l =>
      if Byte.eqb c Byte.x2d then Z.max (- 2 ^ 63) (- atoi_digits l 0)
      else Z.min (2 ^ 63 - 1) (atoi_digits (if Byte.eqb c Byte.x2b then l else c :: l) 0)
  | [] => 0
  end.

Definition atoi (s : bytes) : Z := i32 (strtol s).

Definition S_IXUSR : Z := 64.
Definition S_IXGRP : Z := 8.
Definition S_IXOTH : Z := 1.

Definition executable (mode : Z) : bool :=
  negb ((Z.land mode S_IXUSR =? 0) && (Z.land mode S_IXGRP =? 0) && (Z.land mode S_IXOTH =? 0)).

(** The strings the child puts into its environment, each sprintf'ed into 255 bytes. *)
Definition child_env (method query_string : bytes) (content_length : Z) : res (list bytes) :=
  let! meth_env := RequestParser.store255 (str "REQUEST_METHOD=" ++ TimeZone.c_string method) in
  if RequestParser.strcasecmp_eq method (str "GET") then
    let! query_env := RequestParser.store255 (str "QUERY_STRING=" ++ TimeZone.c_string query_string) in
    Ok [meth_env; query_env]
  else
    let! length_env := RequestParser.store255 (str "CONTENT_LENGTH=" ++ dec content_length) in
    Ok [meth_env; length_env].

(** What becomes of a request: a page, with the descriptors that stay open, or a child. *)
Inductive outcome :=
| Page (page : bytes) (leaked : fds)
| Run (s : Cgi).

Section Request.
Context (g_resource_base_path : bytes) (w : World).

(** [others] are the ends that a child forked by another thread at this moment gets too;
    [up]: the connection is still connected. *)
Definition execute_cgi (path : bytes) (others : fds) (up : bool) (p : Parser) : res outcome :=
  let method := param (str "REQUEST_METHOD") p in
  let is_post := bool_decide (method = str "POST") in
  let content_length := if is_post then atoi (param (str "CONTENT_LENGTH") p) else -1 in
  if is_post && (content_length =? -1) then Ok (Page bad_request [])
  else
    let query_string := if bool_decide (method = str "GET") then param (str "QUERY_STRING") p else [] in
    if negb (pipe1 w) then Ok (Page internal_error [])
    else if negb (pipe2 w) then Ok (Page internal_error [OutR; OutW])
    else if negb (fork w) then Ok (Page internal_error [OutR; OutW; InR; InW])
    else
      let! env := child_env method query_string content_length in
      let body := if RequestParser.strcasecmp_eq method (str "POST") then postData_ p else [] in
      Ok (Run (mkCgi [OutR; OutW; InR; InW] [OutR; OutW; InR; InW] others (execl w path env) body
                 ChildCloseOutR [] [] CloseOutW [] [] false up)).

Definition accept_request (others : fds) (up : bool) (p : Parser) : res outcome :=
  let method := param (str "REQUEST_METHOD") p in
  let path := TimeZone.c_string (g_resource_base_path ++ param (str "DOCUMENT_URI") p) in
  if negb (bool_decide (method = str "GET")) && negb (bool_decide (method = str "POST")) then Ok (Page unimplemented [])
  else match stat w path with
       | None => Ok (Page not_found [])
       | Some mode => if executable mode then execute_cgi path others up p else Ok (Page not_autho [])
       end.
End Request.

(** ** Specification *)

(** The output of a program on an input, if it never reads beyond it; and a bound on its
    steps. *)
Fixpoint feed (k : prog) (input : bytes) : option bytes :=
  match k with
  | Exit => Some []
  | Write b k => option_map (cons b) (feed k input)
  | Read k => match input with [] => None | c :: input => feed (k (Some c)) input end
  end.

Fixpoint cost (k : prog) (input : bytes) : nat :=
  match k with
  | Exit => 1
  | Write _ k => S (cost k input)
  | Read k => match input with [] => 0 | c :: input => S (cost (k (Some c)) input) end
  end.

(** ** Properties *)

Section Properties.
Context (capacity : Z).
Implicit Types (s : Cgi).

(** The descriptors at each place. *)
Definition parent_has (p : handler_place) : fds :=
  match p with
  | CloseOutW => [OutR; OutW; InR; InW]
  | CloseInR => [OutR; InR; InW]
  | WriteInput _ | ReadOutput | Respond | CloseOutR => [OutR; InW]
  | CloseInW => [InW]
  | WaitPid | Returned => []
  end.

Definition child_has (c : child_place) : fds :=
  match c with
  | ChildCloseOutR => [OutR; OutW; InR; InW]
  | ChildCloseInW => [OutW; InR; InW]
  | Running _ => [OutW; InR]
  | Exited => []
  end.

(** What the handler has still to write. *)
Definition to_write s : bytes :=
  match pc s with CloseOutW | CloseInR => body s | WriteInput rest => rest | _ => [] end.

(** What the child has still to run. *)
Definition rest_of s : option prog :=
  match child s with ChildCloseOutR | ChildCloseInW => Some (program s) | Running k => Some k | Exited => None end.

(** What it will write. *)
Definition pending s : option bytes :=
  match rest_of s with Some k => feed k (cgi_input s ++ to_write s) | None => Some [] end.

(** The handler has seen the end of the output. *)
Definition done_reading s : bool :=
  match pc s with Respond | CloseOutR | CloseInW | WaitPid | Returned => true | _ => false end.
Definition done_sending s : bool :=
  match pc s with CloseOutR | CloseInW | WaitPid | Returned => true | _ => false end.

Record inv s : Prop := {
  v_parent : parent_fds s = parent_has (pc s);
  v_child : child_fds s = child_has (child s);
  v_room : zlen (cgi_input s) + zlen (to_write s) ≤ capacity;
  v_pending : option_map (λ r, output s ++ cgi_output s ++ r) (pending s) = feed (program s) (body s);
  v_read : done_reading s = true → child s = Exited ∧ cgi_output s = [];
  v_sent : if done_sending s then answer (output s) = Ok (sent s) ∨ sent s = [] ∧ connected s = false else sent s = [];
  v_reaped : pc s = Returned → reaped s = true;
}.

Lemma closed_end e s : inv s → e = InR ∨ e = OutW → open_end e s = false → child s = Exited.
Proof.
  intros Hi He Ho. unfold open_end in Ho. rewrite (v_child _ Hi) in Ho. apply bool_decide_eq_false in Ho.
  destruct (child s); [..|done]; exfalso; apply Ho; rewrite !elem_of_app; right; left; destruct He as [->| ->]; cbn; set_solver.
Qed.

Lemma open_outR s : inv s → done_sending s = false → open_end OutR s = true.
Proof.
  intros Hi Hd. unfold open_end. rewrite (v_parent _ Hi). apply bool_decide_eq_true.
  rewrite !elem_of_app. left. unfold done_sending in Hd. destruct (pc s); cbn; done || set_solver.
Qed.

Lemma open_inW s : inv s → done_reading s = false → open_end InW s = true.
Proof.
  intros Hi Hd. unfold open_end. rewrite (v_parent _ Hi). apply bool_decide_eq_true.
  rewrite !elem_of_app. left. unfold done_reading in Hd. destruct (pc s); cbn; done || set_solver.
Qed.

Lemma not_done s : inv s → child s ≠ Exited → done_reading s = false.
Proof. intros Hi Hc. destruct (done_reading s) eqn:E; [|done]. by destruct (v_read _ Hi E). Qed.

Lemma parent_step_inv s s' : inv s → parent_step capacity s = Some (Ok s') → inv s'.
Proof.
  intros Hi Hs. pose proof Hi as [H1 H2 H3 H4 H5 H6 H7]. unfold parent_step in Hs.
  unfold done_sending, done_reading, pending, rest_of, to_write in *.
  destruct (pc s) as [| |[|b rest]| | | | | |] eqn:Hpc; cbn [close] in *.
  - simplify_eq. constructor; cbn in *; try done. by rewrite H1.
  - simplify_eq. constructor; cbn in *; try done. by rewrite H1.
  - simplify_eq. by constructor.
  - destruct (open_end InR s) eqn:Ho.
    + destruct (Z.ltb_spec (zlen (cgi_input s)) capacity); simplify_eq. constructor; cbn in *; try done.
      * rewrite length_app. cbn. lia.
      * unfold pending, rest_of, to_write. cbn. by rewrite <- app_assoc.
    + simplify_eq. assert (child s = Exited) as Hc by (apply (closed_end InR); auto).
      constructor; cbn in *; try done; [lia|].
      unfold pending, rest_of. cbn. by rewrite Hc in H4 |- *.
  - destruct (cgi_output s) as [|c rest] eqn:Ec.
    + destruct (open_end OutW s) eqn:Ho; simplify_eq. assert (child s = Exited) as Hc by (apply (closed_end OutW); auto).
      constructor; cbn in *; try done. by rewrite Ec.
    + simplify_eq. constructor; unfold pending, rest_of, to_write, done_reading, done_sending; cbn in *; rewrite ?Hpc; try done. rewrite <- H4.
      match goal with |- _ = option_map _ ?o => destruct o; cbn; by rewrite <- ?app_assoc end.
  - destruct (answer (output s)) as [w|] eqn:Ew; cbn in Hs; simplify_eq. unfold conn_send.
    destruct (connected s) eqn:Ec; constructor; cbn in *; try done; [by left|by right].
  - simplify_eq. constructor; cbn in *; try done. by rewrite H1.
  - simplify_eq. constructor; cbn in *; try done. by rewrite H1.
  - destruct (child s) eqn:Hc; simplify_eq. constructor; cbn in *; try done; try (by rewrite Hc); unfold pending, rest_of; cbn; by rewrite Hc.
  - done.
Qed.

(** The end of the output has not been seen. *)
Ltac not_end H := let E := fresh in intros E; discriminate (eq_trans (eq_sym E) H).

Lemma child_step_inv s s' : inv s → child_step capacity s = Some s' → inv s'.
Proof.
  intros Hi Hs. pose proof Hi as [H1 H2 H3 H4 H5 H6 H7]. unfold child_step in Hs.
  assert (child s ≠ Exited → done_reading s = false) as Hnd by by apply not_done.
  unfold pending, rest_of in H4. destruct (child s) as [| |[|b k|k]|] eqn:Hc; cbn [child_has] in *; [..|done].
  all: specialize (Hnd ltac:(done)); assert (done_sending s = false) as Hns by (unfold done_reading, done_sending in *; by destruct (pc s)).
  - simplify_eq. constructor; try done; [cbn; by rewrite H2|]. by not_end Hnd.
  - simplify_eq. constructor; try done; [cbn; by rewrite H2|]. by not_end Hnd.
  - simplify_eq. constructor; try done. by not_end Hnd.
  - rewrite open_outR in Hs by done. destruct (Z.ltb_spec (zlen (cgi_output s)) capacity); simplify_eq.
    constructor; try done; [|by not_end Hnd]. cbn in H4 |- *. rewrite <- H4. unfold pending, rest_of. cbn.
    change (to_write _) with (to_write s). destruct (feed k _); cbn; by rewrite <- ?app_assoc.
  - destruct (cgi_input s) as [|b rest] eqn:Ei; [by rewrite (open_inW s) in Hs|]. simplify_eq.
    constructor; try done; [|by not_end Hnd]. change (to_write _) with (to_write s). cbn in *. lia.
Qed.

Lemma cgi_step_inv s s' : inv s → step capacity s (Ok s') → inv s'.
Proof.
  intros Hi Hs. inversion Hs as [? ? Hp|? ? Hc|? ? Ho|? ? Hd]; subst.
  - by eapply parent_step_inv.
  - by eapply child_step_inv.
  - unfold others_step in Ho. case_bool_decide; simplify_eq. by destruct Hi.
  - unfold connection_step in Hd. destruct (connected s) eqn:E; simplify_eq. destruct Hi as [? ? ? ? ? Hsent ?].
    constructor; try done. cbn. change (done_sending (set_disconnected s)) with (done_sending s).
    destruct (done_sending s); [|done]. destruct Hsent as [?|[? _]]; [by left|by right].
Qed.

(** ** Termination *)

Definition rank s : nat :=
  match pc s with
  | CloseOutW => 8 + length (body s)
  | CloseInR => 7 + length (body s)
  | WriteInput rest => 6 + length rest
  | ReadOutput => 5
  | Respond => 4
  | CloseOutR => 3
  | CloseInW => 2
  | WaitPid => 1
  | Returned => 0
  end.

Definition child_cost s : nat :=
  match child s with
  | ChildCloseOutR => 2 + cost (program s) (cgi_input s ++ to_write s)
  | ChildCloseInW => 1 + cost (program s) (cgi_input s ++ to_write s)
  | Running k => cost k (cgi_input s ++ to_write s)
  | Exited => 0
  end.

Definition measure (out : bytes) s : nat :=
  rank s + child_cost s + (length out - length (output s)) + (if bool_decide (other_fds s = []) then 0 else 1) +
  (if connected s then 1 else 0).

Lemma step_measure out s s' :
  inv s → feed (program s) (body s) = Some out → step capacity s (Ok s') → (measure out s' < measure out s)%nat.
Proof.
  intros Hi Hf Hs. pose proof Hi as [H1 H2 H3 H4 H5 H6 H7]. rewrite Hf in H4.
  assert (length (output s) + length (cgi_output s) ≤ length out)%nat as Hout.
  { destruct (pending s) as [r|]; cbn in H4; simplify_eq. rewrite !length_app. lia. }
  inversion Hs as [? ? Hp|? ? Hc|? ? Ho|? ? Hd]; subst; unfold measure.
  - unfold parent_step in Hp. unfold rank, child_cost, to_write in *.
    destruct (pc s) as [| |[|b rest]| | | | | |] eqn:Hpc; simplify_eq; cbn.
    + lia.
    + lia.
    + lia.
    + destruct (open_end InR s) eqn:Ho; [destruct (_ <? _); simplify_eq; cbn; rewrite <- app_assoc; cbn; lia|].
      simplify_eq. cbn. rewrite (closed_end InR s Hi (or_introl eq_refl) Ho). lia.
    + destruct (cgi_output s) as [|c rest] eqn:Ec; [destruct (open_end OutW s); simplify_eq; cbn; lia|].
      simplify_eq. cbn. rewrite Hpc, length_app. cbn in *. lia.
    + destruct (answer (output s)); cbn in Hp; simplify_eq. unfold conn_send. destruct (connected s) eqn:E; cbn; rewrite ?E; lia.
    + lia.
    + lia.
    + destruct (child s) eqn:Hc; simplify_eq. cbn. rewrite Hc. lia.
  - assert (rank s' = rank s ∧ output s' = output s ∧ other_fds s' = other_fds s ∧ connected s' = connected s ∧
      (child_cost s' < child_cost s)%nat) as (-> & -> & -> & -> & ?); [|lia].
    unfold child_step in Hc. unfold child_cost, rank, to_write.
    destruct (child s) as [| |[|b k|k]|] eqn:Hcs; simplify_eq; try (split_and!; try done; cbn; lia).
    + destruct (open_end OutR s); [destruct (zlen (cgi_output s) <? capacity)|]; simplify_eq; split_and!; try done; cbn; lia.
    + destruct (cgi_input s) as [|b rest]; [rewrite (open_inW s Hi) in Hc by (apply not_done; [done|by rewrite Hcs])|];
        simplify_eq; split_and!; try done; cbn; lia.
  - unfold others_step in Ho. case_bool_decide; simplify_eq. cbn. unfold rank, child_cost, to_write. cbn. lia.
  - unfold connection_step in Hd. destruct (connected s) eqn:E; simplify_eq. unfold rank, child_cost, to_write. cbn. lia.
Qed.

(** ** Progress *)

Lemma answer_ok out :
  zlen out < 2 ^ 32 → answer out = Ok (enc_stream (response_records (page_of out))).
Proof.
  intros Hlen. unfold answer.
  assert (16 * zlen (page_of out) + 24 ≤ 2 ^ 40) as Hp.
  { unfold page_of. destruct out as [|c out]; [by vm_compute|].
    change (if (length (c :: out) =? 0)%nat then emptyPage else c :: out) with (c :: out). lia. }
  destruct (wp_elim _ _ (new_Buffer_spec kInitialSize ltac:(done))) as (b & -> & Hb & Hc & Hw & _). cbn [res_bind].
  pose proof (response_size (page_of out) (page_of_nonempty out)).
  destruct (wp_elim _ _ (respond_spec out b Hb ltac:(unfold fits, max_size; rewrite Hw; unfold kCheapPrepend; lia))) as ([out' b'] & -> & _ & _ & Hc').
  cbn [res_bind]. by rewrite Hc', Hc.
Qed.

Lemma progress s out :
  0 < capacity → inv s → feed (program s) (body s) = Some out → zlen out < 2 ^ 32 → pc s ≠ Returned →
  ∃ s', step capacity s (Ok s').
Proof.
  intros Hcap Hi Hf Hout Hpc. pose proof Hi as [H1 H2 H3 H4 H5 H6 H7]. rewrite Hf in H4.
  assert (zlen (output s) ≤ zlen out) as Ho.
  { destruct (pending s); cbn in H4; simplify_eq. rewrite !length_app. lia. }
  destruct (parent_step capacity s) as [[s'|e]|] eqn:Hp.
  - exists s'. by constructor.
  - unfold parent_step in Hp. rewrite answer_ok in Hp by lia. cbn [res_bind] in Hp. repeat (case_match; try discriminate).
  - (* the handler is blocked *)
    destruct (child_step capacity s) as [s'|] eqn:Hcs; [exists s'; by constructor|].
    destruct (others_step s) as [s'|] eqn:Hos; [exists s'; by apply step_others|]. exfalso.
    assert (other_fds s = []) as Hno by (unfold others_step in Hos; by case_bool_decide).
    unfold parent_step in Hp. unfold pending, rest_of, to_write, done_reading in *.
    destruct (pc s) as [| |[|b rest]| | | | | |] eqn:Epc; try discriminate; cbn [length] in *.
    + destruct (open_end InR s); [|done]. destruct (Z.ltb_spec (zlen (cgi_input s)) capacity); [done|lia].
    + destruct (cgi_output s) as [|c rest] eqn:Ec; [|done]. destruct (open_end OutW s) eqn:Eo; [|done].
      unfold child_step in Hcs. destruct (child s) as [| |[|b k|k]|] eqn:Ech; try discriminate.
      * rewrite open_outR in Hcs by (try done; unfold done_sending; by rewrite Epc). rewrite Ec in Hcs.
        change (zlen (@nil byte)) with 0 in Hcs. by rewrite (proj2 (Z.ltb_lt _ _)) in Hcs by done.
      * destruct (cgi_input s); done.
      * unfold open_end in Eo. rewrite H1, H2, Hno in Eo. by vm_compute in Eo.
    + destruct (H5 eq_refl) as [Hx _]. by rewrite Hx in Hp.
    + done.
Qed.

Lemma steps_inv n s s' :
  inv s → steps capacity n s s' → inv s' ∧ program s' = program s ∧ body s' = body s.
Proof.
  intros Hi. induction 1 as [s|n s s1 s' Hn IH Hs]; [done|]. destruct (IH Hi) as (H1 & H2 & H3).
  split; [by eapply cgi_step_inv|].
  assert (program s' = program s1 ∧ body s' = body s1) as [-> ->]; [|done].
  inversion Hs as [? ? Hp|? ? Hc|? ? Ho|? ? Hd]; subst.
  - unfold parent_step in Hp. repeat case_match; simplify_eq; try done.
    destruct (answer (output s1)); cbn in Hp; simplify_eq. unfold conn_send. by destruct (connected s1).
  - unfold child_step in Hc. by repeat case_match; simplify_eq.
  - unfold others_step in Ho. by case_bool_decide; simplify_eq.
  - unfold connection_step in Hd. by destruct (connected s1); simplify_eq.
Qed.

(** Nothing is sent on a connection that is down from the start. *)
Lemma steps_down n s s' : steps capacity n s s' → connected s = false ∧ sent s = [] → connected s' = false ∧ sent s' = [].
Proof.
  induction 1 as [s|n s s1 s' Hn IH Hs]; [done|]. intros H0. destruct (IH H0) as [Hc Hw].
  inversion Hs as [? ? Hp|? ? Hc'|? ? Ho|? ? Hd]; subst.
  - unfold parent_step in Hp. repeat case_match; simplify_eq; try done.
    destruct (answer (output s1)); cbn in Hp; simplify_eq. unfold conn_send. by rewrite Hc.
  - unfold child_step in Hc'. by repeat case_match; simplify_eq.
  - unfold others_step in Ho. by case_bool_decide; simplify_eq.
  - unfold connection_step in Hd. by rewrite Hc in Hd.
Qed.

Lemma steps_measure out n s s' :
  inv s → feed (program s) (body s) = Some out → steps capacity n s s' → (n + measure out s' ≤ measure out s)%nat.
Proof.
  intros Hi Hf. induction 1 as [s|n s s1 s' Hn IH Hs]; [done|].
  destruct (steps_inv _ _ _ Hi Hn) as (Hi1 & Ep & Eb).
  pose proof (step_measure out s1 s' Hi1 ltac:(by rewrite Ep, Eb) Hs). specialize (IH Hi Hf). lia.
Qed.
End Properties.

(** What the program will be, and its input. *)
Lemma accept_request_run base w others up p s0 :
  accept_request base w others up p = Ok (Run s0) →
  ∃ env, program s0 = execl w (TimeZone.c_string (base ++ param (str "DOCUMENT_URI") p)) env ∧
    body s0 = (if bool_decide (param (str "REQUEST_METHOD") p = str "POST") then postData_ p else []) ∧
    s0 = mkCgi [OutR; OutW; InR; InW] [OutR; OutW; InR; InW] others (program s0) (body s0) ChildCloseOutR [] [] CloseOutW [] [] false up.
Proof.
  unfold accept_request. set (path := TimeZone.c_string _). set (m := param (str "REQUEST_METHOD") p).
  destruct (negb _ && negb _) eqn:Em; [done|]. destruct (stat w path) as [mode|]; [|done]. destruct (executable mode); [|done].
  unfold execute_cgi. fold m. destruct (bool_decide (m = str "POST") && _); [done|].
  destruct (pipe1 w); [|done]. destruct (pipe2 w); [|done]. destruct (fork w); [|done]. cbn [negb].
  destruct (child_env _ _ _) as [env|]; [|done]. cbn [res_bind]. intros [= <-]. exists env. cbn. split; [done|]. split; [|done].
  destruct (bool_decide (m = str "POST")) eqn:E; bool_prop; [by rewrite E|].
  assert (m = str "GET") as ->; [|done].
  destruct (decide (m = str "GET")); [done|]. by rewrite !bool_decide_false in Em.
Qed.

(** The first state satisfies the invariant when the body fits the pipe. *)
Lemma first_inv capacity others up k b :
  zlen b ≤ capacity →
  inv capacity (mkCgi [OutR; OutW; InR; InW] [OutR; OutW; InR; InW] others k b ChildCloseOutR [] [] CloseOutW [] [] false up).
Proof.
  intros Hb. constructor; try done. unfold pending, rest_of, to_write. cbn. by destruct (feed k b).
Qed.

(** How many steps a request takes at most. *)
Definition step_bound (k : prog) (input out : bytes) : nat := (12 + length input + cost k input + length out)%nat.

(** C12. A request whose body fits a pipe and for which a program is started that ends
    whatever it reads, in every interleaving of the handler, the program, a child of
    another thread that inherited the pipes, and the connection going down; read(2) and
    write(2) do not fail otherwise.  If the program does not read beyond the body, no step faults, the handler is never blocked for
    ever, and after boundedly many steps it has returned, with the four descriptors closed
    and the child waited for.  What it has given to the connection is then the program's
    whole output as FastCGI records, or nothing if the connection was no longer connected
    when the handler sent it: all of it if the connection is connected to the end, nothing
    if it was not connected when the handler began.  If the program reads beyond the body
    (it waits for the end of its input, or the request promises a longer body than it
    has), the handler never sends anything and never returns: it closes the program's
    input only after its output has ended. *)
Theorem cgi_request_completes base w others up capacity p s0 n s :
  accept_request base w others up p = Ok (Run s0) → 0 < capacity → zlen (postData_ p) ≤ capacity →
  steps capacity n s0 s →
  body s0 = (if bool_decide (param (str "REQUEST_METHOD") p = str "POST") then postData_ p else []) ∧
  match feed (program s0) (body s0) with
  | Some out =>
      zlen out < 2 ^ 32 →
      (∀ r, step capacity s r → ∃ s', r = Ok s') ∧
      (pc s = Returned ∨ ∃ s', step capacity s (Ok s')) ∧
      (n ≤ step_bound (program s0) (body s0) out)%nat ∧
      (pc s = Returned → parent_fds s = [] ∧ child s = Exited ∧ reaped s = true ∧
         let response := enc_stream (response_records (page_of out)) in
         (connected s = true → sent s = response) ∧
         (connected s = false → sent s = response ∨ sent s = []) ∧
         (up = false → sent s = []))
  | None => pc s ≠ Returned ∧ sent s = [] ∧ child s ≠ Exited
  end.
Proof.
  intros Ha Hcap Hlen Hn. destruct (accept_request_run _ _ _ _ _ _ Ha) as (env & Hprog & Hbody & Es0). split; [done|].
  assert (inv capacity s0) as Hi0.
  { rewrite Es0. apply first_inv. rewrite Hbody. case_bool_decide; [done|]. cbn. lia. }
  destruct (steps_inv capacity n s0 s Hi0 Hn) as (Hi & Ep & Eb).
  pose proof Hi as [H1 H2 H3 H4 H5 H6 H7]. rewrite Ep, Eb in H4.
  destruct (feed (program s0) (body s0)) as [out|] eqn:Hf.
  - intros Hout. pose proof (steps_measure capacity out n s0 s Hi0 Hf Hn) as Hm. split_and!.
    + intros r Hs. inversion Hs as [? ? Hp|? s' Hc|? s' Ho|? s' Hd]; subst; [|by exists s'|by exists s'|by exists s'].
      destruct r as [s'|e]; [by exists s'|]. exfalso.
      assert (zlen (output s) ≤ zlen out) as Hl by (destruct (pending s); cbn in H4; simplify_eq; rewrite !length_app; lia).
      unfold parent_step in Hp. rewrite answer_ok in Hp by lia. cbn [res_bind] in Hp. repeat (case_match; try discriminate).
    + destruct (decide (rank s = 0%nat)) as [E|E]; [left; unfold rank in E; by destruct (pc s)|].
      right. apply (progress capacity s out); try done; [by rewrite Ep, Eb|]. intros F. apply E. unfold rank. by rewrite F.
    + assert (measure out s0 ≤ step_bound (program s0) (body s0) out)%nat; [|lia].
      rewrite Es0. unfold step_bound. cbn [program body].
      change (measure out _) with (8 + length (body s0) + (2 + cost (program s0) (body s0)) + (length out - 0) +
                                   (if bool_decide (others = []) then 0 else 1) + (if up then 1 else 0))%nat.
      destruct (bool_decide (others = [])), up; lia.
    + intros Hpc. unfold done_reading, done_sending in *. rewrite Hpc in *. destruct (H5 eq_refl) as [Hx Ho].
      split_and!; [done|done|by apply H7|..]; cbv zeta.
      all: unfold pending, rest_of in H4; rewrite Hx, Ho in H4; cbn in H4; rewrite app_nil_r in H4; simplify_eq.
      all: rewrite answer_ok in H6 by done.
      * intros E. destruct H6 as [H6|[_ H6]]; [by simplify_eq|by rewrite E in H6].
      * intros _. destruct H6 as [H6|[H6 _]]; [left; by simplify_eq|by right].
      * intros ->. apply (steps_down capacity n s0 s Hn). by rewrite Es0.
  - assert (child s ≠ Exited) as Hc.
    { intros F. unfold pending, rest_of in H4. by rewrite F in H4. }
    pose proof (not_done capacity s Hi Hc) as Hd. unfold done_reading, done_sending in *.
    split_and!; [by intros F; rewrite F in Hd|by destruct (pc s)|done].
Qed.

(** ** Concrete runs *)

(** The processes in turn: the child, the handler, the other child, as far as they can. *)
Fixpoint run (capacity : Z) (fuel : nat) (s : Cgi) : Cgi :=
  match fuel with
  | O => s
  | S fuel =>
      match child_step capacity s with
      | Some s => run capacity fuel s
      | None =>
          match parent_step capacity s with
          | Some (Ok s) => run capacity fuel s
          | _ => match others_step s with Some s => run capacity fuel s | None => s end
          end
      end
  end.

Lemma steps_trans capacity n m s1 s2 s3 : steps capacity n s1 s2 → steps capacity m s2 s3 → steps capacity (n + m) s1 s3.
Proof.
  intros H1. induction 1 as [|m s2 s s3 H2 IH Hs]; [by rewrite Nat.add_0_r|].
  rewrite Nat.add_succ_r. eapply steps_S; [by apply IH|done].
Qed.

Lemma run_steps capacity fuel s : ∃ n, steps capacity n s (run capacity fuel s).
Proof.
  revert s. induction fuel as [|fuel IH]; intros s; cbn; [exists 0%nat; constructor|].
  assert (∀ s1, step capacity s (Ok s1) → ∃ n, steps capacity n s (run capacity fuel s1)) as Hgo.
  { intros s1 Hs. destruct (IH s1) as [n Hn]. exists (1 + n)%nat. eapply steps_trans; [|done]. eapply steps_S; [constructor|done]. }
  destruct (child_step capacity s) eqn:Ec; [by apply Hgo, step_child|].
  destruct (parent_step capacity s) as [[s1|]|] eqn:Ep; [by apply Hgo, step_parent|..];
    (destruct (others_step s) eqn:Eo; [by apply Hgo, step_others|exists 0%nat; constructor]).
Qed.

(** A program that greets and echoes two bytes; one that writes three bytes first; one that
    reads to the end of its input. *)
Definition echo2 : prog := Write Byte.x3e (Read (λ a, Read (λ b, Write (default Byte.x2d a) (Write (default Byte.x2d b) Exit)))).
Definition talker : prog := Write Byte.x61 (Write Byte.x61 (Write Byte.x61 (Read (λ _, Exit)))).
Definition slurp : prog := Read (λ _, Read (λ _, Read (λ _, Write Byte.x61 Exit))).

Definition demo_world (k : prog) : World := mkWorld (λ _, Some 73) true true true (λ _ _, k).
Definition demo_post : Parser :=
  mkParser {[str "REQUEST_METHOD" := str "POST"; str "DOCUMENT_URI" := str "/x.cgi"; str "CONTENT_LENGTH" := str "2"]} (str "hi").

Definition demo_start (k : prog) : Cgi :=
  mkCgi [OutR; OutW; InR; InW] [OutR; OutW; InR; InW] [OutW] k (str "hi") ChildCloseOutR [] [] CloseOutW [] [] false true.

Lemma demo_accept k : accept_request (str "/srv") (demo_world k) [OutW] true demo_post = Ok (Run (demo_start k)).
Proof. by vm_compute. Qed.

Lemma cgi_request_completes_witness :
  let s := run 4 100 (demo_start echo2) in
  pc s = Returned ∧ sent s = enc_stream (response_records (str ">hi")) ∧ parent_fds s = [].
Proof.
  intros s. assert (pc s = Returned) as Hpc by by vm_compute. split; [done|].
  destruct (run_steps 4 100 (demo_start echo2)) as [n Hn].
  destruct (cgi_request_completes (str "/srv") (demo_world echo2) [OutW] true 4 demo_post (demo_start echo2) n s
              (demo_accept echo2) ltac:(done) ltac:(by vm_compute) Hn) as [_ H].
  change (feed (program (demo_start echo2)) (body (demo_start echo2))) with (Some (str ">hi")) in H.
  destruct H as (_ & _ & _ & H); [vm_compute; reflexivity|]. destruct (H Hpc) as (H1 & _ & _ & H2 & _).
  split; [|exact H1]. exact (H2 ltac:(by vm_compute)).
Defined.

(** ** Edges *)

(** The codec shuts the connection of a request without FCGI_KEEP_CONN as soon as it has
    handed the request over: the answer comes too late. *)
Lemma late_answer_is_dropped :
  let s := run 4 100 (set_disconnected (demo_start echo2)) in
  pc s = Returned ∧ output s = str ">hi" ∧ sent s = [].
Proof. by vm_compute. Qed.

(** A program that waits for the end of its input, as the handler waits for the end of its
    output. *)
Lemma slurping_program_hangs :
  let s := run 4 100 (demo_start slurp) in
  parent_step 4 s = None ∧ child_step 4 s = None ∧ others_step s = None ∧ pc s = ReadOutput.
Proof. by vm_compute. Qed.

(** A body larger than a pipe: the handler waits for room in the program's input, the
    program for room in its output. *)
Lemma full_pipes_hang :
  let s := run 1 100 (demo_start talker) in
  parent_step 1 s = None ∧ child_step 1 s = None ∧ others_step s = None ∧ pc s = WriteInput (str "i").
Proof. by vm_compute. Qed.

(** A query of 242 bytes overflows the array of the child. *)
Lemma long_query_overflows query :
  242 ≤ zlen (TimeZone.c_string query) → child_env (str "GET") query (-1) = Err OutOfRange.
Proof.
  intros Hq. unfold child_env. cbn [res_bind RequestParser.store255]. change (RequestParser.store255 (str "REQUEST_METHOD=" ++ _))
    with (Ok (str "REQUEST_METHOD=GET")). cbn [res_bind]. change (RequestParser.strcasecmp_eq (str "GET") (str "GET")) with true.
  unfold RequestParser.store255. rewrite length_app, (proj2 (Z.ltb_ge _ _)); [done|]. cbn [length]. change (length (str "QUERY_STRING=")) with 13%nat. lia.
Qed.

(** When the second pipe or the child cannot be created the descriptors stay open. *)
Lemma failed_start_leaks base w others up p :
  param (str "REQUEST_METHOD") p = str "GET" → stat w (TimeZone.c_string (base ++ param (str "DOCUMENT_URI") p)) = Some 64 →
  pipe1 w = true → pipe2 w && fork w = false →
  ∃ leaked, accept_request base w others up p = Ok (Page internal_error leaked) ∧ leaked ≠ [].
Proof.
  intros Hm Hs H1 H2. unfold accept_request. rewrite Hm, Hs. cbn [negb andb].
  change (executable 64) with true. unfold execute_cgi. rewrite Hm, H1. change (bool_decide (str "GET" = str "POST")) with false. cbn [andb negb].
  destruct (pipe2 w); cbn [negb andb] in *; [rewrite H2|]; by eexists.
Qed.

End CgiRequest.
