(* ===== verification/CgiPrograms.v ===== *)
(** The programs that the CGI server starts: login, registration and the check of a name
    ([cgiServer/src/login.cpp], [register.cpp], [register_check.cpp]).

    The form (cgicc), the configuration (yaml-cpp) and the data base (mysql++) answer
    through arguments; an exception is the text of its [what()].  A program is what it
    prints, and the queries it sends. *)

From S2P Require Import Prelude.

Module CgiPrograms.

(** What the libraries answer: the scalar at a path of the configuration file, the fields of
    the form in order, [connect], the number of rows of a stored result, and [execute]. *)
Record World := mkWorld {
  config : list string → bytes + bytes;
  formData : list (bytes * bytes);
  db_connect : bytes → bytes → bytes → bytes → option bytes;
  db_store : bytes → bytes + nat;
  db_execute : bytes → option bytes;
}.

(** [getElement]: the first field of the name, or [end()]. *)
Definition getElement (name : bytes) (form : list (bytes * bytes)) : option bytes :=
  snd <$> List.find (λ e, bool_decide (e.1 = name)) form.

(** Two stars of the iterator; [end()] must not be dereferenced. *)
Definition deref (it : option bytes) : res bytes :=
  match it with Some v => Ok v | None => Err OutOfRange end.

Definition line (s : bytes) : bytes := s ++ [Byte.x0a].
Definition crlf : bytes := [Byte.x0d; Byte.x0a].

(** The globals of [init], in the order of the assignments; an exception ends the reading. *)
Fixpoint read_config (paths : list (list string)) (w : World) : list bytes * option bytes :=
  match paths with
  | [] => ([], None)
  | p :: ps =>
      match config w p with
      | inl what => ([], Some what)
      | inr v => let '(vs, e) := read_config ps w in (v :: vs, e)
      end
  end.

Definition db_paths : list (list string) :=
  [["dataBase"; "server"]; ["dataBase"; "user"]; ["dataBase"; "pswd"]; ["dataBase"; "dbName"]]%string.
Definition login_paths : list (list string) := ["webServer"; "nginxIP"]%string :: db_paths.

(** What is printed when [init()] fails. *)
Definition init_failed (what : bytes) : bytes := line what ++ str "configuration error, syntax or path".

Definition global (i : nat) (vs : list bytes) : bytes := default [] (vs !! i).

(** ** Logging in *)

Definition login_query (userName passwd : bytes) : bytes :=
  str "SELECT * from user_pwd where userName='" ++ userName ++ str "' and pswd='" ++ passwd ++ str "';".

Definition redirect_page (nginxIP : bytes) : bytes :=
  str "HTTP/1.0 302 Found" ++ crlf ++
  str "Location:http://" ++ nginxIP ++ str "/pages/logIn.html" ++ crlf ++
  str "Content-type:text/html;charset=utf-8 " ++ crlf ++ crlf.

Definition welcome_head (nginxIP : bytes) : bytes :=
  str "HTTP/1.0 200 OK" ++ crlf ++ str "Content-type:text/html;charset=utf-8 " ++ crlf ++ crlf ++
  line (str "<html>") ++ line (str "<head>") ++ line (str "<meta charset='utf-8'>") ++
  line (str "<title>private base</title>") ++ line (str "<style type='text/css'>") ++
  line (str "*{margin:0;padding:0}") ++ line (str "div{position:relative;}") ++
  line (str "div p{position:absolute;left:10px;top:10px;color:#CC33CC;font-size:medium;font-family:'微软雅黑'}") ++
  line (str "div span{position:absolute;left:360px;top:10px;color:#7CFC00;font-size:medium;font-family:'微软雅黑'}") ++
  line (str "</style>") ++ line (str "</head>") ++ line (str "<body>") ++ line (str "<div>") ++
  str "<img src='http://" ++ nginxIP ++
  str "/pages/images/login/programer_wall_5.png' width='100%' height='100%'/>" ++
  line (str "<p>Login success! welcome to your Newland! </p>") ++ str "<span>".

Definition welcome_tail : bytes :=
  line (str "</span>") ++ line (str "</div>") ++ line (str "</body>") ++ line (str "</html>").

(** The [try] block: what it prints, whether [redirection] stays, and the query sent. *)
Definition login_try (vs : list bytes) (userName passwd : option bytes) (w : World)
    : res (bytes * bool * option bytes) :=
  match db_connect w (global 4 vs) (global 1 vs) (global 2 vs) (global 3 vs) with
  | Some what => Ok (line what, true, None)
  | None =>
      let! u := deref userName in
      let! p := deref passwd in
      let s := login_query u p in
      match db_store w s with
      | inl what => Ok (line what, true, Some s)
      | inr n => Ok ([], negb (0 <? n)%nat, Some s)
      end
  end.

Definition login (w : World) : res (bytes * option bytes) :=
  let '(vs, error) := read_config login_paths w in
  match error with
  | Some what => Ok (init_failed what, None)
  | None =>
      let userName := getElement (str "user") (formData w) in
      let passwd := getElement (str "pw") (formData w) in
      let! (out, redirection, q) := login_try vs userName passwd w in
      if redirection : bool then Ok (out ++ redirect_page (global 0 vs), q)
      else
        let! u := deref userName in
        Ok (out ++ welcome_head (global 0 vs) ++ u ++ welcome_tail, q)
  end.

(** ** Registering *)

Definition register_query (userName passwd email : bytes) : bytes :=
  str "INSERT into user_pwd(userName,pswd,email) VALUES('" ++ userName ++ str "','" ++ passwd ++
  str "','" ++ email ++ str "');".

Definition registered_page (nginxIP : bytes) : bytes :=
  str "HTTP/1.0 302 Found" ++ crlf ++ str "Location:http://" ++ nginxIP ++ str "/index.html" ++ crlf ++
  str "Content-type:text/html;charset=utf-8 " ++ crlf ++ crlf ++
  line (str "<html>") ++ line (str "<body>") ++ line (str "<br/>") ++ line (str "</body>") ++ line (str "</html>").

Definition register_ (w : World) : res (bytes * option bytes) :=
  let '(vs, error) := read_config login_paths w in
  match error with
  | Some what => Ok (init_failed what, None)
  | None =>
      let userName := getElement (str "user") (formData w) in
      let passwd := getElement (str "pw") (formData w) in
      let email := getElement (str "mail") (formData w) in
      let! (out, q) :=
        match db_connect w (global 4 vs) (global 1 vs) (global 2 vs) (global 3 vs) with
        | Some what => Ok (line what, None)
        | None =>
            let! u := deref userName in
            let! p := deref passwd in
            let! m := deref email in
            let s := register_query u p m in
            match db_execute w s with
            | Some what => Ok (line what, Some s)
            | None => Ok ([], Some s)
            end
        end in
      Ok (out ++ registered_page (global 0 vs), q)
  end.

(** ** Checking whether a name is taken *)

Definition check_query (userName : bytes) : bytes :=
  str "SELECT * from user_pwd where userName='" ++ userName ++ str "';".

Definition register_check (w : World) : res (bytes * option bytes) :=
  let '(vs, error) := read_config db_paths w in
  match error with
  | Some what => Ok (init_failed what, None)
  | None =>
      let userName := getElement (str "userName") (formData w) in
      let! (out, exsit, q) :=
        match db_connect w (global 3 vs) (global 0 vs) (global 1 vs) (global 2 vs) with
        | Some what => Ok (line what, false, None)
        | None =>
            let! u := deref userName in
            let s := check_query u in
            match db_store w s with
            | inl what => Ok (line what, false, Some s)
            | inr n => Ok ([], (0 <? n)%nat, Some s)
            end
        end in
      Ok (out ++ str "HTTP/1.0 200 OK" ++ crlf ++ str "Content-type:text/html;charset=utf-8 " ++ crlf ++ crlf ++
          (if exsit : bool then str "yes" else str "no"), q)
  end.

(** ** What the data base reads

    MySQL's string literals: in single quotes, in which a doubled quote and a backslash with
    the next character do not end them. *)

Inductive token := Text (s : bytes) | Literal (s : bytes).

#[global] Instance token_eq_dec : EqDecision token.
Proof. solve_decision. Defined.

Definition quote : byte := Byte.x27.
Definition backslash : byte := Byte.x5c.

(** [quoted]: inside a literal; [acc] is what has been read of the token, backwards. *)
Fixpoint lex (quoted : bool) (acc l : bytes) : option (list token) :=
  match l with
  | [] => if quoted then None else Some [Text (rev acc)]
  | c :: l =>
      if quoted then
        if Byte.eqb c quote then
          match l with
          | c2 :: l2 =>
              if Byte.eqb c2 quote then lex true (c2 :: c :: acc) l2
              else cons (Literal (rev acc)) <$> lex false [] l
          | [] => cons (Literal (rev acc)) <$> lex false [] l
          end
        else if Byte.eqb c backslash then
          match l with c2 :: l2 => lex true (c2 :: c :: acc) l2 | [] => None end
        else lex true (c :: acc) l
      else if Byte.eqb c quote then cons (Text (rev acc)) <$> lex true [] l
      else lex false (c :: acc) l
  end.

Definition tokens (query : bytes) : option (list token) := lex false [] query.

(** ** Queries *)

(** Nothing that ends or extends a literal. *)
Definition plain (s : bytes) : Prop := (quote ∉ s) ∧ (backslash ∉ s).

#[global] Instance plain_dec s : Decision (plain s).
Proof. apply _. Defined.

Lemma lex_literal s acc rest :
  plain s → head rest ≠ Some quote →
  lex true acc (s ++ quote :: rest) = cons (Literal (rev acc ++ s)) <$> lex false [] rest.
Proof.
  revert acc. induction s as [|c s IH]; intros acc [Hq Hb] Hr.
  - cbn [app lex]. rewrite app_nil_r. change (Byte.eqb quote quote) with true. cbv iota. destruct rest as [|c2 l]; [done|].
    destruct (byte_eqb_spec c2 quote) as [->|_]; [done|done].
  - apply not_elem_of_cons in Hq as [Hq1 Hq], Hb as [Hb1 Hb]. cbn [app lex].
    destruct (byte_eqb_spec c quote) as [E|_]; [by rewrite E in Hq1|].
    destruct (byte_eqb_spec c backslash) as [E|_]; [by rewrite E in Hb1|].
    rewrite IH by done. cbn [rev]. by rewrite <- app_assoc.
Qed.

Lemma lex_text t acc rest :
  quote ∉ t → lex false acc (t ++ quote :: rest) = cons (Text (rev acc ++ t)) <$> lex true [] rest.
Proof.
  revert acc. induction t as [|c t IH]; intros acc Hq; cbn [app lex].
  - rewrite app_nil_r. by change (Byte.eqb quote quote) with true.
  - apply not_elem_of_cons in Hq as [Hq1 Hq]. destruct (byte_eqb_spec c quote) as [E|_]; [by rewrite E in Hq1|].
    rewrite IH by done. cbn [rev]. by rewrite <- app_assoc.
Qed.

Lemma lex_end t acc : quote ∉ t → lex false acc t = Some [Text (rev acc ++ t)].
Proof.
  revert acc. induction t as [|c t IH]; intros acc Hq; cbn [lex]; [by rewrite app_nil_r|].
  apply not_elem_of_cons in Hq as [Hq1 Hq]. destruct (byte_eqb_spec c quote) as [E|_]; [by rewrite E in Hq1|].
  rewrite IH by done. cbn [rev]. by rewrite <- app_assoc.
Qed.

(** A query made of texts and quoted values. *)
Fixpoint query (parts : list (bytes * bytes)) (last : bytes) : bytes :=
  match parts with
  | [] => last
  | (t, v) :: ps => t ++ quote :: v ++ quote :: query ps last
  end.

Fixpoint query_tokens (parts : list (bytes * bytes)) (last : bytes) : list token :=
  match parts with
  | [] => [Text last]
  | (t, v) :: ps => Text t :: Literal v :: query_tokens ps last
  end.

Definition parts_ok (parts : list (bytes * bytes)) (last : bytes) : Prop :=
  Forall (λ p, (quote ∉ p.1) ∧ plain p.2) parts ∧ (quote ∉ last) ∧ Forall (λ p, p.1 ≠ []) parts.

Lemma tokens_query parts last : parts_ok parts last → tokens (query parts last) = Some (query_tokens parts last).
Proof.
  intros (Hp & Hl & Hne). unfold tokens. induction Hp as [|[t v] ps [Ht Hv] Hp IH]; cbn [query query_tokens].
  - by rewrite lex_end.
  - apply Forall_cons in Hne as [_ Hne]. specialize (IH Hne). cbn in Ht, Hv. rewrite lex_text, lex_literal; [by rewrite IH|done| |done].
    destruct ps as [|[t2 v2] ps]; cbn [query].
    + destruct last; [done|]. cbn. apply not_elem_of_cons in Hl as [? _]. congruence.
    + apply Forall_cons in Hne as [Hn _], Hp as [[Hq _] _]. cbn in Hn, Hq. destruct t2; [done|]. cbn.
      apply not_elem_of_cons in Hq as [? _]. congruence.
Qed.

Ltac by_decide := refine (proj1 (bool_decide_eq_true _) _); vm_compute; reflexivity.

Ltac parts :=
  split_and!;
    [repeat (apply Forall_cons; split; [split; [by_decide|done]|]); apply Forall_nil_2
    |by_decide
    |repeat (apply Forall_cons; split; [done|]); apply Forall_nil_2].

(** The data base reads the values of the form, and nothing else of them, when they have no
    quotes and no backslashes. *)
Theorem queries_read u p m :
  plain u → plain p → plain m →
  tokens (login_query u p) =
    Some [Text (str "SELECT * from user_pwd where userName="); Literal u; Text (str " and pswd="); Literal p; Text (str ";")] ∧
  tokens (register_query u p m) =
    Some [Text (str "INSERT into user_pwd(userName,pswd,email) VALUES("); Literal u; Text (str ","); Literal p;
          Text (str ","); Literal m; Text (str ");")] ∧
  tokens (check_query u) = Some [Text (str "SELECT * from user_pwd where userName="); Literal u; Text (str ";")].
Proof.
  intros Hu Hp Hm. split_and!.
  - exact (tokens_query [(str "SELECT * from user_pwd where userName=", u); (str " and pswd=", p)] (str ";") ltac:(parts)).
  - exact (tokens_query [(str "INSERT into user_pwd(userName,pswd,email) VALUES(", u); (str ",", p); (str ",", m)] (str ");") ltac:(parts)).
  - exact (tokens_query [(str "SELECT * from user_pwd where userName=", u)] (str ";") ltac:(parts)).
Qed.

Lemma queries_read_witness :
  tokens (check_query (str "Anna")) =
  Some [Text (str "SELECT * from user_pwd where userName="); Literal (str "Anna"); Text (str ";")].
Proof.
  apply (queries_read (str "Anna") (str "x") (str "y")); by_decide.
Defined.

(** With quotes, a value becomes part of the condition: this password fits every user. *)
Lemma login_injection :
  tokens (login_query (str "Anna") (str "' or '1'='1")) =
  Some [Text (str "SELECT * from user_pwd where userName="); Literal (str "Anna"); Text (str " and pswd=");
        Literal []; Text (str " or "); Literal (str "1"); Text (str "="); Literal (str "1"); Text (str ";")].
Proof. vm_compute. reflexivity. Qed.

(** ** The programs *)

(** The configuration can be read. *)
Definition configured (paths : list (list string)) (w : World) (vs : list bytes) : Prop := read_config paths w = (vs, None).

(** What [login] prints, on every branch: the welcome page if and only if the data base
    has a row for exactly the query of the two fields; otherwise the redirection, after the
    text of the exception if there was one. *)
Theorem login_pages w vs :
  configured login_paths w vs →
  let connect := db_connect w (global 4 vs) (global 1 vs) (global 2 vs) (global 3 vs) in
  (∀ what, connect = Some what → login w = Ok (line what ++ redirect_page (global 0 vs), None)) ∧
  (∀ u p, connect = None → getElement (str "user") (formData w) = Some u → getElement (str "pw") (formData w) = Some p →
     login w = Ok (match db_store w (login_query u p) with
                   | inl what => line what ++ redirect_page (global 0 vs)
                   | inr O => redirect_page (global 0 vs)
                   | inr (S _) => welcome_head (global 0 vs) ++ u ++ welcome_tail
                   end, Some (login_query u p))) ∧
  (connect = None → getElement (str "user") (formData w) = None ∨ getElement (str "pw") (formData w) = None →
     login w = Err OutOfRange).
Proof.
  intros Hc connect. unfold login, login_try. unfold configured in Hc. rewrite Hc. cbv beta iota zeta. fold connect. split_and!.
  - intros what ->. done.
  - intros u p -> -> ->. cbn [deref res_bind]. destruct (db_store _ _) as [what|[|n]]; done.
  - intros -> [-> | ->]; [done|]. by destruct (getElement (str "user") _).
Qed.

(** A configuration, and a data base with one user. *)
Definition site (form : list (bytes * bytes)) (up : bool) : World :=
  mkWorld (λ p, inr (str (String.concat "." p))) form
    (λ _ _ _ _, if up then None else Some (str "Can't connect to MySQL server"))
    (λ q, inr (if bool_decide (q = login_query (str "Anna") (str "secret")) then 1%nat else 0%nat)) (λ _, None).

Lemma login_pages_witness :
  login (site [(str "user", str "Anna"); (str "pw", str "secret")] true) =
    Ok (welcome_head (str "webServer.nginxIP") ++ str "Anna" ++ welcome_tail, Some (login_query (str "Anna") (str "secret"))) ∧
  login (site [(str "user", str "Anna")] true) = Err OutOfRange.
Proof.
  split.
  - destruct (login_pages (site [(str "user", str "Anna"); (str "pw", str "secret")] true)
      (map (λ p, str (String.concat "." p)) login_paths) ltac:(vm_compute; reflexivity)) as (_ & H & _).
    rewrite (H (str "Anna") (str "secret")) by (vm_compute; reflexivity). vm_compute. reflexivity.
  - destruct (login_pages (site [(str "user", str "Anna")] true)
      (map (λ p, str (String.concat "." p)) login_paths) ltac:(vm_compute; reflexivity)) as (_ & _ & H).
    apply H; [vm_compute; reflexivity|right; vm_compute; reflexivity].
Defined.

(** When the data base does not answer, the text of the exception comes before the status
    line, so that the response is not HTTP. *)
Lemma error_before_status form :
  ∃ rest, login (site form false) = Ok (str "Can't connect to MySQL server" ++ rest, None).
Proof. eexists. vm_compute. reflexivity. Qed.

(** A registration always redirects to the front page, whether the data base took it or not. *)
Lemma register_redirects w vs u p m :
  configured login_paths w vs →
  db_connect w (global 4 vs) (global 1 vs) (global 2 vs) (global 3 vs) = None →
  getElement (str "user") (formData w) = Some u → getElement (str "pw") (formData w) = Some p →
  getElement (str "mail") (formData w) = Some m →
  register_ w = Ok (match db_execute w (register_query u p m) with Some what => line what | None => [] end ++
                    registered_page (global 0 vs), Some (register_query u p m)).
Proof.
  intros Hc Hd Hu Hp Hm. unfold register_. unfold configured in Hc. rewrite Hc. cbv beta iota zeta. rewrite Hd, Hu, Hp, Hm. cbn [deref res_bind].
  by destruct (db_execute _ _).
Qed.

(** The check says yes exactly when the data base has a row of the name. *)
Lemma check_says w vs u n :
  configured db_paths w vs →
  db_connect w (global 3 vs) (global 0 vs) (global 1 vs) (global 2 vs) = None →
  getElement (str "userName") (formData w) = Some u → db_store w (check_query u) = inr n →
  ∃ head, register_check w = Ok (head ++ (if (0 <? n)%nat then str "yes" else str "no"), Some (check_query u)).
Proof.
  intros Hc Hd Hu Hs. unfold register_check. unfold configured in Hc. rewrite Hc. cbv beta iota zeta. rewrite Hd, Hu. cbn [deref res_bind]. rewrite Hs. cbn [res_bind].
  eexists. by rewrite app_nil_l, !app_assoc.
Qed.

End CgiPrograms.
