(* ===== verification/ProcMon.v ===== *)
(** The process monitor ([monitor/procmon/procmon.cc]) and what it uses of
    [base/thread/ProcessInfo.cpp]: the reading of /proc/<pid>/stat, the history of the CPU
    usage, and the pages of its HTTP server.

    What the kernel says (files and links under /proc, the directory, the clock) is an
    argument; charts are drawn by [Plot], on the gd library, and are a parameter.  The names
    of [muduo] that the file uses are those of this repository. *)

From Stdlib Require Import SpecFloat.
From stdpp Require Import sorting.
From S2P Require Import Prelude Buffer Date Timestamp TimeZone Http CgiRequest Units.
Import Buffer Date Timestamp Http.

Module ProcMon.

Abbreviation atoi := CgiRequest.atoi.
Abbreviation strtol := CgiRequest.strtol.
Abbreviation c_string := TimeZone.c_string.

(** ** [ProcessInfo] *)

(** [string::find(char)], [rfind(char)] and [find(const char* )]; [None] is [npos]. *)
Definition find_char (c : byte) (l : bytes) : option nat :=
  let n := find_byte c l in if (n <? length l)%nat then Some n else None.
Definition rfind_char (c : byte) (l : bytes) : option nat :=
  option_map (λ n, length l - 1 - n)%nat (find_char c (rev l)).
Definition find_str (pat l : bytes) : option nat :=
  let n := search pat l in if prefix pat (drop n l) then Some n else None.

Definition left_paren : byte := Byte.x28.
Definition right_paren : byte := Byte.x29.

(** A piece of [stat]: its offset and length; [None] is the null piece. *)
Definition procname (stat : bytes) : option (nat * nat) :=
  match find_char left_paren stat, rfind_char right_paren stat with
  | Some lp, Some rp => if (lp <? rp)%nat then Some (lp + 1, rp - lp - 1)%nat else None
  | _, _ => None
  end.

Definition as_string (stat : bytes) (piece : option (nat * nat)) : bytes :=
  match piece with Some (o, n) => take n (drop o stat) | None => [] end.

(** [procname.end()+1], where the null piece ends at address 0. *)
Definition after_end (stat : bytes) (piece : option (nat * nat)) : res bytes :=
  match piece with Some (o, n) => Ok (drop (o + n + 1) stat) | None => Err UseAfterFree end.

Definition numThreads (status : bytes) : Z :=
  match find_str (str "Threads:") status with Some pos => atoi (drop (pos + 8) status) | None => 0 end.

Definition pidString (pid : Z) : bytes := ztake 31 (dec pid).

(** [hostname()]: [buf] has 256 bytes. *)
Definition hostname (answer : option bytes) : bytes :=
  match answer with Some name => c_string (ztake 255 name) | None => str "unknownhost" end.

(** [fdDirFilter] and [taskDirFilter], called by [scandir] on every name. *)
Definition is_digit (c : byte) : bool := (48 <=? ub c) && (ub c <=? 57).
Definition starts_digit (name : bytes) : bool := match name with c :: _ => is_digit c | [] => false end.
Definition openedFiles (names : list bytes) : Z := i32 (zlen (filter (λ n, starts_digit n = true) names)).
Definition threads (names : list bytes) : list Z :=
  merge_sort Z.le (map atoi (filter (λ n, starts_digit n = true) names)).

(** [getrlimit]'s answer, or the descriptors in use. *)
Definition maxOpenFiles (rlim_cur : option Z) (names : list bytes) : Z :=
  match rlim_cur with Some n => i32 n | None => openedFiles names end.

(** ** [StatData] *)

Record StatData := mkStat {
  state : byte; ppid : Z; pgrp : Z; session : Z; tty_nr : Z; tpgid : Z; flags : Z;
  minflt : Z; cminflt : Z; majflt : Z; cmajflt : Z;
  utime : Z; stime : Z; cutime : Z; cstime : Z;
  priority : Z; nice : Z; num_threads : Z; itrealvalue : Z; starttime : Z;
  vsizeKb : Z; rssKb : Z; rsslim : Z;
}.

(** [memZero] stores 255 in every byte ([base/Types.h]). *)
Definition memZero : StatData :=
  mkStat Byte.xff (-1) (-1) (-1) (-1) (-1) (-1) (-1) (-1) (-1) (-1) (-1) (-1) (-1) (-1) (-1) (-1) (-1) (-1) (-1) (-1) (-1) (-1).

(** An [istringstream]: what is left, and whether it is good. *)
Record istream := mkStream { rest : bytes; good : bool }.

(** [iss >> c]; [None]: [c] is left as it is. *)
Definition get_char (s : istream) : option byte * istream :=
  if good s then
    match skip_space (rest s) with
    | [] => (None, mkStream [] false)
    | c :: l => (Some c, mkStream l true)
    end
  else (None, s).

Fixpoint span_digits (l : bytes) : bytes * bytes :=
  match l with
  | c :: l' => if is_digit c then let (d, r) := span_digits l' in (c :: d, r) else ([], l)
  | [] => ([], [])
  end.

(** [iss >> n] for an integer type with bounds [lo] and [hi]: a number that does not fit
    becomes the bound, no number becomes 0, and both make the stream fail. *)
Definition get_int (bounds : Z * Z) (s : istream) : option Z * istream :=
  let (lo, hi) := bounds in
  if good s then
    match skip_space (rest s) with
    | [] => (None, mkStream [] false)
    | c :: l =>
        let minus := Byte.eqb c Byte.x2d in
        let (ds, r) := span_digits (if minus || Byte.eqb c Byte.x2b then l else c :: l) in
        match ds with
        | [] => (Some 0, mkStream r false)
        | _ =>
            let v := if minus then - udec_val ds else udec_val ds in
            if v <? lo then (Some lo, mkStream r false)
            else if hi <? v then (Some hi, mkStream r false)
            else (Some v, mkStream r true)
        end
    end
  else (None, s).

(** [iss >> a >> b >> ...]. *)
Fixpoint get_all (bounds : list (Z * Z)) (s : istream) : list (option Z) :=
  match bounds with
  | [] => []
  | b :: bs => let (v, s) := get_int b s in v :: get_all bs s
  end.

Definition int : Z * Z := (- 2 ^ 31, 2 ^ 31 - 1).
Definition long : Z * Z := (- 2 ^ 63, 2 ^ 63 - 1).

(** [d] is the object before.  [vsize] and [rss] are locals without a value: using them when
    nothing was read is undefined. *)
Definition parse (startAtState : bytes) (kbPerPage : Z) (d : StatData) : res StatData :=
  let (c, s) := get_char (mkStream (c_string startAtState) true) in
  match get_all [int; int; int; int; int; int; long; long; long; long; long; long; long; long;
                 long; long; long; long; long; long; long; long] s with
  | [a1; a2; a3; a4; a5; a6; b1; b2; b3; b4; t1; t2; t3; t4; p1; p2; p3; p4; p5; Some vsize; Some rss; lim] =>
      Ok (mkStat (default (state d) c) (default (ppid d) a1) (default (pgrp d) a2) (default (session d) a3)
            (default (tty_nr d) a4) (default (tpgid d) a5) (default (flags d) a6)
            (default (minflt d) b1) (default (cminflt d) b2) (default (majflt d) b3) (default (cmajflt d) b4)
            (default (utime d) t1) (default (stime d) t2) (default (cutime d) t3) (default (cstime d) t4)
            (default (priority d) p1) (default (nice d) p2) (default (num_threads d) p3) (default (itrealvalue d) p4)
            (default (starttime d) p5) (Z.quot vsize 1024) (i64 (rss * kbPerPage)) (default (rsslim d) lim))
  | _ => Err OutOfRange
  end.

(** ** [Procmon] *)

Definition kPeriod_ : Z := 2.

(** [boost::circular_buffer::push_back]. *)
Definition push_back {A} (capacity : nat) (x : A) (l : list A) : list A :=
  if (length l <? capacity)%nat then l ++ [x] else tail l ++ [x].

Definition capacity : nat := Z.to_nat (Z.quot 600 kPeriod_).

(** [%.2f] of a double: the value itself is rounded, ties to even. *)
Definition fixed2 (x : double) : bytes :=
  match x with
  | S754_zero s => (if s then str "-" else []) ++ str "0.00"
  | S754_infinity s => (if s then str "-" else []) ++ str "inf"
  | S754_nan => str "nan"
  | S754_finite s m e =>
      (if s then str "-" else []) ++
      Units.text_of 2 (Doubles.Doubles.round_half_even (Z.pos m * 2 ^ Z.max 0 e * 100) (2 ^ Z.max 0 (- e)))
  end.

(** An entry of the current directory. *)
Inductive DirType := DT_REG | DT_DIR | DT_LNK | DT_OTHER.

Record dirent := mkDirent {
  d_name : bytes;
  d_type : DirType;
  d_lstat : option (Z * Z);    (* size and modification time *)
  d_link : bytes;              (* what readlink stores; nothing when it fails *)
}.

(** What a request sees of the system. *)
Record system := mkSystem {
  proc_file : bytes → bytes;   (* /proc/<pid>/... *)
  proc_link : bytes → bytes;
  directory : list dirent;
  clock : Timestamp;
}.

Record Procmon := mkProcmon {
  ticks_ : Z;
  lastStatData_ : StatData;
  cpu_usage_ : list (Z * Z);
  response_ : Buffer;
}.

Definition set_response (b : Buffer) (p : Procmon) : Procmon :=
  mkProcmon (ticks_ p) (lastStatData_ p) (cpu_usage_ p) b.

Definition getState (state : byte) : bytes :=
  if Byte.eqb state Byte.x52 then str "Running"
  else if Byte.eqb state Byte.x53 then str "Sleeping"
  else if Byte.eqb state Byte.x44 then str "Disk sleep"
  else if Byte.eqb state Byte.x5a then str "Zombie"
  else str "Unknown".

Definition getLong (status key : bytes) : Z :=
  match find_str key status with Some pos => strtol (drop (pos + length key) status) | None => 0 end.

Definition getBootTime (stat : bytes) : Z := getLong stat (str "btime ").

(** [boost::replace_all_copy] of the NUL characters. *)
Definition replace_nul (by_ : bytes) (l : bytes) : bytes :=
  concat (map (λ c, if Byte.eqb c Byte.x00 then by_ else [c]) l).

Definition getDirType (d_type : DirType) : bytes :=
  match d_type with DT_REG => str "-" | DT_DIR => str "d" | DT_LNK => str "l" | DT_OTHER => str "?" end.

(** The format strings are literals; [text] is what [vsnprintf] would print, of which [buf]
    takes 1023 characters. *)
Definition appendResponse (text : bytes) (b : Buffer) : res Buffer := append_str (ztake 1023 text) b.

Definition appendTableRow (name value : bytes) (b : Buffer) : res Buffer :=
  appendResponse (str "<tr><td>" ++ name ++ str "</td><td>" ++ value ++ str "</td></tr>" ++ [Byte.x0a]) b.

(** A value printed with [%s] ends at a NUL. *)
Definition row_long (name : string) (value : Z) : Buffer → res Buffer := appendTableRow (str name) (dec value).
Definition row_text (name : string) (value : bytes) : Buffer → res Buffer := appendTableRow (str name) (c_string value).
Definition row_float (name : string) (value : double) : Buffer → res Buffer := appendTableRow (str name) (fixed2 value).

Definition quoted (s : string) : bytes := [Byte.x22] ++ str s ++ [Byte.x22].
Definition newline : bytes := [Byte.x0a].

(** Statements that write to [response_], one after the other. *)
Fixpoint in_order (fs : list (Buffer → res Buffer)) (b : Buffer) : res Buffer :=
  match fs with
  | [] => Ok b
  | f :: fs => let! b := f b in in_order fs b
  end.

Definition fillRefresh (query : bytes) (b : Buffer) : res Buffer :=
  match find_str (str "refresh=") query with
  | Some p =>
      let seconds := atoi (drop (p + 8) query) in
      if 0 <? seconds
      then appendResponse (str "<meta http-equiv=" ++ quoted "refresh" ++ str " content=" ++
                           [Byte.x22] ++ dec seconds ++ [Byte.x22] ++ str ">" ++ newline) b
      else Ok b
  | None => Ok b
  end.

Definition cpuUsage (hz : Z) (t : Z * Z) : double :=
  SFdiv 53 1024 (double_of_Z (t.1 +i t.2)) (SFmul 53 1024 (double_of_Z hz) (double_of_Z kPeriod_)).

Section Monitor.

(** The constant members, and the library functions. *)
Context (pid_ kClockTicksPerSecond_ kbPerPage_ kBootTime_ : Z) (procname_ hostname_ cmdline_ : bytes).
Context (gmtime_r : Z → tm) (plotCpu : list double → bytes).

Definition new_Procmon (response : Buffer) : Procmon := mkProcmon 0 memZero [] response.

Definition getStartTime (starttime : Z) : Timestamp :=
  i64 (i64 (kMicroSecondsPerSecond * kBootTime_) + Z.quot (i64 (kMicroSecondsPerSecond * starttime)) kClockTicksPerSecond_).

Definition getSeconds (ticks : Z) : double := SFdiv 53 1024 (double_of_Z ticks) (double_of_Z kClockTicksPerSecond_).

(** [tick()], with what [readProcFile] returns. *)
Definition tick (stat : bytes) (p : Procmon) : res Procmon :=
  match stat with
  | [] => Ok p
  | _ =>
      let! text := after_end stat (procname stat) in
      let! statData := parse text kbPerPage_ memZero in
      let cpu_usage :=
        if 0 <? ticks_ p then
          push_back capacity (Z.max 0 (i32 (i64 (utime statData - utime (lastStatData_ p)))),
                              Z.max 0 (i32 (i64 (stime statData - stime (lastStatData_ p))))) (cpu_usage_ p)
        else cpu_usage_ p in
      Ok (mkProcmon (ticks_ p +i 1) statData cpu_usage (response_ p))
  end.

Definition overview_links : list (Buffer → res Buffer) :=
  [append_str (str "<p>Refresh <a href=" ++ quoted "?refresh=1" ++ str ">1s</a> ");
   append_str (str "<a href=" ++ quoted "?refresh=2" ++ str ">2s</a> ");
   append_str (str "<a href=" ++ quoted "?refresh=5" ++ str ">5s</a> ");
   append_str (str "<a href=" ++ quoted "?refresh=15" ++ str ">15s</a> ");
   append_str (str "<a href=" ++ quoted "?refresh=60" ++ str ">60s</a>" ++ newline);
   append_str (str "<p><a href=" ++ quoted "/cmdline" ++ str ">Command line</a>" ++ newline);
   append_str (str "<a href=" ++ quoted "/environ" ++ str ">Environment variables</a>" ++ newline);
   append_str (str "<a href=" ++ quoted "/threads" ++ str ">Threads</a>" ++ newline)].

Definition overview_rows (now : Timestamp) (s : system) (pid : Z) (d : StatData) : list (Buffer → res Buffer) :=
  let started := getStartTime (starttime d) in
  [row_long "PID" pid;
   row_text "Started at" (toFormattedString gmtime_r false started ++ str " (UTC)");
   row_float "Uptime (s)" (timeDifference now started);
   row_text "Executable" (proc_link s (str "exe"));
   row_text "Current dir" (proc_link s (str "cwd"));
   row_text "State" (getState (state d));
   row_float "User time (s)" (getSeconds (utime d));
   row_float "System time (s)" (getSeconds (stime d));
   row_long "VmSize (KiB)" (vsizeKb d);
   row_long "VmRSS (KiB)" (rssKb d);
   row_long "Threads" (num_threads d);
   row_text "CPU usage" (str "<img src=" ++ quoted "/cpu.png" ++ str " height=" ++ quoted "100" ++ str " witdh=" ++ quoted "640" ++ str ">");
   row_long "Priority" (priority d);
   row_long "Nice" (nice d);
   row_long "Minor page faults" (minflt d);
   row_long "Major page faults" (majflt d)].

Definition fillOverview (query : bytes) (s : system) (b : Buffer) : res Buffer :=
  let b := retrieveAll b in
  let now := clock s in
  let! b := appendResponse (str "<html><head><title>" ++ c_string procname_ ++ str " on " ++ c_string hostname_ ++ str "</title>" ++ newline) b in
  let! b := fillRefresh query b in
  let! b := appendResponse (str "</head><body>" ++ newline) b in
  let stat := proc_file s (str "stat") in
  match stat with
  | [] => appendResponse (str "<h1>PID " ++ dec pid_ ++ str " doesn't exist.</h1></body></html>") b
  | _ =>
      let pid := atoi stat in
      assert! pid =? pid_ in
      let procname := procname stat in
      let! b := appendResponse (str "<h1>" ++ c_string (as_string stat procname) ++ str " on " ++ c_string hostname_ ++ str "</h1>" ++ newline) b in
      let! b := in_order overview_links b in
      let! b := appendResponse (str "<p>Page generated at " ++ toFormattedString gmtime_r true now ++ str " (UTC)") b in
      let! b := append_str (str "<p><table>") b in
      let! text := after_end stat procname in
      let! statData := parse text kbPerPage_ memZero in
      let! b := in_order (overview_rows now s pid statData) b in
      let! b := append_str (str "</table>") b in
      append_str (str "</body></html>") b
  end.

(** [scandir] leaves out the names that start with a dot. *)
Definition list_entry (d : dirent) (b : Buffer) : res Buffer :=
  match d_lstat d with
  | Some (size, mtime) =>
      let! b := appendResponse (getDirType (d_type d) ++ str " " ++ pad_left Byte.x20 9 (dec size) ++ str " " ++
                  toFormattedString gmtime_r false (i64 (mtime * kMicroSecondsPerSecond)) ++ str " " ++ c_string (d_name d)) b in
      let! b := (match d_type d with
                 | DT_LNK =>
                     let link := ztake 1023 (d_link d) in
                     match link with [] => Ok b | _ => appendResponse (str " -> " ++ c_string link) b end
                 | _ => Ok b
                 end) in
      appendResponse newline b
  | None => Ok b
  end.

Definition dirFilter (d : dirent) : bool := negb (bool_decide (head (d_name d) = Some Byte.x2e)).

Definition listFiles (s : system) (b : Buffer) : res Buffer :=
  in_order (map list_entry (filter (λ d, dirFilter d = true) (directory s))) b.

Definition listThreads (b : Buffer) : Buffer := retrieveAll b.

Definition getEnviron (s : system) : bytes := replace_nul newline (proc_file s (str "environ")).

(** The handler; the comparisons with [path()] are in the order of the code. *)
Definition onRequest (s : system) (req : HttpRequest) (resp : HttpResponse) (p : Procmon) : res (HttpResponse * Procmon) :=
  let resp := setStatusCode k200Ok resp in
  let resp := setStatusMessage (str "OK") resp in
  let resp := setContentType (str "text/plain") resp in
  let resp := resp_addHeader (str "Server") (str "Muduo-Procmon") resp in
  let path := path_ req in
  let file (name : bytes) := Ok (setBody (proc_file s name) resp, p) in
  if bool_decide (path = str "/") then
    let resp := setContentType (str "text/html") resp in
    let! b := fillOverview (query_ req) s (response_ p) in
    let! (body, b) := retrieveAllAsString b in
    Ok (setBody body resp, set_response b p)
  else if bool_decide (path = str "/cmdline") then Ok (setBody cmdline_ resp, p)
  else if bool_decide (path = str "/cpu.png") then
    let png := plotCpu (map (cpuUsage kClockTicksPerSecond_) (cpu_usage_ p)) in
    Ok (setBody png (setContentType (str "image/png") resp), p)
  else if bool_decide (path = str "/environ") then Ok (setBody (getEnviron s) resp, p)
  else if bool_decide (path = str "/io") then file (str "io")
  else if bool_decide (path = str "/limits") then file (str "limits")
  else if bool_decide (path = str "/maps") then file (str "maps")
  else if bool_decide (path = str "/smaps") then file (str "smaps")
  else if bool_decide (path = str "/status") then file (str "status")
  else if bool_decide (path = str "/files") then
    let! b := listFiles s (response_ p) in
    let! (body, b) := retrieveAllAsString b in
    Ok (setBody body resp, set_response b p)
  else if bool_decide (path = str "/threads") then
    let b := listThreads (response_ p) in
    let! (body, b) := retrieveAllAsString b in
    Ok (setBody body resp, set_response b p)
  else
    Ok (setCloseConnection true (setStatusMessage (str "Not Found") (setStatusCode k404NotFound resp)), p).

End Monitor.

(** ** Texts of numbers *)

Lemma udec_is_digit fuel n : 0 ≤ n → Forall (λ c, is_digit c = true) (udec fuel n).
Proof.
  revert n. induction fuel as [|fuel IH]; intros n Hn; [constructor|]. cbn [udec]. apply Forall_app. split.
  - case_match; [constructor|]. apply IH. apply Z.div_pos; lia.
  - apply Forall_singleton. unfold is_digit. rewrite ub_byte_of_Z. pose proof (Z.mod_pos_bound n 10 ltac:(lia)).
    rewrite Z.mod_small by lia. apply andb_true_iff. split; apply Z.leb_le; lia.
Qed.

Lemma span_digits_app ds r :
  Forall (λ c, is_digit c = true) ds → starts_digit r = false → span_digits (ds ++ r) = (ds, r).
Proof.
  intros Hd Hr. induction Hd as [|c ds Hc _ IH]; cbn.
  - destruct r as [|c r]; [done|]. cbn in Hr. cbn. by rewrite Hr.
  - by rewrite Hc, IH.
Qed.

Lemma digit_not_space c : is_digit c = true → isspace c = false ∧ c ≠ Byte.x2d ∧ c ≠ Byte.x2b.
Proof.
  unfold is_digit, isspace. intros [H1%Z.leb_le H2%Z.leb_le]%andb_true_iff. split_and!; [|intros ->; done..].
  apply orb_false_iff. split; [apply Z.eqb_neq; lia|]. apply andb_false_iff. right. apply Z.leb_gt. lia.
Qed.

Lemma udec_cons fuel n : ∃ c l, udec (S fuel) n = c :: l.
Proof. cbn [udec]. destruct (_ ++ _) as [|c l] eqn:E; [by apply app_eq_nil in E as [_ ?]|by exists c, l]. Qed.

(** The value at the head of a text. *)
Lemma get_int_dec lo hi v r :
  - 10 ^ 20 < v < 10 ^ 20 → lo ≤ v → starts_digit r = false →
  get_int (lo, hi) (mkStream (Byte.x20 :: dec v ++ r) true) =
  if hi <? v then (Some hi, mkStream r false) else (Some v, mkStream r true).
Proof.
  intros Hv Hlo Hr. cbn [get_int good rest]. change (skip_space (Byte.x20 :: dec v ++ r)) with (skip_space (dec v ++ r)).
  unfold dec. destruct (Z.ltb_spec v 0) as [Hneg|Hpos].
  - cbn [app str]. change (str "-" ++ udec 20 (- v)) with (Byte.x2d :: udec 20 (- v)). cbn [app skip_space].
    change (isspace Byte.x2d) with false. cbv iota. change (Byte.eqb Byte.x2d Byte.x2d) with true. cbn [orb].
    rewrite span_digits_app by (done || apply udec_is_digit; lia). rewrite udec_val_udec by lia.
    destruct (udec_cons 19 (- v)) as (c & l & ->). rewrite Z.opp_involutive.
    by destruct (Z.ltb_spec v lo); [lia|].
  - pose proof (udec_is_digit 20 v Hpos) as Hd. pose proof (udec_val_udec 20 v ltac:(lia)) as Hval.
    destruct (udec_cons 19 v) as (c & l & E). rewrite E in *. inversion_clear Hd as [|?? Hc Hl].
    destruct (digit_not_space c Hc) as (Hs & H1 & H2). cbn [app skip_space]. rewrite Hs.
    destruct (byte_eqb_spec c Byte.x2d); [done|]. destruct (byte_eqb_spec c Byte.x2b); [done|]. cbn [orb].
    change (c :: l ++ r) with ((c :: l) ++ r). rewrite span_digits_app by (done || by constructor). rewrite Hval.
    by destruct (Z.ltb_spec v lo); [lia|].
Qed.

Definition in_bounds (b : Z * Z) (v : Z) : Prop := b.1 ≤ v ≤ b.2 ∧ - 10 ^ 20 < v < 10 ^ 20.

Definition fields (vs : list Z) : bytes := concat (map (λ v, Byte.x20 :: dec v) vs).

(** Fields separated by blanks; the last may be too large. *)
Lemma get_all_fields bs vs lo hi lim r :
  Forall2 in_bounds bs vs → lo ≤ lim → - 10 ^ 20 < lim < 10 ^ 20 → starts_digit r = false →
  get_all (bs ++ [(lo, hi)]) (mkStream (fields (vs ++ [lim]) ++ r) true) = map Some (vs ++ [Z.min hi lim]).
Proof.
  intros Hv Hlo Hlim Hr. induction Hv as [|[lo' hi'] v bs vs [Hb Hv] _ IH]; unfold fields; cbn [map concat app get_all].
  - rewrite app_nil_r. change ((Byte.x20 :: dec lim) ++ r) with (Byte.x20 :: dec lim ++ r). rewrite get_int_dec by done.
    destruct (Z.ltb_spec hi lim); by repeat f_equal; lia.
  - rewrite <- app_assoc. change ((Byte.x20 :: dec v) ++ ?x) with (Byte.x20 :: dec v ++ x). cbn [fst snd] in Hb.
    rewrite get_int_dec; [|lia|lia|by destruct vs].
    destruct (Z.ltb_spec hi' v); [lia|]. f_equal. apply IH.
Qed.

(** ** /proc/<pid>/stat *)

Lemma find_char_first c l k : c ∉ l → find_char c (l ++ c :: k) = Some (length l).
Proof.
  intros Hc. unfold find_char. rewrite find_byte_notin, length_app by done.
  by rewrite (proj2 (Nat.ltb_lt _ _)) by (cbn; lia).
Qed.

Lemma rfind_char_last c l k : c ∉ k → rfind_char c (l ++ c :: k) = Some (length l).
Proof.
  intros Hc. unfold rfind_char. rewrite rev_app_distr. cbn [rev]. rewrite <- app_assoc. cbn [app].
  rewrite find_char_first by (intros H; apply list_elem_of_In, in_rev, list_elem_of_In in H; done).
  cbn. rewrite length_app, length_rev. cbn. f_equal. lia.
Qed.

(** The name is what stands between the first and the last parenthesis. *)
Lemma procname_line pre comm post :
  left_paren ∉ pre → right_paren ∉ post →
  let line := pre ++ left_paren :: comm ++ right_paren :: post in
  procname line = Some (length pre + 1, length comm)%nat ∧ as_string line (procname line) = comm ∧
  after_end line (procname line) = Ok post.
Proof.
  intros H1 H2 line. assert (line = (pre ++ left_paren :: comm) ++ right_paren :: post) as E by (unfold line; by rewrite <- app_assoc).
  assert (procname line = Some (length pre + 1, length comm)%nat) as Hp.
  { unfold procname. assert (rfind_char right_paren line = Some (length (pre ++ left_paren :: comm))) as ->
      by (rewrite E; by apply rfind_char_last).
    unfold line. rewrite find_char_first by done.
    rewrite (proj2 (Nat.ltb_lt _ _)) by (rewrite length_app; cbn; lia). rewrite length_app. cbn [length]. repeat f_equal; lia. }
  rewrite Hp. split_and!; [done| |]; cbn [as_string after_end].
  - unfold line. rewrite drop_app_ge by lia. replace (length pre + 1 - length pre)%nat with 1%nat by lia.
    change (drop 1 (left_paren :: comm ++ right_paren :: post)) with (comm ++ right_paren :: post). apply take_app_length.
  - f_equal. rewrite E, drop_app_ge by (rewrite length_app; cbn; lia). rewrite length_app. cbn [length].
    by replace (length pre + 1 + length comm + 1 - (length pre + S (length comm)))%nat with 1%nat by lia.
Qed.

Definition no_nul (l : bytes) : Prop := Byte.x00 ∉ l.

Lemma c_string_id l : no_nul l → c_string l = l.
Proof.
  induction l as [|c l IH]; intros H; [done|]. apply not_elem_of_cons in H as [Hne H]. cbn.
  destruct (byte_eqb_spec c Byte.x00); [congruence|]. by rewrite IH.
Qed.

Lemma dec_not c v : is_digit c = false → c ≠ Byte.x2d → c ∉ dec v.
Proof.
  intros Hc Hm Hin. unfold dec in Hin. destruct (Z.ltb_spec v 0).
  - apply elem_of_app in Hin as [Hin|Hin]; [by apply list_elem_of_singleton in Hin|].
    pose proof (udec_is_digit 20 (- v) ltac:(lia)) as Hd. rewrite Forall_forall in Hd. apply Hd in Hin. congruence.
  - pose proof (udec_is_digit 20 v ltac:(lia)) as Hd. rewrite Forall_forall in Hd. apply Hd in Hin. congruence.
Qed.

Lemma fields_not c vs : is_digit c = false → c ≠ Byte.x2d → c ≠ Byte.x20 → c ∉ fields vs.
Proof.
  intros H1 H2 H3. unfold fields. induction vs as [|v vs IH]; cbn; [apply not_elem_of_nil|].
  intros [E|[Hin|Hin]%elem_of_app]%elem_of_cons; [done| |done]. by apply (dec_not c v).
Qed.

(** What the kernel writes: the id, the name, the state, and the fields. *)
Definition stat_line (pid : Z) (comm : bytes) (c : byte) (vs : list Z) (after : bytes) : bytes :=
  dec pid ++ str " (" ++ comm ++ str ") " ++ c :: fields vs ++ after.

(** What [parse] makes of the fields. *)
Definition stat_of (c : byte) (kbPerPage : Z) (vs : list Z) : option StatData :=
  match vs with
  | [a1; a2; a3; a4; a5; a6; b1; b2; b3; b4; t1; t2; t3; t4; p1; p2; p3; p4; p5; vsize; rss; lim] =>
      Some (mkStat c a1 a2 a3 a4 a5 a6 b1 b2 b3 b4 t1 t2 t3 t4 p1 p2 p3 p4 p5 (Z.quot vsize 1024) (i64 (rss * kbPerPage))
              (Z.min (2 ^ 63 - 1) lim))
  | _ => None
  end.

Definition stat_bounds : list (Z * Z) :=
  [int; int; int; int; int; int; long; long; long; long; long; long; long; long; long; long; long; long; long; long; long].

(** C29. Reading the process's stat line gives back what the kernel wrote, when every
    number but the last fits the type it is read as ([stat_bounds]: [int] for the first
    six, [long] for the others; flags of 2^31 and more end the reading,
    [big_flags_undefined]) and the text after the fields does not go on with a digit and
    has neither NUL nor a closing parenthesis. The process's name may have blanks and
    parentheses. Read are the name, the state and every field; only the last one, which
    may exceed a [long], is cut to its maximum. *)
Theorem stat_roundtrip pid comm c vs lim after kbPerPage d :
  isspace c = false → c ≠ Byte.x00 → c ≠ right_paren →
  Forall2 in_bounds stat_bounds vs → 0 ≤ lim < 2 ^ 64 →
  no_nul after → right_paren ∉ after → starts_digit after = false →
  let line := stat_line pid comm c (vs ++ [lim]) after in
  as_string line (procname line) = comm ∧
  ∃ text st, after_end line (procname line) = Ok text ∧ stat_of c kbPerPage (vs ++ [lim]) = Some st ∧
    parse text kbPerPage d = Ok st.
Proof.
  intros Hc Hc0 Hcp Hv Hlim Hn Hr Hd line.
  assert (right_paren ∉ fields (vs ++ [lim])) as Hf by (by apply fields_not).
  set (post := Byte.x20 :: c :: fields (vs ++ [lim]) ++ after).
  assert (line = (dec pid ++ [Byte.x20]) ++ left_paren :: comm ++ right_paren :: post) as E.
  { unfold line, stat_line, post. rewrite <- !app_assoc. done. }
  destruct (procname_line (dec pid ++ [Byte.x20]) comm post) as (Hp & H1 & H2).
  - intros [H|H]%elem_of_app; [by apply (dec_not left_paren pid) in H|by apply list_elem_of_singleton in H].
  - unfold post. intros [F|[F|[F|F]%elem_of_app]%elem_of_cons]%elem_of_cons; done.
  - rewrite <- E in *. split; [done|]. exists post. rewrite H2. unfold parse.
    assert (no_nul post) as Hpn.
    { unfold post. intros [F|[F|[F|F]%elem_of_app]%elem_of_cons]%elem_of_cons; [done..| |done]. by apply (fields_not Byte.x00 (vs ++ [lim])) in F. }
    rewrite c_string_id by done. unfold post, get_char. cbn [good rest]. change (skip_space (Byte.x20 :: ?l)) with (skip_space l).
    cbn [skip_space]. rewrite Hc. change [int; int; int; int; int; int; long; long; long; long; long; long; long; long;
                 long; long; long; long; long; long; long; long] with (stat_bounds ++ [long]).
    unfold long at 1. rewrite get_all_fields by (done || lia).
    unfold stat_bounds in Hv. repeat (apply Forall2_cons_inv_l in Hv as (? & ? & _ & Hv & ->)). apply Forall2_nil_inv_l in Hv as ->.
    cbn [map app stat_of default]. eexists. split_and!; done.
Qed.

(** ** The pages *)

(** A well-formed buffer, written up to [n] at most. *)
Definition upto (n : Z) (b : Buffer) : Prop := wf b ∧ writerIndex_ b ≤ n.

(** Producers of at most [n] bytes. *)
Definition writes (n : Z) (f : Buffer → res Buffer) : Prop :=
  0 ≤ n ∧ ∀ m b, upto m b → m + n ≤ max_size → wp (f b) (upto (m + n)).

Lemma writes_str n s : zlen s ≤ n → n < 2 ^ 31 → writes n (append_str s).
Proof.
  intros Hs Hn. split; [lia|]. intros m b [Hb Hm] Hmax.
  eapply wp_mono; [apply append_str_spec; [done|unfold fits; lia|lia]|]. intros b' (Hb' & _ & Hw). split; [done|lia].
Qed.

Lemma writes_response text : writes 1023 (appendResponse text).
Proof. apply writes_str; [unfold ztake; rewrite length_take; lia|lia]. Qed.

Lemma writes_nil n : 0 ≤ n → writes n Ok.
Proof. intros Hn. split; [done|]. intros m b [Hb Hm] _. split; [done|lia]. Qed.

Lemma writes_bind n m f g : writes n f → writes m g → writes (n + m) (λ b, let! b' := f b in g b').
Proof.
  intros [Hn Hf] [Hm Hg]. split; [lia|]. intros k b Hb Hmax. eapply wp_bind; [apply (Hf k); [done|lia]|].
  intros b' Hb'. rewrite Z.add_assoc. apply Hg; [done|lia].
Qed.

Lemma writes_weaken n m f : writes n f → n ≤ m → writes m f.
Proof.
  intros [Hn Hf] Hm. split; [lia|]. intros k b Hb Hmax. eapply wp_mono; [apply (Hf k b Hb); lia|]. intros b' [? ?]. split; [done|lia].
Qed.

Lemma writes_in_order n fs : 0 ≤ n → Forall (writes n) fs → writes (n * zlen fs) (in_order fs).
Proof.
  intros Hn. induction 1 as [|f fs Hf _ IH]; cbn [in_order].
  - apply writes_nil. lia.
  - replace (n * zlen (f :: fs)) with (n + n * zlen fs) by (cbn [length]; lia). by apply writes_bind.
Qed.

Lemma writes_refresh query : writes 1023 (fillRefresh query).
Proof.
  unfold fillRefresh. destruct (find_str _ query) as [p|]; [|by apply writes_nil]. case_match; [apply writes_response|by apply writes_nil].
Qed.

(** The buffer between two requests. *)
Definition idle (b : Buffer) : Prop := wf b ∧ content b = [] ∧ writerIndex_ b = kCheapPrepend.

Lemma idle_retrieveAll b : wf b → idle (retrieveAll b).
Proof. intros Hb. split_and!; [by apply wf_retrieveAll|apply content_retrieveAll|done]. Qed.

Lemma take_all_ok b : wf b → wp (retrieveAllAsString b) (λ '(s, b'), s = content b ∧ idle b').
Proof.
  intros Hb. unfold retrieveAllAsString, retrieveAsString. rewrite Z.leb_refl.
  unfold retrieve. rewrite Z.leb_refl, Z.ltb_irrefl. cbn [wp res_bind]. split; [|by apply idle_retrieveAll].
  rewrite peek_bytes_content; [|done|pose proof (content_ge0 b Hb); lia]. rewrite readableBytes_content by done. by apply ztake_all.
Qed.

Section Pages.
Context (pid_ kClockTicksPerSecond_ kbPerPage_ kBootTime_ : Z) (procname_ hostname_ cmdline_ : bytes).
Context (gmtime_r : Z → tm) (plotCpu : list double → bytes).

Abbreviation fillOverview := (fillOverview pid_ kClockTicksPerSecond_ kbPerPage_ kBootTime_ procname_ hostname_ gmtime_r).
Abbreviation listFiles := (listFiles gmtime_r).
Abbreviation onRequest := (onRequest pid_ kClockTicksPerSecond_ kbPerPage_ kBootTime_ procname_ hostname_ cmdline_ gmtime_r plotCpu).

(** The stat file is gone, or a line of the monitored process that can be read. *)
Definition stat_ok (stat : bytes) : Prop :=
  stat = [] ∨ atoi stat = pid_ ∧ ∃ text d, after_end stat (procname stat) = Ok text ∧ parse text kbPerPage_ memZero = Ok d.

Lemma overview_ok query s b :
  wf b → stat_ok (proc_file s (str "stat")) → wp (fillOverview query s b) wf.
Proof.
  intros Hb Hs. assert (upto 8 (retrieveAll b)) as H0 by (split; [by apply wf_retrieveAll|done]).
  assert (∀ n m f b (k : Buffer → res Buffer) , writes n f → upto m b → m + n ≤ 2 ^ 40 →
    (∀ b, upto (m + n) b → wp (k b) wf) → wp (let! b := f b in k b) wf) as Step.
  { intros n m f b0 k [_ Hf] Hb0 Hm Hk. eapply wp_bind; [apply (Hf m b0 Hb0); unfold max_size; lia|]. done. }
  unfold ProcMon.fillOverview. cbv zeta.
  eapply Step; [apply writes_response|exact H0|lia|]. intros b1 H1.
  eapply Step; [apply writes_refresh|exact H1|lia|]. intros b2 H2.
  eapply Step; [apply writes_response|exact H2|lia|]. intros b3 H3.
  assert (∀ n m f b, writes n f → upto m b → m + n ≤ 2 ^ 40 → wp (f b) wf) as Last.
  { intros n m f b0 [_ Hf] Hb0 Hm. eapply wp_mono; [apply (Hf m b0 Hb0); unfold max_size; lia|]. by intros ? [? _]. }
  destruct (proc_file s (str "stat")) as [|x stat0] eqn:E; [by eapply Last; [apply writes_response|exact H3|lia]|].
  destruct Hs as [?|(Hpid & text & d & Ht & Hd)]; [done|]. rewrite Hpid, Z.eqb_refl.
  eapply Step; [apply writes_response|exact H3|lia|]. intros b4 H4.
  eapply (Step (1023 * 8)); [apply (writes_in_order 1023 overview_links); [lia|]|exact H4|lia|].
  { unfold overview_links. repeat constructor; try lia; intros; by apply writes_str. }
  intros b5 H5. eapply Step; [apply writes_response|exact H5|lia|]. intros b6 H6.
  eapply (Step 100); [by apply writes_str|exact H6|lia|]. intros b7 H7. rewrite Ht. cbn [res_bind]. rewrite Hd. cbn [res_bind].
  eapply (Step (1023 * 16)); [apply (writes_in_order 1023 (overview_rows kClockTicksPerSecond_ kBootTime_ gmtime_r (clock s) s pid_ d)); [lia|]|exact H7|lia|].
  { unfold overview_rows. repeat (apply Forall_cons; split; [apply writes_response|]). by apply Forall_nil. }
  intros b8 H8. eapply (Step 100); [by apply writes_str|exact H8|lia|]. intros b9 H9.
  eapply (Last 100); [by apply writes_str|exact H9|lia].
Qed.

Lemma entry_writes d : writes 3069 (list_entry gmtime_r d).
Proof.
  unfold list_entry. destruct (d_lstat d) as [[size mtime]|]; [|by apply writes_nil].
  change 3069 with (1023 + (1023 + 1023)). apply writes_bind; [apply writes_response|].
  apply writes_bind; [|apply writes_response]. destruct (d_type d); try by apply writes_nil.
  destruct (ztake 1023 (d_link d)); [by apply writes_nil|apply writes_response].
Qed.

Lemma files_ok s b : idle b → zlen (directory s) < 2 ^ 31 → wp (listFiles s b) wf.
Proof.
  intros (Hb & _ & Hw) Hn. unfold ProcMon.listFiles.
  destruct (writes_in_order 3069 (map (list_entry gmtime_r) (filter (λ d, dirFilter d = true) (directory s)))) as [_ Hf]; [lia| |].
  { apply Forall_map, Forall_true. intros d. apply entry_writes. }
  pose proof (length_filter (λ d, dirFilter d = true) (directory s)) as Hle. rewrite length_map in Hf.
  eapply wp_mono; [apply (Hf kCheapPrepend b); [split; [done|lia]|unfold max_size, kCheapPrepend; lia]|]. by intros ? [? _].
Qed.

(** The paths that are answered, with what the body is where it is not built in [response_]. *)
Definition known_paths : list bytes :=
  map str ["/"; "/cmdline"; "/cpu.png"; "/environ"; "/io"; "/limits"; "/maps"; "/smaps"; "/status"; "/files"; "/threads"]%string.

(** The monitor answers every request without a fault, the process alive or gone: 200
    for the eleven known paths, 404 and a close for every other; no answer shows anything of
    an earlier one, since [response_] is empty between requests; and the history of the CPU
    usage is not touched. *)
Theorem procmon_answers s req resp p :
  idle (response_ p) → zlen (directory s) < 2 ^ 31 → stat_ok (proc_file s (str "stat")) →
  wp (onRequest s req resp p) (λ '(r, p'),
    idle (response_ p') ∧ ticks_ p' = ticks_ p ∧ lastStatData_ p' = lastStatData_ p ∧ cpu_usage_ p' = cpu_usage_ p ∧
    statusCode_ r = (if decide (path_ req ∈ known_paths) then k200Ok else k404NotFound) ∧
    (path_ req ∉ known_paths → closeConnection_ r = true) ∧
    (path_ req = str "/status" → body_ r = proc_file s (str "status"))).
Proof.
  intros Hi Hdir Hstat. destruct Hi as (Hb & Hc & Hw). unfold ProcMon.onRequest. cbv zeta.
  destruct (decide (path_ req ∈ known_paths)) as [Hk|Hk].
  - pose proof Hk as Hin. unfold known_paths in Hk. cbn [map] in Hk.
    repeat (apply elem_of_cons in Hk as [Hk|Hk]; [rewrite Hk in Hin |- *|]); [..|by apply elem_of_nil in Hk];
      rewrite ?bool_decide_true, ?bool_decide_false by done; cbn [wp]; try by (split_and!; try done; by split_and!).
    + eapply wp_bind; [by apply overview_ok|]. intros b' Hb'. eapply wp_bind; [by apply take_all_ok|].
      intros [body b2] [_ Hb2]. cbn [wp]. by split_and!.
    + eapply wp_bind; [by apply files_ok|]. intros b' Hb'. eapply wp_bind; [by apply take_all_ok|].
      intros [body b2] [_ Hb2]. cbn [wp]. by split_and!.
    + eapply wp_bind; [by apply take_all_ok, wf_retrieveAll|]. intros [body b2] [_ Hb2]. cbn [wp]. by split_and!.
  - assert (∀ x, x ∈ known_paths → bool_decide (path_ req = x) = false) as Hno.
    { intros x Hx. apply bool_decide_false. by intros <-. }
    rewrite !Hno by (unfold known_paths; cbn [map]; set_solver). cbn [wp]. split_and!; try done.
    intros E. destruct Hk. change (path_ req ∈ known_paths). rewrite E. unfold known_paths. cbn [map]. set_solver.
Qed.
End Pages.

(** ** The history of the CPU usage *)

Definition lastn {A} (n : nat) (l : list A) : list A := drop (length l - n) l.

Lemma push_lastn {A} n (x : A) l : (0 < n)%nat → push_back n x (lastn n l) = lastn n (l ++ [x]).
Proof.
  intros Hn. unfold push_back, lastn. rewrite length_drop, length_app. cbn [length].
  destruct (Nat.ltb_spec (length l - (length l - n)) n).
  - replace (length l - n)%nat with 0%nat by lia. replace (length l + 1 - n)%nat with 0%nat by lia. done.
  - rewrite drop_app_le by lia. f_equal. replace (length l + 1 - n)%nat with (S (length l - n)) by lia.
    rewrite <- (drop_drop l (length l - n) 1) || rewrite <- Nat.add_1_r, <- drop_drop. by destruct (drop (length l - n) l).
Qed.

Definition used_ticks (d d' : StatData) : Z * Z :=
  (Z.max 0 (i32 (i64 (utime d' - utime d))), Z.max 0 (i32 (i64 (stime d' - stime d)))).

Fixpoint diffs (d : StatData) (ds : list StatData) : list (Z * Z) :=
  match ds with [] => [] | d' :: ds => used_ticks d d' :: diffs d' ds end.

Lemma diffs_snoc d ds x : diffs d (ds ++ [x]) = diffs d ds ++ [used_ticks (List.last ds d) x].
Proof.
  revert d. induction ds as [|d' ds IH]; intros d; [done|]. cbn [app diffs]. rewrite IH. cbn [app]. do 3 f_equal.
  destruct ds; [done|]. f_equal. cbn. clear. revert d d' s. induction ds as [|y ds IH]; intros; [done|]. apply IH.
Qed.

(** What a reading of the stat file says. *)
Definition reads (kbPerPage : Z) (stat : bytes) (d : StatData) : Prop :=
  stat ≠ [] ∧ ∃ text, after_end stat (procname stat) = Ok text ∧ parse text kbPerPage memZero = Ok d.

Definition tick_all (kbPerPage : Z) (stats : list bytes) (p : Procmon) : res Procmon :=
  foldl (λ r stat, let! p := r in tick kbPerPage stat p) (Ok p) stats.

(** The chart shows the last ten minutes: the differences of the last readings, at most
    300 of them, in order. *)
Theorem cpu_history kbPerPage stat d stats ds b :
  reads kbPerPage stat d → Forall2 (reads kbPerPage) stats ds → zlen ds < 2 ^ 31 - 2 →
  ∃ p, tick_all kbPerPage (stat :: stats) (new_Procmon b) = Ok p ∧ ticks_ p = 1 + zlen ds ∧
    lastStatData_ p = List.last ds d ∧ cpu_usage_ p = lastn 300 (diffs d ds).
Proof.
  intros Hd Hds. assert (∀ stat d p, reads kbPerPage stat d → tick kbPerPage stat p = Ok (mkProcmon (ticks_ p +i 1) d
      (if 0 <? ticks_ p then push_back capacity (used_ticks (lastStatData_ p) d) (cpu_usage_ p) else cpu_usage_ p) (response_ p))) as Tick.
  { clear. intros stat d p (Hne & text & Ht & Hp). unfold tick. destruct stat; [done|]. by rewrite Ht; cbn [res_bind]; rewrite Hp. }
  revert ds Hds. induction stats as [|s stats IH] using rev_ind; intros ds Hds Hn.
  - apply Forall2_nil_inv_l in Hds as ->. unfold tick_all. cbn [foldl res_bind]. rewrite (Tick _ d) by done. by eexists.
  - apply Forall2_app_inv_l in Hds as (ds0 & dl & H0 & (x & ? & Hx & ->%Forall2_nil_inv_l & ->)%Forall2_cons_inv_l & ->).
    rewrite length_app in Hn. cbn in Hn. destruct (IH ds0 H0 ltac:(lia)) as (p & Hp & Ht & Hl & Hc).
    unfold tick_all in *. rewrite app_comm_cons, foldl_app, Hp. cbn [foldl res_bind]. rewrite (Tick _ x) by done. rewrite Ht, Hl, Hc.
    destruct (Z.ltb_spec 0 (1 + zlen ds0)); [|lia]. eexists. split; [done|]. cbn [ticks_ lastStatData_ cpu_usage_].
    rewrite i32_small, length_app by lia. cbn [length]. split_and!; [lia| |].
    + by rewrite last_last.
    + rewrite diffs_snoc. by apply push_lastn; vm_compute; lia.
Qed.

(** ** Examples *)

Definition demo_fields : list Z :=
  [3718; 3770; 3718; 34818; 3770; 4202496; 214; 0; 0; 0; 7; 3; 0; 0; 20; 0; 1; 0; 298215; 5750784; 81].

Definition demo_stat : bytes := stat_line 3770 (str "a) (cat") Byte.x52 (demo_fields ++ [2 ^ 64 - 1]) (str " 4194304 4242836" ++ newline).

Lemma demo_bounds : Forall2 in_bounds stat_bounds demo_fields.
Proof. unfold stat_bounds, demo_fields. unfold in_bounds, int, long.
  repeat (apply Forall2_cons; split; [cbn [fst snd]; lia|]). by apply Forall2_nil. Qed.

Lemma demo_after : no_nul (str " 4194304 4242836" ++ newline) ∧ right_paren ∉ str " 4194304 4242836" ++ newline.
Proof. split; [unfold no_nul|]; refine (proj1 (bool_decide_eq_true _) _); vm_compute; reflexivity. Qed.

Lemma stat_roundtrip_witness :
  as_string demo_stat (procname demo_stat) = str "a) (cat" ∧
  ∃ text st, after_end demo_stat (procname demo_stat) = Ok text ∧ parse text 4 memZero = Ok st ∧
    utime st = 7 ∧ rssKb st = 324 ∧ rsslim st = 2 ^ 63 - 1.
Proof.
  destruct (stat_roundtrip 3770 (str "a) (cat") Byte.x52 demo_fields (2 ^ 64 - 1) (str " 4194304 4242836" ++ newline) 4 memZero
    eq_refl ltac:(done) ltac:(done) demo_bounds ltac:(lia) (proj1 demo_after) (proj2 demo_after) eq_refl)
    as (H1 & text & st & H0 & H2 & H3).
  split; [exact H1|]. exists text, st. split; [exact H0|]. split; [exact H3|]. vm_compute in H2. injection H2 as <-.
  split_and!; vm_compute; reflexivity.
Defined.

Lemma demo_ok : ∃ text st, after_end demo_stat (procname demo_stat) = Ok text ∧ parse text 4 memZero = Ok st.
Proof.
  do 2 eexists. split; [vm_compute; reflexivity|vm_compute; reflexivity].
Qed.

Definition demo_system (stat : bytes) : system :=
  mkSystem (λ name, if bool_decide (name = str "stat") then stat else []) (λ _, []) [] 1600000000000000.

Definition demo_monitor : Procmon := new_Procmon (mkBuffer (replicate 64 Byte.x00) kCheapPrepend kCheapPrepend).

Lemma procmon_answers_witness :
  wp (onRequest 3770 100 4 1600000000 (str "cat") (str "host") [] gmtime_seconds (λ _, []) (demo_system demo_stat)
        (setPath (str "/nothing") new_HttpRequest) (new_HttpResponse false) demo_monitor)
     (λ '(r, _), statusCode_ r = 404 ∧ closeConnection_ r = true).
Proof.
  eapply wp_mono; [apply (procmon_answers 3770 100 4 1600000000 (str "cat") (str "host") [] gmtime_seconds (λ _, []))|].
  - split_and!; [unfold wf; split_and!; vm_compute; discriminate|reflexivity|reflexivity].
  - done.
  - right. split; [vm_compute; reflexivity|]. exact demo_ok.
  - intros [r p'] (_ & _ & _ & _ & Hs & Hc & _). rewrite Hs. assert (path_ (setPath (str "/nothing") new_HttpRequest) ∉ known_paths) as Hno by (refine (proj1 (bool_decide_eq_true _) _); vm_compute; reflexivity).
    rewrite decide_False by done. split; [done|]. by apply Hc.
Defined.

(** Flags of 2^31 and more end the reading: the memory fields keep what the stack held. *)
Lemma big_flags_undefined :
  parse (str " R 1 1 1 0 -1 2147483648 0 0 0 0 0 0 0 0 20 0 1 0 5 4096 1 9") 4 memZero = Err OutOfRange.
Proof. by vm_compute. Qed.

(** A stat text without parentheses makes [tick()] read at address 1. *)
Lemma no_name_crashes : tick 4 (str "3770 cat R") demo_monitor = Err UseAfterFree.
Proof. by vm_compute. Qed.

(** A row longer than 1023 characters loses its end, markup included. *)
Lemma long_row_cut value b :
  1000 ≤ zlen value → appendTableRow (str "Executable") value b = append_str (str "<tr><td>Executable</td><td>" ++ ztake 996 value) b.
Proof.
  intros Hv. unfold appendTableRow, appendResponse. f_equal. rewrite !app_assoc.
  set (a := ((str "<tr><td>" ++ str "Executable") ++ str "</td><td>")). assert (zlen a = 27) as Ha by done.
  rewrite <- !app_assoc. unfold ztake. rewrite take_app, (take_ge a) by lia.
  rewrite take_app_le by lia. replace (Z.to_nat 1023 - length a)%nat with (Z.to_nat 996) by lia. done.
Qed.

End ProcMon.
