(* ===== verification/Plot.v ===== *)
(** The chart of the process monitor ([monitor/procmon/plot.cc], [plot.h]): the commands it
    gives to the drawing library gd, which turns them into a picture.  The arithmetic is in
    doubles ([Doubles]); the theorem is that every line stays inside the picture. *)

From S2P Require Import Prelude Doubles.

Module Plot.
Import Doubles.

(** The constant members; the size of a letter is gd's. *)
Record Plot := mkPlot {
  width_ : Z;
  height_ : Z;
  totalSeconds_ : Z;
  samplingPeriod_ : Z;
  fontWidth_ : Z;
  fontHeight_ : Z;
}.

Definition kLeftMargin_ : Z := 5.
Definition kMarginY_ : Z := 5.
Definition kRightMargin_ (p : Plot) : Z := 3 *i fontWidth_ p +i 5.

(** The colours, in the order they are allocated. *)
Inductive color := background | black | gray | blue.

Inductive command :=
| FilledRectangle (x1 y1 x2 y2 : Z) (c : color)
| SetThickness (n : Z)
| Line (x1 y1 x2 y2 : Z) (c : color)
| DrawString (x y : Z) (text : bytes) (c : color).

(** The width and the height between the margins. *)
Definition inner_width (p : Plot) : Z := width_ p -i kLeftMargin_ -i kRightMargin_ p.
Definition inner_height (p : Plot) : Z := height_ p -i 2 *i kMarginY_.

Definition ratioX_ (p : Plot) : Z :=
  sround (of_int (samplingPeriod_ p *i inner_width p) * unit) (of_int (totalSeconds_ p)).

Definition one : Z := of_int 1.
Definition half : Z := unit / 2.

Definition getX (p : Plot) (i total : Z) : Z :=
  let x := add (of_int (inner_width p)) (smul (of_int (i - total)) (ratioX_ p)) in
  i32 (trunc (add x half)) +i kLeftMargin_.

Definition getY (p : Plot) (value : Z) : Z :=
  i32 (trunc (add (smul (sub one value) (of_int (inner_height p))) half)) +i kMarginY_.

Definition label (p : Plot) (maxValue : Z) : list command :=
  [DrawString (width_ p -i kRightMargin_ p +i 3) (kMarginY_ -i 3)
     (if of_int 10 <=? maxValue then fixed 0 maxValue else fixed 1 maxValue) black;
   DrawString (width_ p -i kRightMargin_ p +i 3) (height_ p -i kMarginY_ -i 3 -i fontHeight_ p /i 2) (str "0") gray;
   DrawString kLeftMargin_ (height_ p -i kMarginY_ -i fontHeight_ p) (str "-" ++ dec (totalSeconds_ p) ++ str "s") blue].

(** [std::max_element]: the first of the largest. *)
Definition max_element (d : Z) (data : list Z) : Z := foldl (λ m x, if m <? x then x else m) d data.

(** The top of the chart. *)
Definition top (max : Z) : Z :=
  if of_int 10 <=? max then ceil max
  else
    let a := literal 1 10 in
    let b := sround (ceil (smul max (of_int 10)) * unit) (of_int 10) in
    if a <? b then b else a.

Definition divide (x y : Z) : Z := sround (x * unit) y.

(** The curve, from the [i]-th value on; [n] is [data.size()]. *)
Fixpoint curve (p : Plot) (n i max : Z) (data : list Z) : list command :=
  match data with
  | x :: (y :: _) as data' =>
      Line (getX p i n) (getY p (divide x max)) (getX p (i + 1) n) (getY p (divide y max)) black ::
      curve p n (i + 1) max data'
  | _ => []
  end.

Definition plotCpu (p : Plot) (data : list Z) : list command :=
  [FilledRectangle 0 0 (width_ p) (height_ p) background] ++
  match data with
  | x :: _ :: _ =>
      let max := top (max_element x data) in
      [SetThickness 2] ++ label p max ++ curve p (zlen data) 0 max data
  | _ => []
  end ++
  let total := totalSeconds_ p /i samplingPeriod_ p in
  [SetThickness 1;
   Line (getX p 0 total) (getY p 0 +i 2) (getX p total total) (getY p 0 +i 2) gray;
   Line (getX p total total) (getY p 0 +i 2) (getX p total total) (getY p one +i 2) gray].

(** ** Sizes *)

(** A chart with room between its margins. *)
Record plot_ok (p : Plot) : Prop := {
  p_font : 0 < fontWidth_ p < 2 ^ 10 ∧ 0 < fontHeight_ p < 2 ^ 10;
  p_width : 10 + 3 * fontWidth_ p < width_ p < 2 ^ 15;
  p_height : 10 < height_ p < 2 ^ 15;
  p_time : 0 < samplingPeriod_ p < 2 ^ 15 ∧ samplingPeriod_ p ≤ totalSeconds_ p < 2 ^ 31;
}.

Lemma margins p :
  plot_ok p →
  kRightMargin_ p = 3 * fontWidth_ p + 5 ∧ inner_width p = width_ p - 3 * fontWidth_ p - 10 ∧ inner_height p = height_ p - 10.
Proof.
  intros [[] ? ? []]. unfold inner_width, inner_height, kRightMargin_, kLeftMargin_, kMarginY_. int_ops. lia.
Qed.

Lemma half_frac : half = 1 * 2 ^ (200 - 1).
Proof. by vm_compute. Qed.

Lemma unit_frac k : 0 ≤ k ≤ 100 → unit = 2 ^ k * 2 ^ (200 - k).
Proof. intros Hk. rewrite unit_pow, <- Z.pow_add_r by lia. f_equal. lia. Qed.

#[local] Opaque unit.

(** ** Across *)

Section across.
Context (p : Plot).
Hypothesis p_ok : plot_ok p.
Abbreviation W := (inner_width p).
Abbreviation T := (totalSeconds_ p).

Lemma W_range : 0 < W < 2 ^ 15.
Proof. destruct (margins p p_ok) as (_ & -> & _). destruct p_ok as [[] ? _ _]. lia. Qed.

Lemma ratio_bound : 0 ≤ ratioX_ p ∧ 2 ^ 53 * (T * ratioX_ p) ≤ (2 ^ 53 + 1) * (samplingPeriod_ p * W * unit).
Proof.
  pose proof W_range as HW. pose proof unit_pos as Hu. destruct p_ok as [_ _ _ [Hp HT]]. unfold ratioX_.
  rewrite i32_small by nia. rewrite !of_int_exact by nia. set (pW := samplingPeriod_ p * W).
  assert (1 ≤ pW < 2 ^ 30) as HpW by (unfold pW; nia).
  assert (2 ^ 52 * (T * unit) ≤ pW * unit * unit) as Hb.
  { assert (2 ^ 52 * T ≤ unit) as H by (rewrite unit_pow; nia). nia. }
  unfold sround. destruct (Z.ltb_spec (pW * unit * unit) 0); [nia|]. split; [apply round53_nonneg; nia|].
  pose proof (round53_error (pW * unit * unit) (T * unit) ltac:(nia) Hb) as He.
  set (r := round53 _ _) in *. replace (T * unit * r - pW * unit * unit) with ((T * r - pW * unit) * unit) in He by ring.
  rewrite Z.abs_mul, (Z.abs_eq unit) in He by lia. nia.
Qed.

(** The product, for a time not before the chart begins. *)
Lemma offset_bound k :
  0 ≤ k → k * samplingPeriod_ p ≤ T → - (4 * W + 1) * 2 ^ (200 - 2) ≤ smul (of_int (- k)) (ratioX_ p) ≤ 0.
Proof.
  intros Hk Ht. pose proof W_range as HW. pose proof unit_pos as Hu. destruct ratio_bound as [Hr0 Hr].
  destruct p_ok as [_ _ _ [Hp HT]]. assert (k < 2 ^ 31) as Hk31 by nia.
  rewrite of_int_exact by lia. unfold smul. split.
  - apply sround_ge; [done|apply dbl_frac; lia|].
    assert (4 * (k * ratioX_ p) ≤ (4 * W + 1) * unit) as H.
    { assert (k * samplingPeriod_ p * ratioX_ p ≤ T * ratioX_ p) as H1 by nia.
      assert (2 ^ 53 * (k * ratioX_ p) ≤ (2 ^ 53 + 1) * (W * unit)) as H2 by nia. nia. }
    rewrite (unit_frac 2) in H at 1 by lia. change (2 ^ 2) with 4 in H. nia.
  - apply sround_le; [done|by left|]. nia.
Qed.

Abbreviation position i total := (trunc (add (add (of_int W) (smul (of_int (i - total)) (ratioX_ p))) half)).

Lemma position_range i total :
  0 ≤ i ≤ total → total * samplingPeriod_ p ≤ T → 0 ≤ position i total ≤ W.
Proof.
  intros Hi Ht. pose proof W_range as HW. pose proof unit_pos as Hu.
  destruct (offset_bound (total - i)) as [Hlo Hhi]; [lia|destruct p_ok as [_ _ _ [? _]]; nia|].
  replace (- (total - i)) with (i - total) in * by ring. set (m := smul _ _) in *. rewrite of_int_exact by lia.
  assert (- 1 * 2 ^ (200 - 2) ≤ add (W * unit) m ≤ W * unit) as [Hx1 Hx2].
  { unfold add. split; [apply sround_ge; [done|apply dbl_frac; lia|]|apply sround_le; [done|apply dbl_int; lia|lia]].
    rewrite (unit_frac 2) by lia. lia. }
  set (x := add (W * unit) m) in *.
  assert (0 ≤ add x half ≤ (2 * W + 1) * 2 ^ (200 - 1)) as [Hy1 Hy2].
  { rewrite half_frac. unfold add. split; [apply sround_ge; [done|by left|lia]|].
    apply sround_le; [done|apply dbl_frac; lia|]. rewrite (unit_frac 1) in Hx2 by lia. lia. }
  apply (trunc_range (add x half) W Hy1). rewrite (unit_frac 1) by lia. lia.
Qed.

Lemma getX_position i total :
  0 ≤ i ≤ total → total * samplingPeriod_ p ≤ T → getX p i total = kLeftMargin_ + position i total.
Proof.
  intros Hi Ht. pose proof W_range. pose proof (position_range i total Hi Ht). unfold getX, kLeftMargin_.
  cbv zeta. rewrite !(i32_small (trunc _)), i32_small by lia. lia.
Qed.

Lemma getX_range i total :
  0 ≤ i ≤ total → total * samplingPeriod_ p ≤ T → kLeftMargin_ ≤ getX p i total ≤ kLeftMargin_ + W.
Proof. intros Hi Ht. rewrite getX_position by done. pose proof (position_range i total Hi Ht). lia. Qed.

(** Later values are not drawn further left. *)
Lemma getX_mono i j total :
  0 ≤ i ≤ j → j ≤ total → total * samplingPeriod_ p ≤ T → getX p i total ≤ getX p j total.
Proof.
  intros Hi Hj Ht. destruct ratio_bound as [Hr0 _]. pose proof unit_pos as Hu. rewrite !getX_position by lia.
  apply Z.add_le_mono_l, trunc_mono. unfold add, smul. apply sround_mono; [done..|].
  rewrite !Z.mul_1_r. apply Z.add_le_mono_r. apply sround_mono; [done..|]. rewrite !Z.mul_1_r. apply Z.add_le_mono_l.
  apply sround_mono; [done..|]. apply Z.mul_le_mono_nonneg_r; [lia|]. apply Z.mul_le_mono_nonneg_r; [done|].
  destruct p_ok as [_ _ _ [? ?]]. rewrite !of_int_exact by nia. nia.
Qed.

End across.

(** ** Up *)

Lemma max_element_spec d data : (∀ x, x ∈ d :: data → x ≤ max_element d data) ∧ max_element d data ∈ d :: data.
Proof.
  unfold max_element. revert d. induction data as [|y data IH]; intros d; cbn [foldl].
  { split; [intros x ->%list_elem_of_singleton; lia|by left]. }
  destruct (IH (if d <? y then y else d)) as [H1 H2]. pose proof (H1 (if d <? y then y else d) ltac:(by left)) as Hd.
  split.
  - intros x [->|[->|Hx]%elem_of_cons]%elem_of_cons; [destruct (Z.ltb_spec d y); lia|destruct (Z.ltb_spec d y); lia|].
    apply H1. by right.
  - apply elem_of_cons in H2 as [->|H2]; [|by do 2 right]. destruct (d <? y); [right|]; by left.
Qed.

(** A value in the range of the chart: 0 to 2^30, nothing else below 2^-60. *)
Definition value_ok (x : Z) : Prop := x = 0 ∨ 2 ^ 140 ≤ x ≤ 2 ^ 230.

(** The top of the chart is above the values, or short of the highest by rounding only. *)
Lemma top_bound m : value_ok m → 0 < top m ∧ 2 ^ 20 * m ≤ (2 ^ 20 + 1) * top m.
Proof.
  intros Hm. pose proof unit_pos as Hu. unfold top. rewrite of_int_exact by lia.
  destruct (Z.leb_spec (10 * unit) m) as [Hbig|Hsmall]; [pose proof (ceil_ge m); lia|].
  assert (0 < literal 1 10 ∧ 2 ^ 140 ≤ literal 1 10) as [Ha Hal] by (split; by vm_compute).
  set (a := literal 1 10) in *. set (b := sround _ _).
  assert (0 < (if a <? b then b else a) ∧ b ≤ (if a <? b then b else a)) as [Hpos Hb] by (destruct (Z.ltb_spec a b); lia).
  split; [done|]. destruct Hm as [->|Hm]; [lia|].
  assert (2 ^ 20 * m ≤ (2 ^ 20 + 1) * b); [|nia]. clear Hpos Hb Hal Ha.
  assert ((2 ^ 53 - 1) * (10 * m) ≤ 2 ^ 53 * smul m (10 * unit)) as H1.
  { pose proof (sround_under (m * (10 * unit)) unit Hu ltac:(nia)) as H. unfold smul. nia. }
  pose proof (ceil_ge (smul m (10 * unit))) as [H2 _]. set (c := ceil _) in *.
  assert ((2 ^ 53 - 1) * c ≤ 2 ^ 53 * (10 * b)) as H3.
  { pose proof (sround_under (c * unit) (10 * unit) ltac:(lia) ltac:(nia)) as H. fold b in H. nia. }
  lia.
Qed.

Section up.
Context (p : Plot).
Hypothesis p_ok : plot_ok p.
Abbreviation H := (inner_height p).

Lemma H_range : 0 < H < 2 ^ 15.
Proof. destruct (margins p p_ok) as (_ & _ & ->). destruct p_ok as [_ _ ? _]. lia. Qed.

(** A value at most one, or above it by rounding only, is drawn between the margins. *)
Lemma getY_range v : 0 ≤ v ≤ (2 ^ 20 + 1) * 2 ^ (200 - 20) → kMarginY_ ≤ getY p v ≤ kMarginY_ + H.
Proof.
  intros [Hv1 Hv2]. pose proof H_range as HH. pose proof unit_pos as Hu. unfold getY, one. rewrite !of_int_exact by lia.
  rewrite Z.mul_1_l.
  assert (- 1 * 2 ^ (200 - 20) ≤ sub unit v ≤ 1 * unit) as [Hs1 Hs2].
  { unfold sub. split; [apply sround_ge; [done|apply dbl_frac; lia|]|apply sround_le; [done|apply dbl_int; lia|lia]].
    rewrite (unit_frac 20) by lia. lia. }
  set (s := sub unit v) in *.
  assert (- H * 2 ^ (200 - 20) ≤ smul s (H * unit) ≤ H * unit) as [Hm1 Hm2].
  { unfold smul. split; [apply sround_ge; [done|apply dbl_frac; lia|]|apply sround_le; [done|apply dbl_int; lia|]]; nia. }
  set (m := smul s (H * unit)) in *.
  assert (0 ≤ add m half ≤ (2 * H + 1) * 2 ^ (200 - 1)) as [Hy1 Hy2].
  { rewrite half_frac. unfold add. split; [apply sround_ge; [done|by left|]|].
    - assert (1 * 2 ^ (200 - 1) = 2 ^ 19 * 2 ^ (200 - 20)) as E by (rewrite <- Z.pow_add_r by lia; rewrite Z.mul_1_l; f_equal; lia). nia.
    - apply sround_le; [done|apply dbl_frac; lia|]. rewrite (unit_frac 1) in Hm2 by lia. lia. }
  destruct (trunc_range (add m half) H Hy1) as [Ht1 Ht2]; [rewrite (unit_frac 1) by lia; lia|].
  unfold kMarginY_. rewrite !(i32_small (trunc _)), i32_small by lia. lia.
Qed.

Lemma getY_value x m : value_ok x → x ≤ m → value_ok m → kMarginY_ ≤ getY p (divide x (top m)) ≤ kMarginY_ + H.
Proof.
  intros Hx Hle Hm. pose proof unit_pos as Hu. destruct (top_bound m Hm) as [Hpos Hb]. apply getY_range.
  assert (0 ≤ x) as Hx0 by (destruct Hx as [->|]; lia). unfold divide. split.
  - apply sround_ge; [done|by left|nia].
  - apply sround_le; [done|apply dbl_frac; lia|].
    rewrite (unit_frac 20) by lia. nia.
Qed.

End up.

(** ** The theorem *)

(** A command draws inside the picture: lines between the margins, from left to right. *)
Definition inside (p : Plot) (c : command) : Prop :=
  match c with
  | Line x1 y1 x2 y2 _ =>
      kLeftMargin_ ≤ x1 ≤ x2 ∧ x2 < width_ p - 3 * fontWidth_ p ∧
      Forall (λ y, kMarginY_ ≤ y ≤ height_ p - 3) [y1; y2]
  | DrawString x y text _ => 0 ≤ x < width_ p ∧ y < height_ p
  | _ => True
  end.

Lemma line_inside p x1 y1 x2 y2 c :
  5 ≤ x1 ≤ x2 → x2 < width_ p - 3 * fontWidth_ p → 5 ≤ y1 ≤ height_ p - 3 → 5 ≤ y2 ≤ height_ p - 3 →
  inside p (Line x1 y1 x2 y2 c).
Proof.
  intros Hx1 Hx2 Hy1 Hy2. cbn [inside]. unfold kLeftMargin_, kMarginY_. split; [done|]. split; [done|].
  apply Forall_cons. split; [done|]. by apply Forall_singleton.
Qed.

Lemma curve_inside p n m i data :
  plot_ok p → n * samplingPeriod_ p ≤ totalSeconds_ p → 0 ≤ i → i + zlen data ≤ n → value_ok m →
  Forall (λ x, value_ok x ∧ x ≤ m) data → Forall (inside p) (curve p n i (top m) data).
Proof.
  intros Hp Hn Hi Hl Hm Hd. destruct (margins p Hp) as (_ & HW & HH). revert i Hi Hl.
  induction Hd as [|x data [Hx Hxm] Hd IH]; intros i Hi Hl; [done|]. destruct Hd as [|y data [Hy Hym] Hd]; [done|].
  cbn [length] in Hl. cbn [curve]. constructor; [|apply IH; cbn [length]; lia].
  pose proof (getX_mono p Hp i (i + 1) n ltac:(lia) ltac:(lia) Hn). pose proof (getX_range p Hp i n ltac:(lia) Hn).
  pose proof (getX_range p Hp (i + 1) n ltac:(lia) Hn).
  pose proof (getY_value p Hp x m Hx Hxm Hm). pose proof (getY_value p Hp y m Hy Hym Hm).
  unfold kLeftMargin_, kMarginY_ in *. apply line_inside; lia.
Qed.

(** The chart stays inside the picture: for every chart with room between its margins and
    any usages up to 2^30, at most as many as the chart has samples, every line of the curve
    and of the frame runs from left to right between the margins and every text begins in the
    picture, whatever the roundings of the divisions are. *)
Theorem chart_inside p data :
  plot_ok p → Forall value_ok data → zlen data * samplingPeriod_ p ≤ totalSeconds_ p →
  Forall (inside p) (plotCpu p data).
Proof.
  intros Hp Hd Hn. destruct (margins p Hp) as (HR & HW & HH). pose proof unit_pos as Hu.
  assert (1 ≤ totalSeconds_ p /i samplingPeriod_ p ∧ (totalSeconds_ p /i samplingPeriod_ p) * samplingPeriod_ p ≤ totalSeconds_ p) as [Ht1 Ht2].
  { destruct Hp as [_ _ _ [? ?]]. rewrite Z.quot_div_nonneg by lia.
    pose proof (Z.div_le_lower_bound (totalSeconds_ p) (samplingPeriod_ p) 1 ltac:(lia) ltac:(lia)).
    pose proof (Z.mul_div_le (totalSeconds_ p) (samplingPeriod_ p) ltac:(lia)).
    assert (totalSeconds_ p / samplingPeriod_ p ≤ totalSeconds_ p) by (apply Z.div_le_upper_bound; nia).
    rewrite i32_small by lia. lia. }
  unfold plotCpu. cbv zeta. set (total := totalSeconds_ p /i samplingPeriod_ p) in *.
  pose proof (getX_mono p Hp 0 total total ltac:(lia) ltac:(lia) Ht2) as Hxm. pose proof (getX_range p Hp 0 total ltac:(lia) Ht2).
  pose proof (getX_range p Hp total total ltac:(lia) Ht2).
  pose proof (getY_range p Hp 0 ltac:(lia)) as Hy0.
  pose proof (getY_range p Hp one) as Hy1. unfold one in Hy1. rewrite of_int_exact in Hy1 by lia.
  specialize (Hy1 ltac:(rewrite (unit_frac 20) by lia; lia)). unfold one. rewrite of_int_exact by lia.
  unfold kLeftMargin_, kMarginY_ in *. apply Forall_app. split; [by repeat constructor|]. apply Forall_app. split.
  - destruct data as [|x [|y data]]; [constructor..|]. destruct (max_element_spec x (x :: y :: data)) as [Hmax Hin].
    set (m := max_element x (x :: y :: data)) in *. rewrite Forall_forall in Hd.
    assert (value_ok m) as Hm by (apply Hd; apply elem_of_cons in Hin as [->|]; [left|done]).
    apply Forall_app. split; [by repeat constructor|]. apply Forall_app. split.
    + unfold label, kLeftMargin_, kMarginY_. destruct Hp as [[] ? ? ?]. rewrite HR.
      assert (0 ≤ Z.quot (fontHeight_ p) 2 < 2 ^ 10) as Hq by (rewrite Z.quot_div_nonneg by lia; split; [apply Z.div_pos; lia|apply Z.div_lt_upper_bound; lia]).
      int_ops. repeat (apply Forall_cons; split); try constructor; cbn [inside]; lia.
    + apply (curve_inside p _ m 0); [done|done|lia|lia|done|]. apply Forall_forall. intros z Hz. split; [by apply Hd|apply Hmax; by right].
  - pose proof (p_height p Hp). rewrite !(i32_small (_ + 2)) by lia.
    apply Forall_cons. split; [done|]. apply Forall_cons. split; [apply line_inside; lia|].
    apply Forall_singleton. apply line_inside; lia.
Qed.

(** The chart of the monitor, with gd's small letters: three samples of ten minutes. *)
Definition cpu_chart_ : Plot := mkPlot 640 100 600 2 6 13.

Lemma chart_inside_witness :
  Forall (inside cpu_chart_) (plotCpu cpu_chart_ [0; unit / 2; 3 * unit]) ∧
  nth_error (plotCpu cpu_chart_ [0; unit / 2; 3 * unit]) 6 = Some (Line 613 80 615 5 black).
Proof.
  split; [|by vm_compute]. apply (chart_inside cpu_chart_ [0; unit / 2; 3 * unit]).
  - constructor; cbn; lia.
  - apply Forall_cons. split; [by left|]. apply Forall_cons. split; [right; split; by vm_compute|].
    apply Forall_singleton. right. split; by vm_compute.
  - cbn. lia.
Defined.

End Plot.
